(* ===== verification/_CoqProject ===== *)
-Q . S2P
Prelude.v
LogSupport.v
Cli.v
ConfigFile.v
NetAddr.v
Sys.v
Logic.v
Threads.v
Socket.v
Scheduler.v
Stats.v
Uri.v
SockOpts.v
CreateAddr.v
SrtSocket.v
Acceptor.v
SrtGroup.v
Misc.v
Generate.v
Receive.v
Route.v
FileSend.v
FileReceive.v
FileStats.v
SrtNode.v
Forward.v
Options.v
Tokenizer.v
Demo.v
Lifecycle.v
App.v
CommandLine.v
