(* ===== verification/Prelude.v ===== *)
(** * A verification library for SRTdatacontroller

    SRTdatacontroller (src/structure/SRTdatacontroller/) moves data over the SRT
    protocol: it generates and receives test traffic, routes messages between
    two connections, sends and receives files, and forwards messages between two
    SRT nodes. This library models its code and proves what the parts promise.

    ** How code is modelled

    A function of the program is a computation [io W A] (Sys.v): from the state
    [W] of the environment it yields an outcome (a value, a C++ exception, or
    behaviour that C++ leaves undefined), the list of calls it made with their
    answers, and the new state. The environment is the SRT library, the
    operating system, and the four headers the program includes that are not in
    the repository (udp_socket.hpp, socket_stats.hpp, metrics.hpp, pacer.hpp):
    an instance of [Env W] answers every call, so a theorem for all instances
    holds whatever these parties do. Where the code relies on documented
    behaviour of a call, a class states it ([SrtOk], [UdpOk], [EpollOk],
    [ClockOk], [FileOk], [PayloadOk], [ResolverOk], [SendmsgOk], [read_poll]) and a witness instantiates it.
    Program state that outlives a call (the heap of shared_ptr objects, the
    nodes of the forwarder) is kept next to the environment's, [io (W * S)].
    int and size_t arithmetic keeps its width ([CInt]); where signed overflow
    can happen it is an undefined outcome.

    Logic.v has the rules: [wp] follows the structure of the code; [only],
    [yields], [returns], [ensures] and [frames] are properties that need no
    intermediate assertions, with tactics that walk through code.

    ** The files and the code they model

    - Prelude.v: this header; machine integers, std::string, C number parsing,
      std::map, and their laws.
    - NetAddr.v: netaddr_any.hpp, the sockaddr union byte by byte.
    - Sys.v, Logic.v, Threads.v: environment, code monad and program logic; traces of
      threads that meet in their calls.
    - Socket.v: buffer.hpp, socket.hpp; the interface [isocket] as a record of
      operations and the class [IsocketOk] of its laws; UDP sockets.
    - Scheduler.v: scheduler.hpp, the queue as functions, the timer thread,
      add_task and the destructor as a step relation.
    - Stats.v: the CSV and JSON reports of srt_socket.cpp and
      srt_socket_group.cpp.
    - Uri.v, SockOpts.v, LogSupport.v: uriparser, socketoptions and logsupport of
      the SRT applications; Cli.v: the conversions of CLI11 (TypeTools.hpp,
      Validators.hpp, Option.hpp); ConfigFile.v: its configuration files
      (Config.hpp). These vendored files decide what the program's own code does
      with its arguments.
    - CreateAddr.v: create_addr of misc.cpp and netaddr_any::str.
    - SrtSocket.v: srt_socket.cpp; Acceptor.v: acceptor.hpp; SrtGroup.v:
      srt_socket_group.cpp.
    - Misc.v: create_connection and common_run of misc.cpp, over a heap of
      reference-counted sockets, and what scopes do with the references they hold.
    - Generate.v, Receive.v, Route.v: the commands of generate.cpp, receive.cpp
      and route.cpp.
    - FileSend.v, FileReceive.v: file-send.cpp and file-receive.cpp, on the same
      heap; FileStats.v: their statistics thread next to the transfer.
    - SrtNode.v: srt_node.cpp; Forward.v: file-forward.cpp.
    - Demo.v: client/client.cpp and server/server.cpp.
    - Lifecycle.v: no new code; the calls that every operation of a command makes,
      which are none that bring a library up or release it, but for the nodes of
      forward.
    - Options.v: the add_subcommand functions of the commands and the defaults of
      their configurations. Tokenizer.v: how CLI11 splits the command line over
      them (App.hpp, Split.hpp), adds a configuration file, and refuses.
    - App.v: srtdatacontroller-app.cpp, which reads the options and runs the
      commands. CommandLine.v: configurations written down and read back.

    A definition has the name of the function it models; a loop's body is a
    definition of its own ([..._round]), and a constructor is [..._of_...].

    ** What is proved

    - Data arrives as it was sent: a file sent and received is the file written
      (C1); the forwarder's two threads relay every message whole and in order
      under every interleaving, with at most one not sent (C3); generate sends
      what is configured; receive handles each message once; route forwards in
      order, and in both directions at once however its threads interleave
      ([bidirectional]); every socket implements the interface these clients use.
    - Resources: the whole program, on any command line that is not refused, brings
      the network libraries up before the command and releases them after it, and no
      command but forward does either in between; every command but forward, which
      makes no objects of the heap, has destroyed every socket object when it ends, by
      returning or by an exception, and never uses a destroyed one (C2, from
      [generate_released], [receive_released], [route_released], [send_released] and
      [receive_file_released], and from Lifecycle.v);
      sockets and groups close exactly what they opened; who owns a socket after a
      failed accept, connect or listen.
    - Progress: when one forwarding thread ends, so does the other (C4); the threads
      that write metrics and statistics end within a round once they are told to
      ([receive_with_metrics], [statistics_stop]); waiting
      for undelivered data, making folders, parsing and reconnecting end.
    - Input: splitting a command line always ends and takes every argument
      ([walk_ends]), gives each option the texts that are written behind its names
      ([tokenize_spelled]), and configurations of generate are read back from
      their printed form, on the command line or in a file ([generate_read_back]);
      parsing inverts printing of URIs, and below 4 GiB never leaves a string's
      bounds and ends; options are applied once, in order, and unknown ones refused;
      which texts an integer option takes, and that it assigns what they denote
      ([integer_options_exact]); a number with a unit is exact or refused; log areas
      are selected exactly as written; addresses keep their byte-level invariant
      through every constructor and setter; name resolution, group validation and
      weights on every branch.
    - Time and concurrency: the scheduler refines an abstract pool of timed tasks
      ([scheduler_refines]), runs each task once, never early, but can lose a wake-up ([lost_wakeup]); attempts are paced; the reported rate
      is exact until int overflows.
    - Reports: CSV rows match their header, JSON agrees with CSV.

    Theorems that show the code does not do what it means to are stated as they
    hold ([lost_wakeup], [reconnection_undefined], the last case of [file_transfer]),
    and small evaluated examples show others.

    ** Fuel

    Loops that the environment can keep going for ever (sending, receiving,
    routing, accepting, reconnecting) take fuel, and [NoFuel] is an outcome of
    the model only; the theorems about them say what holds of every prefix, and
    the theorems on termination say which fuel is enough: a round for each
    message of generate, [wait_ms + 1] rounds for WaitUndelivered, one round for
    a runner that does not reconnect. Parsing loops take the length of their
    input, and the theorems on them show that it never runs out (of a URI below 4 GiB;
    beyond, the loop over its parameters can go on for ever, and a command whose URI
    does so ends in [NoFuel]); the walk over the
    command line takes the number of its arguments and of their characters, since
    a bundle of short flags loses one character at a time.

    ** What is not modelled

    - The SRT library itself and the other vendored code under
      structure/submodule (spdlog, nlohmann json): third-party. Of CLI11 only what
      the program switches on is modelled (no option groups, aliases, environment
      names, required options), and not the texts it prints. The files that can be
      read for --config are an argument of [App.main].
    - Logging and progress output, except that its arguments' computation is
      modelled where it can fail (the rates of generate and of file send).
    - The callbacks that the SRT library runs on its own threads (of a listening or
      connecting group) and the signal handler are definitions of their own, and are
      not part of a run of [App.main].
    - The reads of the scheduler's queue that race with add_task (scheduler.hpp): the
      steps of Scheduler.v take each of them as a whole.
    - ionode.hpp, which declares a class without any definition.
    - Threads, in the commands: a second thread of receive, route and file
      transfer is started and joined by calls of the environment, and its body is
      a definition of its own. What the two threads do together is proved of
      every interleaving of their calls ([bidirectional], [receive_with_metrics],
      [statistics_stop]; Threads.v); a call on the validator is made under its
      mutex, and is one call here. The scheduler and the forwarder, whose threads
      share state, have every interleaving of their steps.
    - The references that socket::stats_writer keeps, whose header is missing. *)

From Stdlib Require Import ZArith Lia Ascii String.
From stdpp Require Import prelude gmap strings list.

Create HintDb cint.
Create HintDb srt.
Create Rewrite HintDb srt.

(** ** Machine integers

    A C++ integer is a [Z] kept inside the range of its type; the conversions
    below are the ones the compiler inserts. *)
Module CInt.
Local Open Scope Z_scope.

Definition INT_MIN : Z := - 2 ^ 31.
Definition INT_MAX : Z := 2 ^ 31 - 1.
Definition LONG_MIN : Z := - 2 ^ 63.
Definition LONG_MAX : Z := 2 ^ 63 - 1.
Definition SIZE_MOD : Z := 2 ^ 64.

(** Conversion to a 32-bit signed [int] (two's complement). *)
Definition to_int (z : Z) : Z := (z + 2 ^ 31) mod 2 ^ 32 - 2 ^ 31.

(** Conversion to [size_t] (64 bit) and to [uint16_t]. *)
Definition to_size (z : Z) : Z := z mod SIZE_MOD.
Definition to_u16 (z : Z) : Z := z mod 2 ^ 16.

Definition in_int (z : Z) : bool := (INT_MIN <=? z) && (z <=? INT_MAX).

Lemma in_int_spec z : in_int z = true <-> INT_MIN <= z <= INT_MAX.
Proof. unfold in_int. rewrite andb_true_iff, !Z.leb_le. done. Qed.

Lemma to_int_range z : INT_MIN <= to_int z <= INT_MAX.
Proof.
  unfold to_int, INT_MIN, INT_MAX.
  pose proof (Z.mod_pos_bound (z + 2 ^ 31) (2 ^ 32)). lia.
Qed.

Lemma to_int_id z : INT_MIN <= z <= INT_MAX -> to_int z = z.
Proof. unfold to_int, INT_MIN, INT_MAX. intros. rewrite Z.mod_small; lia. Qed.

Lemma to_size_id z : 0 <= z < SIZE_MOD -> to_size z = z.
Proof. intros. by apply Z.mod_small. Qed.

Lemma to_size_range z : 0 <= to_size z < SIZE_MOD.
Proof. apply Z.mod_pos_bound. done. Qed.

Lemma to_u16_range z : 0 <= to_u16 z < 2 ^ 16.
Proof. apply Z.mod_pos_bound. done. Qed.

Lemma to_u16_id z : 0 <= z < 2 ^ 16 -> to_u16 z = z.
Proof. intros. by apply Z.mod_small. Qed.
End CInt.

#[export] Hint Resolve CInt.to_int_range CInt.to_size_range CInt.to_u16_range : cint.

(** ** Characters and std::string

    A [char] is an [ascii]; a [std::string] is a Rocq [string]. The search and
    substring operations work on the list of characters; positions are [nat]
    and [std::string::npos] is [None]. *)
Abbreviation char := ascii.
Abbreviation chars := list_ascii_of_string.
Abbreviation of_chars := string_of_list_ascii.

Module CStr.
(** First position at or after the head where [P] holds. *)
Fixpoint index_where {A} (P : A -> bool) (l : list A) : option nat :=
  match l with
  | [] => None
  | x :: l' => if P x then Some 0 else S <$> index_where P l'
  end.

(** Last position where [P] holds. *)
Fixpoint last_index_where {A} (P : A -> bool) (l : list A) : option nat :=
  match l with
  | [] => None
  | x :: l' =>
      match last_index_where P l' with
      | Some i => Some (S i)
      | None => if P x then Some 0 else None
      end
  end.

Fixpoint is_prefix {A} `{EqDecision A} (p l : list A) : bool :=
  match p, l with
  | [], _ => true
  | _, [] => false
  | x :: p', y :: l' => bool_decide (x = y) && is_prefix p' l'
  end.

(** First position where the pattern [p] starts. *)
Fixpoint index_of {A} `{EqDecision A} (p l : list A) : option nat :=
  if is_prefix p l then Some 0 else
  match l with
  | [] => None
  | _ :: l' => S <$> index_of p l'
  end.

Definition size (s : string) : nat := length (chars s).

(** [s.find(c, pos)]. *)
Definition find_char (c : char) (pos : nat) (s : string) : option nat :=
  Nat.add pos <$> index_where (fun x => bool_decide (x = c)) (drop pos (chars s)).

(** [s.find(p, pos)] for a non-empty pattern. *)
Definition find (p : string) (pos : nat) (s : string) : option nat :=
  Nat.add pos <$> index_of (chars p) (drop pos (chars s)).

(** [s.rfind(c)]. *)
Definition rfind_char (c : char) (s : string) : option nat :=
  last_index_where (fun x => bool_decide (x = c)) (chars s).

(** [s.find_first_of(set, pos)] and [s.find_last_of(set)]. *)
Definition find_first_of (set : string) (pos : nat) (s : string) : option nat :=
  Nat.add pos <$> index_where (fun x => bool_decide (x ∈ chars set)) (drop pos (chars s)).
Definition find_last_of (set : string) (s : string) : option nat :=
  last_index_where (fun x => bool_decide (x ∈ chars set)) (chars s).

(** [s.substr(pos, n)]: throws std::out_of_range ([None]) when [pos] is past
    the end, and stops at the end of the string otherwise. *)
Definition substr (pos n : nat) (s : string) : option string :=
  if decide (pos <= size s) then Some (of_chars (take n (drop pos (chars s)))) else None.

(** [s.substr(pos)]. *)
Definition substr_from (pos : nat) (s : string) : option string :=
  substr pos (size s) s.

(** [tolower] on the bytes of the C locale, applied to a whole string. *)
Definition tolower (c : char) : char :=
  let n := nat_of_ascii c in
  if decide (65 <= n <= 90) then ascii_of_nat (n + 32) else c.
Definition lowercase (s : string) : string := of_chars (tolower <$> chars s).

Definition isdigit (c : char) : bool :=
  let n := nat_of_ascii c in (48 <=? n) && (n <=? 57).
Definition isspace (c : char) : bool :=
  let n := nat_of_ascii c in ((9 <=? n) && (n <=? 13)) || (n =? 32).

(** [s.c_str()] as a C string: the characters before the first NUL. *)
Definition c_str (s : string) : string :=
  of_chars (take (default (size s) (find_char zero 0 s)) (chars s)).

(** *** Laws of the string operations *)
Lemma chars_of_chars l : chars (of_chars l) = l.
Proof. apply list_ascii_of_string_of_list_ascii. Qed.
Lemma of_chars_chars s : of_chars (chars s) = s.
Proof. apply string_of_list_ascii_of_string. Qed.
Lemma chars_app a b : chars (a +:+ b) = chars a ++ chars b.
Proof. induction a as [|c a IH]; simpl; [done|]. by rewrite IH. Qed.
Lemma of_chars_app a b : of_chars (a ++ b) = of_chars a +:+ of_chars b.
Proof. induction a as [|c a IH]; simpl; [done|]. by rewrite IH. Qed.
Lemma chars_inj a b : chars a = chars b -> a = b.
Proof. intros H. by rewrite <- (of_chars_chars a), <- (of_chars_chars b), H. Qed.
Lemma size_app a b : size (a +:+ b) = size a + size b.
Proof. unfold size. by rewrite chars_app, length_app. Qed.
Lemma size_of_chars l : size (of_chars l) = length l.
Proof. unfold size. by rewrite chars_of_chars. Qed.

Lemma index_where_Some {A} (P : A -> bool) l i :
  index_where P l = Some i <->
  exists a x b, l = a ++ x :: b /\ length a = i /\ P x = true /\ forallb (fun y => negb (P y)) a = true.
Proof.
  revert i. induction l as [|y l IH]; intros i; simpl.
  { split; [done|]. by intros ([|]&?&?&?&_). }
  destruct (P y) eqn:Hy.
  - split.
    + intros [= <-]. by exists [], y, l.
    + intros ([|z a]&x&b&Heq&Hi&Hx&Ha); simpl in *; simplify_eq; [done|].
      by rewrite Hy in Ha.
  - rewrite fmap_Some. split.
    + intros (j & Hj & ->). apply IH in Hj as (a&x&b&->&<-&Hx&Ha).
      exists (y :: a), x, b. simpl. by rewrite Hy, Ha.
    + intros ([|z a]&x&b&Heq&Hi&Hx&Ha); simpl in *; simplify_eq; [congruence|].
      exists (length a). split; [|done]. apply IH. exists a, x, b.
      apply andb_true_iff in Ha as [_ ?]. done.
Qed.

Lemma index_where_None {A} (P : A -> bool) l :
  index_where P l = None <-> forallb (fun y => negb (P y)) l = true.
Proof.
  induction l as [|y l IH]; simpl; [done|]. destruct (P y); simpl; [done|].
  rewrite fmap_None. exact IH.
Qed.

Lemma forallb_not_elem (c : ascii) l :
  forallb (fun y => negb (bool_decide (y = c))) l = true <-> c ∉ l.
Proof.
  induction l as [|x l IH]; simpl; [split; [set_solver|done]|].
  rewrite andb_true_iff, negb_true_iff, bool_decide_eq_false, IH, not_elem_of_cons. naive_solver.
Qed.

Lemma c_str_no_nul s : zero ∉ chars (c_str s).
Proof.
  unfold c_str, find_char. rewrite chars_of_chars, drop_0.
  destruct (index_where _ (chars s)) as [n|] eqn:Hn; cbn.
  - apply index_where_Some in Hn as (a & x & b & -> & <- & _ & Ha). rewrite take_app_length.
    intros Hin. rewrite forallb_forall in Ha. specialize (Ha zero ltac:(by apply list_elem_of_In)).
    by rewrite bool_decide_eq_true_2 in Ha.
  - apply index_where_None in Hn. unfold size. rewrite firstn_all.
    intros Hin. rewrite forallb_forall in Hn. specialize (Hn zero ltac:(by apply list_elem_of_In)).
    by rewrite bool_decide_eq_true_2 in Hn.
Qed.
Lemma last_index_where_app {A} (P : A -> bool) a x b :
  P x = true -> forallb (fun y => negb (P y)) b = true ->
  last_index_where P (a ++ x :: b) = Some (length a).
Proof.
  intros Hx Hb. assert (last_index_where P b = None) as Hn.
  { induction b as [|y b IH]; [done|]. simpl in *. apply andb_true_iff in Hb as [Hy Hb].
    rewrite IH by done. by destruct (P y). }
  induction a as [|y a IH]; simpl; [by rewrite Hn, Hx|]. by rewrite IH.
Qed.

Lemma last_index_where_None {A} (P : A -> bool) l :
  forallb (fun y => negb (P y)) l = true -> last_index_where P l = None.
Proof.
  induction l as [|y l IH]; [done|]. simpl. intros [Hy Hl]%andb_true_iff.
  rewrite IH by done. by destruct (P y).
Qed.

Lemma last_index_where_at {A} (P : A -> bool) l i :
  last_index_where P l = Some i -> exists x, l !! i = Some x /\ P x = true.
Proof.
  revert i. induction l as [|x l IH]; intros i; simpl; [done|].
  destruct (last_index_where P l) as [j|].
  - intros [= <-]. by apply IH.
  - destruct (P x) eqn:Hx; intros [= <-]. by exists x.
Qed.
Lemma last_index_where_lt {A} (P : A -> bool) l i :
  last_index_where P l = Some i -> i < length l.
Proof.
  revert i. induction l as [|y l IH]; intros i; [done|]. simpl.
  destruct (last_index_where P l) as [j|].
  - intros [= <-]. specialize (IH j eq_refl). lia.
  - destruct (P y); [|done]. intros [= <-]. lia.
Qed.

Lemma is_prefix_app {A} `{EqDecision A} (p l : list A) : is_prefix p (p ++ l) = true.
Proof. induction p as [|x p IH]; simpl; [done|]. by rewrite bool_decide_true. Qed.

Lemma is_prefix_length {A} `{EqDecision A} (p l : list A) :
  is_prefix p l = true -> length p <= length l.
Proof.
  revert l. induction p as [|x p IH]; intros [|y l]; simpl; [lia..|done|].
  intros [_ H]%andb_true_iff. apply IH in H. lia.
Qed.

Lemma index_of_app {A} `{EqDecision A} (c : A) (p a l : list A) :
  c ∉ a -> index_of (c :: p) (a ++ c :: p ++ l) = Some (length a).
Proof.
  intros Ha. induction a as [|y a IH].
  - simpl. rewrite bool_decide_true by done. by rewrite is_prefix_app.
  - apply not_elem_of_cons in Ha as [Hy Ha]. simpl.
    rewrite bool_decide_false by done. simpl. by rewrite IH.
Qed.

Lemma index_of_None {A} `{EqDecision A} (c : A) (p l : list A) :
  c ∉ l -> index_of (c :: p) l = None.
Proof.
  induction l as [|y l IH]; [done|]. intros [Hy Hl]%not_elem_of_cons. simpl.
  rewrite bool_decide_false by done. simpl. by rewrite IH.
Qed.

Lemma index_of_bound {A} `{EqDecision A} (p l : list A) i :
  index_of p l = Some i -> i + length p <= length l.
Proof.
  revert i. induction l as [|y l IH]; intros i; simpl.
  - destruct p; simpl; [|done]. by intros [= <-].
  - destruct (is_prefix p (y :: l)) eqn:Hp.
    + intros [= <-]. apply is_prefix_length in Hp. simpl in *. lia.
    + rewrite fmap_Some. intros (j & Hj & ->). apply IH in Hj. lia.
Qed.

Lemma find_bound p pos s i :
  pos <= size s -> find p pos s = Some i -> pos <= i /\ i + size p <= size s.
Proof.
  unfold find, size. intros Hpos. rewrite fmap_Some. intros (j & Hj & ->).
  apply index_of_bound in Hj. rewrite length_drop in Hj. lia.
Qed.

Lemma find_char_bound c pos s i :
  find_char c pos s = Some i -> pos <= i /\ i < size s /\ chars s !! i = Some c.
Proof.
  unfold find_char, size. rewrite fmap_Some. intros (j & Hj & ->).
  apply index_where_Some in Hj as (a&x&b&Hd&<-&Hx&_).
  apply bool_decide_eq_true in Hx as ->.
  assert (chars s !! (pos + length a) = Some c) as Hl.
  { rewrite <- lookup_drop, Hd. by apply list_lookup_middle. }
  split; [lia|]. split; [by apply lookup_lt_Some in Hl|done].
Qed.

Lemma rfind_char_bound c s i : rfind_char c s = Some i -> i < size s.
Proof. apply last_index_where_lt. Qed.

Lemma substr_ok pos n s :
  pos <= size s -> substr pos n s = Some (of_chars (take n (drop pos (chars s)))).
Proof. intros. unfold substr. by rewrite decide_True. Qed.

Lemma substr_0 n s : substr 0 n s = Some (of_chars (take n (chars s))).
Proof. rewrite substr_ok by lia. by rewrite drop_0. Qed.

Lemma substr_rest pos s :
  pos <= size s -> substr pos (size s - pos) s = Some (of_chars (drop pos (chars s))).
Proof.
  intros. rewrite substr_ok by done. rewrite take_ge; [done|].
  rewrite length_drop. unfold size. lia.
Qed.

Lemma substr_from_ok pos s :
  pos <= size s -> substr_from pos s = Some (of_chars (drop pos (chars s))).
Proof.
  intros. unfold substr_from. rewrite substr_ok by done. rewrite take_ge; [done|].
  rewrite length_drop. unfold size. lia.
Qed.
End CStr.

#[global] Arguments CStr.substr : simpl never.
#[global] Arguments CStr.substr_from : simpl never.
#[global] Arguments CStr.find : simpl never.
#[global] Arguments CStr.find_char : simpl never.
#[global] Arguments CStr.rfind_char : simpl never.
#[global] Arguments CStr.find_first_of : simpl never.
#[global] Arguments CStr.find_last_of : simpl never.
#[global] Arguments CStr.size : simpl never.

(** ** Number parsing and printing of the C library *)
Module CNum.
Local Open Scope char_scope.
Local Open Scope Z_scope.

(** Value of an alphanumeric digit, any base up to 36. *)
Definition digit_of (c : char) : option Z :=
  let n := Z.of_nat (nat_of_ascii c) in
  if (48 <=? n) && (n <=? 57) then Some (n - 48)
  else if (65 <=? n) && (n <=? 90) then Some (n - 55)
  else if (97 <=? n) && (n <=? 122) then Some (n - 87)
  else None.

(** Longest run of digits of the base: its value and its length. *)
Fixpoint digits (base : Z) (l : list char) (acc : Z) (n : nat) : Z * nat :=
  match l with
  | c :: l' =>
      match digit_of c with
      | Some d => if d <? base then digits base l' (acc * base + d) (S n) else (acc, n)
      | None => (acc, n)
      end
  | [] => (acc, n)
  end.

Definition spaces (l : list char) : nat :=
  default (length l) (CStr.index_where (fun c => negb (CStr.isspace c)) l).

Definition sign_of (l : list char) : bool * nat :=
  match l with
  | "-" :: _ => (true, 1%nat)
  | "+" :: _ => (false, 1%nat)
  | _ => (false, 0%nat)
  end.

(** Base and prefix length; [base] is 10 or 0 (0: the prefix decides). *)
Definition base_of (base : Z) (l : list char) : Z * nat :=
  if negb (base =? 0) then (base, 0%nat) else
  match l with
  | "0" :: x :: h :: _ =>
      if ((Ascii.eqb x "x") || (Ascii.eqb x "X")) &&
         match digit_of h with Some d => d <? 16 | None => false end
      then (16, 2%nat) else (8, 0%nat)
  | "0" :: _ => (8, 0%nat)
  | _ => (10, 0%nat)
  end.

(** [strtol] before saturation: exact value and number of characters consumed
    (0 when there is no number). *)
Definition strtol_exact (base : Z) (s : string) : Z * nat :=
  let l := chars s in
  let ws := spaces l in
  let l1 := drop ws l in
  let '(neg, sg) := sign_of l1 in
  let l2 := drop sg l1 in
  let '(b, pre) := base_of base l2 in
  let '(v, n) := digits b (drop pre l2) 0 0 in
  if decide (n = 0%nat) then (0, 0%nat)
  else ((if neg then - v else v), (ws + sg + pre + n)%nat).

Definition clamp_long (z : Z) : Z := Z.max CInt.LONG_MIN (Z.min CInt.LONG_MAX z).

(** [strtol(s, &eos, 10)] with a 64-bit [long]: value and [eos - s]. *)
Definition strtol (s : string) : Z * nat :=
  let '(v, n) := strtol_exact 10 s in (clamp_long v, n).

(** [atoi]: [strtol] converted to [int], as the GNU C library does. *)
Definition atoi (s : string) : Z := CInt.to_int (fst (strtol s)).

(** [std::stoi(s, 0, base)]: throws std::invalid_argument when there is no
    number and std::out_of_range when it does not fit. *)
Inductive sto_result := StoOk (z : Z) | StoInvalid | StoRange.
Definition stoi (base : Z) (s : string) : sto_result :=
  let '(v, n) := strtol_exact base s in
  if decide (n = 0%nat) then StoInvalid
  else if CInt.in_int v then StoOk v else StoRange.
Definition stoll (s : string) : sto_result :=
  let '(v, n) := strtol_exact 10 s in
  if decide (n = 0%nat) then StoInvalid
  else if (CInt.LONG_MIN <=? v) && (v <=? CInt.LONG_MAX) then StoOk v else StoRange.

(** [std::to_string] of an integer. *)
Definition digit_char (d : Z) : char := ascii_of_nat (Z.to_nat d + 48).
Fixpoint print_nat (fuel : nat) (z : Z) (acc : list char) : list char :=
  match fuel with
  | O => acc
  | S fuel' =>
      let acc' := digit_char (z mod 10) :: acc in
      if z / 10 =? 0 then acc' else print_nat fuel' (z / 10) acc'
  end.
Definition to_string (z : Z) : string :=
  let body := print_nat (S (Z.to_nat (Z.log2 (Z.abs z)))) (Z.abs z) [] in
  of_chars (if z <? 0 then "-" :: body else body).
End CNum.

(** ** std::map<std::string, V>: an association list sorted by key, so that
    iteration order is the order of the keys. *)
Module SMap.
Section smap.
Context {V : Type}.
Implicit Types m : list (string * V).

(** [m[k] = v]. *)
Fixpoint ins (k : string) (v : V) m : list (string * V) :=
  match m with
  | [] => [(k, v)]
  | (k', v') :: m' =>
      match String.compare k k' with
      | Lt => (k, v) :: m
      | Eq => (k, v) :: m'
      | Gt => (k', v') :: ins k v m'
      end
  end.

(** [m.find(k)], [m.count(k)], [m.at(k)]. *)
Fixpoint get (k : string) m : option V :=
  match m with
  | [] => None
  | (k', v') :: m' => if String.eqb k k' then Some v' else get k m'
  end.
Definition has (k : string) m : bool :=
  match get k m with Some _ => true | None => false end.

(** [m.erase(k)]. *)
Definition del (k : string) m : list (string * V) :=
  filter (fun kv => kv.1 <> k) m.

Definition of_list (l : list (string * V)) : list (string * V) :=
  foldl (fun m kv => ins kv.1 kv.2 m) [] l.
End smap.

Section laws.
Context {V : Type}.
Implicit Types m : list (string * V).

Lemma compare_refl k : String.compare k k = Eq.
Proof. pose proof (String.compare_antisym k k). by destruct (String.compare k k). Qed.

Lemma get_ins_eq k v m : get k (ins k v m) = Some v.
Proof.
  induction m as [|[k' v'] m IH]; simpl; [by rewrite String.eqb_refl|].
  destruct (String.compare k k') eqn:E; simpl; rewrite ?String.eqb_refl; try done.
  destruct (String.eqb_spec k k') as [->|]; [|done].
  pose proof (compare_refl k'). congruence.
Qed.

Lemma get_ins_ne k k' v m : k <> k' -> get k' (ins k v m) = get k' m.
Proof.
  intros Hne. induction m as [|[k1 v1] m IH]; simpl.
  { by destruct (String.eqb_spec k' k). }
  destruct (String.compare k k1) eqn:E; simpl.
  - apply String.compare_eq_iff in E as ->.
    by destruct (String.eqb_spec k' k1); [congruence|].
  - by destruct (String.eqb_spec k' k); [congruence|].
  - by destruct (String.eqb_spec k' k1).
Qed.

Lemma get_del_eq k m : get k (del k m) = None.
Proof.
  unfold del. induction m as [|[k1 v1] m IH]; [done|].
  rewrite filter_cons. simpl. case_decide; [|done]. simpl.
  by destruct (String.eqb_spec k k1); [congruence|].
Qed.

Lemma get_del_ne k k' m : k <> k' -> get k' (del k m) = get k' m.
Proof.
  intros. unfold del. induction m as [|[k1 v1] m IH]; [done|].
  rewrite filter_cons. simpl. case_decide; simpl.
  - by destruct (String.eqb_spec k' k1).
  - destruct (String.eqb_spec k' k1); [naive_solver|done].
Qed.

Lemma del_none k m : get k m = None -> del k m = m.
Proof.
  unfold del. induction m as [|[k1 v1] m IH]; [done|]. simpl.
  destruct (String.eqb_spec k k1); [done|]. intros Hm.
  rewrite filter_cons_True by (simpl; congruence). by rewrite IH.
Qed.

Lemma get_elem k v m : get k m = Some v -> (k, v) ∈ m.
Proof.
  induction m as [|[k1 v1] m IH]; [done|]. simpl.
  destruct (String.eqb_spec k k1); intros; simplify_eq; set_solver.
Qed.

Lemma elem_get k v m : (k, v) ∈ m -> is_Some (get k m).
Proof.
  induction m as [|[k1 v1] m IH]; simpl; [set_solver|].
  destruct (String.eqb_spec k k1); [eauto|].
  intros Hin. apply elem_of_cons in Hin as [|]; [congruence|eauto].
Qed.

Lemma has_true k m : has k m = true <-> is_Some (get k m).
Proof. unfold has. destruct (get k m); split; [eauto|done|done|]. by intros []. Qed.

Lemma has_false k m : has k m = false <-> get k m = None.
Proof. unfold has. by destruct (get k m). Qed.
End laws.
End SMap.

#[export] Hint Resolve SMap.get_ins_eq SMap.get_ins_ne SMap.get_del_eq SMap.get_del_ne : srt.
