(* ===== verification/LogSupport.v ===== *)
(** * Logging options (apps/logsupport.cpp, apps/logsupport_appdefs.cpp)

    The parsers behind --loglevel and --logfa: the level names, the table of
    functional areas, the splitting of a comma-separated list of areas. What
    they print on the error stream is a second result where the caller can ask
    for it, and is not shown otherwise. *)

From Stdlib Require Import ZArith Lia Ascii String.
From stdpp Require Import prelude strings list sorting.
From S2P Require Import Prelude.

Module LogSupport.
Local Open Scope string_scope.
Local Open Scope list_scope.
Local Open Scope Z_scope.

(** ** Levels *)
Definition LOG_EMERG : Z := 0.
Definition LOG_ALERT : Z := 1.
Definition LOG_CRIT : Z := 2.
Definition LOG_ERR : Z := 3.
Definition LOG_WARNING : Z := 4.
Definition LOG_NOTICE : Z := 5.
Definition LOG_INFO : Z := 6.
Definition LOG_DEBUG : Z := 7.
Definition SRT_LOG_LEVEL_MIN : Z := LOG_CRIT.
Definition SRT_LOG_LEVEL_MAX : Z := LOG_DEBUG.

Definition srt_level_names : list (string * Z) := SMap.of_list
  [("alert", LOG_ALERT); ("crit", LOG_CRIT); ("debug", LOG_DEBUG); ("emerg", LOG_EMERG);
   ("err", LOG_ERR); ("error", LOG_ERR); ("fatal", LOG_CRIT); ("info", LOG_INFO);
   ("notice", LOG_NOTICE); ("note", LOG_NOTICE); ("panic", LOG_EMERG);
   ("warn", LOG_WARNING); ("warning", LOG_WARNING)].

Definition SrtParseLogLevel (level : string) : Z :=
  match level with
  | EmptyString => LOG_CRIT
  | String c _ =>
      if CStr.isdigit c then
        let lev := (CNum.strtol (CStr.c_str level)).1 in
        if (SRT_LOG_LEVEL_MIN <=? lev) && (lev <=? SRT_LOG_LEVEL_MAX) then lev else LOG_CRIT
      else default LOG_CRIT (SMap.get (CStr.lowercase level) srt_level_names)
  end.

(** ** Functional areas *)
Definition islower (c : char) : bool :=
  let n := nat_of_ascii c in ((97 <=? n) && (n <=? 122))%nat.
Definition isupper (c : char) : bool :=
  let n := nat_of_ascii c in ((65 <=? n) && (n <=? 90))%nat.

(** [ToLowerFormat::operator()]; [None] is std::invalid_argument. *)
Definition ToLowerFormat (c : char) : option char :=
  if islower c then Some c
  else if isupper c then Some (CStr.tolower c)
  else if bool_decide (c = "_"%char) then Some "-"%char
  else None.

Definition Install (upname : string) (value : Z) (namemap : list (string * Z))
    : option (list (string * Z)) :=
  id ← mapM ToLowerFormat (chars upname);
  Some (SMap.ins (of_chars id) value namemap).

(** The calls of the constructor, with the numbers of srtcore/srt.h. *)
Definition logfa_defs : list (string * Z) :=
  [("GENERAL", 0); ("SOCKMGMT", 1); ("CONN", 2); ("XTIMER", 3); ("TSBPD", 4); ("RSRC", 5);
   ("CONGEST", 7); ("PFILTER", 8); ("API_CTRL", 11); ("QUE_CTRL", 13); ("EPOLL_UPD", 16);
   ("API_RECV", 21); ("BUF_RECV", 22); ("QUE_RECV", 23); ("CHN_RECV", 24); ("GRP_RECV", 25);
   ("API_SEND", 31); ("BUF_SEND", 32); ("QUE_SEND", 33); ("CHN_SEND", 34); ("GRP_SEND", 35);
   ("INTERNAL", 41); ("QUE_MGMT", 43); ("CHN_MGMT", 44); ("GRP_MGMT", 45); ("EPOLL_API", 46);
   ("HAICRYPT", 6); ("APPLOG", 10)].
Definition LogFANames : option (list (string * Z)) :=
  foldl (fun m d => m ≫= Install d.1 d.2) (Some []) logfa_defs.

(** [srt_transmit_logfa_names.namemap]; the constructor of this global object
    runs before main and does not throw ([LogFANames_installs]). *)
Definition namemap : list (string * Z) := default [] LogFANames.
Definition SrtLogFAList : list (string * Z) := namemap.

(** [fas.insert(fa)] on a std::set, which is kept sorted. *)
Fixpoint set_insert (fa : Z) (fas : list Z) : list Z :=
  match fas with
  | [] => [fa]
  | x :: fas' => if fa <? x then fa :: fas else if fa =? x then fas else x :: set_insert fa fas'
  end.

(** The splitting loop. [fa[pos]] is the NUL of the string at its end; [None]
    is std::out_of_range, or no fuel left. *)
Fixpoint split_loop (fuel : nat) (fa : string) (pos ppos : nat) (xfas : list string)
    : option (list string) :=
  match fuel with
  | O => None
  | S fuel =>
      let comma := bool_decide (default zero (chars fa !! pos) = ","%char) in
      let pos := if comma then pos else S pos in
      if negb comma && bool_decide (pos < CStr.size fa)%nat then split_loop fuel fa pos ppos xfas else
      let n := (pos - ppos)%nat in
      xfas ← (if bool_decide (n <> 0%nat)
              then x ← CStr.substr ppos n fa; Some (xfas ++ [x]) else Some xfas);
      let pos := S pos in
      if bool_decide (CStr.size fa <= pos)%nat then Some xfas
      else split_loop fuel fa pos pos xfas
  end.

(** One area of the list: its number joins the set, an unknown one is reported. *)
Definition add_area (r : list Z * list string) (fa : string) : list Z * list string :=
  match SMap.get fa namemap with
  | Some z => (set_insert z r.1, r.2)
  | None => (r.1, r.2 ++ [fa])
  end.

(** The set of areas, and the unknown ones in the order they are reported. *)
Definition SrtParseLogFA (fa : string) : option (list Z * list string) :=
  if bool_decide (fa = "") then Some ([], []) else
  if bool_decide (fa = "all") then
    Some (foldl (fun fas e => if bool_decide (e.1 = "general") then fas else set_insert e.2 fas)
            [] namemap, [])
  else
    let fa := CStr.lowercase fa in
    xfas ← split_loop (S (CStr.size fa)) fa 0 0 [];
    Some (foldl add_area ([], []) xfas).

(** [ParseLogFASpec]: a name after a plus sign or alone is switched on, one after
    a tilde is switched off. *)
Definition spec_entry (w : string * string) (s : string) : string * string :=
  match s with
  | String "+" name => (w.1 +:+ "," +:+ name, w.2)
  | String "~" name => (w.1, w.2 +:+ "," +:+ name)
  | name => (w.1 +:+ "," +:+ name, w.2)
  end.
Definition tail_of (s : string) : string :=
  match s with EmptyString => "" | String _ s' => s' end.
Definition ParseLogFASpec (speclist : list string) : string * string :=
  let w := foldl spec_entry ("", "") speclist in (tail_of w.1, tail_of w.2).

Example parse_list : SrtParseLogFA ",Conn,,api-ctrl,nope,conn," = Some ([2; 11], ["nope"]).
Proof. vm_compute. reflexivity. Qed.
(** The word all is compared before the letters are lowered, so it alone is
    not recognised in capitals. *)
Example all_capitals : SrtParseLogFA "ALL" = Some ([], ["all"]).
Proof. vm_compute. reflexivity. Qed.
Example spec_list : ParseLogFASpec ["+conn"; "~rsrc"; "tsbpd"] = ("conn,tsbpd", "rsrc").
Proof. reflexivity. Qed.

Lemma LogFANames_installs : LogFANames = Some namemap.
Proof. vm_compute. reflexivity. Qed.

(** ** The level parser *)

(** Every level is one the library knows or one of syslog's two above it, never
    a number outside the table, whatever is written on the command line. *)
Lemma SrtParseLogLevel_range level : LOG_EMERG <= SrtParseLogLevel level <= LOG_DEBUG.
Proof.
  destruct level as [|c s]; [done|]. cbn [SrtParseLogLevel].
  destruct (CStr.isdigit c).
  - cbv zeta. destruct (_ && _) eqn:E; [|done].
    apply andb_true_iff in E as [Hlo%Z.leb_le Hhi%Z.leb_le].
    unfold SRT_LOG_LEVEL_MIN, SRT_LOG_LEVEL_MAX, LOG_CRIT, LOG_EMERG in *. lia.
  - destruct (SMap.get _ _) as [z|] eqn:E; [|done]. simpl.
    apply SMap.get_elem, (list_elem_of_fmap_2 snd) in E. simpl in E.
    assert (Forall (fun z => LOG_EMERG <= z <= LOG_DEBUG) (srt_level_names.*2)) as HF
      by (vm_compute; repeat constructor; discriminate).
    by apply (proj1 (Forall_forall _ _) HF).
Qed.

(** ** The set of areas *)
Lemma elem_of_set_insert z fa fas : z ∈ set_insert fa fas <-> z = fa \/ z ∈ fas.
Proof.
  induction fas as [|x fas IH]; simpl; [set_solver|].
  destruct (Z.ltb_spec fa x); [set_solver|].
  destruct (Z.eqb_spec fa x); set_solver.
Qed.

Lemma set_insert_sorted fa fas : StronglySorted Z.lt fas -> StronglySorted Z.lt (set_insert fa fas).
Proof.
  induction 1 as [|x fas Hs IH Hx]; simpl; [by repeat constructor|].
  destruct (Z.ltb_spec fa x).
  { constructor; [by constructor|]. constructor; [done|].
    eapply Forall_impl; [exact Hx|]. intros y Hy. simpl in Hy. lia. }
  destruct (Z.eqb_spec fa x); [by constructor|].
  constructor; [done|]. apply Forall_forall. intros y [->|Hy]%elem_of_set_insert; [lia|].
  by apply (proj1 (Forall_forall _ _) Hx).
Qed.

(** A loop that may insert an element of each item builds the set of them. *)
Lemma fold_insert {A} (pick : A -> option Z) (f : list Z -> A -> list Z) l fas :
  (forall s a, f s a = match pick a with Some z => set_insert z s | None => s end) ->
  StronglySorted Z.lt fas ->
  StronglySorted Z.lt (foldl f fas l) /\
  forall z, z ∈ foldl f fas l <-> z ∈ fas \/ exists a, a ∈ l /\ pick a = Some z.
Proof.
  intros Hf. revert fas. induction l as [|a l IH]; intros fas Hs; simpl.
  { split; [done|]. intros z. set_solver. }
  destruct (IH (f fas a)) as [Hs' Hz].
  { rewrite Hf. destruct (pick a); [by apply set_insert_sorted|done]. }
  split; [done|]. intros z. rewrite Hz, Hf. split.
  - intros [Hin|(b & Hb & E)]; [|right; exists b; set_solver].
    destruct (pick a) as [y|] eqn:E; [|by left].
    apply elem_of_set_insert in Hin as [->|]; [|by left]. right. exists a. set_solver.
  - intros [Hin|(b & [->|Hb]%elem_of_cons & E)].
    + left. destruct (pick a); [|done]. apply elem_of_set_insert. by right.
    + left. rewrite E. apply elem_of_set_insert. by left.
    + right. by exists b.
Qed.

Corollary fold_insert_nil {A} (pick : A -> option Z) (f : list Z -> A -> list Z) l :
  (forall s a, f s a = match pick a with Some z => set_insert z s | None => s end) ->
  StronglySorted Z.lt (foldl f [] l) /\
  forall z, z ∈ foldl f [] l <-> exists a, a ∈ l /\ pick a = Some z.
Proof.
  intros Hf. destruct (fold_insert pick f l [] Hf) as [Hs Hz]; [constructor|].
  split; [done|]. intros z. rewrite Hz. set_solver.
Qed.

(** The table is not unfolded in the proofs that follow. *)
#[local] Opaque namemap.

(** The loop over the areas keeps the two results apart. *)
Lemma fold_add_area l fas unknown :
  foldl add_area (fas, unknown) l =
  (foldl (fun s a => match SMap.get a namemap with Some z => set_insert z s | None => s end) fas l,
   unknown ++ filter (fun a => SMap.get a namemap = None) l).
Proof.
  revert fas unknown. induction l as [|a l IH]; intros fas unknown; cbn [foldl]; [by rewrite app_nil_r|].
  rewrite filter_cons. unfold add_area at 2. destruct (SMap.get a namemap) as [z|] eqn:E; rewrite IH; cbn [fst snd].
  - by rewrite decide_False.
  - by rewrite decide_True, <- (assoc_L app).
Qed.

(** ** The splitting loop against a reference definition *)

(** The pieces of a list between the separators. *)
Fixpoint split_at (sep : char) (l : list char) : list (list char) :=
  match l with
  | [] => [[]]
  | c :: l' =>
      if bool_decide (c = sep) then [] :: split_at sep l' else
      match split_at sep l' with
      | p :: ps => (c :: p) :: ps
      | [] => [[c]]
      end
  end.

(** The fields of a comma-separated list that are not empty. *)
Definition fields (l : list char) : list string :=
  of_chars <$> filter (fun p => p <> []) (split_at "," l).

Lemma split_at_plain sep a : sep ∉ a -> split_at sep a = [a].
Proof.
  induction a as [|c a IH]; intros H; simpl; [done|].
  apply not_elem_of_cons in H as [Hc Ha]. by rewrite bool_decide_eq_false_2, IH by congruence.
Qed.
Lemma split_at_app sep a b : sep ∉ a -> split_at sep (a ++ sep :: b) = a :: split_at sep b.
Proof.
  induction a as [|c a IH]; intros H; simpl; [by rewrite bool_decide_eq_true_2|].
  apply not_elem_of_cons in H as [Hc Ha]. by rewrite bool_decide_eq_false_2, IH by congruence.
Qed.

Definition piece (a : list char) : list string := if bool_decide (a <> []) then [of_chars a] else [].
Lemma fields_nil : fields [] = [].
Proof. done. Qed.
Lemma fields_plain a : ","%char ∉ a -> fields a = piece a.
Proof. intros H. unfold fields, piece. rewrite split_at_plain by done. by destruct a. Qed.
Lemma fields_app a b : ","%char ∉ a -> fields (a ++ ","%char :: b) = piece a ++ fields b.
Proof. intros H. unfold fields, piece. rewrite split_at_app by done. by destruct a. Qed.
(** A comma ends the piece that starts at [ppos]. *)
Lemma fields_step l ppos pos :
  (ppos <= pos)%nat -> l !! pos = Some ","%char ->
  ","%char ∉ take (pos - ppos) (drop ppos l) ->
  fields (drop ppos l) = piece (take (pos - ppos) (drop ppos l)) ++ fields (drop (S pos) l).
Proof.
  intros H Hc Hin. rewrite <- (take_drop (pos - ppos) (drop ppos l)) at 1.
  rewrite drop_drop, (Nat.add_comm ppos), Nat.sub_add by done.
  by rewrite (drop_S _ _ _ Hc), fields_app.
Qed.

(** One more character that is not a comma. *)
Lemma no_comma_step l ppos pos c :
  (ppos <= pos)%nat -> l !! pos = Some c -> c <> ","%char ->
  ","%char ∉ take (pos - ppos) (drop ppos l) ->
  ","%char ∉ take (S pos - ppos) (drop ppos l).
Proof.
  intros H Hc Hne Hin. replace (S pos - ppos)%nat with (S (pos - ppos)) by lia.
  rewrite (take_S_r _ _ c) by (rewrite lookup_drop; rewrite <- Hc; f_equal; lia).
  rewrite elem_of_app, list_elem_of_singleton. naive_solver.
Qed.

(** The piece from [ppos] to [pos], as the loop appends it. *)
Lemma append_piece fa ppos pos xfas :
  (ppos <= pos <= CStr.size fa)%nat ->
  (if bool_decide ((pos - ppos)%nat <> 0%nat)
   then x ← CStr.substr ppos (pos - ppos) fa; Some (xfas ++ [x]) else Some xfas) =
  Some (xfas ++ piece (take (pos - ppos) (drop ppos (chars fa)))).
Proof.
  intros [H H2]. unfold piece. rewrite CStr.substr_ok by lia. unfold CStr.size in H2.
  assert (length (take (pos - ppos) (drop ppos (chars fa))) = (pos - ppos)%nat) as Hl
    by (rewrite length_take, length_drop; lia).
  destruct (take _ _) as [|c a] eqn:E; cbn [length] in Hl.
  - rewrite <- Hl, !bool_decide_eq_false_2 by (intros HH; by apply HH). by rewrite app_nil_r.
  - rewrite !bool_decide_eq_true_2 by (done || lia). done.
Qed.

(** The loop goes through the string once and collects its non-empty fields; it
    never reads outside it, and as many steps as the string has characters are
    enough. *)
Lemma split_loop_spec fuel fa pos ppos xfas :
  (ppos <= pos < CStr.size fa)%nat -> (CStr.size fa < fuel + pos)%nat ->
  ","%char ∉ take (pos - ppos) (drop ppos (chars fa)) ->
  split_loop fuel fa pos ppos xfas = Some (xfas ++ fields (drop ppos (chars fa))).
Proof.
  revert pos ppos xfas. induction fuel as [|fuel IH]; intros pos ppos xfas Hpos Hfuel Hin; [lia|].
  cbn [split_loop]. unfold CStr.size in *.
  destruct (lookup_lt_is_Some_2 (chars fa) pos) as [c Hc]; [lia|]. rewrite Hc. cbn [default].
  destruct (decide (c = ","%char)) as [->|Hne].
  - rewrite bool_decide_eq_true_2 by done. cbn [negb andb]. cbv zeta.
    rewrite append_piece by (unfold CStr.size; lia). cbn [mbind option_bind].
    rewrite (fields_step (chars fa) ppos pos) by (done || lia).
    case_bool_decide as Hend.
    + by rewrite (drop_ge (chars fa) (S pos)), fields_nil, app_nil_r by lia.
    + rewrite IH; [by rewrite <- (assoc_L app)|unfold CStr.size; lia|unfold CStr.size; lia|].
      rewrite Nat.sub_diag. apply not_elem_of_nil.
  - rewrite bool_decide_eq_false_2 by done. cbn [negb andb]. cbv zeta.
    case_bool_decide as Hmore.
    + apply IH; [lia..|]. by eapply no_comma_step; [lia|..].
    + rewrite append_piece by (unfold CStr.size; lia). cbn [mbind option_bind].
      rewrite bool_decide_eq_true_2 by lia.
      rewrite <- fields_plain by (eapply no_comma_step; [lia|..]; done).
      by rewrite take_ge by (rewrite length_drop; lia).
Qed.

(** ** The area parser *)
Definition known (fa : string) : option Z := SMap.get fa namemap.

(** What is written after --logfa selects: for the word all every area but the
    general one; for any other text the areas named by its non-empty fields between
    commas, letter case aside. *)
Definition selects (fa : string) (z : Z) : Prop :=
  if decide (fa = "all") then exists name, (name, z) ∈ namemap /\ name <> "general"
  else exists name, name ∈ fields (chars (CStr.lowercase fa)) /\ known name = Some z.

(** The fields that name no area, each time they occur, in order. *)
Definition unknown_fields (fa : string) : list string :=
  if decide (fa = "all") then []
  else filter (fun n => known n = None) (fields (chars (CStr.lowercase fa))).

(** The --logfa parser is total and returns the set (ascending, no duplicates) of
    the areas the text selects, and the fields it could not resolve. *)
Lemma SrtParseLogFA_spec fa :
  exists fas, SrtParseLogFA fa = Some (fas, unknown_fields fa) /\ StronglySorted Z.lt fas /\
  forall z, z ∈ fas <-> selects fa z.
Proof.
  unfold SrtParseLogFA, selects, unknown_fields. destruct (decide (fa = "")) as [->|Hne].
  { exists []. split; [done|]. split; [constructor|]. cbn. set_solver. }
  rewrite bool_decide_eq_false_2 by done. destruct (decide (fa = "all")) as [->|Hall].
  - rewrite bool_decide_eq_true_2 by done. eexists. split; [done|].
    destruct (fold_insert_nil (fun e : string * Z => if bool_decide (e.1 = "general") then None else Some e.2)
      (fun fas e => if bool_decide (e.1 = "general") then fas else set_insert e.2 fas) namemap)
      as [Hs Hz]; [by intros s a; case_bool_decide|].
    split; [exact Hs|]. intros z. rewrite Hz. split.
    + intros ([name y] & Hin & E). cbn in E. case_bool_decide; [discriminate|]. injection E as ->.
      exists name. by split.
    + intros (name & Hin & Hg). exists (name, z). cbn. by rewrite bool_decide_eq_false_2.
  - rewrite bool_decide_eq_false_2 by done. cbv zeta.
    assert (0 < CStr.size (CStr.lowercase fa))%nat.
    { unfold CStr.lowercase. rewrite CStr.size_of_chars, length_fmap. destruct fa; [done|cbn; lia]. }
    rewrite split_loop_spec; [|lia|lia|rewrite Nat.sub_diag; apply not_elem_of_nil].
    rewrite drop_0. cbn [app mbind option_bind]. rewrite fold_add_area.
    eexists. split; [done|].
    destruct (fold_insert_nil known
      (fun s a => match SMap.get a namemap with Some z => set_insert z s | None => s end)
      (fields (chars (CStr.lowercase fa)))) as [Hs Hz]; [reflexivity|].
    by split.
Qed.

(** The parser skips the general area in the belief that it is always on. *)
Lemma all_skips_general : ~ selects "all" 0.
Proof.
  unfold selects. rewrite decide_True by done. intros (name & Hin & Hne).
  assert (Forall (fun e : string * Z => e.2 = 0 -> e.1 = "general") namemap) as HF
    by (vm_compute; repeat constructor; (done || discriminate)).
  apply Hne. exact (proj1 (Forall_forall _ _) HF _ Hin eq_refl).
Qed.
End LogSupport.
