(* ===== verification/Cli.v ===== *)
(** * What the program uses of CLI11 (TypeTools.hpp, Validators.hpp, Option.hpp)

    The conversion of the texts of the command line: integers with any C prefix,
    floating-point numbers, flags, numbers with a unit; and how an option turns
    the texts it matched into one assignment to a variable, or into an error.
    Which texts an option matched is an argument here: Tokenizer finds them. Which
    texts are integers, and what an option makes of each, is proved against the
    grammar of C. *)

From Stdlib Require Import ZArith Lia Ascii String SpecFloat.
From stdpp Require Import prelude strings list.
From S2P Require Import Prelude.

Module Cli.
Local Open Scope string_scope.
Local Open Scope list_scope.
Local Open Scope Z_scope.

(** ** Errors, with the exit status of each *)
Inductive error := ConversionError | ValidationError | ArgumentMismatch.
Definition exit_code (e : error) : Z :=
  match e with ConversionError => 104 | ValidationError => 105 | ArgumentMismatch => 114 end.

(** ** Integers: base 0, so that a prefix decides the base; the whole text has to be
    the number, and the result has to survive the cast to its type. *)
Definition ULONG_MAX : Z := 2 ^ 64 - 1.
Definition strtoll0 (s : string) : Z * nat :=
  let '(v, n) := CNum.strtol_exact 0 (CStr.c_str s) in (CNum.clamp_long v, n).
Definition strtoull0 (s : string) : Z * nat :=
  let '(v, n) := CNum.strtol_exact 0 (CStr.c_str s) in
  ((if ULONG_MAX <? Z.abs v then ULONG_MAX else v mod 2 ^ 64), n).

(** [integral_conversion] to int, and to an unsigned type of [bits] bits. *)
Definition int_conversion (input : string) : option Z :=
  if String.eqb input "" then None else
  let '(ll, n) := strtoll0 input in
  let output := CInt.to_int ll in
  if bool_decide (n = CStr.size input) && (output =? ll) then Some output else None.
Definition unsigned_conversion (bits : Z) (input : string) : option Z :=
  if String.eqb input "" then None else
  let '(ull, n) := strtoull0 input in
  let output := ull mod 2 ^ bits in
  if bool_decide (n = CStr.size input) && (output =? ull) then Some output else None.

(** [lexical_assign]: an empty text is the value zero. *)
Definition int_assign (input : string) : option Z :=
  if String.eqb input "" then Some 0 else int_conversion input.
Definition unsigned_assign (bits : Z) (input : string) : option Z :=
  if String.eqb input "" then Some 0 else unsigned_conversion bits input.

(** ** Floating point: strtold on the whole text, rounded to nearest, then cast to
    double. A long double has 64 bits and exponents up to 16384. *)
Definition decimal (prec emax : Z) (neg : bool) (d k : Z) : spec_float :=
  match d with
  | Z.pos _ =>
      if 0 <=? k then binary_normalize prec emax (if neg then - (d * 10 ^ k) else d * 10 ^ k) 0 neg
      else let '(q, e, loc) := SFdiv_core_binary prec emax d 0 (10 ^ (- k)) 0 in
           binary_round_aux prec emax neg q e loc
  | _ => S754_zero neg
  end.
Definition to_double (x : spec_float) : spec_float :=
  match x with
  | S754_finite s m e => binary_round 53 1024 s m e
  | x => x
  end.

(** The exponent part behind its letter: the whole list, or nothing. *)
Definition exponent (l : list char) : option Z :=
  let '(neg, sg) := CNum.sign_of l in
  let '(v, n) := CNum.digits 10 (drop sg l) 0 0 in
  if bool_decide (n <> 0%nat) && bool_decide (drop (sg + n) l = []) then Some (if neg then - v else v)
  else None.

(** Digits with at most one point, then an exponent introduced by [letter]; the
    digits as one number, the number of digits behind the point, the exponent. *)
Definition literal (base : Z) (letter : char) (l : list char) : option (Z * nat * Z) :=
  let '(v, n) := CNum.digits base l 0 0 in
  let l1 := drop n l in
  let '(v2, m, l2) :=
    match l1 with
    | "."%char :: r => let '(v2, m) := CNum.digits base r v 0 in (v2, m, drop m r)
    | _ => (v, 0%nat, l1)
    end in
  if bool_decide ((n + m)%nat = 0%nat) then None else
  match l2 with
  | [] => Some (v2, m, 0)
  | c :: r => if bool_decide (CStr.tolower c = letter) then e ← exponent r; Some (v2, m, e) else None
  end.

Definition is_alnum (c : char) : bool :=
  match CNum.digit_of c with Some _ => true | None => bool_decide (c = "_"%char) end.
(** [nan], or [nan(...)] with letters, digits and underscores. *)
Definition is_nan (l : list char) : bool :=
  bool_decide (take 3 l = chars "nan") &&
  match drop 3 l with
  | [] => true
  | "("%char :: r => match rev r with
                     | ")"%char :: r' => forallb is_alnum r'
                     | _ => false
                     end
  | _ => false
  end.

Definition strtold (l : list char) : option spec_float :=
  let l := drop (CNum.spaces l) l in
  let '(neg, sg) := CNum.sign_of l in
  let l := CStr.tolower <$> drop sg l in
  if bool_decide (l = chars "inf" \/ l = chars "infinity") then Some (S754_infinity neg)
  else if is_nan l then Some S754_nan
  else if bool_decide (take 2 l = chars "0x") then
    '(v, m, e) ← literal 16 "p" (drop 2 l);
    Some (binary_normalize 64 16384 (if neg then - v else v) (e - 4 * Z.of_nat m) neg)
  else
    '(v, m, e) ← literal 10 "e" l;
    Some (decimal 64 16384 neg v (e - Z.of_nat m)).

(** [lexical_assign] to a double. *)
Definition double_assign (input : string) : option spec_float :=
  if String.eqb input "" then Some (S754_zero false)
  else if bool_decide (CStr.size (CStr.c_str input) = CStr.size input)
  then to_double <$> strtold (chars input) else None.

(** ** Flags *)
Definition flag_letter (c : char) : CNum.sto_result :=
  let n := Z.of_nat (nat_of_ascii c) in
  if (49 <=? n) && (n <=? 57) then CNum.StoOk (n - 48)
  else if bool_decide (c ∈ chars "0fn-") then CNum.StoOk (-1)
  else if bool_decide (c ∈ chars "ty+") then CNum.StoOk 1
  else CNum.StoInvalid.

(** [to_flag_value]; what std::stoll throws is its result. *)
Definition to_flag_value (val : string) : CNum.sto_result :=
  if String.eqb val "true" then CNum.StoOk 1
  else if String.eqb val "false" then CNum.StoOk (-1)
  else
    let val := CStr.lowercase val in
    match chars val with
    | [c] => flag_letter c
    | _ =>
        if bool_decide (val ∈ ["true"; "on"; "yes"; "enable"]) then CNum.StoOk 1
        else if bool_decide (val ∈ ["false"; "off"; "no"; "disable"]) then CNum.StoOk (-1)
        else CNum.stoll (CStr.c_str val)
    end.

(** [lexical_cast] to bool. *)
Definition flag_cast (input : string) : option bool :=
  match to_flag_value input with
  | CNum.StoOk out => Some (0 <? out)
  | CNum.StoInvalid => None
  | CNum.StoRange => Some (negb (bool_decide (head (chars input) = Some "-"%char)))
  end.

(** ** Numbers with a unit *)
Definition ltrim (l : list char) : list char := drop (CNum.spaces l) l.
Definition rtrim (l : list char) : list char := rev (ltrim (rev l)).
Definition trim (l : list char) : list char := ltrim (rtrim l).
Definition isalpha (c : char) : bool :=
  let n := nat_of_ascii (CStr.tolower c) in ((97 <=? n) && (n <=? 122))%nat.

(** Length of the longest suffix of letters, from the reversed text. *)
Definition unit_length (r : list char) : nat :=
  default (length r) (CStr.index_where (fun c => negb (isalpha c)) r).

(** [overflowCheck] and [checked_multiply] on int; the division truncates. *)
Definition overflowCheck (a b : Z) : bool :=
  if Bool.eqb (0 <? a) (0 <? b) then Z.quot CInt.INT_MAX (Z.abs a) <? Z.abs b
  else - Z.abs b <? Z.quot CInt.INT_MIN (Z.abs a).
Definition checked_multiply (a b : Z) : option Z :=
  if (a =? 0) || (b =? 0) || (a =? 1) || (b =? 1) then Some (a * b)
  else if (a =? CInt.INT_MIN) || (b =? CInt.INT_MIN) then None
  else if overflowCheck a b then None
  else Some (a * b).

(** AsNumberWithUnit(mapping, CASE_SENSITIVE) on ints: the text it leaves, or the
    ValidationError. *)
Definition as_number_with_unit (mapping : list (string * Z)) (input : string) : option string :=
  let l := rtrim (chars input) in
  if bool_decide (l = []) then None else
  let k := (length l - unit_length (rev l))%nat in
  let unit := of_chars (drop k l) in
  let number := of_chars (trim (take k l)) in
  if String.eqb unit "" then
    _ ← int_conversion number; Some number
  else
    factor ← SMap.get unit mapping;
    if negb (String.eqb number "") then
      num ← int_conversion number;
      CNum.to_string <$> checked_multiply num factor
    else Some (CNum.to_string factor).

(** ** Splitting a text *)

(** The fields between the separators, the last one included. *)
Fixpoint fields (sep : char) (l : list char) : list (list char) :=
  match l with
  | [] => [[]]
  | c :: l' =>
      if bool_decide (c = sep) then [] :: fields sep l'
      else match fields sep l' with
           | f :: fs => (c :: f) :: fs
           | [] => [[c]]
           end
  end.
(** What std::getline reads one after the other: an empty last field is not read. *)
Definition getlines (sep : char) (l : list char) : list (list char) :=
  let fs := fields sep l in
  if bool_decide (last fs = Some []) then removelast fs else fs.
Definition split (s : string) (delim : char) : list string :=
  if String.eqb s "" then [""] else of_chars <$> getlines delim (chars s).

(** ** Options over the variables [C] *)
(** How many texts follow the name of an option: none, one, or as many as there are. *)
Inductive kind := Flag | Single | Many.

Record option_ (C : Type) := mk_option {
  opt_name : string;
  opt_kind : kind;
  opt_run : list string -> C -> error + C }.
Arguments mk_option {C}.
Arguments opt_name {C}.
Arguments opt_kind {C}.
Arguments opt_run {C}.

Section options.
Context {C : Type}.

(** An option with one value: the texts are validated, there has to be one, and it
    is converted and assigned. *)
Definition value {A} (name : string) (validate : string -> option string)
    (assign : string -> option A) (set : A -> C -> C) : option_ C :=
  mk_option name Single (fun results c =>
    match mapM validate results with
    | None => inl ValidationError
    | Some [r] => match assign r with Some a => inr (set a c) | None => inl ConversionError end
    | Some _ => inl ArgumentMismatch
    end).

Definition int_option name (set : Z -> C -> C) : option_ C := value name Some int_assign set.
Definition unit_option name (mapping : list (string * Z)) (set : Z -> C -> C) : option_ C :=
  value name (as_number_with_unit mapping) int_assign set.
(** A unit in front of an unsigned variable: the factor is an int nevertheless. *)
Definition unsigned_unit_option name (mapping : list (string * Z)) (set : Z -> C -> C) : option_ C :=
  value name (as_number_with_unit mapping) (unsigned_assign 32) set.
Definition size_option name (set : Z -> C -> C) : option_ C := value name Some (unsigned_assign 64) set.
Definition double_option name (set : spec_float -> C -> C) : option_ C := value name Some double_assign set.
Definition string_option name (set : string -> C -> C) : option_ C := value name Some Some set.

(** A vector of strings takes every text; [expected_max_vector_size] bounds it. *)
Definition strings_option (name : string) (set : list string -> C -> C) : option_ C :=
  mk_option name Many (fun results c =>
    if bool_decide (results = []) || (2 ^ 29 <? Z.of_nat (length results))
    then inl ArgumentMismatch else inr (set results c)).

(** A flag takes the last of its texts. *)
Definition flag_option (name : string) (set : bool -> C -> C) : option_ C :=
  mk_option name Flag (fun results c =>
    match last results with
    | None => inl ConversionError
    | Some r => match flag_cast r with Some b => inr (set b c) | None => inl ConversionError end
    end).

(** The callbacks of the options that matched something, in the order in which the
    options were declared. *)
Fixpoint process_callbacks (options : list (option_ C)) (args : string -> list string) (c : C)
    : error + C :=
  match options with
  | [] => inr c
  | o :: options' =>
      match args (opt_name o) with
      | [] => process_callbacks options' args c
      | results =>
          match opt_run o results c with
          | inl e => inl e
          | inr c' => process_callbacks options' args c'
          end
      end
  end.
End options.

(** ** Examples *)
Definition to_bps : list (string * Z) :=
  SMap.of_list [("kbps", 1000); ("Mbps", 1000000); ("Gbps", 1000000000)].
Example unit_ok : as_number_with_unit to_bps " 10 Mbps" = Some "10000000".
Proof. vm_compute. reflexivity. Qed.
Example unit_alone : as_number_with_unit to_bps "Gbps" = Some "1000000000".
Proof. vm_compute. reflexivity. Qed.
Example unit_overflow : as_number_with_unit to_bps "3Gbps" = None.
Proof. vm_compute. reflexivity. Qed.
Example octal_text : int_assign "0100" = Some 64.
Proof. vm_compute. reflexivity. Qed.
(** A negative or too long number is taken for a size without an error. *)
Example negative_size : unsigned_assign 64 "-1" = Some (2 ^ 64 - 1).
Proof. vm_compute. reflexivity. Qed.
Example huge_size : unsigned_assign 64 "99999999999999999999999" = Some (2 ^ 64 - 1).
Proof. vm_compute. reflexivity. Qed.
Example double_text : double_assign "10.5" = Some (S754_finite false 5910974510923776 (-49)).
Proof. vm_compute. reflexivity. Qed.
Example double_tenth : double_assign "1e-1" = Some (S754_finite false 7205759403792794 (-56)).
Proof. vm_compute. reflexivity. Qed.
Example double_hex : double_assign " -0x1.8p1" = Some (S754_finite true 6755399441055744 (-51)).
Proof. vm_compute. reflexivity. Qed.

(** ** Multiplication is exact or refused *)
Lemma quot_ltb M n m : 0 < n -> 0 <= M -> (Z.quot M n <? m) = (M <? n * m).
Proof.
  intros Hn HM. rewrite Z.quot_div_nonneg by lia.
  destruct (Z.ltb_spec M (n * m)) as [H|H].
  - apply Z.ltb_lt. by apply Z.div_lt_upper_bound.
  - apply Z.ltb_ge. by apply Z.div_le_lower_bound.
Qed.

Lemma in_int_mul_signs a b :
  CInt.in_int (a * b) =
  if Bool.eqb (0 <? a) (0 <? b) then negb (CInt.INT_MAX <? Z.abs a * Z.abs b)
  else negb (- CInt.INT_MIN <? Z.abs a * Z.abs b).
Proof.
  unfold CInt.in_int, CInt.INT_MIN, CInt.INT_MAX. rewrite <- Z.abs_mul.
  destruct (Z.ltb_spec 0 a), (Z.ltb_spec 0 b); cbn [Bool.eqb]; rewrite <- Z.leb_antisym;
    apply eq_iff_eq_true; rewrite andb_true_iff, !Z.leb_le.
  - assert (0 <= a * b) by (apply Z.mul_nonneg_nonneg; lia). lia.
  - assert (a * b <= 0) by (apply Z.mul_nonneg_nonpos; lia). lia.
  - assert (a * b <= 0) by (apply Z.mul_nonpos_nonneg; lia). lia.
  - assert (0 <= a * b) by (apply Z.mul_nonpos_nonpos; lia). lia.
Qed.

Lemma overflowCheck_spec a b : a <> 0 -> overflowCheck a b = negb (CInt.in_int (a * b)).
Proof.
  intros Ha. rewrite in_int_mul_signs. unfold overflowCheck.
  destruct (Bool.eqb _ _); rewrite negb_involutive.
  - by rewrite quot_ltb by (unfold CInt.INT_MAX; lia).
  - rewrite <- (Z.opp_involutive CInt.INT_MIN) at 1. rewrite Z.quot_opp_l by lia.
    rewrite <- quot_ltb by (unfold CInt.INT_MIN; lia).
    apply eq_iff_eq_true. rewrite !Z.ltb_lt. lia.
Qed.

Lemma checked_multiply_spec a b :
  CInt.in_int a = true -> CInt.in_int b = true ->
  checked_multiply a b = if CInt.in_int (a * b) then Some (a * b) else None.
Proof.
  intros Ha Hb. unfold checked_multiply.
  destruct (Z.eqb_spec a 0) as [->|Ha0]; [done|]. destruct (Z.eqb_spec b 0) as [->|Hb0]; [by rewrite Z.mul_0_r|].
  destruct (Z.eqb_spec a 1) as [->|Ha1]; [by rewrite Z.mul_1_l, Hb|].
  destruct (Z.eqb_spec b 1) as [->|Hb1]; [by rewrite Z.mul_1_r, Ha|].
  cbn [orb]. rewrite overflowCheck_spec by done.
  destruct (_ || _) eqn:E; [|by destruct (CInt.in_int (a * b))].
  destruct (CInt.in_int (a * b)) eqn:Hm; [|done]. exfalso.
  rewrite orb_true_iff, !Z.eqb_eq in E. apply CInt.in_int_spec in Hm.
  unfold CInt.INT_MIN, CInt.INT_MAX in *. nia.
Qed.

(** ** Reading a printed number *)
Lemma digit_char_spec d :
  0 <= d < 10 -> CStr.isdigit (CNum.digit_char d) = true /\ CNum.digit_of (CNum.digit_char d) = Some d /\
  (CNum.digit_char d = "0"%char <-> d = 0).
Proof.
  intros Hd. assert (d = 0 \/ d = 1 \/ d = 2 \/ d = 3 \/ d = 4 \/ d = 5 \/ d = 6 \/ d = 7 \/ d = 8 \/ d = 9) as HH by lia.
  destruct_or! HH; subst d; (split; [done|split; [done|split; done]]).
Qed.

(** The digits that [print_nat] puts in front of its accumulator. *)
Lemma print_nat_spec fuel z :
  0 <= z < 10 ^ Z.of_nat fuel -> (0 < fuel)%nat ->
  exists ds, (forall acc, CNum.print_nat fuel z acc = ds ++ acc) /\ Forall (fun c => CStr.isdigit c = true) ds /\ ds <> [] /\
    (head ds = Some "0"%char <-> z = 0) /\ (z = 0 -> ds = ["0"%char]) /\
    forall acc a n,
      CNum.digits 10 (ds ++ acc) a n = CNum.digits 10 acc (a * 10 ^ Z.of_nat (length ds) + z) (length ds + n).
Proof.
  revert z. induction fuel as [|fuel IH]; intros z Hz Hf; [lia|]. cbn [CNum.print_nat].
  destruct (digit_char_spec (z mod 10)) as (Hd & Hv & H0); [apply Z.mod_pos_bound; lia|].
  pose proof (Z.div_mod z 10 ltac:(lia)) as Hdiv. pose proof (Z.mod_pos_bound z 10 ltac:(lia)) as Hmod.
  destruct (Z.eqb_spec (z / 10) 0) as [E|E].
  - assert (z mod 10 = z) as Hzz by lia. exists [CNum.digit_char (z mod 10)].
    repeat split; try done.
    + by repeat constructor.
    + intros [= Hh]. rewrite <- Hzz. by apply H0.
    + intros ->. done.
    + intros ->. done.
    + intros acc a n. cbn [app CNum.digits length]. rewrite Hv.
      rewrite (proj2 (Z.ltb_lt _ _)) by lia. rewrite Hzz. f_equal; lia.
  - destruct (IH (z / 10)) as (ds & Hp & HF & Hne & Hhead & _ & Hdig).
    { split; [apply Z.div_pos; lia|]. apply Z.div_lt_upper_bound; [lia|].
      rewrite Nat2Z.inj_succ, Z.pow_succ_r in Hz by lia. lia. }
    { destruct fuel; [|lia]. cbn in Hz. exfalso. apply E. apply Z.div_small. lia. }
    exists (ds ++ [CNum.digit_char (z mod 10)]). repeat split.
    + intros acc. rewrite Hp. by rewrite <- (assoc_L app).
    + apply Forall_app; split; [done|]. by repeat constructor.
    + by destruct ds.
    + destruct ds as [|c ds]; [done|]. cbn in *. intros Hh. apply Hhead in Hh. lia.
    + intros ->. by rewrite Z.div_0_l in E by lia.
    + intros ->. by rewrite Z.div_0_l in E by lia.
    + intros acc a n. rewrite <- (assoc_L app), Hdig. cbn [app CNum.digits]. rewrite Hv.
      rewrite (proj2 (Z.ltb_lt _ _)) by lia. rewrite length_app. cbn [length].
      replace (Z.of_nat (length ds + 1)) with (Z.succ (Z.of_nat (length ds))) by lia.
      rewrite Z.pow_succ_r by lia. f_equal; lia.
Qed.

Lemma digit_first c l :
  CStr.isdigit c = true ->
  CNum.spaces (c :: l) = 0%nat /\ CNum.sign_of (c :: l) = (false, 0%nat) /\ isalpha c = false /\ c <> zero /\
  (c <> "0"%char -> CNum.base_of 0 (c :: l) = (10, 0%nat)).
Proof. by destruct c as [[] [] [] [] [] [] [] []]. Qed.

(** The text of a number: its digits behind an optional sign. *)
Lemma to_string_spec z : exists ds,
  chars (CNum.to_string z) = (if z <? 0 then ["-"%char] else []) ++ ds /\
  Forall (fun c => CStr.isdigit c = true) ds /\ ds <> [] /\
  (head ds = Some "0"%char -> ds = ["0"%char]) /\
  CNum.digits 10 ds 0 0 = (Z.abs z, length ds) /\ (z = 0 -> ds = ["0"%char]) /\
  (head ds = Some "0"%char -> z = 0).
Proof.
  destruct (print_nat_spec (S (Z.to_nat (Z.log2 (Z.abs z)))) (Z.abs z)) as (ds & Hp & HF & Hne & Hh & H0 & Hd);
    [|lia|].
  { split; [lia|]. destruct (Z.eq_dec z 0) as [->|Hz]; [done|].
    pose proof (Z.log2_spec (Z.abs z) ltac:(lia)) as [_ Hlog]. rewrite Nat2Z.inj_succ, Z2Nat.id by apply Z.log2_nonneg.
    eapply Z.lt_le_trans; [exact Hlog|]. apply Z.pow_le_mono_l. lia. }
  exists ds. unfold CNum.to_string. rewrite CStr.chars_of_chars, Hp, app_nil_r.
  split; [by destruct (z <? 0)|]. split; [done|]. split; [done|]. split; [intros Hc; by apply H0, Hh|].
  specialize (Hd [] 0 0%nat). rewrite app_nil_r, Nat.add_0_r in Hd. split; [by rewrite Hd|].
  split; [intros ->; by apply H0|]. intros Hc%Hh. lia.
Qed.

Lemma c_str_id s : zero ∉ chars s -> CStr.c_str s = s.
Proof.
  intros Hz. unfold CStr.c_str. assert (CStr.find_char zero 0 s = None) as ->.
  { unfold CStr.find_char. rewrite drop_0. rewrite (proj2 (CStr.index_where_None _ _)); [done|].
    apply forallb_forall. intros c Hc%list_elem_of_In. rewrite bool_decide_eq_false_2 by naive_solver. done. }
  cbn [default]. unfold CStr.size. by rewrite take_ge, CStr.of_chars_chars.
Qed.

(** A printed number is read back, prefix or no prefix. *)
Lemma strtol_to_string z :
  CNum.strtol_exact 0 (CStr.c_str (CNum.to_string z)) = (z, CStr.size (CNum.to_string z)).
Proof.
  destruct (to_string_spec z) as (ds & Hc & HF & Hne & Hz & Hd & _ & Hz0).
  destruct ds as [|d ds]; [done|]. pose proof (Forall_inv HF) as Hd0.
  destruct (digit_first d ds Hd0) as (Hsp & Hsg & _ & _ & Hb).
  rewrite c_str_id.
  2: { rewrite Hc. intros [Hin|Hin]%elem_of_app; [by destruct (z <? 0); set_solver|].
       apply (proj1 (Forall_forall _ _) HF) in Hin. done. }
  unfold CNum.strtol_exact, CStr.size. rewrite Hc.
  assert (CNum.base_of 0 (d :: ds) = ((if bool_decide (d = "0"%char) then 8 else 10), 0%nat)) as Hbase.
  { case_bool_decide as E; [|by apply Hb]. subst d. by injection (Hz eq_refl) as ->. }
  assert (CNum.digits (if bool_decide (d = "0"%char) then 8 else 10) (d :: ds) 0 0 = (Z.abs z, length (d :: ds))) as Hdig.
  { case_bool_decide as E; [|done]. subst d. rewrite (Hz0 eq_refl). by injection (Hz eq_refl) as ->. }
  destruct (Z.ltb_spec z 0) as [Hneg|Hneg]; cbn [app drop].
  - assert (CNum.spaces ("-"%char :: d :: ds) = 0%nat) as -> by done. cbn [drop CNum.sign_of].
    rewrite Hbase. cbn [drop]. rewrite Hdig. cbn [length]. destruct (decide _); [lia|].
    f_equal; lia.
  - rewrite Hsp. cbn [drop]. rewrite Hsg. cbn [drop]. rewrite Hbase. cbn [drop]. rewrite Hdig.
    cbn [length]. destruct (decide _); [lia|]. f_equal; lia.
Qed.

Lemma to_string_nonempty z : CNum.to_string z <> "".
Proof.
  destruct (to_string_spec z) as (ds & Hc & _ & Hne & _). intros E. rewrite E in Hc.
  by destruct (z <? 0), ds.
Qed.

Lemma int_conversion_to_string z : CInt.in_int z = true -> int_conversion (CNum.to_string z) = Some z.
Proof.
  intros Hz%CInt.in_int_spec. unfold int_conversion, strtoll0.
  destruct (String.eqb_spec (CNum.to_string z) "") as [E|_]; [by destruct (to_string_nonempty z)|].
  rewrite strtol_to_string. unfold CNum.clamp_long, CInt.LONG_MIN, CInt.LONG_MAX.
  unfold CInt.INT_MIN, CInt.INT_MAX in Hz. rewrite Z.min_r, Z.max_r by lia.
  rewrite CInt.to_int_id by (unfold CInt.INT_MIN, CInt.INT_MAX; lia).
  by rewrite bool_decide_eq_true_2, Z.eqb_refl.
Qed.

Lemma int_assign_to_string z : CInt.in_int z = true -> int_assign (CNum.to_string z) = Some z.
Proof.
  intros Hz. unfold int_assign.
  destruct (String.eqb_spec (CNum.to_string z) "") as [E|_]; [by destruct (to_string_nonempty z)|].
  by apply int_conversion_to_string.
Qed.

(** ** A number and its unit are told apart *)
Lemma index_where_app {A} (P : A -> bool) a x b :
  Forall (fun y => P y = false) a -> P x = true -> CStr.index_where P (a ++ x :: b) = Some (length a).
Proof. induction 1 as [|y a Hy _ IH]; intros Hx; cbn; [by rewrite Hx|]. by rewrite Hy, IH. Qed.

Definition tight (l : list char) : Prop := Forall (fun c => CStr.isspace c = false) l.
Lemma ltrim_tight l : tight l -> ltrim l = l.
Proof. intros H. unfold ltrim. destruct H as [|c l Hc _]; [done|]. unfold CNum.spaces. cbn. by rewrite Hc. Qed.
Lemma rtrim_tight l : tight l -> rtrim l = l.
Proof. intros H. unfold rtrim. rewrite ltrim_tight, rev_involutive; [done|]. by apply Forall_rev. Qed.
Lemma trim_tight l : tight l -> trim l = l.
Proof. intros H. unfold trim. by rewrite rtrim_tight, ltrim_tight. Qed.

Lemma letter_not_space c : isalpha c = true -> CStr.isspace c = false.
Proof. by destruct c as [[] [] [] [] [] [] [] []]. Qed.
Lemma digit_not_space c : CStr.isdigit c = true -> CStr.isspace c = false.
Proof. by destruct c as [[] [] [] [] [] [] [] []]. Qed.

(** The text of a number has no blanks and ends with a digit. *)
Lemma to_string_tight z : tight (chars (CNum.to_string z)) /\
  exists l d, chars (CNum.to_string z) = l ++ [d] /\ isalpha d = false.
Proof.
  destruct (to_string_spec z) as (ds & -> & HF & Hne & _). split.
  - apply Forall_app. split; [by destruct (z <? 0); repeat constructor|].
    eapply Forall_impl; [exact HF|]. apply digit_not_space.
  - destruct (exists_last Hne) as (l & d & ->). exists ((if z <? 0 then ["-"%char] else []) ++ l), d.
    split; [by rewrite <- (assoc_L app)|]. apply Forall_app in HF as [_ HF].
    by apply (digit_first d []), (Forall_inv HF).
Qed.

Lemma unit_length_app num d unit :
  isalpha d = false -> Forall (fun c => isalpha c = true) unit ->
  unit_length (rev ((num ++ [d]) ++ unit)) = length unit.
Proof.
  intros Hd Hu. unfold unit_length. rewrite !rev_app_distr. cbn [rev app].
  rewrite index_where_app; [cbn; by rewrite length_rev| |by rewrite Hd].
  apply Forall_rev. eapply Forall_impl; [exact Hu|]. intros c Hc. cbn in *. by rewrite Hc.
Qed.

Lemma as_number_with_unit_text mapping z unit :
  Forall (fun c => isalpha c = true) (chars unit) -> CInt.in_int z = true ->
  as_number_with_unit mapping (CNum.to_string z +:+ unit) =
  if String.eqb unit "" then Some (CNum.to_string z) else
  factor ← SMap.get unit mapping; CNum.to_string <$> checked_multiply z factor.
Proof.
  intros Hu Hz. destruct (to_string_tight z) as [Ht (l & d & Hl & Hd)].
  unfold as_number_with_unit. rewrite CStr.chars_app, rtrim_tight.
  2: { apply Forall_app. split; [done|]. eapply Forall_impl; [exact Hu|]. apply letter_not_space. }
  rewrite bool_decide_eq_false_2 by (rewrite Hl; by destruct l).
  rewrite Hl, unit_length_app by done. rewrite <- Hl, length_app, Nat.add_sub. cbv zeta.
  rewrite drop_app_length, take_app_length, trim_tight, !CStr.of_chars_chars by done.
  rewrite int_conversion_to_string by done. cbn [mbind option_bind].
  destruct (String.eqb_spec unit ""); [done|]. destruct (SMap.get unit mapping) as [f|]; [|done]. cbn [mbind option_bind].
  destruct (String.eqb_spec (CNum.to_string z) "") as [E|_]; [by destruct (to_string_nonempty z)|]. done.
Qed.

Lemma as_number_with_unit_plain mapping z :
  CInt.in_int z = true -> as_number_with_unit mapping (CNum.to_string z) = Some (CNum.to_string z).
Proof.
  intros Hz. assert (CNum.to_string z = CNum.to_string z +:+ "") as E
    by (apply CStr.chars_inj; by rewrite CStr.chars_app, app_nil_r).
  rewrite E at 1. by rewrite as_number_with_unit_text.
Qed.

(** C11: an option with a unit reads a number back exactly. A printed int followed by
    one of the option's units assigns the product when it is an int, and is
    refused as invalid when it is not, so no value ever wraps around; without a
    unit it assigns the number itself. *)
Theorem unit_option_spec {C} name mapping (set : Z -> C -> C) z unit factor c :
  CInt.in_int z = true -> CInt.in_int factor = true ->
  unit <> "" -> Forall (fun c => isalpha c = true) (chars unit) -> SMap.get unit mapping = Some factor ->
  opt_run (unit_option name mapping set) [CNum.to_string z +:+ unit] c =
    (if CInt.in_int (z * factor) then inr (set (z * factor) c) else inl ValidationError) /\
  opt_run (unit_option name mapping set) [CNum.to_string z] c = inr (set z c).
Proof.
  intros Hz Hf Hu Hl Hm. cbn [opt_run unit_option value mapM]. split.
  - rewrite as_number_with_unit_text, Hm by done. destruct (String.eqb_spec unit ""); [done|]. cbn [mbind option_bind].
    rewrite checked_multiply_spec by done. destruct (CInt.in_int (z * factor)) eqn:E; [|done]. cbn.
    by rewrite int_assign_to_string.
  - rewrite as_number_with_unit_plain by done. cbn. by rewrite int_assign_to_string.
Qed.
Lemma unit_option_spec_witness :
  opt_run (unit_option "--sendrate" to_bps (fun v _ => v)) ["10Mbps"] 0 = inr 10000000 /\
  opt_run (unit_option "--sendrate" to_bps (fun v _ => v)) ["10"] 0 = inr 10.
Proof.
  apply (unit_option_spec "--sendrate" to_bps (fun v _ => v) 10 "Mbps" 1000000 0); try reflexivity; [discriminate|].
  by repeat constructor.
Defined.

(** ** The texts that are taken for a number *)

(** A digit of a base, and what a run of digits is worth. *)
Definition is_digit (base : Z) (c : char) : Prop := exists d, CNum.digit_of c = Some d /\ d < base.
Definition worth (base : Z) (ds : list char) : Z :=
  foldl (fun acc c => acc * base + default 0 (CNum.digit_of c)) 0 ds.

(** An integer of C: blanks, a sign, and digits. 0x makes them hexadecimal and a
    leading 0 octal. *)
Inductive denotes (text : string) (z : Z) : Prop := denotes_intro blanks (minus : bool) (sign prefix ds : list char)
  (base : Z) (denotes_text : chars text = blanks ++ sign ++ prefix ++ ds)
  (denotes_blanks : Forall (fun c => CStr.isspace c = true) blanks)
  (denotes_sign : sign = (if minus then ["-"%char] else []) \/ sign = ["+"%char] /\ minus = false)
  (denotes_digits : ds <> [] /\ Forall (is_digit base) ds)
  (denotes_base : prefix ∈ [chars "0x"; chars "0X"] /\ base = 16 \/
     prefix = [] /\ base = (if bool_decide (head ds = Some "0"%char) then 8 else 10))
  (denotes_value : z = if minus then - worth base ds else worth base ds).

Lemma digits_worth base l acc n v m : CNum.digits base l acc n = (v, m) ->
  exists ds rest, l = ds ++ rest /\ m = (length ds + n)%nat /\ Forall (is_digit base) ds /\
    v = foldl (fun acc c => acc * base + default 0 (CNum.digit_of c)) acc ds.
Proof.
  revert acc n. induction l as [|c l IH]; intros acc n; cbn [CNum.digits].
  { intros [= <- <-]. by exists [], []. }
  destruct (CNum.digit_of c) as [d|] eqn:E; [|intros [= <- <-]; by exists [], (c :: l)].
  destruct (Z.ltb_spec d base); [|intros [= <- <-]; by exists [], (c :: l)].
  intros (ds & rest & -> & -> & Hds & ->)%IH. exists (c :: ds), rest. cbn. rewrite E.
  split; [done|]. split; [lia|]. split; [|done]. constructor; [by exists d|done].
Qed.
Lemma digits_all base ds acc n : Forall (is_digit base) ds ->
  CNum.digits base ds acc n =
  (foldl (fun acc c => acc * base + default 0 (CNum.digit_of c)) acc ds, (length ds + n)%nat).
Proof.
  intros Hds. revert acc n. induction Hds as [|c ds (d & E & Hd) _ IH]; intros acc n; cbn; [done|].
  rewrite E, (proj2 (Z.ltb_lt _ _)), IH by done. cbn. f_equal. lia.
Qed.

Lemma spaces_split l : Forall (fun c => CStr.isspace c = true) (take (CNum.spaces l) l).
Proof.
  unfold CNum.spaces. destruct (CStr.index_where _ l) as [i|] eqn:E; cbn [from_option id].
  - apply CStr.index_where_Some in E as (a & x & b & -> & <- & _ & Ha). rewrite take_app_length.
    apply Forall_forall. intros c Hc%list_elem_of_In. rewrite forallb_forall in Ha.
    specialize (Ha c Hc). by destruct (CStr.isspace c).
  - apply CStr.index_where_None in E. rewrite take_ge by done. apply Forall_forall.
    intros c Hc%list_elem_of_In. rewrite forallb_forall in E. specialize (E c Hc). by destruct (CStr.isspace c).
Qed.
Lemma spaces_app a c l :
  Forall (fun c => CStr.isspace c = true) a -> CStr.isspace c = false -> CNum.spaces (a ++ c :: l) = length a.
Proof.
  intros Ha Hc. unfold CNum.spaces. rewrite index_where_app; [done| |by rewrite Hc].
  eapply Forall_impl; [exact Ha|]. intros x Hx. cbn in *. by rewrite Hx.
Qed.
Lemma digit_of_spec c d : CNum.digit_of c = Some d -> CStr.isspace c = false /\ CNum.sign_of [c] = (false, 0%nat) /\ c <> zero.
Proof. by destruct c as [[] [] [] [] [] [] [] []]. Qed.

Lemma spaces_le l : (CNum.spaces l <= length l)%nat.
Proof.
  unfold CNum.spaces. destruct (CStr.index_where _ l) as [i|] eqn:E; cbn [from_option id]; [|done].
  apply CStr.index_where_Some in E as (a & x & b & -> & <- & _). rewrite length_app. lia.
Qed.
Lemma sign_of_split l neg sg : CNum.sign_of l = (neg, sg) -> exists sign l2, l = sign ++ l2 /\
  (sign = (if neg then ["-"%char] else []) \/ sign = ["+"%char] /\ neg = false) /\ length sign = sg.
Proof.
  destruct (decide (head l = Some "-"%char)) as [E|E1].
  { destruct l as [|c l]; [done|]. injection E as ->. intros [= <- <-]. exists ["-"%char], l. auto. }
  destruct (decide (head l = Some "+"%char)) as [E|E2].
  { destruct l as [|c l]; [done|]. injection E as ->. intros [= <- <-]. exists ["+"%char], l. auto. }
  intros E. assert ((neg, sg) = (false, 0%nat)) as [= -> ->].
  { rewrite <- E. destruct l as [|c l]; [done|]. cbn in E1, E2. destruct c as [[] [] [] [] [] [] [] []]; try done; congruence. }
  exists [], l. auto.
Qed.

Lemma base_of_cases l b pre : CNum.base_of 0 l = (b, pre) ->
  (exists prefix l', prefix ∈ [chars "0x"; chars "0X"] /\ l = prefix ++ l' /\ b = 16 /\ pre = 2%nat) \/
  (b = (if bool_decide (head l = Some "0"%char) then 8 else 10) /\ pre = 0%nat).
Proof.
  unfold CNum.base_of. cbn [Z.eqb negb].
  destruct l as [|c l]; [intros [= <- <-]; by right|].
  destruct (decide (c = "0"%char)) as [->|Hc].
  2: { intros E. right. cbn. rewrite bool_decide_eq_false_2 by congruence.
    by destruct c as [[] [] [] [] [] [] [] []]; try done; injection E as <- <-. }
  cbn [head]. rewrite bool_decide_eq_true_2 by done.
  destruct l as [|x [|h l]]; [intros [= <- <-]; by right..|].
  destruct (Ascii.eqb_spec x "x"), (Ascii.eqb_spec x "X"); cbn [orb andb]; subst;
    try (intros [= <- <-]; by right); (destruct (match _ with Some _ => _ | None => _ end); intros [= <- <-]; [left|by right]).
  - by exists (chars "0x"), (h :: l); repeat split; [left|..].
  - by exists (chars "0x"), (h :: l); repeat split; [left|..].
  - exists (chars "0X"), (h :: l); repeat split; by right; left.
Qed.
Lemma base_of_plain base ds : ds <> [] -> Forall (is_digit base) ds ->
  base = (if bool_decide (head ds = Some "0"%char) then 8 else 10) -> CNum.base_of 0 ds = (base, 0%nat).
Proof.
  intros Hne Hds Hb. destruct Hds as [|c cs _ Hds]; [done|]. cbn [head] in Hb.
  destruct (decide (c = "0"%char)) as [->|Hc].
  - rewrite bool_decide_eq_true_2 in Hb by done. subst base. destruct Hds as [|x cs (d & Hd & Hlt) _]; [done|].
    destruct cs as [|h cs]; [done|]. cbn.
    destruct (Ascii.eqb_spec x "x") as [->|_]; [vm_compute in Hd; by injection Hd as <-|].
    by destruct (Ascii.eqb_spec x "X") as [->|_]; [vm_compute in Hd; injection Hd as <-|].
  - rewrite bool_decide_eq_false_2 in Hb by congruence. subst base. by destruct c as [[] [] [] [] [] [] [] []].
Qed.
Lemma base_of_hex prefix ds : ds <> [] -> Forall (is_digit 16) ds -> prefix ∈ [chars "0x"; chars "0X"] ->
  CNum.base_of 0 (prefix ++ ds) = (16, 2%nat).
Proof.
  intros Hne Hds Hp. destruct Hds as [|h cs (d & Hd & Hlt) _]; [done|].
  rewrite !elem_of_cons, elem_of_nil in Hp.
  destruct Hp as [->|[->|[]]]; cbn; rewrite Hd; cbn; by rewrite (proj2 (Z.ltb_lt _ _)).
Qed.

(** What strtoll and strtoull read of a text that is a number is all of it. *)
Lemma denotes_strtol text z :
  denotes text z <-> text <> "" /\ CNum.strtol_exact 0 (CStr.c_str text) = (z, CStr.size text).
Proof.
  split.
  - intros [blanks minus sign prefix ds base Ht Hb Hs [Hne Hds] Hbase ->].
    assert (exists c l, prefix ++ ds = c :: l /\ CStr.isspace c = false /\ CNum.sign_of (c :: l) = (false, 0%nat)) as
      (c & l & Hcl & Hsp & Hsg).
    { destruct Hds as [|c cs (d & E & _) _]; [done|]. destruct (digit_of_spec c d E) as (Hsp & Hsg & _).
      destruct Hbase as [[Hp _]|[-> _]]; [|by exists c, cs].
      rewrite !elem_of_cons, elem_of_nil in Hp. destruct Hp as [->|[->|[]]]; by eexists _, _. }
    assert (CNum.base_of 0 (prefix ++ ds) = (base, length prefix)) as Hbo.
    { destruct Hbase as [[Hp ->]|[-> Hbase]]; [|by apply base_of_plain]. rewrite base_of_hex by done. f_equal.
      rewrite !elem_of_cons, elem_of_nil in Hp. by destruct Hp as [->|[->|[]]]. }
    assert (zero ∉ chars text) as Hz.
    { rewrite Ht, !elem_of_app. intros [Hin|[Hin|[Hin|Hin]]].
      - by apply (proj1 (Forall_forall _ _) Hb) in Hin.
      - destruct Hs as [->|[-> _]]; [destruct minus|]; set_solver.
      - destruct Hbase as [[Hp _]|[-> _]]; [|set_solver]. rewrite !elem_of_cons, elem_of_nil in Hp.
        destruct Hp as [->|[->|[]]]; cbn in Hin; set_solver.
      - apply (proj1 (Forall_forall _ _) Hds) in Hin as (d & E & _). done. }
    split. { intros ->. cbn in Ht. destruct blanks, sign, prefix, ds; done. }
    rewrite c_str_id by done. unfold CNum.strtol_exact, CStr.size. rewrite Ht.
    assert (CNum.spaces (blanks ++ sign ++ prefix ++ ds) = length blanks) as ->.
    { rewrite Hcl. destruct Hs as [->|[-> _]]; [destruct minus|]; cbn [app]; by apply spaces_app. }
    rewrite drop_app_length.
    assert (CNum.sign_of (sign ++ prefix ++ ds) = (minus, length sign)) as ->.
    { rewrite Hcl. destruct Hs as [->|[-> ->]]; [destruct minus|]; done. }
    rewrite drop_app_length, Hbo, drop_app_length, digits_all by done. fold (worth base ds).
    destruct (decide _) as [E|_]; [destruct ds; cbn in E; (done || lia)|]. f_equal. rewrite !length_app. lia.
  - intros [Hne E].
    assert (exists k, chars (CStr.c_str text) = take k (chars text)) as [k Hk]
      by (unfold CStr.c_str; rewrite CStr.chars_of_chars; eauto).
    unfold CNum.strtol_exact in E. set (l := chars (CStr.c_str text)) in *.
    pose proof (spaces_split l) as Hb. pose proof (take_drop (CNum.spaces l) l) as Hl.
    pose proof (spaces_le l) as Hsp.
    destruct (CNum.sign_of (drop (CNum.spaces l) l)) as [neg sg] eqn:Hsg.
    apply sign_of_split in Hsg as (sign & l2 & El2 & Hsign & <-). rewrite El2, drop_app_length in E.
    destruct (CNum.base_of 0 l2) as [b pre] eqn:Hbase. apply base_of_cases in Hbase.
    destruct (CNum.digits b (drop pre l2) 0 0) as [v n] eqn:Hd.
    apply digits_worth in Hd as (ds & rest & Hrest & -> & Hds & ->). fold (worth b ds) in E.
    assert (exists prefix, l2 = prefix ++ ds ++ rest /\ length prefix = pre /\
      (prefix ∈ [chars "0x"; chars "0X"] /\ b = 16 \/
       prefix = [] /\ b = (if bool_decide (head (ds ++ rest) = Some "0"%char) then 8 else 10))) as (prefix & -> & <- & Hp).
    { destruct Hbase as [(prefix & l' & Hp & -> & -> & ->)|[-> ->]].
      - exists prefix. assert (length prefix = 2%nat) as Hlen.
        { rewrite !elem_of_cons, elem_of_nil in Hp. by destruct Hp as [->|[->|[]]]. }
        rewrite <- Hlen, drop_app_length in Hrest. subst l'. auto.
      - rewrite drop_0 in Hrest. exists []. rewrite <- Hrest. auto. }
    destruct (decide _) as [Hn|Hn].
    { exfalso. injection E as _ E. apply Hne, CStr.chars_inj. destruct (chars text) eqn:Et; [done|].
      unfold CStr.size in E. by rewrite Et in E. }
    injection E as <- E. assert (ds <> []) as Hds0 by (intros ->; cbn in Hn; lia).
    assert (take (CNum.spaces l) l ++ sign ++ prefix ++ ds ++ rest = take k (chars text)) as Hall
      by (rewrite <- El2, Hl; exact Hk).
    pose proof (f_equal length Hall) as Hlen. rewrite !length_app, !length_take in Hlen.
    unfold CStr.size in E. assert (rest = []) as -> by (destruct rest; [done|cbn [length] in Hlen; lia]).
    rewrite (take_ge (chars text) k) in Hall by (cbn [length] in Hlen; lia). rewrite !app_nil_r in *.
    eapply (denotes_intro text _ (take (CNum.spaces l) l) neg sign prefix ds b); eauto.
Qed.

(** *** What the conversions make of them *)
Lemma denotes_not text : text <> "" -> (forall z, ~ denotes text z) ->
  (CNum.strtol_exact 0 (CStr.c_str text)).2 <> CStr.size text.
Proof.
  intros Hne Hno E. destruct (CNum.strtol_exact 0 (CStr.c_str text)) as [z n] eqn:Es. cbn in E. subst n.
  apply (Hno z). by apply denotes_strtol.
Qed.
Lemma denotes_dec text : (exists z, denotes text z) \/ forall z, ~ denotes text z.
Proof.
  destruct (CNum.strtol_exact 0 (CStr.c_str text)) as [z n] eqn:E.
  destruct (decide (text <> "" /\ n = CStr.size text)) as [[Hne ->]|Hno].
  - left. exists z. by apply denotes_strtol.
  - right. intros z' [Hne E']%denotes_strtol. apply Hno. rewrite E in E'. by injection E' as _ ->.
Qed.
Lemma denotes_assign text z : denotes text z ->
  int_assign text = (if CInt.in_int z then Some z else None) /\
  forall bits, 0 <= bits -> unsigned_assign bits text =
    (let ull := if ULONG_MAX <? Z.abs z then ULONG_MAX else z mod 2 ^ 64 in
     if ull <? 2 ^ bits then Some ull else None).
Proof.
  intros [Hne E]%denotes_strtol.
  unfold int_assign, unsigned_assign, int_conversion, unsigned_conversion, strtoll0, strtoull0.
  destruct (String.eqb_spec text "") as [|_]; [done|]. rewrite E, bool_decide_eq_true_2 by done. cbn [andb]. split.
  - destruct (CInt.in_int z) eqn:Hz.
    + apply CInt.in_int_spec in Hz. unfold CNum.clamp_long, CInt.INT_MIN, CInt.INT_MAX, CInt.LONG_MIN, CInt.LONG_MAX in *.
      rewrite Z.min_r, Z.max_r by lia.
      rewrite CInt.to_int_id by (unfold CInt.INT_MIN, CInt.INT_MAX; lia). by rewrite Z.eqb_refl.
    + destruct (Z.eqb_spec (CInt.to_int (CNum.clamp_long z)) (CNum.clamp_long z)) as [Heq|]; [|done]. exfalso.
      pose proof (CInt.to_int_range (CNum.clamp_long z)) as Hr. rewrite Heq in Hr.
      apply not_true_iff_false in Hz. apply Hz, CInt.in_int_spec.
      unfold CNum.clamp_long, CInt.INT_MIN, CInt.INT_MAX, CInt.LONG_MIN, CInt.LONG_MAX in *. lia.
  - intros bits Hbits. cbv zeta. set (ull := if ULONG_MAX <? Z.abs z then ULONG_MAX else z mod 2 ^ 64).
    assert (0 <= ull) as Hu by (subst ull; destruct (_ <? _); [done|by apply Z.mod_pos_bound]).
    assert (0 < 2 ^ bits) by (by apply Z.pow_pos_nonneg).
    destruct (Z.ltb_spec ull (2 ^ bits)) as [Hlt|Hge]; [by rewrite Z.mod_small, Z.eqb_refl|].
    pose proof (Z.mod_pos_bound ull (2 ^ bits) ltac:(done)).
    destruct (Z.eqb_spec (ull mod 2 ^ bits) ull); [lia|done].
Qed.
Lemma not_denotes_assign text : text <> "" -> (forall z, ~ denotes text z) ->
  int_assign text = None /\ forall bits, unsigned_assign bits text = None.
Proof.
  intros Hne Hno. pose proof (denotes_not text Hne Hno) as Hn.
  unfold int_assign, unsigned_assign, int_conversion, unsigned_conversion, strtoll0, strtoull0.
  destruct (String.eqb_spec text "") as [|_]; [done|].
  destruct (CNum.strtol_exact 0 (CStr.c_str text)) as [v n]. by rewrite bool_decide_eq_false_2.
Qed.

(** A text gives an integer: the one it denotes, and zero if it is empty. *)
Definition gives (text : string) (z : Z) : Prop := text = "" /\ z = 0 \/ denotes text z.
(** An integer in 64 unsigned bits: modulo 2^64, and the largest when it is too long. *)
Definition in_u64 (z : Z) : Z := if 2 ^ 64 <=? Z.abs z then 2 ^ 64 - 1 else z mod 2 ^ 64.

Lemma in_u64_model z : (if ULONG_MAX <? Z.abs z then ULONG_MAX else z mod 2 ^ 64) = in_u64 z.
Proof.
  unfold in_u64, ULONG_MAX. destruct (Z.ltb_spec (2 ^ 64 - 1) (Z.abs z)), (Z.leb_spec (2 ^ 64) (Z.abs z)); (done || lia).
Qed.
Lemma int_assign_spec text v : int_assign text = Some v <-> gives text v /\ CInt.INT_MIN <= v <= CInt.INT_MAX.
Proof.
  rewrite <- CInt.in_int_spec. split.
  - intros E. destruct (decide (text = "")) as [->|Hne]; [injection E as <-; split; [by left|done]|].
    destruct (denotes_dec text) as [[z Hz]|Hno]; [|by rewrite (proj1 (not_denotes_assign text Hne Hno)) in E].
    rewrite (proj1 (denotes_assign text z Hz)) in E. destruct (CInt.in_int z) eqn:Hr; [|done]. injection E as <-.
    split; [by right|done].
  - intros [[[-> ->]|Hz] Hr]; [done|]. by rewrite (proj1 (denotes_assign text v Hz)), Hr.
Qed.
Lemma unsigned_assign_spec bits text v : 0 <= bits ->
  unsigned_assign bits text = Some v <-> exists z, gives text z /\ v = in_u64 z /\ v < 2 ^ bits.
Proof.
  intros Hb. split.
  - intros E. destruct (decide (text = "")) as [->|Hne].
    { injection E as <-. exists 0. split; [by left|]. split; [done|]. by apply Z.pow_pos_nonneg. }
    destruct (denotes_dec text) as [[z Hz]|Hno]; [|by rewrite (proj2 (not_denotes_assign text Hne Hno)) in E].
    rewrite (proj2 (denotes_assign text z Hz)), in_u64_model in E by done. cbv zeta in E.
    destruct (Z.ltb_spec (in_u64 z) (2 ^ bits)); [|done]. injection E as <-. exists z. split; [by right|done].
  - intros (z & [[-> ->]|Hz] & -> & Hv); [done|].
    rewrite (proj2 (denotes_assign text z Hz)), in_u64_model by done. cbv zeta. by rewrite (proj2 (Z.ltb_lt _ _)).
Qed.

Section value_run.
Context {C A : Type} (name : string) (validate : string -> option string) (assign : string -> option A) (set : A -> C -> C).
Lemma value_run results c c' : opt_run (value name validate assign set) results c = inr c' <->
  exists text valid a, results = [text] /\ validate text = Some valid /\ assign valid = Some a /\ c' = set a c.
Proof.
  cbn. split.
  - destruct (mapM validate results) as [valid|] eqn:E; [|done]. apply mapM_Some in E.
    destruct E as [|text v results valid Hv [|]]; try done.
    destruct (assign v) as [a|] eqn:Ea; [|done]. intros [= <-]. by exists text, v, a.
  - intros (text & valid & a & -> & Hv & Ha & ->). cbn. rewrite Hv. cbn. by rewrite Ha.
Qed.
Lemma value_error results c e : opt_run (value name Some assign set) results c = inl e ->
  e = if bool_decide (length results = 1%nat) then ConversionError else ArgumentMismatch.
Proof.
  cbn. assert (mapM Some results = Some results) as ->.
  { apply mapM_Some. induction results; by constructor. }
  destruct results as [|text [|]]; [by intros [= <-]| |by intros [= <-]].
  destruct (assign text); [done|]. by intros [= <-].
Qed.
End value_run.

(** C12: what the options for integers accept, and that they assign it exactly. An
    int option succeeds for one text, the text of a C integer that fits into an int
    or the empty text, and assigns the integer, so that nothing wraps; everything
    else is refused, with a ConversionError, or an ArgumentMismatch when there is
    not exactly one text. A size takes any integer, but modulo 2^64 (so -1 is the
    largest size), and the largest size for a longer one. An unsigned int with a
    unit takes what its unit check left, and only when the 64-bit number fits into
    32 bits. *)
Theorem integer_options_exact {C} name mapping (set : Z -> C -> C) results c :
  (forall c', opt_run (int_option name set) results c = inr c' <->
     exists text z, results = [text] /\ gives text z /\ CInt.INT_MIN <= z <= CInt.INT_MAX /\ c' = set z c) /\
  (forall c', opt_run (size_option name set) results c = inr c' <->
     exists text z, results = [text] /\ gives text z /\ c' = set (in_u64 z) c) /\
  (forall c', opt_run (unsigned_unit_option name mapping set) results c = inr c' <->
     exists text number z, results = [text] /\ as_number_with_unit mapping text = Some number /\
       gives number z /\ in_u64 z < 2 ^ 32 /\ c' = set (in_u64 z) c) /\
  (forall e, opt_run (int_option name set) results c = inl e \/ opt_run (size_option name set) results c = inl e ->
     e = if bool_decide (length results = 1%nat) then ConversionError else ArgumentMismatch).
Proof.
  split; [|split; [|split]].
  - intros c'. unfold int_option. rewrite value_run. split.
    + intros (text & ? & z & -> & [= <-] & [Hg Hr]%int_assign_spec & ->). by exists text, z.
    + intros (text & z & -> & Hg & Hr & ->). exists text, text, z. by rewrite int_assign_spec.
  - intros c'. unfold size_option. rewrite value_run. split.
    + intros (text & ? & v & -> & [= <-] & (z & Hg & -> & _)%unsigned_assign_spec & ->); [|done]. by exists text, z.
    + intros (text & z & -> & Hg & ->). exists text, text, (in_u64 z). rewrite unsigned_assign_spec by done.
      split; [done|]. split; [done|]. split; [|done]. exists z. split; [done|]. split; [done|].
      unfold in_u64. destruct (_ <=? _); [done|]. by apply Z.mod_pos_bound.
  - intros c'. unfold unsigned_unit_option. rewrite value_run. split.
    + intros (text & number & v & -> & Hn & (z & Hg & -> & Hv)%unsigned_assign_spec & ->); [|done].
      by exists text, number, z.
    + intros (text & number & z & -> & Hn & Hg & Hv & ->). exists text, number, (in_u64 z).
      rewrite unsigned_assign_spec by done. repeat split; try done. by exists z.
  - intros e [E|E]; by apply value_error in E.
Qed.
Example integers_taken :
  int_assign " -0x7fffFFFF" = Some (- CInt.INT_MAX) /\ int_assign "2147483648" = None /\ int_assign "4294967297" = None /\
  int_assign "10 " = None /\ int_assign "08" = None /\ unsigned_assign 32 "4294967296" = None /\
  unsigned_assign 64 "-18446744073709551615" = Some 1.
Proof. vm_compute. done. Qed.

(** ** What an option makes of a printed value *)
Definition bool_text (b : bool) : string := if b then "true" else "false".
Section run.
Context {C : Type}.
Lemma run_strings name (set : list string -> C -> C) texts c :
  texts <> [] -> Z.of_nat (length texts) <= 2 ^ 29 -> opt_run (strings_option name set) texts c = inr (set texts c).
Proof. intros Ht Hl. cbn [opt_run strings_option]. by rewrite bool_decide_eq_false_2, (proj2 (Z.ltb_ge _ _)). Qed.
Lemma run_int name (set : Z -> C -> C) z c :
  CInt.in_int z = true -> opt_run (int_option name set) [CNum.to_string z] c = inr (set z c).
Proof. intros Hz. cbn. by rewrite int_assign_to_string. Qed.
Lemma run_unit name mapping (set : Z -> C -> C) z c :
  CInt.in_int z = true -> opt_run (unit_option name mapping set) [CNum.to_string z] c = inr (set z c).
Proof.
  intros Hz. cbn [opt_run unit_option value mapM]. rewrite as_number_with_unit_plain by done. cbn.
  by rewrite int_assign_to_string.
Qed.
Lemma run_flag name (set : bool -> C -> C) b c : opt_run (flag_option name set) [bool_text b] c = inr (set b c).
Proof. by destruct b. Qed.
End run.

Lemma process_callbacks_ext {C} (options : list (option_ C)) f g c :
  (forall key, f key = g key) -> process_callbacks options f c = process_callbacks options g c.
Proof.
  intros E. revert c. induction options as [|o options IH]; intros c; cbn; [done|]. rewrite E.
  destruct (g (opt_name o)); [done|]. destruct (opt_run _ _ _); [done|]. apply IH.
Qed.
Lemma process_callbacks_none {C} (options : list (option_ C)) c :
  process_callbacks options (fun _ => []) c = inr c.
Proof. by induction options. Qed.
End Cli.
