(* ===== verification/ConfigFile.v ===== *)
(** * Configuration files (Config.hpp, StringTools.hpp)

    How the text of the file behind --config becomes a list of items: the parsers an
    item goes down to, a name and its texts. The characters of the format are the
    ones of ConfigTOML, which the program does not change, and it selects no
    section of the file. *)

From Stdlib Require Import ZArith Lia Ascii String.
From stdpp Require Import prelude strings list.
From S2P Require Import Prelude Cli.

Module ConfigFile.
Local Open Scope string_scope.
Local Open Scope list_scope.
Local Open Scope nat_scope.
Import Cli.

Record config_item := mk_config_item {
  parents : list string; item_name : string; inputs : list string }.

(** ** Strings *)

Definition trim_copy (s : string) : string := of_chars (trim (chars s)).
Definition double_quote : char := ascii_of_nat 34.
Definition remove_quotes (str : string) : string :=
  match chars str with
  | c :: l => if bool_decide (c = double_quote \/ c = "'"%char) && bool_decide (l <> [] /\ last l = Some c)
              then of_chars (removelast l) else str
  | [] => str
  end.

(** Position of the quote that ends a text, and whether there were escaped ones. *)
Fixpoint closing_quote (key prev : char) (l : list char) (embedded : bool) : option nat * bool :=
  match l with
  | [] => (None, embedded)
  | c :: l' =>
      if bool_decide (c = key) && negb (bool_decide (prev = "\"%char)) then (Some 0, embedded)
      else let '(i, e) := closing_quote key c l' (embedded || bool_decide (c = key)) in (S <$> i, e)
  end.
(** [find_and_replace] of the escaped quote. *)
Fixpoint unescape (key : char) (l : list char) : list char :=
  match l with
  | "\"%char :: ((c :: l'') as l') => if bool_decide (c = key) then key :: unescape key l'' else "\"%char :: unescape key l'
  | c :: l' => c :: unescape key l'
  | [] => []
  end.

(** [split_up]; without a delimiter, blanks separate. A round takes a character at
    least, so the length is enough fuel ([split_up_total]). *)
Definition is_delimiter (delimiter : option char) (c : char) : bool :=
  match delimiter with None => CStr.isspace c | Some d => bool_decide (c = d) end.
Definition split_round (delimiter : option char) (c : char) (l : list char) : list char * list char :=
  if bool_decide (c = double_quote \/ c = "'"%char \/ c = "`"%char) then
    let '(close, embedded) := closing_quote c c l false in
    let '(text, rest) :=
      match close with
      | Some i => (take i l, drop (S (S i)) l)
      | None => (l, [])
      end in
    (if embedded then unescape c text else text, rest)
  else
    match CStr.index_where (is_delimiter delimiter) (c :: l) with
    | Some i => (take i (c :: l), drop (S i) (c :: l))
    | None => (c :: l, [])
    end.
Fixpoint split_up_loop (fuel : nat) (delimiter : option char) (str : list char) : option (list string) :=
  match str, fuel with
  | [], _ => Some []
  | _ :: _, O => None
  | c :: l, S fuel' =>
      let '(text, rest) := split_round delimiter c l in
      output ← split_up_loop fuel' delimiter (trim rest); Some (of_chars text :: output)
  end.
Definition split_up (delimiter : option char) (str : string) : option (list string) :=
  split_up_loop (CStr.size str) delimiter (trim (chars str)).

(** ** Sections *)
Definition generate_parents (section name : string) : list string * string :=
  let from_section :=
    if String.eqb (CStr.lowercase section) "default" then []
    else match CStr.find_char "." 0 section with Some _ => split section "." | None => [section] end in
  let '(from_name, name) :=
    match CStr.find_char "." 0 name with
    | Some _ => let plist := split name "." in (removelast plist, remove_quotes (default "" (last plist)))
    | None => ([], name)
    end in
  (remove_quotes <$> from_section ++ from_name, name).

(** The output in reverse, so that its head is what the code calls the back. The
    loops that leave sections repeat the last item with one parent less. *)
Fixpoint leave_sections (n : nat) (output : list config_item) : list config_item :=
  match n, output with
  | S n', back :: _ =>
      leave_sections n' (mk_config_item (removelast (parents back)) (item_name back) (inputs back) :: output)
  | _, _ => output
  end.
Definition enter_sections (from : nat) (ps : list string) (output : list config_item) : list config_item :=
  foldl (fun out ii => mk_config_item (take (S ii) ps) "++" [] :: out) output (seq from (length ps - 1 - from)).

(** Length of the common prefix. *)
Fixpoint common_prefix (a b : list string) : nat :=
  match a, b with
  | x :: a', y :: b' => if String.eqb x y then S (common_prefix a' b') else 0
  | _, _ => 0
  end.

Definition checkParentSegments (output : list config_item) (currentSection : string) : list config_item :=
  let ps := (generate_parents currentSection "").1 in
  let output :=
    match output with
    | back :: _ =>
        if String.eqb (item_name back) "--" then
          let msize := if 1 <? length ps then length ps else 2 in
          let output := leave_sections (S (length (parents back)) - msize) output in
          if 1 <? length ps then
            let last_parents := from_option parents [] (head output) in
            let mpair := length last_parents `min` (length ps - 1) in
            let common := common_prefix (take mpair last_parents) (take mpair ps) in
            let output :=
              if common =? mpair then tail output
              else leave_sections (length last_parents - (common + 1)) output in
            enter_sections common ps output
          else output
        else if 1 <? length ps then enter_sections 0 ps output else output
    | [] => if 1 <? length ps then enter_sections 0 ps output else output
    end in
  mk_config_item ps "++" [] :: output.

(** ** Lines *)
Definition strip_comment (item : string) : string :=
  match CStr.find_char "#" 0 item with
  | Some cloc => trim_copy (of_chars (take cloc (chars item)))
  | None => item
  end.

(** An array goes on until a line ends with its bracket. *)
Fixpoint read_array (item : list char) (lines : list (list char)) : list char * list (list char) :=
  match lines with
  | multiline :: lines' =>
      if bool_decide (last item = Some "]"%char) then (item, lines) else read_array (item ++ trim multiline) lines'
  | [] => (item, [])
  end.

(** The texts behind the delimiter, and the lines that are left. *)
Definition read_value (item : string) (lines : list (list char)) : option (list string) * list (list char) :=
  if bool_decide (1 < CStr.size item) && bool_decide (head (chars item) = Some "["%char) then
    let '(item, lines) := read_array (chars item) lines in
    (split_up (Some ","%char) (of_chars (take (length item - 2) (drop 1 item))), lines)
  else if bool_decide (","%char ∈ chars item) then (split_up (Some ","%char) item, lines)
  else if bool_decide (" "%char ∈ chars item) then (split_up None item, lines)
  else (Some [item], lines).

Definition maximumLayers : nat := 255.
Definition add_item (ps : list string) (name : string) (items : list string) (output : list config_item) : list config_item :=
  match output with
  | back :: output' =>
      if bool_decide (name = item_name back /\ ps = parents back)
      then mk_config_item (parents back) (item_name back) (inputs back ++ items) :: output'
      else mk_config_item ps name items :: output
  | [] => [mk_config_item ps name items]
  end.

(** The name in front of the delimiter and what belongs to it. *)
Definition read_item (line : list char) (lines : list (list char))
    : string * option (list string) * list (list char) :=
  match CStr.index_where (fun c => bool_decide (c = "="%char)) line with
  | Some pos =>
      let '(items, lines) := read_value (strip_comment (of_chars (trim (drop (S pos) line)))) lines in
      (of_chars (trim (take pos line)), items, lines)
  | None => (strip_comment (of_chars (trim line)), Some ["true"], lines)
  end.

(** Leaving the section that is open: its end, or the end of each of its parts. *)
Definition section_end (currentSection : string) : config_item :=
  mk_config_item (generate_parents currentSection "").1 "--" [].
Definition close_file (currentSection : string) (output : list config_item) : list config_item :=
  if String.eqb currentSection "default" then output
  else let item := section_end currentSection in leave_sections (length (parents item) - 1) (item :: output).

Definition open_section (line : list char) (currentSection : string) (output : list config_item)
    : string * list config_item :=
  let output := if String.eqb currentSection "default" then output else section_end currentSection :: output in
  let inner := take (length line - 2) (drop 1 line) in
  let inner :=
    if bool_decide (1 < length inner) && bool_decide (head inner = Some "["%char) && bool_decide (last inner = Some "]"%char)
    then take (length inner - 2) (drop 1 inner) else inner in
  let section := of_chars inner in
  if String.eqb (CStr.lowercase section) "default" then ("default", output)
  else (section, checkParentSegments output section).

(** [from_config]; a round takes a line at least. *)
Fixpoint from_lines (fuel : nat) (lines : list (list char)) (currentSection : string) (output : list config_item)
    : option (list config_item) :=
  match lines, fuel with
  | [], _ => Some (rev (close_file currentSection output))
  | _ :: _, O => None
  | line :: lines, S fuel' =>
      let line := trim line in
      if length line <? 3 then from_lines fuel' lines currentSection output
      else if bool_decide (head line = Some "["%char) && bool_decide (last line = Some "]"%char) then
        let '(currentSection, output) := open_section line currentSection output in
        from_lines fuel' lines currentSection output
      else if bool_decide (head line ∈ [Some ";"%char; Some "#"%char]) then from_lines fuel' lines currentSection output
      else
        let '(name, items, lines) := read_item line lines in
        items_buffer ← items;
        let name := match CStr.find_char "." 0 name with None => remove_quotes name | Some _ => name end in
        let '(ps, name) := generate_parents currentSection name in
        if maximumLayers <? length ps then from_lines fuel' lines currentSection output
        else from_lines fuel' lines currentSection (add_item ps name (remove_quotes <$> items_buffer) output)
  end.
Definition newline : char := ascii_of_nat 10.
Definition from_config (text : string) : option (list config_item) :=
  let lines := getlines newline (chars text) in from_lines (length lines) lines "default" [].
(** ** Examples *)
Definition nl : string := of_chars [newline].
Definition file (lines : list string) : string := of_chars (concat ((fun l => chars (l +:+ nl)) <$> lines)).
Definition quoted (s : string) : string := of_chars ([double_quote] ++ chars s ++ [double_quote]).

Example sections :
  from_config (file ["; comment"; "verbose"; "[generate]"; "num = 5 # five"; "output=[udp://a:1,"; " 'udp://b:2']"; "output=c";
                     "[file.send]"; "x=1"; "[file.receive]"; "y.z=2"]) =
  Some [mk_config_item [] "verbose" ["true"]; mk_config_item ["generate"] "++" [];
        mk_config_item ["generate"] "num" ["5"]; mk_config_item ["generate"] "output" ["udp://a:1"; "udp://b:2"; "c"];
        mk_config_item ["generate"] "--" []; mk_config_item ["file"] "++" []; mk_config_item ["file"; "send"] "++" [];
        mk_config_item ["file"; "send"] "x" ["1"]; mk_config_item ["file"; "send"] "--" [];
        mk_config_item ["file"; "receive"] "++" [];
        mk_config_item ["file"; "receive"; "y"] "z" ["2"]; mk_config_item ["file"; "receive"] "--" [];
        mk_config_item ["file"] "--" []].
Proof. vm_compute. reflexivity. Qed.
(** An array without its bracket loses its last character. *)
Example open_array : from_config (file ["num=[1,25"]) = Some [mk_config_item [] "num" ["1"; "2"]].
Proof. vm_compute. reflexivity. Qed.
Example quotes :
  split_up None (quoted "a b" +:+ " 'it\'s' c") = Some ["a b"; "it's"; "c"].
Proof. vm_compute. reflexivity. Qed.
(** ** Reading a file comes to an end *)
Lemma trim_length l : length (trim l) <= length l.
Proof.
  assert (Hl : forall l, length (ltrim l) <= length l) by (intros l'; unfold ltrim; rewrite length_drop; lia).
  unfold trim, rtrim. etransitivity; [apply Hl|]. rewrite length_rev. etransitivity; [apply Hl|]. by rewrite length_rev.
Qed.
Lemma split_round_length delimiter c l : length (split_round delimiter c l).2 <= length l.
Proof.
  unfold split_round. case_bool_decide.
  - destruct (closing_quote c c l false) as [[i|] e]; cbn [snd length]; [rewrite length_drop|]; lia.
  - destruct (CStr.index_where _ _) as [i|]; cbn [snd length]; [|lia]. rewrite skipn_cons, length_drop. lia.
Qed.
Lemma split_up_loop_total delimiter fuel : forall str, length str <= fuel -> is_Some (split_up_loop fuel delimiter str).
Proof.
  induction fuel as [|fuel IH]; intros [|c l] Hl; cbn [split_up_loop]; cbn in Hl; try done; [lia|].
  pose proof (split_round_length delimiter c l) as Hr. destruct (split_round delimiter c l) as [text rest].
  pose proof (trim_length rest). cbn [snd] in Hr. destruct (IH (trim rest)) as [out ->]; [lia|]. by eexists.
Qed.
Lemma split_up_total delimiter str : is_Some (split_up delimiter str).
Proof. apply split_up_loop_total, trim_length. Qed.

Lemma read_array_lines item lines : length (read_array item lines).2 <= length lines.
Proof.
  revert item. induction lines as [|l lines IH]; intros item; cbn [read_array]; [done|].
  case_bool_decide; [done|]. cbn [length]. specialize (IH (item ++ trim l)). lia.
Qed.
Lemma read_item_total line lines :
  let r := read_item line lines in is_Some r.1.2 /\ length r.2 <= length lines.
Proof.
  cbv zeta. unfold read_item. destruct (CStr.index_where _ _) as [pos|]; [|by split; [eexists|]].
  generalize (strip_comment (of_chars (trim (drop (S pos) line)))) as item. intros item. unfold read_value.
  pose proof (read_array_lines (chars item) lines) as Ha.
  repeat case_match; cbn [fst snd] in *; simplify_eq; auto using split_up_total; by split; [eexists|].
Qed.

Lemma from_lines_total fuel : forall lines section output,
  length lines <= fuel -> is_Some (from_lines fuel lines section output).
Proof.
  induction fuel as [|fuel IH]; intros [|line lines] section output Hl; cbn [from_lines]; cbn in Hl; try done; [lia|].
  destruct (_ <? 3); [apply IH; lia|]. destruct (_ && _).
  { destruct (open_section _ _ _) as [section' output']. apply IH. lia. }
  destruct (bool_decide _); [apply IH; lia|].
  destruct (read_item_total (trim line) lines) as [[items Hi] Hr].
  destruct (read_item (trim line) lines) as [[name items'] lines']. cbn [fst snd] in *. subst items'. cbn [mbind option_bind].
  destruct (generate_parents _ _) as [ps name1]. destruct (maximumLayers <? length ps); apply IH; lia.
Qed.
(** Every text is read to its end: the fuel is enough. *)
Lemma from_config_total text : is_Some (from_config text).
Proof. by apply from_lines_total. Qed.
(** ** A file of assignments *)

(** Characters of a name, and of a text that is read as it stands. *)
Definition name_char (c : char) : bool :=
  negb (CStr.isspace c) && negb (bool_decide (c ∈ [double_quote; "'"; "="; "."; "#"; ";"; "["]%char)).
Definition text_char (c : char) : bool :=
  negb (CStr.isspace c) && negb (bool_decide (c ∈ [double_quote; "'"; "#"; ","; "["]%char)).
Definition plain (P : char -> bool) (s : string) : bool := negb (String.eqb s "") && forallb P (chars s).
Definition assignment (e : string * string) : string := e.1 +:+ "=" +:+ e.2.
Definition plain_assignment (e : string * string) : bool := plain name_char e.1 && plain text_char e.2.

Lemma fields_sep sep a l : sep ∉ a -> fields sep (a ++ sep :: l) = a :: fields sep l.
Proof.
  induction a as [|c a IH]; intros Ha; cbn [app fields]; [by rewrite bool_decide_eq_true_2|].
  apply not_elem_of_cons in Ha as [Hc Ha]. by rewrite bool_decide_eq_false_2, IH.
Qed.
Lemma fields_file ls : Forall (fun l => newline ∉ chars l) ls ->
  fields newline (chars (file ls)) = map chars ls ++ [[]].
Proof.
  intros Hl. unfold file. rewrite CStr.chars_of_chars. induction Hl as [|l ls Hl _ IH]; [done|].
  cbn [fmap list_fmap concat map app]. rewrite CStr.chars_app, <- (assoc_L app).
  change (chars nl ++ concat ((fun l => chars (l +:+ nl)) <$> ls)) with (newline :: concat ((fun l => chars (l +:+ nl)) <$> ls)).
  by rewrite fields_sep, IH.
Qed.
Lemma getlines_file ls : Forall (fun l => newline ∉ chars l) ls -> getlines newline (chars (file ls)) = map chars ls.
Proof.
  intros Hl. unfold getlines. rewrite fields_file by done.
  rewrite bool_decide_eq_true_2 by apply last_snoc. apply removelast_last.
Qed.

Lemma plain_tight (P : char -> bool) s :
  (forall c, P c = true -> CStr.isspace c = false) -> plain P s = true -> s <> "" /\ tight (chars s) /\ Forall (fun c => P c = true) (chars s).
Proof.
  intros HP [Hs%negb_true_iff%String.eqb_neq Hf]%andb_true_iff. rewrite forallb_forall in Hf.
  repeat split; [done|apply Forall_forall; intros c Hc; apply HP|apply Forall_forall; intros c Hc]; apply Hf; by apply list_elem_of_In.
Qed.
Lemma find_char_absent c s : c ∉ chars s -> CStr.find_char c 0 s = None.
Proof. intros Hc. unfold CStr.find_char. rewrite drop_0, (proj2 (CStr.index_where_None _ _)); [done|]. by apply CStr.forallb_not_elem. Qed.
Lemma remove_quotes_plain s : double_quote ∉ chars s -> "'"%char ∉ chars s -> remove_quotes s = s.
Proof.
  intros H1 H2. unfold remove_quotes. destruct (chars s) as [|c l]; [done|].
  rewrite (bool_decide_eq_false_2 (c = _ \/ _)); [done|]. intros [->| ->]; [apply H1|apply H2]; by left.
Qed.
Lemma not_in_plain (P : char -> bool) c s : Forall (fun c => P c = true) (chars s) -> P c = false -> c ∉ chars s.
Proof. intros Hs Hc Hin. rewrite Forall_forall in Hs. specialize (Hs c Hin). congruence. Qed.

Lemma assignment_newline e : plain_assignment e = true -> newline ∉ chars (assignment e).
Proof.
  intros [(_ & _ & Hn)%plain_tight (_ & _ & Hv)%plain_tight]%andb_true_iff; [|intros c [?%negb_true_iff _]%andb_true_iff; done..].
  unfold assignment. rewrite !CStr.chars_app. intros [H|[H|H]%elem_of_app]%elem_of_app.
  - by apply (not_in_plain _ newline _ Hn).
  - by apply list_elem_of_singleton in H.
  - by apply (not_in_plain _ newline _ Hv).
Qed.

(** One line of a file of assignments. *)
Lemma read_assignment e lines : plain_assignment e = true ->
  trim (chars (assignment e)) = chars (assignment e) /\ 3 <= length (chars (assignment e)) /\
  (exists c, head (chars (assignment e)) = Some c /\ name_char c = true) /\
  read_item (chars (assignment e)) lines = (e.1, Some [e.2], lines) /\
  CStr.find_char "." 0 e.1 = None /\ remove_quotes e.1 = e.1 /\ remove_quotes e.2 = e.2.
Proof.
  destruct e as [n v]. intros [Hn Hv]%andb_true_iff. cbn [fst snd] in *.
  apply plain_tight in Hn as (Hn0 & Hnt & Hnf); [|intros c [?%negb_true_iff _]%andb_true_iff; done].
  apply plain_tight in Hv as (Hv0 & Hvt & Hvf); [|intros c [?%negb_true_iff _]%andb_true_iff; done].
  assert (Hc : chars (assignment (n, v)) = chars n ++ "="%char :: chars v) by (unfold assignment; by rewrite !CStr.chars_app).
  rewrite Hc. split; [apply trim_tight; apply Forall_app; split; [done|by constructor]|].
  split; [destruct n, v; [done..|]; rewrite length_app; cbn; lia|].
  split; [destruct n as [|c n]; [done|]; exists c; split; [done|by apply Forall_inv in Hnf]|].
  split.
  - unfold read_item. rewrite (index_where_app _ (chars n) "="%char (chars v)); [|eapply Forall_impl; [exact Hnf|]; intros c Hc'|done].
    + rewrite take_app_length, cons_middle, (assoc_L app), drop_app_length' by (rewrite length_app; cbn; lia).
      rewrite !trim_tight, !CStr.of_chars_chars by done.
      unfold strip_comment. rewrite find_char_absent by (by apply (not_in_plain _ _ _ Hvf)). unfold read_value.
      rewrite (bool_decide_eq_false_2 (head (chars v) = _)), andb_false_r.
      * rewrite !bool_decide_eq_false_2 by (by apply (not_in_plain _ _ _ Hvf)). done.
      * destruct v as [|c v]; [done|]. intros [= ->]. by apply Forall_inv in Hvf.
    + apply bool_decide_eq_false_2. intros ->. done.
  - split; [apply find_char_absent; by apply (not_in_plain _ _ _ Hnf)|].
    split; apply remove_quotes_plain; first [by apply (not_in_plain _ _ _ Hnf)|by apply (not_in_plain _ _ _ Hvf)].
Qed.
Lemma generate_parents_plain section name :
  CStr.find_char "." 0 name = None -> generate_parents section name = ((generate_parents section "").1, name).
Proof. intros H. unfold generate_parents. by rewrite H. Qed.

Definition item_of (ps : list string) (e : string * string) : config_item := mk_config_item ps e.1 [e.2].
(** Assignments to different names become an item each. *)
Lemma from_lines_assignments es : forall fuel section output ps,
  (generate_parents section "").1 = ps -> length ps <= maximumLayers ->
  Forall (fun e => plain_assignment e = true) es -> NoDup (es.*1) ->
  (forall back, head output = Some back -> item_name back ∉ es.*1) -> length es <= fuel ->
  from_lines fuel (map chars (assignment <$> es)) section output =
  Some (rev (close_file section (rev (item_of ps <$> es) ++ output))).
Proof.
  induction es as [|e es IH]; intros fuel section output ps Hps Hl Hes Hnd Hback Hf; [by destruct fuel|].
  destruct fuel as [|fuel]; cbn [length] in Hf; [lia|]. apply Forall_cons in Hes as [He Hes].
  cbn [fmap list_fmap map] in *. apply NoDup_cons in Hnd as [Hne Hnd].
  destruct (read_assignment e (map chars (assignment <$> es)) He) as (Ht & Hlen & (c & Hc & Hcc) & Hi & Hdot & Hq1 & Hq2).
  cbn [from_lines]. rewrite Ht, (proj2 (Nat.ltb_ge _ _)) by done. rewrite Hc.
  rewrite (bool_decide_eq_false_2 (Some c = _)) by (intros [= ->]; done). cbn [andb].
  rewrite bool_decide_eq_false_2 by (intros [[= ->]|[[= ->]|[]%elem_of_nil]%elem_of_cons]%elem_of_cons; done).
  rewrite Hi. cbn [mbind option_bind]. rewrite Hdot, Hq1, generate_parents_plain, Hps by done.
  rewrite (proj2 (Nat.ltb_ge _ _)) by done. cbn [fmap list_fmap]. rewrite Hq2.
  assert (add_item ps e.1 [e.2] output = item_of ps e :: output) as ->.
  { destruct output as [|back output]; [done|]. cbn [add_item]. rewrite bool_decide_eq_false_2; [done|].
    intros [Hn _]. apply (Hback back eq_refl). rewrite <- Hn. by left. }
  rewrite (IH fuel section (item_of ps e :: output) ps); [|done..| |lia].
  - cbn [rev]. by rewrite <- (assoc_L app).
  - intros back [= <-]. exact Hne.
Qed.

(** A file that assigns to the options of one section. *)
Definition section_file (section : string) (es : list (string * string)) : string :=
  file (("[" +:+ section +:+ "]") :: (assignment <$> es)).
Lemma from_config_section section es output ps :
  newline ∉ chars section -> section <> "" ->
  open_section (trim (chars ("[" +:+ section +:+ "]"))) "default" [] = (section, output) ->
  trim (chars ("[" +:+ section +:+ "]")) = chars ("[" +:+ section +:+ "]") ->
  (generate_parents section "").1 = ps -> length ps <= maximumLayers ->
  Forall (fun e => plain_assignment e = true) es -> NoDup (es.*1) ->
  (forall back, head output = Some back -> item_name back ∉ es.*1) ->
  from_config (section_file section es) = Some (rev (close_file section (rev (item_of ps <$> es) ++ output))).
Proof.
  intros Hn Hs0 Ho Ht Hps Hl Hes Hnd Hback. unfold from_config, section_file.
  rewrite getlines_file.
  2: { apply Forall_cons. split.
       - rewrite !CStr.chars_app. intros [H|[H|H]%elem_of_app]%elem_of_app; [by apply list_elem_of_singleton in H|done|by apply list_elem_of_singleton in H].
       - apply Forall_fmap. eapply Forall_impl; [exact Hes|]. apply assignment_newline. }
  cbn [map length from_lines]. rewrite Ht in Ho |- *.
  assert (Hc : chars ("[" +:+ section +:+ "]") = "["%char :: chars section ++ ["]"%char]) by (by rewrite !CStr.chars_app).
  assert (3 <= length (chars ("[" +:+ section +:+ "]"))) as Hlen by (rewrite Hc; destruct section; [done|]; cbn; rewrite length_app; cbn; lia).
  rewrite (proj2 (Nat.ltb_ge _ _)) by done. rewrite Ho.
  rewrite (bool_decide_eq_true_2 (head _ = _)) by (by rewrite Hc).
  rewrite (bool_decide_eq_true_2 (last _ = _)) by (by rewrite Hc, app_comm_cons, last_snoc). cbn [andb].
  apply from_lines_assignments; try done. by rewrite length_map, length_fmap.
Qed.
End ConfigFile.
