(* ===== verification/NetAddr.v ===== *)
(** * netaddr_any (netaddr_any.hpp)

    The union of sockaddr_in, sockaddr_in6 and sockaddr, byte by byte, in the
    Linux layout on a little-endian machine: sa_family at offset 0 (2 bytes),
    the port at offset 2 (2 bytes, network order), the IPv4 address at offset 4
    (4 bytes), the IPv6 address at offset 8 (16 bytes). *)

From Stdlib Require Import ZArith Lia Ascii String.
From stdpp Require Import prelude strings list.
From S2P Require Import Prelude.

Module NetAddr.
Local Open Scope Z_scope.

Definition AF_UNSPEC : Z := 0.
Definition AF_INET : Z := 2.
Definition AF_INET6 : Z := 10.

Definition sizeof_sockaddr : nat := 16.
Definition sizeof_sockaddr_in : nat := 16.
Definition sizeof_sockaddr_in6 : nat := 28.

(** *** Bytes *)
Definition byte_of (z : Z) : char := ascii_of_nat (Z.to_nat (z mod 256)).
Definition to_byte (c : char) : Z := Z.of_nat (nat_of_ascii c).
Definition zeros (n : nat) : list char := replicate n zero.
Definition byte_at (i : nat) (m : list char) : char := default zero (m !! i).

(** Writing [src] over the memory [m] from offset [off]. *)
Definition store (off : nat) (src m : list char) : list char :=
  take off m ++ src ++ drop (off + length src) m.
Definition load (off n : nat) (m : list char) : list char := take n (drop off m).

(** 16-bit values: host order (little endian) and network order. *)
Definition le16 (z : Z) : list char := [byte_of z; byte_of (z / 256)].
Definition be16 (z : Z) : list char := [byte_of (z / 256); byte_of z].
Definition get_le16 (off : nat) (m : list char) : Z :=
  to_byte (byte_at off m) + 256 * to_byte (byte_at (S off) m).
Definition get_be16 (off : nat) (m : list char) : Z :=
  to_byte (byte_at (S off) m) + 256 * to_byte (byte_at off m).

(** [memcpy(dst, source, n)]: [None] when fewer than [n] bytes are readable. *)
Definition memcpy (n : nat) (source dst : list char) : option (list char) :=
  if decide (n <= length source)%nat then Some (store 0 (take n source) dst) else None.

(** [memcmp] of two byte sequences of the same length. *)
Fixpoint memcmp (a b : list char) : comparison :=
  match a, b with
  | x :: a', y :: b' =>
      match Z.compare (to_byte x) (to_byte y) with Eq => memcmp a' b' | c => c end
  | _, _ => Eq
  end.

Record netaddr_any := mk_netaddr { storage : list char; len : Z }.

#[global] Instance netaddr_any_eq_dec : EqDecision netaddr_any.
Proof. solve_decision. Defined.

Definition storage_size : nat := sizeof_sockaddr_in6.
Definition sizeof_netaddr_any : Z := 32.

(** [sa.sa_family] of raw memory and of the union. *)
Definition sa_family (m : list char) : Z := get_le16 0 m.
Definition family (a : netaddr_any) : Z := sa_family (storage a).

Definition put_family (v : Z) (m : list char) : list char := store 0 (le16 v) m.

Definition reset (a : netaddr_any) : netaddr_any := mk_netaddr (zeros storage_size) 0.

Definition uninitialised : netaddr_any := mk_netaddr (zeros storage_size) 0.

(** [netaddr_any(int domain)]. *)
Definition of_domain (domain : Z) : netaddr_any :=
  let a := reset uninitialised in
  let fam := if (domain =? AF_INET) || (domain =? AF_INET6) then domain else AF_UNSPEC in
  mk_netaddr (put_family fam (storage a))
    (if domain =? AF_INET then Z.of_nat sizeof_sockaddr_in else Z.of_nat sizeof_sockaddr_in6).

(** [set(source)]: trusts the caller that the memory is large enough. *)
Definition set_sockaddr (source : list char) (a : netaddr_any) : option netaddr_any :=
  if sa_family source =? AF_INET then
    m ← memcpy sizeof_sockaddr_in source (storage a);
    Some (mk_netaddr m (Z.of_nat sizeof_sockaddr_in))
  else if sa_family source =? AF_INET6 then
    m ← memcpy sizeof_sockaddr_in6 source (storage a);
    Some (mk_netaddr m (Z.of_nat sizeof_sockaddr_in6))
  else Some (mk_netaddr (put_family AF_UNSPEC (storage a)) 0).

(** [set(source, namelen)]. *)
Definition set_sockaddr_len (source : list char) (namelen : Z) (a : netaddr_any)
  : option netaddr_any :=
  if (sa_family source =? AF_INET) && (Z.of_nat sizeof_sockaddr_in <=? namelen) then
    m ← memcpy sizeof_sockaddr_in source (storage a);
    Some (mk_netaddr m (Z.of_nat sizeof_sockaddr_in))
  else if (sa_family source =? AF_INET6) && (Z.of_nat sizeof_sockaddr_in6 <=? namelen) then
    m ← memcpy sizeof_sockaddr_in6 source (storage a);
    Some (mk_netaddr m (Z.of_nat sizeof_sockaddr_in6))
  else Some (reset a).

(** [netaddr_any(source, namelen)]; the constructor does not
    initialise the storage, whose previous content is [raw]. *)
Definition of_sockaddr (raw : netaddr_any) (source : list char) (namelen : Z)
  : option netaddr_any :=
  if namelen =? 0 then set_sockaddr source raw else set_sockaddr_len source namelen raw.

(** [netaddr_any(const sockaddr_storage&)]. *)
Definition of_storage (raw : netaddr_any) (stor : list char) : option netaddr_any :=
  set_sockaddr stor raw.

(** [set(const sockaddr_in&)] and [set(const sockaddr_in6&)]. *)
Definition set_in (in4 : list char) (a : netaddr_any) : option netaddr_any :=
  m ← memcpy sizeof_sockaddr_in in4 (storage a);
  Some (mk_netaddr m (Z.of_nat sizeof_sockaddr_in)).
Definition set_in6 (in6 : list char) (a : netaddr_any) : option netaddr_any :=
  m ← memcpy sizeof_sockaddr_in6 in6 (storage a);
  Some (mk_netaddr m (Z.of_nat sizeof_sockaddr_in6)).

(** [netaddr_any(const in_addr&, uint16_t)] and the IPv6 one, over the
    uninitialised storage [raw]. *)
Definition of_in_addr (raw : netaddr_any) (i4_adr : list char) (port : Z) : netaddr_any :=
  mk_netaddr (store 2 (be16 port) (store 4 i4_adr (put_family AF_INET (storage raw))))
    (Z.of_nat sizeof_sockaddr_in).
Definition of_in6_addr (raw : netaddr_any) (i6_adr : list char) (port : Z) : netaddr_any :=
  mk_netaddr (store 2 (be16 port) (store 8 i6_adr (put_family AF_INET6 (storage raw))))
    (Z.of_nat sizeof_sockaddr_in6).

(** [size(int family)] and [size()]. *)
Definition size_of (fam : Z) : Z :=
  if fam =? AF_INET then Z.of_nat sizeof_sockaddr_in
  else if fam =? AF_INET6 then Z.of_nat sizeof_sockaddr_in6
  else 0.
Definition size (a : netaddr_any) : Z := size_of (family a).

(** [family(int val)]. *)
Definition set_family (v : Z) (a : netaddr_any) : netaddr_any :=
  let m := put_family v (storage a) in mk_netaddr m (size_of (sa_family m)).

(** [r_port()], [hport()], [hport(int)]. *)
Definition r_port (a : netaddr_any) : Z := get_le16 2 (storage a).
Definition hport (a : netaddr_any) : Z := get_be16 2 (storage a).
Definition set_hport (value : Z) (a : netaddr_any) : netaddr_any :=
  mk_netaddr (store 2 (be16 value) (storage a)) (len a).

(** The address fields: sin_addr and sin6_addr. *)
Definition sin_addr (a : netaddr_any) : list char := load 4 4 (storage a).
Definition sin6_addr (a : netaddr_any) : list char := load 8 16 (storage a).

(** [get_addr()]: offset of the address inside the union, or NULL. *)
Definition get_addr (a : netaddr_any) : option nat :=
  if family a =? AF_INET then Some 4%nat
  else if family a =? AF_INET6 then Some 8%nat
  else None.

Definition empty (a : netaddr_any) : bool :=
  if family a =? AF_INET then
    (r_port a =? 0) && bool_decide (sin_addr a = zeros 4)
  else if family a =? AF_INET6 then
    (r_port a =? 0) && bool_decide (sin6_addr a = zeros 16)
  else true.

Definition isany (a : netaddr_any) : bool :=
  if family a =? AF_INET then bool_decide (sin_addr a = zeros 4)
  else if family a =? AF_INET6 then bool_decide (sin6_addr a = zeros 16)
  else false.

(** EqualAddress, Equal, operator==, operator!=. *)
Definition equal_address (c1 c2 : netaddr_any) : bool :=
  if family c1 =? AF_INET then bool_decide (sin_addr c1 = sin_addr c2)
  else if family c1 =? AF_INET6 then bool_decide (sin6_addr c1 = sin6_addr c2)
  else false.
Definition equal (c1 c2 : netaddr_any) : bool :=
  if negb (family c1 =? family c2) then false
  else (r_port c1 =? r_port c2) && equal_address c1 c2.
Definition not_equal (c1 c2 : netaddr_any) : bool := negb (equal c1 c2).

(** The part of the union an address of the family occupies. *)
Definition address_bytes (a : netaddr_any) : list char :=
  if family a =? AF_INET then sin_addr a else sin6_addr a.

(** The object representation compared by [Less]: the union, then [len]. *)
Definition le32 (z : Z) : list char :=
  [byte_of z; byte_of (z / 2 ^ 8); byte_of (z / 2 ^ 16); byte_of (z / 2 ^ 24)].
Definition object_bytes (a : netaddr_any) : list char := storage a ++ le32 (len a).
Definition less (c1 c2 : netaddr_any) : bool :=
  match memcmp (object_bytes c1) (object_bytes c2) with Lt => true | _ => false end.

(** *** Lemmas on bytes *)
Lemma to_byte_of z : to_byte (byte_of z) = z mod 256.
Proof.
  unfold to_byte, byte_of. pose proof (Z.mod_pos_bound z 256 eq_refl).
  rewrite nat_ascii_embedding; lia.
Qed.

Lemma to_byte_range c : 0 <= to_byte c < 256.
Proof. unfold to_byte. pose proof (nat_ascii_bounded c). lia. Qed.

Lemma to_byte_inj c d : to_byte c = to_byte d -> c = d.
Proof.
  unfold to_byte. intros H. rewrite <- (ascii_nat_embedding c), <- (ascii_nat_embedding d).
  f_equal. lia.
Qed.

Lemma lookup_store off src m i :
  (off + length src <= length m)%nat ->
  store off src m !! i =
    if decide (off <= i < off + length src)%nat then src !! (i - off)%nat else m !! i.
Proof.
  intros Hlen. unfold store.
  assert (length (take off m) = off) as Htk by (rewrite length_take; lia).
  destruct (decide (i < off)%nat) as [Hi|Hi].
  { rewrite lookup_app_l by lia. rewrite lookup_take_lt by lia.
    by rewrite decide_False by lia. }
  rewrite lookup_app_r, Htk by lia.
  case_decide.
  - by rewrite lookup_app_l by lia.
  - rewrite lookup_app_r by lia. rewrite lookup_drop. f_equal. lia.
Qed.

Lemma length_store off src m :
  (off + length src <= length m)%nat -> length (store off src m) = length m.
Proof. intros. unfold store. rewrite !length_app, length_take, length_drop. lia. Qed.

Lemma byte_at_store off src m i :
  (off + length src <= length m)%nat ->
  byte_at i (store off src m) =
    if decide (off <= i < off + length src)%nat then byte_at (i - off) src else byte_at i m.
Proof. intros. unfold byte_at. rewrite lookup_store by done. by case_decide. Qed.

Lemma lookup_load off n m i :
  load off n m !! i = if decide (i < n)%nat then m !! (off + i)%nat else None.
Proof.
  unfold load. case_decide.
  - by rewrite lookup_take_lt, lookup_drop by lia.
  - by rewrite lookup_take_ge by lia.
Qed.

(** A load disjoint from a store is not affected by it. *)
Lemma load_store_disjoint off n off' src m :
  (off' + length src <= length m)%nat ->
  (off + n <= off' \/ off' + length src <= off)%nat ->
  load off n (store off' src m) = load off n m.
Proof.
  intros Hlen Hdis. apply list_eq. intros i. rewrite !lookup_load. case_decide; [|done].
  rewrite lookup_store by done. case_decide; [lia|done].
Qed.

Lemma load_store_same off src m :
  (off + length src <= length m)%nat -> load off (length src) (store off src m) = src.
Proof.
  intros Hlen. apply list_eq. intros i. rewrite lookup_load. case_decide as Hi.
  - rewrite lookup_store by done. rewrite decide_True by lia. f_equal. lia.
  - symmetry. apply lookup_ge_None. lia.
Qed.

Lemma get_le16_put v m :
  (2 <= length m)%nat -> get_le16 0 (put_family v m) = v mod 2 ^ 16.
Proof.
  intros. unfold get_le16, put_family. rewrite !byte_at_store by (simpl; lia).
  rewrite !decide_True by (simpl; lia). change (byte_at (0 - 0) (le16 v)) with (byte_of v).
  change (byte_at (1 - 0) (le16 v)) with (byte_of (v / 256)). rewrite !to_byte_of. change (2 ^ 16) with (256 * 256).
  rewrite Z.rem_mul_r by lia. done.
Qed.

Lemma sa_family_put v m :
  (2 <= length m)%nat -> 0 <= v < 2 ^ 16 -> sa_family (put_family v m) = v.
Proof. intros. unfold sa_family. rewrite get_le16_put by done. by apply Z.mod_small. Qed.

Lemma get_be16_put v m :
  (4 <= length m)%nat -> get_be16 2 (store 2 (be16 v) m) = v mod 2 ^ 16.
Proof.
  intros. unfold get_be16. rewrite !byte_at_store by (simpl; lia).
  rewrite !decide_True by (simpl; lia). change (byte_at (2 - 2) (be16 v)) with (byte_of (v / 256)).
  change (byte_at (3 - 2) (be16 v)) with (byte_of v). rewrite !to_byte_of. change (2 ^ 16) with (256 * 256).
  rewrite Z.rem_mul_r by lia. done.
Qed.

Lemma sa_family_store off src m :
  (2 <= off)%nat -> (off + length src <= length m)%nat ->
  sa_family (store off src m) = sa_family m.
Proof.
  intros. unfold sa_family, get_le16. rewrite !byte_at_store by done.
  by rewrite !decide_False by lia.
Qed.

Lemma sa_family_range m : 0 <= sa_family m < 2 ^ 16.
Proof.
  unfold sa_family, get_le16.
  pose proof (to_byte_range (byte_at 0 m)). pose proof (to_byte_range (byte_at 1 m)). lia.
Qed.

(** *** The invariant of an address object *)
Definition is_ip (a : netaddr_any) : bool :=
  (family a =? AF_INET) || (family a =? AF_INET6).
Definition wf (a : netaddr_any) : Prop :=
  length (storage a) = storage_size /\ (is_ip a = true -> len a = size a) /\
  (is_ip a = false -> len a = 0 \/ len a = Z.of_nat storage_size).

Lemma length_zeros n : length (zeros n) = n.
Proof. apply length_replicate. Qed.

Lemma wf_reset a : wf (reset a).
Proof. split; [done|]. split; [by vm_compute|]. by left. Qed.

Lemma wf_of_domain d : wf (of_domain d).
Proof.
  unfold of_domain, AF_INET, AF_INET6.
  destruct (Z.eqb_spec d 2) as [->|]; [by repeat split; vm_compute|].
  destruct (Z.eqb_spec d 10) as [->|]; [by repeat split; vm_compute|]. cbn [orb].
  split; [done|]. split; [by vm_compute|]. by right.
Qed.

Lemma memcpy_Some n source m m' :
  memcpy n source m = Some m' -> (n <= length m)%nat ->
  length m' = length m /\ take n m' = take n source /\ (n <= length source)%nat.
Proof.
  unfold memcpy. case_decide as Hn; [|done]. intros [= <-] Hm.
  assert (length (take n source) = n) as Hl by (rewrite length_take; lia).
  split; [apply length_store; lia|]. split; [|done].
  pose proof (load_store_same 0 (take n source) m ltac:(lia)) as Hs.
  rewrite Hl in Hs. exact Hs.
Qed.

Lemma sa_family_take n (m m' : list char) :
  (2 <= n)%nat -> take n m = take n m' -> sa_family m = sa_family m'.
Proof.
  intros Hn Heq. unfold sa_family, get_le16, byte_at.
  by rewrite <- !(lookup_take_lt m n), <- !(lookup_take_lt m' n), Heq by lia.
Qed.

(** What the three copying setters have in common. *)
Lemma memcpy_wf n source a m fam :
  memcpy n source (storage a) = Some m -> length (storage a) = storage_size ->
  (n <= storage_size)%nat -> (2 <= n)%nat -> sa_family source = fam ->
  wf (mk_netaddr m (size_of fam)) /\ sa_family m = fam.
Proof.
  intros Hm Hst Hle Hn Hfam.
  apply memcpy_Some in Hm as (Hlm & Htake & ?); [|lia].
  assert (sa_family m = fam) as Hf by (rewrite <- Hfam; by apply (sa_family_take n)).
  split; [|done]. split; [simpl; congruence|]. unfold is_ip, size, family. simpl. rewrite Hf. split; [done|].
  unfold size_of. destruct (_ =? AF_INET); [done|]. destruct (_ =? AF_INET6); [done|]. by left.
Qed.

Lemma wf_set_sockaddr source a a' :
  length (storage a) = storage_size -> set_sockaddr source a = Some a' -> wf a'.
Proof.
  intros Hst. unfold set_sockaddr.
  destruct (Z.eqb_spec (sa_family source) AF_INET) as [E|_].
  { destruct (memcpy _ _ _) as [m|] eqn:Hm; [|done]. intros [= <-].
    eapply (memcpy_wf _ _ _ _ AF_INET) in Hm as [? _]; [done|done|vm_compute; lia|vm_compute; lia|done]. }
  destruct (Z.eqb_spec (sa_family source) AF_INET6) as [E|_].
  { destruct (memcpy _ _ _) as [m|] eqn:Hm; [|done]. intros [= <-].
    eapply (memcpy_wf _ _ _ _ AF_INET6) in Hm as [? _]; [done|done|vm_compute; lia|vm_compute; lia|done]. }
  intros [= <-]. unfold put_family.
  assert (2 <= length (storage a))%nat by (rewrite Hst; vm_compute; lia).
  split; cbn [storage]; [by rewrite length_store|].
  unfold is_ip, family. cbn [storage].
  change (store 0 (le16 AF_UNSPEC)) with (put_family AF_UNSPEC); rewrite sa_family_put by done.
  split; [done|]. by left.
Qed.

Lemma wf_set_sockaddr_len source n a a' :
  length (storage a) = storage_size -> set_sockaddr_len source n a = Some a' -> wf a'.
Proof.
  intros Hst. unfold set_sockaddr_len.
  destruct ((sa_family source =? AF_INET) && _) eqn:E1.
  { apply andb_true_iff in E1 as [E _]. intros H. apply (wf_set_sockaddr source a); [done|].
    apply Z.eqb_eq in E. unfold set_sockaddr. by rewrite E. }
  destruct ((sa_family source =? AF_INET6) && _) eqn:E2.
  { apply andb_true_iff in E2 as [E _]. intros H. apply (wf_set_sockaddr source a); [done|].
    apply Z.eqb_eq in E. unfold set_sockaddr. by rewrite E. }
  intros [= <-]. apply wf_reset.
Qed.

(** An address whose length is the size of its family. *)
Lemma wf_sized m : length m = storage_size -> wf (mk_netaddr m (size_of (sa_family m))).
Proof.
  intros Hm. split; [done|]. split; [done|]. unfold is_ip, family, size_of. cbn [storage len].
  destruct (_ =? AF_INET); [done|]. destruct (_ =? AF_INET6); [done|]. by left.
Qed.
Lemma wf_set_family v a :
  length (storage a) = storage_size -> wf (set_family v a).
Proof.
  intros Hst. apply wf_sized. unfold put_family. rewrite length_store; [done|]. rewrite Hst. vm_compute. lia.
Qed.
Lemma wf_of_in_addr raw i4 port :
  length (storage raw) = storage_size -> length i4 = 4%nat -> wf (of_in_addr raw i4 port).
Proof.
  intros Hr Hi. unfold of_in_addr. set (m := store 2 _ _).
  assert (length (put_family AF_INET (storage raw)) = storage_size) as H1
    by (unfold put_family; rewrite length_store; [done|rewrite Hr; vm_compute; lia]).
  assert (length (store 4 i4 (put_family AF_INET (storage raw))) = storage_size) as H2
    by (rewrite length_store; [done|rewrite H1, Hi; vm_compute; lia]).
  assert (sa_family m = AF_INET) as Hf.
  { unfold m. rewrite sa_family_store by (rewrite ?H2; vm_compute; lia).
    rewrite sa_family_store by (rewrite ?H1, ?Hi; vm_compute; lia).
    apply sa_family_put; [rewrite Hr; vm_compute; lia|done]. }
  change (Z.of_nat sizeof_sockaddr_in) with (size_of AF_INET). rewrite <- Hf. apply wf_sized.
  unfold m. rewrite length_store; [done|]. rewrite H2. vm_compute. lia.
Qed.
Lemma wf_of_in6_addr raw i6 port :
  length (storage raw) = storage_size -> length i6 = 16%nat -> wf (of_in6_addr raw i6 port).
Proof.
  intros Hr Hi. unfold of_in6_addr. set (m := store 2 _ _).
  assert (length (put_family AF_INET6 (storage raw)) = storage_size) as H1
    by (unfold put_family; rewrite length_store; [done|rewrite Hr; vm_compute; lia]).
  assert (length (store 8 i6 (put_family AF_INET6 (storage raw))) = storage_size) as H2
    by (rewrite length_store; [done|rewrite H1, Hi; vm_compute; lia]).
  assert (sa_family m = AF_INET6) as Hf.
  { unfold m. rewrite sa_family_store by (rewrite ?H2; vm_compute; lia).
    rewrite sa_family_store by (rewrite ?H1, ?Hi; vm_compute; lia).
    apply sa_family_put; [rewrite Hr; vm_compute; lia|done]. }
  change (Z.of_nat sizeof_sockaddr_in6) with (size_of AF_INET6). rewrite <- Hf. apply wf_sized.
  unfold m. rewrite length_store; [done|]. rewrite H2. vm_compute. lia.
Qed.
(** The setters that copy a whole structure look at no family. *)
Lemma wf_set_in in4 a b :
  length (storage a) = storage_size -> set_in in4 a = Some b -> wf b <-> sa_family in4 = AF_INET.
Proof.
  intros Hst. unfold set_in. destruct (memcpy _ _ _) as [m|] eqn:Hm; [|done]. intros [= <-].
  pose proof Hm as Hc. apply (memcpy_wf _ _ _ _ (sa_family in4)) in Hc as [Hwf Hf]; [|done|vm_compute; lia|vm_compute; lia|done].
  split; [|by intros E; rewrite E in Hwf]. intros (_ & Hip & Hno). unfold is_ip, size, family, size_of in Hip, Hno.
  cbn [storage len] in Hip, Hno. rewrite Hf in Hip, Hno.
  destruct (Z.eqb_spec (sa_family in4) AF_INET); [done|].
  destruct (Z.eqb_spec (sa_family in4) AF_INET6); [discriminate (Hip eq_refl)|]. destruct (Hno eq_refl) as [E|E]; discriminate E.
Qed.
Lemma wf_set_in6 in6 a b :
  length (storage a) = storage_size -> set_in6 in6 a = Some b -> wf b <-> sa_family in6 <> AF_INET.
Proof.
  intros Hst. unfold set_in6. destruct (memcpy _ _ _) as [m|] eqn:Hm; [|done]. intros [= <-].
  pose proof Hm as Hc. apply (memcpy_wf _ _ _ _ (sa_family in6)) in Hc as [(Hl & _) Hf]; [|done|vm_compute; lia|vm_compute; lia|done].
  unfold wf, is_ip, size, family. cbn [storage len] in *. rewrite Hf. unfold size_of.
  destruct (Z.eqb_spec (sa_family in6) AF_INET) as [->|Hne].
  - split; [|done]. intros (_ & Hip & _). by specialize (Hip eq_refl).
  - split; [done|]. intros _. split; [done|]. by destruct (Z.eqb_spec (sa_family in6) AF_INET6) as [_|_]; split; auto.
Qed.

Lemma store_port_fields v m :
  length m = storage_size ->
  sa_family (store 2 (be16 v) m) = sa_family m /\
  load 4 4 (store 2 (be16 v) m) = load 4 4 m /\
  load 8 16 (store 2 (be16 v) m) = load 8 16 m.
Proof.
  intros Hm. assert (2 + length (be16 v) <= length m)%nat by (rewrite Hm; unfold storage_size, sizeof_sockaddr_in6; simpl; lia).
  rewrite sa_family_store, !load_store_disjoint by (simpl in *; lia). done.
Qed.

Lemma wf_set_hport v a : wf a -> wf (set_hport v a).
Proof.
  intros [Hst Hlen]. destruct (store_port_fields v (storage a) Hst) as (Hf & _).
  split; [cbn [storage set_hport]; rewrite length_store; [done|]; rewrite Hst; vm_compute; lia|].
  unfold is_ip, size, family in *. cbn [storage set_hport len]. by rewrite Hf.
Qed.

(** What the constructors and the setters can make. The constructors but one leave
    the storage as it was, [raw]; the setters for a sockaddr_in and a sockaddr_in6
    are used for one of that family. *)
Inductive built : netaddr_any -> Prop :=
| built_domain domain : built (of_domain domain)
| built_sockaddr raw source namelen a :
    length (storage raw) = storage_size -> of_sockaddr raw source namelen = Some a -> built a
| built_storage raw stor a : length (storage raw) = storage_size -> of_storage raw stor = Some a -> built a
| built_in_addr raw i4 port :
    length (storage raw) = storage_size -> length i4 = 4%nat -> built (of_in_addr raw i4 port)
| built_in6_addr raw i6 port :
    length (storage raw) = storage_size -> length i6 = 16%nat -> built (of_in6_addr raw i6 port)
| built_reset a : built a -> built (reset a)
| built_set a source b : built a -> set_sockaddr source a = Some b -> built b
| built_set_len a source namelen b : built a -> set_sockaddr_len source namelen a = Some b -> built b
| built_set_in a in4 b : built a -> sa_family in4 = AF_INET -> set_in in4 a = Some b -> built b
| built_set_in6 a in6 b : built a -> sa_family in6 = AF_INET6 -> set_in6 in6 a = Some b -> built b
| built_family a v : built a -> built (set_family v a)
| built_hport a v : built a -> built (set_hport v a).

Lemma built_wf a : built a -> wf a.
Proof.
  induction 1; eauto using wf_of_domain, wf_reset, wf_of_in_addr, wf_of_in6_addr, wf_set_hport.
  - unfold of_sockaddr in *. destruct (namelen =? 0); eauto using wf_set_sockaddr, wf_set_sockaddr_len.
  - by eapply wf_set_sockaddr.
  - eapply wf_set_sockaddr; [apply IHbuilt|done].
  - eapply wf_set_sockaddr_len; [apply IHbuilt|done].
  - by eapply wf_set_in; [apply IHbuilt|..].
  - eapply wf_set_in6; [apply IHbuilt|done|]. by rewrite H0.
  - apply wf_set_family, IHbuilt.
Qed.

(** C20: every address that the constructors and the setters can make, in any order,
    is a union of 28 bytes with a length that is fit for bind, connect and accept:
    the size of the sockaddr of the family when that is IPv4 or IPv6, and otherwise
    0 or 28. The two setters that copy a whole sockaddr_in or sockaddr_in6 look at no
    family, and keep the invariant exactly when it is the right one: set(sockaddr_in)
    for IPv4 only, set(sockaddr_in6) for all but IPv4. *)
Theorem netaddr_invariant a :
  built a ->
  wf a /\
  (forall in4 b, set_in in4 a = Some b -> wf b <-> sa_family in4 = AF_INET) /\
  (forall in6 b, set_in6 in6 a = Some b -> wf b <-> sa_family in6 <> AF_INET).
Proof.
  intros Ha%built_wf. split; [done|]. destruct Ha as [Hst _]. split; intros source b.
  - by apply wf_set_in.
  - by apply wf_set_in6.
Qed.
Lemma netaddr_invariant_witness :
  let a := set_hport 4200 (of_in_addr uninitialised (byte_of <$> [127; 0; 0; 1]) 80) in wf a /\ len a = 16.
Proof.
  cbv zeta. refine (conj (proj1 (netaddr_invariant _ _)) eq_refl). by apply built_hport, built_in_addr.
Defined.

(** Reading the fields back after [hport(int)]. *)
Lemma set_hport_fields a v :
  length (storage a) = storage_size ->
  hport (set_hport v a) = CInt.to_u16 v /\
  family (set_hport v a) = family a /\
  sin_addr (set_hport v a) = sin_addr a /\
  sin6_addr (set_hport v a) = sin6_addr a.
Proof.
  intros Hst. destruct (store_port_fields v (storage a) Hst) as (Hf & H4 & H6).
  split; [apply get_be16_put; rewrite Hst; vm_compute; lia|]. done.
Qed.

(** [hport(int)] stores the port so that [hport()] reads it back modulo
    2^16, and leaves the family, the length and both address fields as they
    were. *)
Theorem hport_roundtrip a v :
  wf a ->
  hport (set_hport v a) = CInt.to_u16 v /\
  family (set_hport v a) = family a /\
  len (set_hport v a) = len a /\
  sin_addr (set_hport v a) = sin_addr a /\
  sin6_addr (set_hport v a) = sin6_addr a.
Proof.
  intros [Hst _]. destruct (set_hport_fields a v Hst) as (Hp & Hf & H4 & H6).
  repeat split; [exact Hp|exact Hf|exact H4|exact H6].
Qed.

Lemma hport_roundtrip_witness :
  wf (of_domain AF_INET6) /\
  hport (set_hport 70000 (of_domain AF_INET6)) = CInt.to_u16 70000.
Proof.
  split; [apply wf_of_domain|].
  exact (proj1 (hport_roundtrip (of_domain AF_INET6) 70000 (wf_of_domain AF_INET6))).
Defined.

Lemma is_ip_cases a :
  is_ip a = true -> family a = AF_INET \/ family a = AF_INET6.
Proof. unfold is_ip. rewrite orb_true_iff, !Z.eqb_eq. done. Qed.

Lemma equal_true c1 c2 :
  equal c1 c2 = true <->
  is_ip c1 = true /\ family c1 = family c2 /\ r_port c1 = r_port c2 /\
  address_bytes c1 = address_bytes c2.
Proof.
  unfold equal, equal_address, address_bytes, is_ip.
  destruct (Z.eqb_spec (family c1) (family c2)) as [<-|]; simpl; [|naive_solver].
  rewrite andb_true_iff, Z.eqb_eq.
  destruct (family c1 =? AF_INET); [rewrite bool_decide_eq_true; naive_solver|].
  destruct (family c1 =? AF_INET6); [rewrite bool_decide_eq_true; naive_solver|].
  naive_solver.
Qed.

(** [operator==] is exactly "same IPv4 or IPv6 family, same port, same
    address bytes"; it is symmetric and transitive, and it is reflexive on
    IPv4 and IPv6 addresses and on no other address: an address of
    unspecified family is different from itself. *)
Theorem equality_laws :
  (forall c1 c2, equal c1 c2 = true <->
     is_ip c1 = true /\ family c1 = family c2 /\ r_port c1 = r_port c2 /\
     address_bytes c1 = address_bytes c2) /\
  (forall c1 c2, equal c1 c2 = equal c2 c1) /\
  (forall c1 c2 c3, equal c1 c2 = true -> equal c2 c3 = true -> equal c1 c3 = true) /\
  (forall c, equal c c = is_ip c).
Proof.
  split; [exact equal_true|].
  assert (forall c1 c2, family c1 = family c2 -> is_ip c1 = is_ip c2) as Hip
    by (unfold is_ip; by intros ?? ->).
  split; [|split].
  - intros c1 c2. apply eq_bool_prop_intro, iff_trans with (equal c1 c2 = true);
      [by rewrite Is_true_true|]. rewrite Is_true_true, !equal_true.
    split; intros (H1 & H2 & H3 & H4); rewrite <- H3, <- H4, <- H2;
      rewrite <- (Hip _ _ H2); done.
  - intros c1 c2 c3. rewrite !equal_true. intros (?&?&?&?) (?&?&?&?).
    repeat split; congruence.
  - intros c. apply eq_bool_prop_intro. rewrite !Is_true_true, equal_true. naive_solver.
Qed.

(** [set(source, namelen)] copies the sockaddr when its family is IPv4
    or IPv6 and [namelen] covers that family's structure, so that the object
    then has the family, the length, the port and the address of [source];
    in every other case it resets the object to an all-zero address with
    [len] 0. In particular an IPv6 sockaddr given with the 16 bytes of
    [sizeof(sockaddr)] is always rejected. *)
Theorem set_sockaddr_len_spec a source namelen :
  length (storage a) = storage_size -> (storage_size <= length source)%nat ->
  exists a', set_sockaddr_len source namelen a = Some a' /\
    if is_ip (mk_netaddr source 0) && (size_of (sa_family source) <=? namelen)
    then take (Z.to_nat (len a')) (storage a') = take (Z.to_nat (len a')) source /\
         family a' = sa_family source /\ len a' = size_of (sa_family source)
    else a' = mk_netaddr (zeros storage_size) 0.
Proof.
  intros Hst Hsrc.
  assert (forall n, (n <= storage_size)%nat -> exists m, memcpy n source (storage a) = Some m)
    as Hcpy by (intros n Hn; unfold memcpy; rewrite decide_True by lia; eauto).
  unfold set_sockaddr_len, is_ip, family; cbn [storage].
  destruct (Z.eqb_spec (sa_family source) AF_INET) as [E|NE].
  { rewrite E. cbn [orb andb]. change (size_of AF_INET) with (Z.of_nat sizeof_sockaddr_in).
    change (AF_INET =? AF_INET6) with false. cbn [andb].
    destruct (_ <=? _); [|by eexists].
    destruct (Hcpy sizeof_sockaddr_in) as [m Hm]; [vm_compute; lia|]. rewrite Hm. eexists; split; [done|].
    pose proof Hm as Hf. eapply (memcpy_wf _ _ _ _ AF_INET) in Hf as [_ Hf];
      [|done|vm_compute; lia|vm_compute; lia|done].
    apply memcpy_Some in Hm as (?&?&?); [|rewrite Hst; vm_compute; lia].
    cbn [len storage]. rewrite Nat2Z.id. done. }
  destruct (Z.eqb_spec (sa_family source) AF_INET6) as [E|NE6]; [|by eexists].
  rewrite E. cbn [orb andb]. change (size_of AF_INET6) with (Z.of_nat sizeof_sockaddr_in6).
  destruct (_ <=? _); [|by eexists].
  destruct (Hcpy sizeof_sockaddr_in6) as [m Hm]; [vm_compute; lia|]. rewrite Hm. eexists; split; [done|].
  pose proof Hm as Hf. eapply (memcpy_wf _ _ _ _ AF_INET6) in Hf as [_ Hf];
    [|done|vm_compute; lia|vm_compute; lia|done].
  apply memcpy_Some in Hm as (?&?&?); [|rewrite Hst; vm_compute; lia].
  cbn [len storage]. rewrite Nat2Z.id. done.
Qed.

Lemma set_sockaddr_len_spec_witness :
  set_sockaddr_len (storage (of_domain AF_INET6)) 16 (of_domain AF_UNSPEC)
    = Some (mk_netaddr (zeros 28) 0).
Proof.
  destruct (set_sockaddr_len_spec (of_domain AF_UNSPEC) (storage (of_domain AF_INET6)) 16
              ltac:(vm_compute; reflexivity) ltac:(vm_compute; lia)) as (a' & -> & H).
  vm_compute in H. rewrite H. reflexivity.
Defined.
End NetAddr.
