(* ===== verification/Sys.v ===== *)
(** * The environment of the program and the monad its code runs in

    The program talks to the SRT library (structure/submodule/srt, a vendored
    third-party library used through its C API), to the operating system, and
    to three project headers that are not part of the repository
    (udp_socket.hpp, socket_stats.hpp, metrics.hpp and pacer.hpp). Each such
    operation is a [call]; an environment [Env W] answers a call from its own
    state [W], so a theorem that holds for every [Env W] holds for whatever
    these parties do. Running code records the calls and their answers. *)

From Stdlib Require Import ZArith Lia Ascii String SpecFloat.
From stdpp Require Import prelude strings list.
From S2P Require Import Prelude.

(** ** Constants of srt.h *)
Module Srt.
Local Open Scope Z_scope.
Definition SRT_INVALID_SOCK : Z := -1.
Definition SRT_ERROR : Z := -1.
Definition SRT_SUCCESS : Z := 0.

Definition SRT_EPOLL_IN : Z := 1.
Definition SRT_EPOLL_OUT : Z := 4.
Definition SRT_EPOLL_ERR : Z := 8.

Definition SRT_ECONNLOST : Z := 2001.
Definition SRT_EINVSOCK : Z := 5004.
Definition SRT_EASYNCSND : Z := 6001.
Definition SRT_EASYNCRCV : Z := 6002.
Definition SRT_ETIMEOUT : Z := 6003.

(** SRT_SOCKSTATUS *)
Definition SRTS_INIT : Z := 1.
Definition SRTS_OPENED : Z := 2.
Definition SRTS_LISTENING : Z := 3.
Definition SRTS_CONNECTING : Z := 4.
Definition SRTS_CONNECTED : Z := 5.
Definition SRTS_BROKEN : Z := 6.
Definition SRTS_CLOSING : Z := 7.
Definition SRTS_CLOSED : Z := 8.
Definition SRTS_NONEXIST : Z := 9.

(** SRT_SOCKOPT *)
Definition SRTO_MSS : Z := 0.
Definition SRTO_SNDSYN : Z := 1.
Definition SRTO_RCVSYN : Z := 2.
Definition SRTO_FC : Z := 4.
Definition SRTO_SNDBUF : Z := 5.
Definition SRTO_RCVBUF : Z := 6.
Definition SRTO_LINGER : Z := 7.
Definition SRTO_RENDEZVOUS : Z := 12.
Definition SRTO_MAXBW : Z := 16.
Definition SRTO_SENDER : Z := 21.
Definition SRTO_TSBPDMODE : Z := 22.
Definition SRTO_LATENCY : Z := 23.
Definition SRTO_INPUTBW : Z := 24.
Definition SRTO_OHEADBW : Z := 25.
Definition SRTO_PASSPHRASE : Z := 26.
Definition SRTO_PBKEYLEN : Z := 27.
Definition SRTO_KMSTATE : Z := 28.
Definition SRTO_IPTTL : Z := 29.
Definition SRTO_IPTOS : Z := 30.
Definition SRTO_TLPKTDROP : Z := 31.
Definition SRTO_SNDDROPDELAY : Z := 32.
Definition SRTO_NAKREPORT : Z := 33.
Definition SRTO_CONNTIMEO : Z := 36.
Definition SRTO_DRIFTTRACER : Z := 37.
Definition SRTO_MININPUTBW : Z := 38.
Definition SRTO_SNDKMSTATE : Z := 40.
Definition SRTO_RCVKMSTATE : Z := 41.
Definition SRTO_LOSSMAXTTL : Z := 42.
Definition SRTO_RCVLATENCY : Z := 43.
Definition SRTO_PEERLATENCY : Z := 44.
Definition SRTO_MINVERSION : Z := 45.
Definition SRTO_STREAMID : Z := 46.
Definition SRTO_CONGESTION : Z := 47.
Definition SRTO_MESSAGEAPI : Z := 48.
Definition SRTO_PAYLOADSIZE : Z := 49.
Definition SRTO_TRANSTYPE : Z := 50.
Definition SRTO_KMREFRESHRATE : Z := 51.
Definition SRTO_KMPREANNOUNCE : Z := 52.
Definition SRTO_ENFORCEDENCRYPTION : Z := 53.
Definition SRTO_IPV6ONLY : Z := 54.
Definition SRTO_PEERIDLETIMEO : Z := 55.
Definition SRTO_BINDTODEVICE : Z := 56.
Definition SRTO_GROUPCONNECT : Z := 57.
Definition SRTO_GROUPMINSTABLETIMEO : Z := 58.
Definition SRTO_GROUPTYPE : Z := 59.
Definition SRTO_PACKETFILTER : Z := 60.
Definition SRTO_RETRANSMITALGO : Z := 61.
Definition SRTO_CRYPTOMODE : Z := 62.
Definition SRTO_MAXREXMITBW : Z := 63.

(** SRT_GROUP_TYPE *)
Definition SRT_GTYPE_UNDEFINED : Z := 0.
Definition SRT_GTYPE_BROADCAST : Z := 1.
Definition SRT_GTYPE_BACKUP : Z := 2.

(** SRT_TRANSTYPE *)
Definition SRTT_LIVE : Z := 0.
Definition SRTT_FILE : Z := 1.

(** Values passed to srt_setsockopt. *)
Inductive optval :=
| OInt (z : Z) | OInt64 (z : Z) | OBool (b : bool) | OStr (s : string)
| OLinger (onoff seconds : Z).
#[global] Instance optval_eq_dec : EqDecision optval.
Proof. solve_decision. Defined.

(** SRT_SOCKGROUPCONFIG and SRT_SOCKGROUPDATA: the fields the program uses.
    Addresses are the bytes of the sockaddr_storage. *)
Record group_config := mk_group_config {
  gc_srcaddr : list char; gc_peeraddr : list char;
  gc_weight : Z; gc_config : Z; gc_token : Z }.
Record group_data := mk_group_data { gd_id : Z; gd_sockstate : Z; gd_weight : Z }.
#[global] Instance group_config_eq_dec : EqDecision group_config.
Proof. solve_decision. Defined.
#[global] Instance group_data_eq_dec : EqDecision group_data.
Proof. solve_decision. Defined.

(** SRT_TRACEBSTATS: the fields the reports print. A [double] is an IEEE
    value of the Standard Library's [SpecFloat]. *)
Record stats := mk_stats {
  msTimeStamp : Z; pktFlowWindow : Z; pktCongestionWindow : Z; pktFlightSize : Z;
  msRTT : spec_float; mbpsBandwidth : spec_float; mbpsMaxBW : spec_float;
  pktSent : Z; pktSentUnique : Z; pktSndLoss : Z; pktSndDrop : Z; pktRetrans : Z;
  byteSent : Z; byteAvailSndBuf : Z; byteSndDrop : Z; mbpsSendRate : spec_float;
  usPktSndPeriod : spec_float; msSndBuf : Z; pktRecv : Z; pktRecvUnique : Z;
  pktRcvLoss : Z; pktRcvDrop : Z; pktRcvUndecrypt : Z; pktRcvRetrans : Z;
  pktRcvBelated : Z; byteRecv : Z; byteAvailRcvBuf : Z; byteRcvLoss : Z;
  byteRcvDrop : Z; mbpsRecvRate : spec_float; msRcvBuf : Z; msRcvTsbPdDelay : Z;
  pktReorderTolerance : Z }.

(** The value-initialised [SRT_TRACEBSTATS()]. *)
Definition stats_zero : stats :=
  let z := S754_zero false in
  mk_stats 0 0 0 0 z z z 0 0 0 0 0 0 0 0 z z 0 0 0 0 0 0 0 0 0 0 0 0 z 0 0 0.
End Srt.
Export Srt.

(** ** Build options: the preprocessor flags the sources test *)
Class Build := mk_build {
  ENABLE_BONDING : bool; SRT_ENABLE_BINDTODEVICE : bool;
  ENABLE_AEAD_API_PREVIEW : bool; ENABLE_MAXREXMITBW : bool }.

(** ** C++ exceptions, by class *)
Inductive exn :=
| SocketException (msg : string)
| StdInvalidArgument (what : string)
| StdOutOfRange (what : string)
| StdRuntimeError (what : string)
| StdFutureError (what : string)
| StdLengthError (what : string)
| StdFilesystemError (what : string).

(** ** Calls and their answers *)
Inductive call : Type :=
(* SRT library: life cycle and sockets *)
| srt_startup | srt_cleanup
| srt_clock_type
| srt_setloglevel (level : Z) | srt_resetlogfa | srt_addlogfa (fa : Z)
| srt_create_socket
| srt_close (s : Z)
| srt_bind (s : Z) (name : list char) (namelen : Z)
| srt_listen (s backlog : Z)
| srt_accept (s : Z)
| srt_connect (s : Z) (name : list char) (namelen : Z)
| srt_setsockopt (s opt : Z) (v : optval)
| srt_setsockflag (s opt : Z) (v : optval)
| srt_getsockflag (s opt : Z)
| srt_getsockflag_str (s opt : Z) (cap : Z)
| srt_getsockstate (s : Z)
| srt_getsockname (s : Z)
| srt_getlasterror | srt_getlasterror_str
| srt_getrejectreason (s : Z) | srt_rejectreason_str (reason : Z)
| srt_strerror (code : Z)
(* SRT library: polling, data, statistics *)
| srt_epoll_create
| srt_epoll_add_usock (eid s modes : Z)
| srt_epoll_remove_usock (eid s : Z)
| srt_epoll_release (eid : Z)
| srt_epoll_wait (eid : Z) (rcap wcap : Z) (timeout_ms : Z)
| srt_recvmsg (s : Z) (cap : Z)
| srt_recvmsg2 (s : Z) (cap : Z)
| srt_sendmsg2 (s : Z) (data : list char) (len : Z)
| srt_sendmsg (s : Z) (data : list char) (ttl : Z) (inorder : bool)
| srt_bstats (s : Z)
| srt_getsndbuffer (s : Z)
(* SRT library: groups *)
| srt_create_group (gtype : Z)
| srt_prepare_endpoint (src : option (list char)) (dst : list char) (len : Z)
| srt_delete_config (config : Z)
| srt_connect_group (g : Z) (targets : list group_config)
| srt_accept_bond (listeners : list Z) (timeout_ms : Z)
| srt_listen_callback (s : Z)
| srt_connect_callback (s : Z)
| srt_groupof (s : Z)
| srt_group_data_size (g : Z)
| srt_group_data (g : Z) (cap : Z)
(* Operating system and C++ runtime *)
| SysInitializeNetwork | SysCleanupNetwork
| steady_now
| sleep_until (t : Z)
| sleep_for (d : Z)
| timestamp_now
| load_break
| std_signal (signum : Z)
| load_flag (flag : string)
| store_flag (flag : string) (v : bool)
| inet_pton (fam : Z) (name : string)
| getaddrinfo (fam : Z) (name : string)
| getnameinfo (sa : list char)
| uniform_0_100
(* Files *)
| file_open_in (path : string)
| file_read (n : Z)
| file_open_out (path : string)
| file_write (data : list char)
| file_close
| create_directory (path : string)
| is_directory (path : string)
| list_directory (path : string)
(* Headers that are not in the repository *)
| udp_open (uri : string)
| udp_close (id : Z)
| udp_read (id cap timeout_ms : Z)
| udp_write (id : Z) (data : list char) (timeout_ms : Z)
| stats_writer_open (path format : string) (freq_ms : Z)
| stats_writer_add (id : Z)
| stats_writer_remove (id : Z)
| stats_writer_close
| pacer_open (sendrate message_size : Z) (spin_wait : bool)
| csv_pacer_open (path : string)
| pacer_wait
| generate_payload (data : list char)
| validate_packet (data : list char)
| validator_csv (header : bool)
| validator_stats
(* Threads *)
| async_start (task : string)
| async_wait (task : string).

(** Result of srt_epoll_wait: return value, read-ready and write-ready ids. *)
Record epoll_result := mk_epoll { ep_res : Z; ep_read : list Z; ep_write : list Z }.

Definition resp (c : call) : Type :=
  match c with
  | srt_getsockflag _ _ => Z * Z
  | srt_getsockflag_str _ _ _ => Z * string
  | srt_getsockname _ => list char * Z
  | srt_getlasterror_str | srt_rejectreason_str _ | srt_strerror _ => string
  | srt_epoll_wait _ _ _ _ => epoll_result
  | srt_recvmsg _ _ | srt_recvmsg2 _ _ => Z * list char
  | SysInitializeNetwork => bool
  | SysCleanupNetwork | srt_setloglevel _ | srt_resetlogfa | srt_addlogfa _ | std_signal _ | store_flag _ _ => unit
  | srt_bstats _ => Z * stats
  | srt_getsndbuffer _ => Z * Z * Z
  | srt_prepare_endpoint _ _ _ => group_config
  | srt_group_data_size _ => Z * Z
  | srt_group_data _ _ => Z * list group_data
  | timestamp_now => string
  | load_break | load_flag _ => bool
  | inet_pton _ _ | getaddrinfo _ _ => option (list char)
  | getnameinfo _ => option string
  | uniform_0_100 => spec_float
  | file_open_in _ | file_open_out _ => bool
  | file_read _ => list char * bool * bool
  | create_directory _ => bool * bool
  | is_directory _ => bool + exn
  | list_directory _ => list (string * bool) + exn
  | file_write _ | file_close => bool
  | srt_delete_config _ | sleep_until _ | sleep_for _
  | udp_close _ | stats_writer_add _ | stats_writer_remove _ | stats_writer_close | pacer_wait
  | validate_packet _ | async_start _ | async_wait _ => unit
  | pacer_open _ _ _ | csv_pacer_open _ => option exn
  | validator_csv _ | validator_stats => string
  | udp_open _ => (Z * bool) + string
  | udp_read _ _ _ => (Z * list char) + string
  | udp_write _ _ _ => Z + string
  | stats_writer_open _ _ _ => option string
  | generate_payload _ => list char
  | _ => Z
  end.

(** One call of the program with the answer it got. *)
Record event := Ev { ev_call : call; ev_resp : resp ev_call }.

(** An environment with state [W]. *)
Class Env (W : Type) := answer : forall c : call, W -> resp c * W.

(** ** Outcomes: a value, a C++ exception, or behaviour the C++ standard leaves
    undefined (a failed assertion, a null dereference, an arithmetic overflow);
    [NoFuel] marks a loop cut by the model's fuel and is never the program's. *)
Inductive outcome (A : Type) :=
| Done (a : A)
| Throw (e : exn)
| Undefined (why : string)
| NoFuel.
Arguments Done {A} a.
Arguments Throw {A} e.
Arguments Undefined {A} why.
Arguments NoFuel {A}.

Definition outcome_bind {A B R} (o : outcome A) (k : A -> R) (other : outcome B -> R) : R :=
  match o with
  | Done a => k a
  | Throw e => other (Throw e)
  | Undefined u => other (Undefined u)
  | NoFuel => other NoFuel
  end.

(** Code that reaches no result in the model's fuel. *)
Definition finished {A} (o : outcome A) : Prop := o <> NoFuel.

Definition io (W A : Type) : Type := W -> outcome A * list event * W.

Section io.
Context {W : Type}.

Definition ret {A} (a : A) : io W A := fun w => (Done a, [], w).
Definition bind {A B} (m : io W A) (k : A -> io W B) : io W B := fun w =>
  let '(o, t, w1) := m w in
  outcome_bind o
    (fun a => let '(o2, t2, w2) := k a w1 in (o2, t ++ t2, w2))
    (fun o' => (o', t, w1)).

Definition throw {A} (e : exn) : io W A := fun w => (Throw e, [], w).
Definition undefined {A} (why : string) : io W A := fun w => (Undefined why, [], w).

Definition invoke `{Env W} (c : call) : io W (resp c) := fun w =>
  let '(r, w1) := answer c w in (Done r, [Ev c r], w1).

(** [try { m } catch (const T& e) { h(e.what()) }]: [sel] selects the
    exceptions of the class and their text. *)
Definition catch_exn {A} (sel : exn -> option string) (m : io W A) (h : string -> io W A) : io W A :=
  fun w =>
  let '(o, t, w1) := m w in
  match o with
  | Throw e =>
      match sel e with
      | Some msg => let '(o2, t2, w2) := h msg w1 in (o2, t ++ t2, w2)
      | None => (o, t, w1)
      end
  | _ => (o, t, w1)
  end.

(** [catch (const socket::exception& e)] and [catch (const std::invalid_argument& e)]. *)
Definition catch_socket {A} : io W A -> (string -> io W A) -> io W A :=
  catch_exn (fun e => match e with SocketException msg => Some msg | _ => None end).
Definition catch_invalid_argument {A} : io W A -> (string -> io W A) -> io W A :=
  catch_exn (fun e => match e with StdInvalidArgument msg => Some msg | _ => None end).

(** Scope exit: [fin] runs when [m] returns and when it throws. *)
Definition finally {A} (m : io W A) (fin : io W unit) : io W A := fun w =>
  let '(o, t, w1) := m w in
  match o with
  | Done _ | Throw _ =>
      let '(o2, t2, w2) := fin w1 in
      (match o2 with
       | Done _ => o
       | Throw e => Throw e
       | Undefined u => Undefined u
       | NoFuel => NoFuel
       end, t ++ t2, w2)
  | _ => (o, t, w1)
  end.
(** Scope exit by an exception only: [fin] runs when [m] throws. *)
Definition on_throw {A} (m : io W A) (fin : io W unit) : io W A := fun w =>
  let '(o, t, w1) := m w in
  match o with Throw _ => finally (fun w => (o, t, w)) fin w1 | _ => (o, t, w1) end.
End io.

(** Program state [S] next to the environment's: it survives exceptions. *)
#[global] Instance prod_env {W S} `{Env W} : Env (W * S) := fun c ws =>
  let '(r, w') := answer c ws.1 in (r, (w', ws.2)).
Definition get {W S} : io (W * S) S := fun ws => (Done ws.2, [], ws).
Definition put {W S} (s : S) : io (W * S) unit := fun ws => (Done tt, [], (ws.1, s)).

Notation "'let!' x := m 'in' k" := (bind m (fun x => k))
  (at level 10, x name, m at level 100, k at level 200,
   format "'[v' 'let!'  x  :=  '[' m ']'  'in' '/' k ']'").
Notation "'let!' ' p := m 'in' k" := (bind m (fun x => match x with p => k end))
  (at level 10, p pattern, m at level 100, k at level 200).
Notation "'do!' m 'in' k" := (bind m (fun _ => k))
  (at level 10, m at level 100, k at level 200,
   format "'[v' 'do!'  '[' m ']'  'in' '/' k ']'").

Section loops.
Context {W : Type}.

(** A loop: [body] yields [inl] to go round again and [inr] to leave. *)
Fixpoint loop {A B} (fuel : nat) (body : A -> io W (A + B)) (a : A) : io W B :=
  match fuel with
  | O => fun w => (NoFuel, [], w)
  | S fuel' =>
      let! r := body a in
      match r with inl a' => loop fuel' body a' | inr b => ret b end
  end.

(** [for (x : l) f(x)]. *)
Fixpoint for_each {A} (f : A -> io W unit) (l : list A) : io W unit :=
  match l with
  | [] => ret tt
  | x :: l' => do! f x in for_each f l'
  end.
End loops.

Definition calls (t : list event) : list call := ev_call <$> t.

Lemma calls_app t1 t2 : calls (t1 ++ t2) = calls t1 ++ calls t2.
Proof. apply fmap_app. Qed.
#[export] Hint Rewrite calls_app : srt.

(** ** Concrete environments, for evaluating the code on examples *)

(** The answer of a quiet environment: zero, nothing, success. *)
Definition default_resp (c : call) : resp c :=
  match c as c0 return resp c0 with
  | srt_getsockflag _ _ => (0, 0)
  | srt_getsockflag_str _ _ _ => (0, EmptyString)
  | srt_getsockname _ => ([], 0)
  | srt_getlasterror_str => EmptyString
  | srt_rejectreason_str _ => EmptyString
  | srt_strerror _ => EmptyString
  | srt_epoll_wait _ _ _ _ => mk_epoll 0 [] []
  | srt_recvmsg _ _ => (0, [])
  | srt_recvmsg2 _ _ => (0, [])
  | SysInitializeNetwork => true
  | SysCleanupNetwork => tt
  | srt_setloglevel _ => tt
  | srt_resetlogfa => tt
  | srt_addlogfa _ => tt
  | std_signal _ => tt
  | load_flag _ => false
  | store_flag _ _ => tt
  | srt_bstats _ => (0, stats_zero)
  | srt_getsndbuffer _ => (0, 0, 0)
  | srt_prepare_endpoint _ _ _ => mk_group_config [] [] 0 0 0
  | srt_group_data_size _ => (0, 0)
  | srt_group_data _ _ => (0, [])
  | timestamp_now => EmptyString
  | load_break => false
  | inet_pton _ _ => None
  | getaddrinfo _ _ => None
  | getnameinfo _ => None
  | uniform_0_100 => S754_zero false
  | file_open_in _ => false
  | file_open_out _ => false
  | file_read _ => ([], true, true)
  | create_directory _ => (true, false)
  | is_directory _ => inl false
  | list_directory _ => inl []
  | srt_delete_config _ => tt
  | sleep_until _ => tt
  | sleep_for _ => tt
  | file_write _ => true
  | file_close => true
  | udp_close _ => tt
  | stats_writer_add _ => tt
  | stats_writer_remove _ => tt
  | stats_writer_close => tt
  | pacer_wait => tt
  | validate_packet _ => tt
  | pacer_open _ _ _ => None
  | csv_pacer_open _ => None
  | validator_csv _ => EmptyString
  | validator_stats => EmptyString
  | async_start _ => tt
  | async_wait _ => tt
  | udp_open _ => inl (0, false)
  | udp_read _ _ _ => inl (0, [])
  | udp_write _ _ _ => inl 0
  | stats_writer_open _ _ _ => None
  | generate_payload d => d
  | _ => 0
  end%Z.

(** Answers that do not depend on the state, and answers by position. *)
Definition fun_env (f : forall c, resp c) : Env unit := fun c w => (f c, w).
Definition scripted (f : nat -> forall c, resp c) : Env nat := fun c n => (f n c, S n).
