(* ===== verification/Logic.v ===== *)
(** * Program logic for the code monad

    [wp m Q w]: running [m] from the environment state [w] ends in an outcome,
    with a trace of calls and in a state that satisfy [Q]. The rules below
    follow the structure of the code; loops have a rule with an invariant and a
    rule with an invariant and a decreasing bound, which also shows that the
    fuel was enough. *)

From Stdlib Require Import ZArith Lia Ascii String.
From stdpp Require Import prelude strings list.
From S2P Require Import Prelude Sys.

Create HintDb only.
Create HintDb frames.

Section logic.
Context {W : Type}.

Definition post (A : Type) : Type := outcome A -> list event -> W -> Prop.

Definition wp {A} (m : io W A) (Q : post A) (w : W) : Prop :=
  let '(o, t, w1) := m w in Q o t w1.

(** The postcondition of a computation that runs after the trace [t]. *)
Definition after {A} (t : list event) (Q : post A) : post A :=
  fun o t2 w => Q o (t ++ t2) w.

Lemma wp_mono {A} (m : io W A) (Q Q' : post A) w :
  wp m Q w -> (forall o t w1, Q o t w1 -> Q' o t w1) -> wp m Q' w.
Proof. unfold wp. destruct (m w) as [[o t] w1]. auto. Qed.

Lemma wp_true {A} (m : io W A) w : wp m (fun _ _ _ => True) w.
Proof. unfold wp. by destruct (m w) as [[o t] w1]. Qed.

Lemma wp_and {A} (m : io W A) (Q Q' : post A) w :
  wp m Q w -> wp m Q' w -> wp m (fun o t w1 => Q o t w1 /\ Q' o t w1) w.
Proof. unfold wp. destruct (m w) as [[o t] w1]. auto. Qed.

Lemma wp_run {A} (m : io W A) (Q : post A) w o t w1 :
  wp m Q w -> m w = (o, t, w1) -> Q o t w1.
Proof. unfold wp. by intros H E; rewrite E in H. Qed.

Lemma wp_ret {A} (a : A) (Q : post A) w : Q (Done a) [] w -> wp (ret a) Q w.
Proof. done. Qed.
Lemma wp_throw {A} e (Q : post A) w : Q (Throw e) [] w -> wp (throw e) Q w.
Proof. done. Qed.
Lemma wp_undefined {A} u (Q : post A) w : Q (Undefined u) [] w -> wp (undefined u) Q w.
Proof. done. Qed.

Lemma wp_bind {A B} (m : io W A) (k : A -> io W B) (Q : post B) w :
  wp m (fun o t w1 =>
          outcome_bind o (fun a => wp (k a) (after t Q) w1) (fun o' => Q o' t w1)) w ->
  wp (bind m k) Q w.
Proof.
  unfold wp, bind, after.
  destruct (m w) as [[[a|e|u|] t] w1]; simpl; [|done..].
  by destruct (k a w1) as [[o t2] w2].
Qed.

Lemma wp_invoke `{Env W} c (Q : post (resp c)) w :
  (forall r w1, answer c w = (r, w1) -> Q (Done r) [Ev c r] w1) -> wp (invoke c) Q w.
Proof. unfold wp, invoke. destruct (answer c w) as [r w1] eqn:E. auto. Qed.

Lemma wp_catch {A} sel (m : io W A) h (Q : post A) w :
  wp m (fun o t w1 =>
          match o with
          | Throw e => match sel e with
                       | Some msg => wp (h msg) (after t Q) w1
                       | None => Q o t w1
                       end
          | _ => Q o t w1
          end) w ->
  wp (catch_exn sel m h) Q w.
Proof.
  unfold wp, catch_exn, after. destruct (m w) as [[[a|e|u|] t] w1]; simpl; try done.
  destruct (sel e) as [msg|]; [|done]. by destruct (h msg w1) as [[o t2] w2].
Qed.

Lemma wp_finally {A} (m : io W A) fin (Q : post A) w :
  wp m (fun o t w1 =>
          match o with
          | Done _ | Throw _ =>
              wp fin (fun o2 t2 w2 =>
                match o2 with
                | Done _ => Q o (t ++ t2) w2
                | Throw e => Q (Throw e) (t ++ t2) w2
                | Undefined u => Q (Undefined u) (t ++ t2) w2
                | NoFuel => Q NoFuel (t ++ t2) w2
                end) w1
          | _ => Q o t w1
          end) w ->
  wp (finally m fin) Q w.
Proof.
  unfold wp, finally. destruct (m w) as [[[a|e|u|] t] w1]; simpl; try done;
    by destruct (fin w1) as [[[[]|e'|u'|] t2] w2].
Qed.

Lemma wp_on_throw {A} (m : io W A) fin (Q : post A) w :
  wp m (fun o t w1 =>
          match o with
          | Throw e => wp fin (fun o2 t2 w2 => Q (match o2 with
              | Done _ => Throw e | Throw e2 => Throw e2 | Undefined u => Undefined u | NoFuel => NoFuel
              end) (t ++ t2) w2) w1
          | _ => Q o t w1
          end) w ->
  wp (on_throw m fin) Q w.
Proof.
  unfold wp, on_throw, finally. destruct (m w) as [[[a|e|u|] t] w1]; simpl; try done.
  by destruct (fin w1) as [[[[]|e'|u'|] t2] w2].
Qed.

(** One round of a loop: what the body must establish. *)
Definition round {A B} (again : A -> list event -> W -> Prop) (t : list event)
    (Q : post B) : post (A + B) :=
  fun o t' w1 =>
    match o with
    | Done (inl a) => again a (t ++ t') w1
    | Done (inr b) => Q (Done b) (t ++ t') w1
    | Throw e => Q (Throw e) (t ++ t') w1
    | Undefined u => Q (Undefined u) (t ++ t') w1
    | NoFuel => Q NoFuel (t ++ t') w1
    end.

Lemma wp_loop_gen {A B} (Inv : A -> list event -> W -> Prop) (body : A -> io W (A + B))
    (Q : post B) fuel a t w :
  Inv a t w ->
  (forall a t w, Inv a t w -> Q NoFuel t w) ->
  (forall a t w, Inv a t w -> wp (body a) (round Inv t Q) w) ->
  wp (loop fuel body a) (after t Q) w.
Proof.
  intros HI Hout Hstep. revert a t w HI.
  induction fuel as [|n IH]; intros a t w HI; simpl.
  { unfold wp, after. rewrite app_nil_r. eauto. }
  apply wp_bind. eapply wp_mono; [by apply Hstep|].
  intros [[a'|b]|e|u|] t' w1; unfold round, after; simpl; try done.
  - intros H. eapply wp_mono; [by apply IH|]. unfold after. intros. by rewrite app_assoc.
  - unfold wp. simpl. by rewrite app_nil_r.
Qed.

Lemma wp_loop {A B} (Inv : A -> list event -> W -> Prop) (body : A -> io W (A + B))
    (Q : post B) fuel a w :
  Inv a [] w ->
  (forall a t w, Inv a t w -> Q NoFuel t w) ->
  (forall a t w, Inv a t w -> wp (body a) (round Inv t Q) w) ->
  wp (loop fuel body a) Q w.
Proof. intros. by apply (wp_loop_gen Inv body Q fuel a [] w). Qed.

(** With a bound that decreases at every round the fuel is never exhausted. *)
Lemma wp_loop_bounded_gen {A B} (Inv : nat -> A -> list event -> W -> Prop)
    (body : A -> io W (A + B)) (Q : post B) fuel n a t w :
  n < fuel -> Inv n a t w ->
  (forall n a t w, Inv n a t w ->
     wp (body a) (round (fun a' t' w' => exists n', n' < n /\ Inv n' a' t' w') t Q) w) ->
  wp (loop fuel body a) (after t Q) w.
Proof.
  intros Hn HI Hstep. revert n a t w Hn HI.
  induction fuel as [|f IH]; intros n a t w Hn HI; [lia|]. simpl.
  apply wp_bind. eapply wp_mono; [by eapply Hstep|].
  intros [[a'|b]|e|u|] t' w1; unfold round, after; simpl; try done.
  - intros (n' & Hn' & H). eapply wp_mono; [apply (IH n'); [lia|done]|].
    unfold after. intros. by rewrite app_assoc.
  - unfold wp. simpl. by rewrite app_nil_r.
Qed.

Lemma wp_loop_bounded {A B} (Inv : nat -> A -> list event -> W -> Prop)
    (body : A -> io W (A + B)) (Q : post B) fuel n a w :
  n < fuel -> Inv n a [] w ->
  (forall n a t w, Inv n a t w ->
     wp (body a) (round (fun a' t' w' => exists n', n' < n /\ Inv n' a' t' w') t Q) w) ->
  wp (loop fuel body a) Q w.
Proof. intros. by apply (wp_loop_bounded_gen Inv body Q fuel n a [] w). Qed.

(** [for_each]: the invariant follows the part of the list already done. *)
Lemma wp_for_each {A} (f : A -> io W unit) (l : list A)
    (Inv : list A -> list event -> W -> Prop) (Q : post unit) w :
  Inv [] [] w ->
  (forall d t w, Inv d t w -> d = l -> Q (Done tt) t w) ->
  (forall d x l' t w, l = d ++ x :: l' -> Inv d t w ->
     wp (f x) (fun o t' w1 =>
       outcome_bind o (fun _ => Inv (d ++ [x]) (t ++ t') w1)
                      (fun o' => Q o' (t ++ t') w1)) w) ->
  wp (for_each f l) Q w.
Proof.
  intros H0 Hend Hstep.
  assert (forall r d t w, l = d ++ r -> Inv d t w -> wp (for_each f r) (after t Q) w) as Hgen.
  { induction r as [|x r IH]; intros d t w' Hl HI.
    - unfold wp, after. simpl. rewrite app_nil_r. eapply Hend; [done|].
      by rewrite Hl, app_nil_r.
    - simpl. apply wp_bind. eapply wp_mono; [by eapply Hstep|].
      intros [[]|e|u|] t' w1; unfold after; simpl; try done.
      intros H. eapply wp_mono; [apply (IH (d ++ [x])); [|done]|].
      + by rewrite Hl, <- app_assoc.
      + unfold after. intros. by rewrite app_assoc. }
  eapply wp_mono; [by apply (Hgen l [] [])|]. done.
Qed.

(** *** Computations that run alike *)
Lemma bind_ext {A B} (m m' : io W A) (k k' : A -> io W B) w :
  m w = m' w -> (forall a w, k a w = k' a w) -> bind m k w = bind m' k' w.
Proof.
  intros Hm Hk. unfold bind. rewrite Hm. destruct (m' w) as [[[a|e|u|] t] w1]; try done.
  cbn. by rewrite Hk.
Qed.
Lemma finally_ext {A} (m m' : io W A) fin fin' w :
  (forall w, m w = m' w) -> (forall w, fin w = fin' w) -> finally m fin w = finally m' fin' w.
Proof.
  intros Hm Hf. unfold finally. rewrite Hm. destruct (m' w) as [[[a|e|u|] t] w1]; try done;
    by rewrite Hf.
Qed.

(** *** Which calls a computation may make *)
Definition only (P : call -> bool) {A} (m : io W A) : Prop :=
  forall w, wp m (fun _ t _ => forallb P (calls t) = true) w.

Lemma only_wp P {A} (m : io W A) w (Q : post A) :
  only P m -> (forall o t w1, forallb P (calls t) = true -> Q o t w1) -> wp m Q w.
Proof. intros H HQ. eapply wp_mono; [apply H|]. auto. Qed.

Lemma only_ret P {A} (a : A) : only P (ret a).
Proof. by intros w. Qed.
Lemma only_throw P {A} e : only P (throw e : io W A).
Proof. by intros w. Qed.
Lemma only_undefined P {A} u : only P (undefined u : io W A).
Proof. by intros w. Qed.
Lemma only_invoke `{Env W} P c : P c = true -> only P (invoke c).
Proof. intros HP w. apply wp_invoke. intros r w1 _. cbn. by rewrite HP. Qed.

Lemma only_bind P {A B} (m : io W A) (k : A -> io W B) :
  only P m -> (forall a, only P (k a)) -> only P (bind m k).
Proof.
  intros Hm Hk w. apply wp_bind. eapply wp_mono; [apply Hm|].
  intros [a|e|u|] t w1 Ht; cbn; try done.
  eapply wp_mono; [apply Hk|]. intros o t2 w2 Ht2. unfold after.
  by rewrite calls_app, forallb_app, Ht, Ht2.
Qed.

Lemma only_catch P {A} sel (m : io W A) h :
  only P m -> (forall msg, only P (h msg)) -> only P (catch_exn sel m h).
Proof.
  intros Hm Hh w. apply wp_catch. eapply wp_mono; [apply Hm|].
  intros [a|e|u|] t w1 Ht; cbn; try done. destruct (sel e); [|done].
  eapply wp_mono; [apply Hh|]. intros o t2 w2 Ht2. unfold after.
  by rewrite calls_app, forallb_app, Ht, Ht2.
Qed.

Lemma only_finally P {A} (m : io W A) fin : only P m -> only P fin -> only P (finally m fin).
Proof.
  intros Hm Hf w. apply wp_finally. eapply wp_mono; [apply Hm|].
  intros o t w1 Ht. destruct o; try done; (eapply wp_mono; [apply Hf|]);
    intros [|e2|u2|] t2 w2 Ht2; by rewrite calls_app, forallb_app, Ht, Ht2.
Qed.
Lemma only_on_throw P {A} (m : io W A) fin : only P m -> only P fin -> only P (on_throw m fin).
Proof.
  intros Hm Hf w. apply wp_on_throw. eapply wp_mono; [apply Hm|].
  intros o t w1 Ht. destruct o; try done. eapply wp_mono; [apply Hf|].
  intros o2 t2 w2 Ht2. by rewrite calls_app, forallb_app, Ht, Ht2.
Qed.
Lemma only_loop P {A B} (body : A -> io W (A + B)) fuel a :
  (forall a, only P (body a)) -> only P (loop fuel body a).
Proof.
  intros Hb. revert a. induction fuel as [|n IH]; intros a; [by intros w|].
  cbn [loop]. apply only_bind; [apply Hb|]. intros [a'|b]; [apply IH|apply only_ret].
Qed.
Lemma only_weaken (P P' : call -> bool) {A} (m : io W A) :
  (forall c, P c = true -> P' c = true) -> only P m -> only P' m.
Proof.
  intros HP Hm w. eapply wp_mono; [apply Hm|]. intros o t w1.
  rewrite !forallb_forall. auto.
Qed.

Lemma only_for_each P {A} (f : A -> io W unit) l : (forall x, only P (f x)) -> only P (for_each f l).
Proof. intros Hf. induction l as [|x l IH]; [apply only_ret|]. apply only_bind; [done|]. by intros _. Qed.

(** Calls of one kind leave no trace in a view of the others. *)
Lemma omap_only {B} P (f : event -> option B) (t : list event) :
  (forall e, P (ev_call e) = true -> f e = None) -> forallb P (calls t) = true -> omap f t = [].
Proof.
  intros Hf. induction t as [|e t IH]; [done|]. cbn. intros [He Ht]%andb_prop.
  rewrite Hf by done. by apply IH.
Qed.

(** *** What a computation yields when it returns *)
Definition yields {A} (P : A -> Prop) (m : io W A) : Prop :=
  forall w, wp m (fun o _ _ => match o with Done a => P a | _ => True end) w.

Lemma yields_ret {A} (P : A -> Prop) a : P a -> yields P (ret a).
Proof. by intros HP w. Qed.
Lemma yields_throw {A} (P : A -> Prop) e : yields P (throw e).
Proof. by intros w. Qed.
Lemma yields_undefined {A} (P : A -> Prop) u : yields P (undefined u).
Proof. by intros w. Qed.
Lemma yields_true {A} (m : io W A) : yields (fun _ => True) m.
Proof. intros w. eapply wp_mono; [apply wp_true|]. by intros [a|e|u|]. Qed.
Lemma yields_bind {A B} (P' : A -> Prop) (P : B -> Prop) (m : io W A) (k : A -> io W B) :
  yields P' m -> (forall a, P' a -> yields P (k a)) -> yields P (bind m k).
Proof.
  intros Hm Hk w. apply wp_bind. eapply wp_mono; [apply Hm|].
  intros [a|e|u|] t w1 Ha; cbn; try done. eapply wp_mono; [by apply Hk|]. by intros [b|e|u|].
Qed.
Lemma only_yields_wp P {A} (V : A -> Prop) (m : io W A) w (Q : post A) :
  only P m -> yields V m ->
  (forall o t w1, forallb P (calls t) = true ->
     match o with Done a => V a | _ => True end -> Q o t w1) -> wp m Q w.
Proof.
  intros Ho Hy HQ. eapply wp_mono; [apply wp_and; [apply Ho|apply Hy]|].
  intros o t w1 [H1 H2]. by apply HQ.
Qed.

(** *** Computations that always return *)
Definition returns {A} (m : io W A) : Prop :=
  forall w, wp m (fun o _ _ => exists a, o = Done a) w.

Lemma returns_ret {A} (a : A) : returns (ret a).
Proof. intros w. apply wp_ret. by exists a. Qed.
Lemma returns_invoke `{Env W} c : returns (invoke c).
Proof. intros w. apply wp_invoke. intros r w1 _. by exists r. Qed.
Lemma returns_bind {A B} (m : io W A) (k : A -> io W B) :
  returns m -> (forall a, returns (k a)) -> returns (bind m k).
Proof.
  intros Hm Hk w. apply wp_bind. eapply wp_mono; [apply Hm|].
  intros o t w1 [a ->]. cbn. eapply wp_mono; [apply Hk|]. by intros o t2 w2.
Qed.
(** A step that always returns and makes calls of one kind only. *)
Lemma wp_quiet_bind P {A B} (m : io W A) (k : A -> io W B) (Q : post B) w :
  only P m -> returns m ->
  (forall a t w', forallb P (calls t) = true -> wp (k a) (after t Q) w') -> wp (bind m k) Q w.
Proof.
  intros Ho Hr Hk. apply wp_bind. eapply wp_mono; [apply wp_and; [apply Ho|apply Hr]|].
  intros o t w1 [Ht [a ->]]. by apply Hk.
Qed.
Lemma returns_for_each {A} (f : A -> io W unit) l :
  (forall x, returns (f x)) -> returns (for_each f l).
Proof. intros Hf. induction l; [apply returns_ret|]. by apply returns_bind. Qed.
End logic.
Lemma only_get P {W S} : only P (get (W:=W) (S:=S)).
Proof. by intros w. Qed.
Lemma only_put P {W S} (s : S) : only P (put (W:=W) s).
Proof. by intros w. Qed.

(** *** Properties of traces that hold piece by piece

    When [P] holds of the empty trace and of two pieces put together, it is
    enough to look at the calls one after the other. [ensures P E m]: whatever
    [m] does, its trace satisfies [P], it runs into no undefined behaviour, and
    it throws only exceptions in [E]. *)
Class Closed (P : list event -> Prop) : Prop := {
  closed_nil : P [];
  closed_app t1 t2 : P t1 -> P t2 -> P (t1 ++ t2) }.

Definition socket_exn (e : exn) : Prop :=
  match e with SocketException _ => True | _ => False end.
Definition no_exn (e : exn) : Prop := False.

Section ensures.
Context {W : Type} (P : list event -> Prop) `{!Closed P}.

Definition ensures (E : exn -> Prop) {A} (m : io W A) : Prop :=
  forall w, wp m (fun o t _ => P t /\
    match o with Throw e => E e | Undefined _ => False | _ => True end) w.

Lemma ensures_ret E {A} (a : A) : ensures E (ret a).
Proof. intros w. apply wp_ret. by split; [apply closed_nil|]. Qed.
Lemma ensures_throw (E : exn -> Prop) {A} e : E e -> ensures E (throw e : io W A).
Proof. intros He w. apply wp_throw. by split; [apply closed_nil|]. Qed.
Lemma ensures_invoke E `{Env W} c : (forall r, P [Ev c r]) -> ensures E (invoke c).
Proof. intros HP w. apply wp_invoke. by intros r w1 _. Qed.
Lemma ensures_bind E {A B} (m : io W A) (k : A -> io W B) :
  ensures E m -> (forall a, ensures E (k a)) -> ensures E (bind m k).
Proof.
  intros Hm Hk w. apply wp_bind. eapply wp_mono; [apply Hm|].
  intros [a|e|u|] t w1 [Ht Ho]; cbn; try done. eapply wp_mono; [apply Hk|].
  intros o t2 w2 [Ht2 Ho2]. split; [by apply closed_app|done].
Qed.
Lemma ensures_catch_socket E {A} (m : io W A) h :
  ensures socket_exn m -> (forall msg, ensures E (h msg)) -> ensures E (catch_socket m h).
Proof.
  intros Hm Hh w. apply wp_catch. eapply wp_mono; [apply Hm|].
  intros [a|[]|u|] t w1 [Ht Ho]; cbn; try done. eapply wp_mono; [apply Hh|].
  intros o t2 w2 [Ht2 Ho2]. split; [by apply closed_app|done].
Qed.
Lemma ensures_finally E {A} (m : io W A) fin :
  ensures E m -> ensures E fin -> ensures E (finally m fin).
Proof.
  intros Hm Hf w. apply wp_finally. eapply wp_mono; [apply Hm|].
  intros o t w1 [Ht Ho].
  destruct o as [a|e|u|]; try done; (eapply wp_mono; [apply Hf|]);
    intros [[]|e'|u'|] t2 w2 [Ht2 Ho2]; (split; [by apply closed_app|done]).
Qed.
Lemma ensures_loop E {A B} (body : A -> io W (A + B)) fuel a :
  (forall a, ensures E (body a)) -> ensures E (loop fuel body a).
Proof.
  intros Hb. revert a. induction fuel as [|n IH]; intros a.
  - intros w. unfold wp. cbn. by split; [apply closed_nil|].
  - cbn [loop]. apply ensures_bind; [apply Hb|]. intros [a'|b]; [apply IH|apply ensures_ret].
Qed.
Lemma ensures_weaken (E E' : exn -> Prop) {A} (m : io W A) :
  (forall e, E e -> E' e) -> ensures E m -> ensures E' m.
Proof.
  intros HE Hm w. eapply wp_mono; [apply Hm|]. intros [a|e|u|] t w1 [Ht Ho]; auto.
Qed.
End ensures.

(** *** Computations that leave the program state alone

    Code that only calls the environment does not change a program state that
    is kept next to the environment's, moves the environment only along any
    order [R] that its answers follow (the clock, for instance), and does not
    run into the undefined behaviour [bad] of the code that uses that state. *)
Class Monotone {W} `{Env W} (R : W -> W -> Prop) : Prop := {
  monotone_refl w : R w w;
  monotone_trans w1 w2 w3 : R w1 w2 -> R w2 w3 -> R w1 w3;
  monotone_answer c w r w' : answer c w = (r, w') -> R w w' }.

Definition anywhere {W} (_ _ : W) : Prop := True.
#[global] Instance anywhere_monotone {W} `{Env W} : Monotone (W:=W) anywhere.
Proof. by split. Qed.

Section frames.
Context {W S : Type} `{Env W} (R : W -> W -> Prop) `{!Monotone R} (bad : string).

Definition frames {A} (m : io (W * S) A) : Prop :=
  forall ws, wp m (fun o _ ws' => R ws.1 ws'.1 /\ ws'.2 = ws.2 /\ o <> Undefined bad) ws.

Lemma wp_get (Q : post (W:=W * S) S) ws : Q (Done ws.2) [] ws -> wp get Q ws.
Proof. done. Qed.
Lemma wp_put s (Q : post (W:=W * S) unit) ws : Q (Done tt) [] (ws.1, s) -> wp (put s) Q ws.
Proof. done. Qed.

Lemma frames_ret {A} (a : A) : frames (ret a).
Proof. intros ws. apply wp_ret. by split; [apply monotone_refl|]. Qed.
Lemma frames_throw {A} e : frames (throw e : io _ A).
Proof. intros ws. apply wp_throw. by split; [apply monotone_refl|]. Qed.
Lemma frames_undefined {A} u : u <> bad -> frames (undefined u : io _ A).
Proof.
  intros Hu ws. apply wp_undefined. split; [apply monotone_refl|]. split; [done|]. congruence.
Qed.
Lemma prod_answer c (ws ws1 : W * S) r :
  answer c ws = (r, ws1) -> answer c ws.1 = (r, ws1.1) /\ ws1.2 = ws.2.
Proof.
  unfold answer at 1, prod_env. destruct (answer c ws.1) as [r' w']. by intros [= -> <-].
Qed.
Lemma frames_invoke c : frames (invoke c).
Proof.
  intros ws. apply wp_invoke. intros r ws1 [Ha Hs]%prod_answer.
  split; [by eapply monotone_answer|done].
Qed.
Lemma frames_bind {A B} (m : io _ A) (k : A -> io _ B) :
  frames m -> (forall a, frames (k a)) -> frames (bind m k).
Proof.
  intros Hm Hk ws. apply wp_bind. eapply wp_mono; [apply Hm|].
  intros [a|e|u|] t ws1 (Hr & Hs & Hb); cbn; try (split_and!; [done|done|congruence]).
  eapply wp_mono; [apply Hk|]. intros o t2 ws2 (Hr2 & Hs2 & Hb2).
  split_and!; [by eapply monotone_trans|congruence|done].
Qed.
Lemma frames_catch {A} sel (m : io _ A) h :
  frames m -> (forall msg, frames (h msg)) -> frames (catch_exn sel m h).
Proof.
  intros Hm Hh ws. apply wp_catch. eapply wp_mono; [apply Hm|].
  intros [a|e|u|] t ws1 (Hr & Hs & Hb); try (split_and!; [done|done|congruence]).
  destruct (sel e); [|done].
  eapply wp_mono; [apply Hh|]. intros o t2 ws2 (Hr2 & Hs2 & Hb2).
  split_and!; [by eapply monotone_trans|congruence|done].
Qed.
Lemma frames_finally {A} (m : io (W * S) A) fin : frames m -> frames fin -> frames (finally m fin).
Proof.
  intros Hm Hf ws. apply wp_finally. eapply wp_mono; [apply Hm|].
  intros o t ws1 (Hr & Hs & Hb).
  destruct o as [a|e|u|]; try done; (eapply wp_mono; [apply Hf|]);
    intros [[]|e'|u'|] t2 ws2 (Hr2 & Hs2 & Hb2);
    (split_and!; [by eapply monotone_trans|congruence|congruence]).
Qed.
Lemma frames_on_throw {A} (m : io (W * S) A) fin : frames m -> frames fin -> frames (on_throw m fin).
Proof.
  intros Hm Hf ws. apply wp_on_throw. eapply wp_mono; [apply Hm|].
  intros o t ws1 (Hr & Hs & Hb). destruct o as [a|e|u|]; try done.
  eapply wp_mono; [apply Hf|]. intros [[]|e'|u'|] t2 ws2 (Hr2 & Hs2 & Hb2);
    (split_and!; [by eapply monotone_trans|congruence|congruence]).
Qed.
Lemma frames_loop {A B} (body : A -> io _ (A + B)) fuel a :
  (forall a, frames (body a)) -> frames (loop fuel body a).
Proof.
  intros Hb. revert a. induction fuel as [|n IH]; intros a.
  - intros ws. unfold wp. cbn. by split; [apply monotone_refl|].
  - cbn [loop]. apply frames_bind; [apply Hb|]. intros [a'|b]; [apply IH|apply frames_ret].
Qed.
Lemma frames_for_each {A} (f : A -> io _ unit) l : (forall x, frames (f x)) -> frames (for_each f l).
Proof. intros Hf. induction l; [apply frames_ret|]. by apply frames_bind. Qed.
End frames.

#[export] Hint Extern 1 (frames _ _ (ret _)) => apply frames_ret; tc_solve : frames.
#[export] Hint Extern 1 (frames _ _ (throw _)) => apply frames_throw; tc_solve : frames.
#[export] Hint Extern 1 (frames _ _ (undefined _)) =>
  apply frames_undefined; try tc_solve; discriminate : frames.

#[export] Hint Resolve returns_ret : only.
#[export] Hint Resolve only_ret only_throw only_undefined : only.

(** Goes through code, leaving the calls that the hint database [only] does
    not show allowed. *)
Ltac only_step :=
  match goal with
  | |- only _ (bind _ _) => apply only_bind; [|intros ?]
  | |- only _ ?m => lazymatch m with invoke ?c => apply (only_invoke _ c); reflexivity end
  | |- only _ (catch_exn _ _ _) => apply only_catch; [|intros ?]
  | |- only _ (catch_socket _ _) => apply only_catch; [|intros ?]
  | |- only _ (catch_invalid_argument _ _) => apply only_catch; [|intros ?]
  | |- only _ (finally _ _) => apply only_finally
  | |- only _ (on_throw _ _) => apply only_on_throw
  | |- only _ (loop _ _ _) => apply only_loop; intros ?
  | |- only _ (if ?b then _ else _) => destruct b
  | |- only _ (match ?x with _ => _ end) => destruct x
  | |- only _ _ => solve [auto 3 with only]
  end.
Ltac only_steps := repeat only_step.

(** Normalises a postcondition applied to an outcome. *)
Ltac wp_simpl := unfold after; cbn [outcome_bind app negb].

(** One symbolic step through monadic code. *)
Ltac wp_step :=
  match goal with
  | |- wp (bind _ _) _ _ => apply wp_bind
  | |- wp (ret _) _ _ => apply wp_ret
  | |- wp (throw _) _ _ => apply wp_throw
  | |- wp (undefined _) _ _ => apply wp_undefined
  | |- wp (catch_socket _ _) _ _ => apply wp_catch
  | |- wp (catch_invalid_argument _ _) _ _ => apply wp_catch
  | |- wp (catch_exn _ _ _) _ _ => apply wp_catch
  | |- wp (finally _ _) _ _ => apply wp_finally
  | |- wp ?m _ _ => lazymatch m with invoke ?c =>
      apply (wp_invoke c); let r := fresh "r" in let w := fresh "w" in let Ha := fresh "Hans" in intros r w Ha end
  | |- wp (if ?b then _ else _) _ _ => destruct b eqn:?
  end; wp_simpl.
Ltac wp_steps := wp_simpl; repeat wp_step.

Ltac returns_step :=
  match goal with
  | |- returns (bind _ _) => apply returns_bind; [|intros ?]
  | |- returns ?m => lazymatch m with invoke ?c => apply (returns_invoke c) end
  | |- returns (if ?b then _ else _) => destruct b
  | |- returns (match ?x with _ => _ end) => destruct x
  | |- returns _ => solve [auto 3 with only]
  end.
Ltac returns_steps := repeat returns_step.

(** Ignores what intermediate results are; the last [ret] is left. *)
Ltac yields_step :=
  match goal with
  | |- yields _ (bind _ _) => eapply yields_bind; [apply yields_true|intros ? _]
  | |- yields _ (ret _) => apply yields_ret
  | |- yields _ (throw _) => apply yields_throw
  | |- yields _ (undefined _) => apply yields_undefined
  | |- yields _ (if ?b then _ else _) => destruct b
  | |- yields _ (match ?x with _ => _ end) => destruct x
  end.
Ltac yields_steps := repeat yields_step.

Ltac ensures_step :=
  match goal with
  | |- ensures _ _ (bind _ _) => apply ensures_bind; [tc_solve| |intros ?]
  | |- ensures _ _ (ret _) => apply ensures_ret; tc_solve
  | |- ensures _ _ ?m => lazymatch m with invoke ?c => apply (ensures_invoke _ _ c); intros ? end
  | |- ensures _ _ (catch_socket _ _) => apply ensures_catch_socket; [tc_solve| |intros ?]
  | |- ensures _ _ (finally _ _) => apply ensures_finally; [tc_solve| |]
  | |- ensures _ _ (loop _ _ _) => apply ensures_loop; [tc_solve|intros ?]
  | |- ensures _ _ (if ?b then _ else _) => destruct b
  | |- ensures _ _ (match ?x with _ => _ end) => destruct x
  end.
Ltac ensures_steps := repeat ensures_step.

Tactic Notation "frames_apply" uconstr(L) := apply L; try tc_solve.
Ltac frames_step :=
  match goal with
  | |- frames _ _ (bind _ _) => frames_apply frames_bind; [|intros ?]
  | |- frames _ _ ?m => lazymatch m with invoke ?c => frames_apply (frames_invoke _ _ c) end
  | |- frames _ _ (catch_exn _ _ _) => frames_apply frames_catch; [|intros ?]
  | |- frames _ _ (catch_socket _ _) => frames_apply frames_catch; [|intros ?]
  | |- frames _ _ (catch_invalid_argument _ _) => frames_apply frames_catch; [|intros ?]
  | |- frames _ _ (finally _ _) => frames_apply frames_finally
  | |- frames _ _ (on_throw _ _) => frames_apply frames_on_throw
  | |- frames _ _ (loop _ _ _) => frames_apply frames_loop; intros ?
  | |- frames _ _ (for_each _ _) => frames_apply frames_for_each; intros ?
  | |- frames _ _ (if ?b then _ else _) => destruct b
  | |- frames _ _ (match ?x with _ => _ end) => destruct x
  | |- frames _ _ _ => solve [eauto 3 with frames]
  end.
Ltac frames_steps := repeat frames_step.
