(* ===== verification/Threads.v ===== *)
(** * Threads that meet in their calls

    Two threads that meet only in the calls they make run interleaved at every
    call: the trace of both is a merge of the trace of one and the trace of the
    other. What the other thread does shows up in the answers a thread gets, and
    the theorems about a thread hold whatever it is answered; so a run of both is
    a merge of a run of one, in some environment, and a run of the other, in some
    environment. *)

From Stdlib Require Import Lia String.
From stdpp Require Import prelude strings list.
From S2P Require Import Prelude Sys Logic.

Module Threads.
Local Open Scope list_scope.

(** [merge l1 l2 l]: [l] is made of [l1] and [l2], each in its order. *)
Inductive merge {A} : list A -> list A -> list A -> Prop :=
| merge_nil : merge [] [] []
| merge_left x l1 l2 l : merge l1 l2 l -> merge (x :: l1) l2 (x :: l)
| merge_right x l1 l2 l : merge l1 l2 l -> merge l1 (x :: l2) (x :: l).

Section merge.
Context {A : Type}.
Implicit Types l : list A.

Lemma merge_nil_r l1 l : merge l1 [] l -> l = l1.
Proof.
  remember [] as l2 eqn:E. induction 1 as [|x l1 l2 l Hm IH|x l1 l2 l Hm IH]; [done| |done].
  f_equal. by apply IH.
Qed.
Lemma merge_comm l1 l2 l : merge l1 l2 l -> merge l2 l1 l.
Proof. induction 1; by constructor. Qed.
Lemma merge_refl_l l : merge l [] l.
Proof. induction l; by constructor. Qed.
Lemma merge_concat l1 l2 : merge l1 l2 (l1 ++ l2).
Proof. induction l1; cbn; [apply merge_comm, merge_refl_l|by constructor]. Qed.
Lemma merge_omap {B} (f : A -> option B) l1 l2 l :
  merge l1 l2 l -> merge (omap f l1) (omap f l2) (omap f l).
Proof. induction 1 as [|x l1 l2 l Hm IH|x l1 l2 l Hm IH]; cbn; [constructor|..]; (destruct (f x); [by constructor|done]). Qed.
Lemma merge_app l1 l2 l k1 k2 k :
  merge l1 l2 l -> merge k1 k2 k -> merge (l1 ++ k1) (l2 ++ k2) (l ++ k).
Proof. induction 1; intros Hk; cbn; [done|by constructor; auto..]. Qed.
End merge.

(** What only one of the threads does is seen in the merge as that thread does it. *)
Lemma merge_view {A B} (f : A -> option B) l1 l2 l : merge l1 l2 l -> omap f l2 = [] -> omap f l = omap f l1.
Proof. intros Hm%(merge_omap f) Hf. rewrite Hf in Hm. by apply merge_nil_r. Qed.

(** [runs_as P m o t]: some run of [m], in an environment that satisfies [P], ends in
    [o] with the trace [t]. *)
Definition runs_as (P : forall W, Env W -> Prop) {A} (m : forall W, Env W -> io W A)
    (o : outcome A) (t : list event) : Prop :=
  exists W E w w', P W E /\ m W E w = (o, t, w').

Lemma merge_split {A} (l1 l2 a b : list A) :
  merge l1 l2 (a ++ b) ->
  exists a1 b1 a2 b2, l1 = a1 ++ b1 /\ l2 = a2 ++ b2 /\ merge a1 a2 a /\ merge b1 b2 b.
Proof.
  revert l1 l2. induction a as [|x a IH]; intros l1 l2 Hm; cbn in Hm.
  { exists [], l1, [], l2. repeat split; [constructor|done]. }
  inversion Hm as [|? k1 ? ? Hm'|? ? k2 ? Hm']; subst; destruct (IH _ _ Hm') as (a1 & b1 & a2 & b2 & -> & -> & Ha & Hb).
  - exists (x :: a1), b1, a2, b2. repeat split; [by constructor|done].
  - exists a1, b1, (x :: a2), b2. repeat split; [by constructor|done].
Qed.

(** ** A thread that is told to stop

    The first thread stores true in a flag once; the second one runs rounds, and
    looks at the flag in each of them. *)
Section flag.
Variables (flag : string) (report : event -> bool).

Definition load_of (e : event) : option bool :=
  match e with Ev (load_flag f) v => if String.eqb f flag then Some v else None | _ => None end.
Definition store_of (e : event) : option bool :=
  match e with Ev (store_flag f v) _ => if String.eqb f flag then Some v else None | _ => None end.
Definition loads (t : list event) : list bool := omap load_of t.
Definition stores (t : list event) : list bool := omap store_of t.
Definition reports (t : list event) : nat := length (List.filter report t).

(** The flag is memory: from the value [v] on, every load yields the value stored
    last. *)
Fixpoint coherent (v : bool) (t : list event) : bool :=
  match t with
  | [] => true
  | e :: t' =>
      match load_of e with Some x => Bool.eqb x v | None => true end &&
      coherent (default v (store_of e)) t'
  end.

Lemma loads_app t1 t2 : loads (t1 ++ t2) = loads t1 ++ loads t2.
Proof. apply omap_app. Qed.
Lemma stores_app t1 t2 : stores (t1 ++ t2) = stores t1 ++ stores t2.
Proof. apply omap_app. Qed.
Lemma reports_app t1 t2 : reports (t1 ++ t2) = (reports t1 + reports t2)%nat.
Proof. unfold reports. by rewrite List.filter_app, length_app. Qed.

Lemma coherent_true t : coherent true t = true -> Forall (eq true) (stores t) -> Forall (eq true) (loads t).
Proof.
  unfold loads, stores. induction t as [|e t IH]; cbn; [constructor|].
  intros [He Ht]%andb_true_iff Hs. destruct (store_of e) as [v|] eqn:Es; cbn in Ht.
  - apply Forall_cons in Hs as [<- Hs]. destruct (load_of e) as [x|]; [constructor; [by destruct x|]|]; auto.
  - destruct (load_of e) as [x|]; [constructor; [by destruct x|]|]; auto.
Qed.
Lemma coherent_set v a b :
  coherent v (a ++ Ev (store_flag flag true) tt :: b) = true -> Forall (eq true) (stores b) ->
  Forall (eq true) (loads b).
Proof.
  revert v. induction a as [|e a IH]; intros v; cbn.
  - rewrite String.eqb_refl. cbn. apply coherent_true.
  - intros [_ Ht]%andb_true_iff. by eapply IH.
Qed.

(** A round looks at the flag, goes on when it is not set, and makes at most one
    report; at the end of the thread there are no more reports. *)
Definition going_round (r : list event) : Prop :=
  loads r = [false] /\ (reports r <= 1)%nat.
Inductive helper : list event -> Prop :=
| helper_end t : reports t = 0%nat -> Forall (eq true) (loads t) -> helper t
| helper_round r t : going_round r -> helper t -> helper (r ++ t).

Lemma helper_one r : going_round r -> helper r.
Proof. intros Hr. rewrite <- (app_nil_r r). apply helper_round; [done|]. by apply helper_end. Qed.
Lemma helper_told t : helper t -> Forall (eq true) (loads t) -> reports t = 0%nat.
Proof.
  intros [t' Hr _|r t' [Hl _] _]; [done|]. rewrite loads_app, Hl. by intros [? _]%Forall_cons.
Qed.

(** Once the flag is set there is at most one more report. *)
Lemma helper_suffix x y : helper (x ++ y) -> Forall (eq true) (loads y) -> (reports y <= 1)%nat.
Proof.
  intros Hh Hy. remember (x ++ y) as t eqn:E. revert x E.
  induction Hh as [t Hr Ht|r t [Hl Hr] Hh IH]; intros x E.
  - rewrite E, reports_app in Hr. lia.
  - apply app_eq_app in E as [z [[-> ->]|[-> ->]]]; [|by eapply IH].
    rewrite loads_app, Forall_app in Hy. rewrite reports_app in *.
    rewrite (helper_told t) by tauto. lia.
Qed.

Lemma reports_merge t1 t2 t : merge t1 t2 t -> reports t = (reports t1 + reports t2)%nat.
Proof.
  induction 1 as [|e t1 t2 t Hm IH|e t1 t2 t Hm IH]; [done|..]; unfold reports in *; cbn;
    destruct (report e); cbn; lia.
Qed.
Lemma false_loads l : Forall (eq true) l -> List.filter negb l = [].
Proof. by induction 1 as [|x l <-]. Qed.

Lemma length_unset n : length (List.filter negb (repeat false n)) = n.
Proof. induction n as [|n IH]; [done|]. cbn. by rewrite IH. Qed.

(** Two threads, [t1] the one that sets the flag, at the call between [a] and [b].
    Behind it there is at most one more report, and the other thread does not find
    the flag unset any more. *)
Lemma told_to_stop t1 t2 t a b :
  merge t1 t2 t -> coherent false t = true -> t = a ++ Ev (store_flag flag true) tt :: b ->
  Forall (eq true) (stores t1) -> loads t1 = [] -> reports t1 = 0%nat -> stores t2 = [] -> helper t2 ->
  (reports b <= 1)%nat /\ (length (List.filter negb (loads t2)) <= length (loads a))%nat.
Proof.
  intros Hm Hc -> Hs1 Hl1 Hr1 Hs2 Hh.
  assert (Forall (eq true) (loads b)) as Hb.
  { eapply coherent_set; [exact Hc|]. pose proof (merge_view store_of _ _ _ Hm Hs2) as Hst.
    change (stores (a ++ Ev (store_flag flag true) tt :: b) = stores t1) in Hst. rewrite <- Hst, stores_app in Hs1.
    cbn in Hs1. apply Forall_app in Hs1 as [_ Hs1]. unfold stores in Hs1. cbn in Hs1.
    rewrite String.eqb_refl in Hs1. by apply Forall_cons in Hs1 as [_ Hs1]. }
  apply merge_split in Hm as (a1 & b1 & a2 & b2 & -> & -> & Ha & Hbm).
  rewrite loads_app in Hl1. apply app_eq_nil in Hl1 as [Hla Hlb].
  pose proof (merge_view load_of _ _ _ (merge_comm _ _ _ Hbm) Hlb) as Hlb2.
  pose proof (merge_view load_of _ _ _ (merge_comm _ _ _ Ha) Hla) as Hla2.
  change (loads b = loads b2) in Hlb2. change (loads a = loads a2) in Hla2. rewrite Hlb2 in Hb. split.
  - pose proof (helper_suffix _ _ Hh Hb). apply reports_merge in Hbm. rewrite reports_app in Hr1.
    change (Ev (store_flag flag true) tt :: b) with ([Ev (store_flag flag true) tt] ++ b) in Hbm.
    rewrite reports_app in Hbm. lia.
  - rewrite Hla2, loads_app, List.filter_app, (false_loads (loads b2)), app_nil_r by done.
    apply List.filter_length_le.
Qed.

Lemma helper_quiet q t : reports q = 0%nat -> loads q = [] -> helper t -> helper (q ++ t).
Proof.
  intros Hq Hl [t' Hr Ht|r t' [Hl' Hr'] Hh].
  - apply helper_end; rewrite ?reports_app, ?loads_app, ?Hl; [lia|done].
  - rewrite app_assoc. apply helper_round; [|done]. split; rewrite ?reports_app, ?loads_app, ?Hl; [done|lia].
Qed.

Lemma helper_then_quiet t q : reports q = 0%nat -> loads q = [] -> helper t -> helper (t ++ q).
Proof.
  intros Hq Hl. induction 1 as [t Hr Ht|r t Hr Hh IH].
  - apply helper_end; rewrite ?reports_app, ?loads_app, ?Hl, ?app_nil_r; [lia|done].
  - rewrite <- app_assoc. by apply helper_round.
Qed.

(** A loop whose rounds are like this makes such a trace, and runs out of fuel only
    after as many looks at the flag. *)
Definition going {A} {W} : post (W:=W) (A + unit) := fun o t _ =>
  stores t = [] /\
  match o with
  | Done (inl _) => going_round t
  | NoFuel => False
  | _ => helper t
  end.
Lemma helper_loop {W A} (body : A -> io W (A + unit)) fuel a w :
  (forall a w, wp (body a) going w) ->
  wp (loop fuel body a) (fun o t _ =>
    stores t = [] /\ helper t /\ (o = NoFuel -> loads t = repeat false fuel)) w.
Proof.
  intros Hbody. revert a w. induction fuel as [|fuel IH]; intros a w; cbn [loop].
  { split; [done|]. split; [by apply helper_end|done]. }
  apply wp_bind. eapply wp_mono; [apply Hbody|]. intros o t w1 [Hst Ho].
  destruct o as [[a'|u]|e|u|]; cbn [outcome_bind]; try done.
  - eapply wp_mono; [apply IH|]. intros o2 t2 w2 (Hst2 & Hh & Hl). unfold after.
    rewrite stores_app, loads_app, Hst, Hst2. split; [done|]. split; [by apply helper_round|].
    intros Ho2. destruct Ho as [-> _]. by rewrite Hl.
  - apply wp_ret. unfold after. by rewrite app_nil_r.
Qed.
End flag.
(** The calls of a thread before and from the one where the flag is set or found. *)
Definition until_stop (t : list event) : list event * list event :=
  let stop e := match e with Ev (store_flag _ _) _ => true | Ev (load_flag _) v => v | _ => false end in
  match list_find (fun e => stop e = true) t with Some (n, _) => (take n t, drop n t) | None => (t, []) end.

Lemma until_stop_merge t1 t2 :
  merge t1 t2 (((until_stop t1).1 ++ (until_stop t2).1) ++ ((until_stop t1).2 ++ (until_stop t2).2)).
Proof.
  assert (forall t, t = (until_stop t).1 ++ (until_stop t).2) as Hu.
  { intros t. unfold until_stop. destruct (list_find _ t) as [[n ?]|]; cbn; [by rewrite take_drop|by rewrite app_nil_r]. }
  rewrite (Hu t1) at 1. rewrite (Hu t2) at 1. apply merge_app; apply merge_concat.
Qed.
End Threads.
