(* ===== verification/Socket.v ===== *)
(** * The socket interface (socket.hpp, buffer.hpp, udp_socket.hpp)

    socket::isocket is the interface the programs use every connection
    through: [isocket] is the record of its operations and [IsocketOk] is what
    an implementation promises to its clients. The buffer views of buffer.hpp
    are modelled with their pointer arithmetic. socket::udp, whose header is
    not in the repository, is an implementation whose operations are calls of
    the environment. *)

From Stdlib Require Import ZArith Lia Ascii String.
From stdpp Require Import prelude strings list.
From S2P Require Import Prelude Sys Logic.

(** ** mutable_buffer and const_buffer *)
Module Buffer.
Local Open Scope Z_scope.

(** A view: address of the first byte and number of bytes (a size_t). *)
Record mutable_buffer := mk_mutable { mdata : Z; msize : Z }.
Record const_buffer := mk_const { cdata : Z; csize : Z }.

Definition mutable_empty : mutable_buffer := mk_mutable 0 0.
Definition const_empty : const_buffer := mk_const 0 0.
Definition const_of_mutable (b : mutable_buffer) : const_buffer := mk_const (mdata b) (msize b).

(** [operator+=(n)]. *)
Definition mutable_advance (n : Z) (b : mutable_buffer) : mutable_buffer :=
  let offset := if n <? msize b then n else msize b in
  mk_mutable (mdata b + offset) (msize b - offset).
Definition const_advance (n : Z) (b : const_buffer) : const_buffer :=
  let offset := if n <? csize b then n else csize b in
  mk_const (cdata b + offset) (csize b - offset).

(** The bytes a view covers in a memory. *)
Definition view (mem : Z -> char) (data size : Z) : list char :=
  map (fun i => mem (data + Z.of_nat i)) (seq 0 (Z.to_nat size)).

Lemma view_advance mem data size k :
  0 <= k <= size ->
  view mem (data + k) (size - k) = drop (Z.to_nat k) (view mem data size).
Proof.
  intros Hk. apply list_eq. intros i. unfold view. rewrite lookup_drop, !list_lookup_fmap.
  destruct (decide (i < Z.to_nat (size - k))%nat) as [Hi|Hi].
  - rewrite !lookup_seq_lt by lia. cbn. do 2 f_equal. lia.
  - rewrite !lookup_seq_ge by lia. done.
Qed.

(** [operator+=] drops exactly the first [n] bytes of the view and never
    moves its end: advancing past the end gives an empty view at the end, and
    two advances are one advance by the sum. *)
Theorem const_advance_spec mem b n m :
  0 <= csize b -> 0 <= n -> 0 <= m ->
  let b' := const_advance n b in
  view mem (cdata b') (csize b') = drop (Z.to_nat n) (view mem (cdata b) (csize b)) /\
  cdata b' + csize b' = cdata b + csize b /\ 0 <= csize b' <= csize b /\
  const_advance m b' = const_advance (n + m) b.
Proof.
  intros Hs Hn Hm. unfold const_advance. destruct b as [d s]. cbn in *.
  destruct (Z.ltb_spec n s).
  - rewrite view_advance by lia. split_and!; [done|lia..|].
    destruct (Z.ltb_spec m (s - n)), (Z.ltb_spec (n + m) s); try lia; f_equal; lia.
  - rewrite view_advance by lia. split_and!; [|lia..|].
    + rewrite !drop_ge; [done|unfold view; rewrite length_map, length_seq; lia..].
    + destruct (Z.ltb_spec m (s - s)), (Z.ltb_spec (n + m) s); try lia; f_equal; lia.
Qed.

Lemma const_advance_spec_witness :
  const_advance 3 (const_advance 2 (mk_const 100 10)) = mk_const 105 5.
Proof.
  destruct (const_advance_spec (fun _ => zero) (mk_const 100 10) 2 3
              ltac:(vm_compute; discriminate) ltac:(lia) ltac:(lia)) as (_ & _ & _ & ->).
  reflexivity.
Defined.
End Buffer.

(** ** Traffic on an endpoint *)
Module Socket.
Local Open Scope Z_scope.

Inductive endpoint := SrtEp (s : Z) | UdpEp (fd : Z).
#[global] Instance endpoint_eq_dec : EqDecision endpoint.
Proof. solve_decision. Defined.

(** The payloads a trace receives and the payloads it hands to the network,
    with the endpoint they travel on. Calls that return an error or no bytes
    move nothing. *)
Definition recv_of (e : event) : option (endpoint * list char) :=
  match e with
  | Ev (srt_recvmsg2 s _) (n, d) => if 0 <? n then Some (SrtEp s, d) else None
  | Ev (srt_recvmsg s _) (n, d) => if 0 <? n then Some (SrtEp s, d) else None
  | Ev (udp_read fd _ _) (inl (n, d)) => if 0 <? n then Some (UdpEp fd, d) else None
  | _ => None
  end.
Definition send_of (e : event) : option (endpoint * list char) :=
  match e with
  | Ev (srt_sendmsg2 s d _) n => if 0 <? n then Some (SrtEp s, take (Z.to_nat n) d) else None
  | Ev (srt_sendmsg s d _ _) n => if 0 <? n then Some (SrtEp s, take (Z.to_nat n) d) else None
  | Ev (udp_write fd d _) (inl n) =>
      if 0 <? n then Some (UdpEp fd, take (Z.to_nat n) d) else None
  | _ => None
  end.
Definition received (t : list event) : list (endpoint * list char) := omap recv_of t.
Definition sent (t : list event) : list (endpoint * list char) := omap send_of t.

Lemma received_app t1 t2 : received (t1 ++ t2) = received t1 ++ received t2.
Proof. apply omap_app. Qed.
Lemma sent_app t1 t2 : sent (t1 ++ t2) = sent t1 ++ sent t2.
Proof. apply omap_app. Qed.

(** ** The interface *)
Record isocket (W : Type) := mk_isocket {
  sock_ep : endpoint;
  sock_id : Z;
  sock_is_caller : bool;
  sock_supports_statistics : bool;
  sock_read : Z -> Z -> io W (Z * list char);
  sock_write : list char -> Z -> io W Z }.
Arguments mk_isocket {W}.
Arguments sock_ep {W}.
Arguments sock_id {W}.
Arguments sock_is_caller {W}.
Arguments sock_supports_statistics {W}.
Arguments sock_read {W}.
Arguments sock_write {W}.

(** What reading promises: the bytes returned are exactly the bytes received on
    the endpoint (none when the count is 0), they fit the buffer, nothing is
    sent, and a failure is a socket::exception after which nothing was
    received. What writing promises: the count tells how much of the data was
    handed over. Both only poll, move data and ask for errors ([traffic_call]). *)
Definition read_post (ep : endpoint) (cap : Z) {W} : post (W:=W) (Z * list char) :=
  fun o t _ =>
    sent t = [] /\
    match o with
    | Done (n, d) => n = Z.of_nat (length d) /\ n <= cap /\
                     received t = if 0 <? n then [(ep, d)] else []
    | Throw (SocketException _) => received t = []
    | _ => False
    end.
Definition write_post (ep : endpoint) (data : list char) {W} : post (W:=W) Z :=
  fun o t _ =>
    received t = [] /\
    match o with
    | Done n => 0 <= n <= Z.of_nat (length data) /\
                sent t = if 0 <? n then [(ep, take (Z.to_nat n) data)] else []
    | Throw (SocketException _) => sent t = []
    | _ => False
    end.

Definition traffic_call (c : call) : bool :=
  match c with
  | srt_epoll_wait _ _ _ _ | srt_recvmsg2 _ _ | srt_sendmsg2 _ _ _
  | srt_getlasterror | srt_getlasterror_str
  | udp_read _ _ _ | udp_write _ _ _ => true
  | _ => false
  end.

Class IsocketOk {W} (s : isocket W) : Prop := {
  read_calls cap timeout : only traffic_call (sock_read s cap timeout);
  write_calls data timeout : only traffic_call (sock_write s data timeout);
  read_ok cap timeout w :
    0 <= cap <= CInt.INT_MAX -> wp (sock_read s cap timeout) (read_post (sock_ep s) cap) w;
  write_ok data timeout w :
    Z.of_nat (length data) <= CInt.INT_MAX ->
    wp (sock_write s data timeout) (write_post (sock_ep s) data) w }.

(** The rules for the operations of a socket that keeps the interface. *)
Lemma read_wp {W} (s : isocket W) `{!IsocketOk s} cap timeout w (Q : post (Z * list char)) :
  0 <= cap <= CInt.INT_MAX ->
  (forall o t w', forallb traffic_call (calls t) = true -> read_post (sock_ep s) cap o t w' -> Q o t w') ->
  wp (sock_read s cap timeout) Q w.
Proof.
  intros Hcap HQ. eapply wp_mono; [apply wp_and; [apply read_calls|by apply read_ok]|].
  intros o t w' [Ht Hp]. by apply HQ.
Qed.
Lemma write_wp {W} (s : isocket W) `{!IsocketOk s} data timeout w (Q : post Z) :
  Z.of_nat (length data) <= CInt.INT_MAX ->
  (forall o t w', forallb traffic_call (calls t) = true -> write_post (sock_ep s) data o t w' -> Q o t w') ->
  wp (sock_write s data timeout) Q w.
Proof.
  intros Hlen HQ. eapply wp_mono; [apply wp_and; [apply write_calls|by apply write_ok]|].
  intros o t w' [Ht Hp]. by apply HQ.
Qed.

(** [forwarded r s]: each message of [r], in order, was sent whole, sent in
    part, or lost. *)
Inductive forwarded : list (list char) -> list (list char) -> Prop :=
| fwd_nil : forwarded [] []
| fwd_sent d n r s : (0 < n <= length d)%nat -> forwarded r s -> forwarded (d :: r) (take n d :: s)
| fwd_lost d r s : forwarded r s -> forwarded (d :: r) s.

Lemma forwarded_app r1 s1 r2 s2 :
  forwarded r1 s1 -> forwarded r2 s2 -> forwarded (r1 ++ r2) (s1 ++ s2).
Proof. induction 1; intros; cbn; eauto using forwarded. Qed.

(** A socket that takes every message whole. *)
Definition reliable {W} (sock : isocket W) : Prop :=
  forall data timeout w, Z.of_nat (length data) <= CInt.INT_MAX ->
    wp (sock_write sock data timeout) (fun o _ _ => o = Done (Z.of_nat (length data))) w.

Lemma reliable_write_wp {W} (sock : isocket W) `{!IsocketOk sock} data timeout w (Q : post Z) :
  Z.of_nat (length data) <= CInt.INT_MAX ->
  (forall o t w', forallb traffic_call (calls t) = true ->
     write_post (sock_ep sock) data o t w' ->
     (reliable sock -> o = Done (Z.of_nat (length data))) -> Q o t w') ->
  wp (sock_write sock data timeout) Q w.
Proof.
  intros Hlen HQ. pose proof (write_calls (s := sock) data timeout w) as Ht.
  pose proof (write_ok (s := sock) data timeout w Hlen) as Hp. unfold wp in *.
  destruct (sock_write sock data timeout w) as [[o t] w'] eqn:E.
  apply HQ; [done..|]. intros Hr. specialize (Hr data timeout w Hlen). unfold wp in Hr. by rewrite E in Hr.
Qed.

(** ** socket::udp *)
Section udp.
Context {W : Type} `{Env W}.

Definition udp_ctor (uri : string) : io W (Z * bool) :=
  let! r := invoke (udp_open uri) in
  match r with inl u => ret u | inr msg => throw (SocketException msg) end.
Definition udp_dtor (fd : Z) : io W unit := do! invoke (udp_close fd) in ret tt.

Definition udp_socket (fd : Z) (is_caller : bool) : isocket W := {|
  sock_ep := UdpEp fd; sock_id := fd; sock_is_caller := is_caller;
  sock_supports_statistics := false;
  sock_read cap timeout :=
    let! r := invoke (udp_read fd cap timeout) in
    match r with inl nd => ret nd | inr msg => throw (SocketException msg) end;
  sock_write data timeout :=
    let! r := invoke (udp_write fd data timeout) in
    match r with inl n => ret n | inr msg => throw (SocketException msg) end |}.
End udp.

(** What the documentation of the SRT API and of the UDP socket says of the
    calls that move data. *)
Class SrtOk (W : Type) `{Env W} : Prop := {
  srt_recv_ok s cap w r d w' :
    answer (srt_recvmsg2 s cap) w = ((r, d), w') ->
    r = SRT_ERROR \/ (0 <= r <= cap /\ Z.of_nat (length d) = r);
  srt_send_ok s data len w r w' :
    answer (srt_sendmsg2 s data len) w = (r, w') -> r = SRT_ERROR \/ 0 <= r <= len }.
Class UdpOk (W : Type) `{Env W} : Prop := {
  udp_recv_ok fd cap tmo w n d w' :
    0 <= cap -> answer (udp_read fd cap tmo) w = (inl (n, d), w') ->
    0 <= n <= cap /\ Z.of_nat (length d) = n;
  udp_send_ok fd data tmo w n w' :
    answer (udp_write fd data tmo) w = (inl n, w') -> 0 <= n <= Z.of_nat (length data) }.

(** The answers do not depend on the program state kept next to the environment's. *)
#[global] Instance srt_ok_prod {W S} `{SrtOk W} : SrtOk (W * S).
Proof.
  split; intros until w'; intros [Ha _]%prod_answer; [by eapply srt_recv_ok|by eapply srt_send_ok].
Qed.
#[global] Instance udp_ok_prod {W S} `{UdpOk W} : UdpOk (W * S).
Proof.
  split.
  - intros fd cap tmo w n d w' Hcap [Ha _]%prod_answer. by eapply udp_recv_ok.
  - intros fd data tmo w n w' [Ha _]%prod_answer. by eapply udp_send_ok.
Qed.

#[global] Instance udp_isocket_ok {W} `{UdpOk W} fd c : IsocketOk (W:=W) (udp_socket fd c).
Proof.
  split; [intros; cbn [udp_socket sock_read sock_write]; only_steps..| |].
  - intros cap tmo w Hcap. cbn [sock_read sock_ep udp_socket]. wp_steps. destruct r as [[n d]|msg]; wp_steps.
    + apply udp_recv_ok in Hans as [Hn Hl]; [|lia]. unfold read_post. cbn. destruct (0 <? n); split_and!; (done || lia).
    + done.
  - intros data tmo w Hlen. cbn [sock_write sock_ep udp_socket]. wp_steps. destruct r as [n|msg]; wp_steps.
    + apply udp_send_ok in Hans as Hn. unfold write_post. cbn. destruct (0 <? n); split_and!; (done || lia).
    + done.
Qed.
End Socket.
