(* ===== verification/Scheduler.v ===== *)
(** * scheduler (scheduler.hpp)

    A thread that runs tasks at given times. The task queue (a multimap keyed
    by time) and its operations are functions; the timer thread, the clients
    that add tasks and the destructor are a step relation over the state they
    share, with one step for each access to that state: the flag done_, the
    queue under lock_, the mutex and the condition variable of sync_. *)

From Stdlib Require Import ZArith Lia Sorted.
From stdpp Require Import prelude list sorting.
From S2P Require Import Prelude Sys Logic.

Module Scheduler.
Local Open Scope list_scope.
Local Open Scope Z_scope.

Section queue.
Context {T : Type}.
Implicit Types q : list (Z * T).

(** [tasks_.emplace(time, t)]: after the tasks with the same time. *)
Fixpoint emplace (time : Z) (t : T) q : list (Z * T) :=
  match q with
  | [] => [(time, t)]
  | (time', t') :: q' =>
      if time <? time' then (time, t) :: q else (time', t') :: emplace time t q'
  end.

(** [tasks_.upper_bound(now)] as a position. *)
Fixpoint upper_bound (now : Z) q : nat :=
  match q with
  | [] => 0
  | (time, _) :: q' => if now <? time then 0 else S (upper_bound now q')
  end.

(** manage_tasks at time [now]: the tasks it runs, in order, and the tasks it
    leaves. *)
Definition manage (now : Z) q : list (Z * T) * list (Z * T) :=
  let n := upper_bound now q in (take n q, drop n q).

(** manage_tasks: runs the due tasks, then erases them. *)
Definition manage_tasks {W} `{Env W} (run : T -> io W unit) q : io W (list (Z * T)) :=
  let! now := invoke steady_now in
  let '(due, rest) := manage now q in
  do! for_each (fun kt => run kt.2) due in
  ret rest.

(** schedule_in: adds the task at the current time plus the delay. *)
Definition schedule_on (time : Z) (t : T) q : list (Z * T) := emplace time t q.
Definition schedule_in {W} `{Env W} (delay : Z) (t : T) q : io W (list (Z * T)) :=
  let! now := invoke steady_now in ret (schedule_on (now + delay) t q).

Definition ordered q : Prop := StronglySorted (fun a b => a.1 <= b.1) q.

Lemma emplace_perm time t q : emplace time t q ≡ₚ (time, t) :: q.
Proof.
  induction q as [|[time' t'] q IH]; [done|]. cbn. destruct (time <? time'); [done|].
  rewrite IH. apply Permutation_swap.
Qed.

Lemma emplace_ordered time t q : ordered q -> ordered (emplace time t q).
Proof.
  unfold ordered. induction q as [|[time' t'] q IH]; intros Hs; cbn.
  { by repeat constructor. }
  apply StronglySorted_inv in Hs as [Hs Hall].
  destruct (Z.ltb_spec time time').
  - constructor; [by constructor|]. constructor; [cbn; lia|].
    eapply Forall_impl; [exact Hall|]. cbn. lia.
  - constructor; [by apply IH|]. rewrite emplace_perm. constructor; [done|exact Hall].
Qed.

Lemma upper_bound_spec now q :
  ordered q ->
  Forall (fun kt => kt.1 <= now) (take (upper_bound now q) q) /\
  Forall (fun kt => now < kt.1) (drop (upper_bound now q) q).
Proof.
  unfold ordered. induction q as [|[time t] q IH]; intros Hs; [by split; constructor|].
  apply StronglySorted_inv in Hs as [Hs Hall]. cbn. destruct (Z.ltb_spec now time).
  - split; [constructor|]. constructor; [done|]. eapply Forall_impl; [exact Hall|]. cbn. lia.
  - cbn. destruct (IH Hs) as [H1 H2]. by split; [constructor|].
Qed.

Lemma ordered_drop n q : ordered q -> ordered (drop n q).
Proof.
  unfold ordered. revert n. induction q as [|x q IH]; intros [|n] Hs; try done.
  apply StronglySorted_inv in Hs as [Hs _]. by apply IH.
Qed.
Lemma ordered_take n q : ordered q -> ordered (take n q).
Proof.
  unfold ordered. revert n. induction q as [|x q IH]; intros [|n] Hs; try done; [constructor|].
  apply StronglySorted_inv in Hs as [Hs Hall]. cbn. constructor; [by apply IH|].
  by apply Forall_take.
Qed.

(** manage_tasks runs exactly the tasks that are due, in order of their time
    (and in the order they were added for equal times), and leaves exactly the
    others; adding a task keeps the queue ordered. *)
Theorem manage_spec now time t q :
  ordered q ->
  let '(due, rest) := manage now q in
  due ++ rest = q /\ ordered due /\ ordered rest /\
  Forall (fun kt => kt.1 <= now) due /\ Forall (fun kt => now < kt.1) rest /\
  ordered (emplace time t q) /\ emplace time t q ≡ₚ (time, t) :: q /\
  filter (fun kt => kt.1 = time) (emplace time t q) =
    filter (fun kt => kt.1 = time) q ++ [(time, t)].
Proof.
  intros Hq. unfold manage. destruct (upper_bound_spec now q Hq) as [H1 H2].
  split_and!; try done; [apply take_drop|by apply ordered_take|by apply ordered_drop|
    by apply emplace_ordered|apply emplace_perm|].
  clear H1 H2. unfold ordered in Hq. induction q as [|[time' t'] q IH]; cbn [emplace].
  { by rewrite filter_cons_True. }
  apply StronglySorted_inv in Hq as [Hq Hall]. destruct (Z.ltb_spec time time') as [Hlt|Hge].
  - rewrite filter_cons_True by done.
    assert (filter (fun kt : Z * T => kt.1 = time) ((time', t') :: q) = []) as Hnone.
    { clear IH. assert (Forall (fun kt : Z * T => time < kt.1) ((time', t') :: q)) as Hf.
      { constructor; [done|]. eapply Forall_impl; [exact Hall|]. cbn. lia. }
      revert Hf. generalize ((time', t') :: q) as l. induction l as [|x l IHl]; [done|].
      intros [Hx Hl]%Forall_cons. rewrite filter_cons_False by lia. by apply IHl. }
    by rewrite Hnone.
  - rewrite !filter_cons, IH by done. by case_decide.
Qed.

Lemma manage_tasks_wp {W} `{Env W} (run : T -> io W unit) q w (Q : post (list (Z * T))) :
  (forall now w1, answer steady_now w = (now, w1) ->
     wp (for_each (fun kt => run kt.2) (manage now q).1)
       (fun o t w2 => outcome_bind o
          (fun _ => Q (Done (manage now q).2) (Ev steady_now now :: t) w2)
          (fun o' => Q o' (Ev steady_now now :: t) w2)) w1) ->
  wp (manage_tasks run q) Q w.
Proof.
  intros Hk. unfold manage_tasks. wp_steps. destruct (manage r q) as [due rest] eqn:E.
  wp_steps. specialize (Hk r w0 Hans). rewrite E in Hk. eapply wp_mono; [exact Hk|].
  intros [[]|e|u|] t w2 HQ; wp_steps; [by rewrite app_nil_r|done..].
Qed.
End queue.

(** ** The threads

    The timer thread is at one of the points of timer_loop; the holder of
    sync_.mtx is the timer thread at [TPredicate], [TBlock] and [TBlockUntil].
    A client is inside add_task, between the emplace and the notification, when
    [adding] holds: it then holds lock_. The timer thread looks at the queue without
    lock_ (scheduler.hpp, lines 83 to 91), which is a data race with add_task; the
    steps below are for executions in which these looks happen to be whole. *)
Inductive pc := TTest | TManage | TLook | TPredicate | TBlock | TWait
              | TLockUntil (time : Z) | TBlockUntil (time : Z) | TWaitUntil (time : Z) | TExit.
(** The destructor: not started, done_ set, notified (joining). *)
Inductive dtor := DIdle | DSet | DNotified.

Section threads.
Context {T : Type}.

Record state := mk_state {
  tpc : pc; done_ : bool; adding : bool; phase : dtor; now : Z;
  tasks_ : list (Z * T);
  added : list (Z * T);  (* every task added so far, oldest last *)
  ran : list (Z * (Z * T)) (* every task run so far with the time of its run *) }.

Definition init (t0 : Z) : state := mk_state TTest false false DIdle t0 [] [] [].

Definition goto (p : pc) (s : state) : state :=
  mk_state p (done_ s) (adding s) (phase s) (now s) (tasks_ s) (added s) (ran s).

(** A notification wakes the timer thread only where it waits. *)
Definition notify (s : state) : state :=
  match tpc s with
  | TWait => goto TPredicate s
  | TWaitUntil _ => goto TTest s
  | _ => s
  end.

Definition holds_mtx (p : pc) : bool :=
  match p with TPredicate | TBlock | TBlockUntil _ => true | _ => false end.

Inductive step : state -> state -> Prop :=
(* the clock *)
| step_tick s d : 0 <= d ->
    step s (mk_state (tpc s) (done_ s) (adding s) (phase s) (now s + d) (tasks_ s) (added s) (ran s))
(* timer_loop *)
| step_test s : tpc s = TTest ->
    step s (goto (if done_ s then TExit else TManage) s)
| step_manage s : tpc s = TManage -> adding s = false ->
    step s (mk_state TLook (done_ s) (adding s) (phase s) (now s) (manage (now s) (tasks_ s)).2
              (added s) (ran s ++ map (pair (now s)) (manage (now s) (tasks_ s)).1))
| step_look_empty s : tpc s = TLook -> tasks_ s = [] -> step s (goto TPredicate s)
| step_look s time t q : tpc s = TLook -> tasks_ s = (time, t) :: q ->
    step s (goto (TLockUntil time) s)
| step_predicate s : tpc s = TPredicate ->
    step s (goto (if done_ s || negb (bool_decide (length (tasks_ s) = 0%nat)) then TTest else TBlock) s)
| step_block s : tpc s = TBlock -> step s (goto TWait s)
| step_spurious s : tpc s = TWait -> step s (goto TPredicate s)
| step_lock_until s time : tpc s = TLockUntil time -> step s (goto (TBlockUntil time) s)
| step_block_until s time : tpc s = TBlockUntil time -> step s (goto (TWaitUntil time) s)
| step_timeout s time : tpc s = TWaitUntil time -> time <= now s -> step s (goto TTest s)
| step_spurious_until s time : tpc s = TWaitUntil time -> step s (goto TTest s)
(* add_task: emplace under lock_, then notify_one, which does not take sync_.mtx *)
| step_emplace s time t : adding s = false -> phase s = DIdle ->
    step s (mk_state (tpc s) (done_ s) true (phase s) (now s) (emplace time t (tasks_ s))
              ((time, t) :: added s) (ran s))
| step_add_notify s : adding s = true ->
    step s (notify (mk_state (tpc s) (done_ s) false (phase s) (now s) (tasks_ s) (added s) (ran s)))
(* ~scheduler: set done_, then notify under sync_.mtx *)
| step_set_done s : phase s = DIdle -> adding s = false ->
    step s (mk_state (tpc s) true (adding s) DSet (now s) (tasks_ s) (added s) (ran s))
| step_dtor_notify s : phase s = DSet -> holds_mtx (tpc s) = false ->
    step s (notify (mk_state (tpc s) (done_ s) (adding s) DNotified (now s) (tasks_ s)
                      (added s) (ran s))).

Inductive reachable : state -> Prop :=
| reach_init t0 : reachable (init t0)
| reach_step s s' : reachable s -> step s s' -> reachable s'.

Definition ran_tasks (s : state) : list (Z * T) := map snd (ran s).

(** The invariant of the reachable states. *)
Record inv (s : state) : Prop := {
  inv_ordered : ordered (tasks_ s);
  inv_tasks : ran_tasks s ++ tasks_ s ≡ₚ added s;
  inv_on_time : Forall (fun r => r.2.1 <= r.1 /\ r.1 <= now s) (ran s);
  inv_phase : phase s = DIdle <-> done_ s = false;
  inv_adding : adding s = true -> phase s = DIdle;
  inv_no_stuck : phase s = DNotified -> tpc s <> TWait;
  inv_block : tpc s = TBlock -> done_ s = true -> phase s = DSet }.

Lemma inv_goto p s :
  inv s -> (phase s = DNotified -> p <> TWait) ->
  (p = TBlock -> done_ s = true -> phase s = DSet) -> inv (goto p s).
Proof. intros [] ? ?. by split. Qed.

Lemma inv_notify s : inv s -> inv (notify s).
Proof. intros Hi. unfold notify. destruct (tpc s); try done; by apply inv_goto. Qed.

Lemma inv_done s : inv s -> phase s <> DIdle -> done_ s = true.
Proof. intros Hi Hp. destruct (done_ s) eqn:E; [done|]. by apply (inv_phase s Hi) in E. Qed.

Lemma inv_not_adding s : inv s -> phase s <> DIdle -> adding s = false.
Proof. intros Hi Hp. destruct (adding s) eqn:E; [|done]. by apply (inv_adding s Hi) in E. Qed.

(** What remains to show after a step that moves the destructor on. *)
Lemma inv_phase_change s s' :
  inv s -> done_ s' = true -> adding s' = false -> phase s' <> DIdle ->
  now s' = now s -> tasks_ s' = tasks_ s -> added s' = added s -> ran s' = ran s ->
  (phase s' = DNotified -> tpc s' <> TWait) ->
  (tpc s' = TBlock -> phase s' = DSet) -> inv s'.
Proof.
  intros [Ho Ht Hr _ _ _ _] Hd Ha Hp En Et Ea Er Hw Hb.
  split; unfold ran_tasks in *; rewrite ?En, ?Et, ?Ea, ?Er, ?Hd, ?Ha; try done.
  intros Hpc _. by apply Hb.
Qed.

Lemma step_inv s s' : inv s -> step s s' -> inv s'.
Proof.
  intros Hi Hs. destruct Hs.
  - destruct Hi. split; cbn; try done. eapply Forall_impl; [done|]. cbn. lia.
  - destruct (done_ s); by apply inv_goto.
  - destruct Hi. destruct (upper_bound_spec (now s) (tasks_ s)) as [Hdue _]; [done|].
    unfold manage. split; cbn; try done.
    + by apply ordered_drop.
    + unfold ran_tasks. cbn. by rewrite map_app, map_map, map_id, <- app_assoc, take_drop.
    + apply Forall_app. split; [done|]. apply Forall_map. eapply Forall_impl; [exact Hdue|]. cbn. lia.
  - by apply inv_goto.
  - by apply inv_goto.
  - destruct (done_ s) eqn:Hd; cbn; [by apply inv_goto|].
    destruct (negb _); apply inv_goto; try done. congruence.
  - apply inv_goto; [done| |done]. intros Hp _.
    assert (done_ s = true) as Hd by (apply inv_done; [done|congruence]).
    pose proof (inv_block s Hi ltac:(done) Hd). congruence.
  - by apply inv_goto.
  - by apply inv_goto.
  - by apply inv_goto.
  - by apply inv_goto.
  - by apply inv_goto.
  - destruct Hi as [Ho Ht Hr Hp Ha Hn Hb]. split; cbn; try done.
    + by apply emplace_ordered.
    + by rewrite emplace_perm, <- Permutation_middle, Ht.
  - apply inv_notify. destruct Hi as [Ho Ht Hr Hp Ha Hn Hb]. by split.
  - apply (inv_phase_change s); done.
  - assert (done_ s = true) as Hd by (apply inv_done; [done|congruence]).
    assert (adding s = false) as Ha by (apply inv_not_adding; [done|congruence]).
    unfold notify. cbn. destruct (tpc s) eqn:Hpc; try done;
      apply (inv_phase_change s); cbn; congruence.
Qed.

Lemma reachable_inv s : reachable s -> inv s.
Proof.
  induction 1 as [t0|s s' _ IH Hs]; [|by eapply step_inv].
  split; cbn; try done. constructor.
Qed.

(** C29: Whatever the interleaving of the timer thread, the clients and the
    destructor: every task added is either still queued or has been run, exactly
    once; no task runs before its time; the queue stays ordered by time; and
    once the destructor has notified, the timer thread is never blocked in the
    wait that has no time limit, so the join cannot hang there. *)
Theorem scheduler_safety s :
  reachable s ->
  ran_tasks s ++ tasks_ s ≡ₚ added s /\
  Forall (fun r => r.2.1 <= r.1 /\ r.1 <= now s) (ran s) /\
  ordered (tasks_ s) /\
  (phase s = DNotified -> done_ s = true /\ tpc s <> TWait /\ tpc s <> TBlock).
Proof.
  intros Hr. apply reachable_inv in Hr as Hi. pose proof (inv_done s Hi) as Hd.
  destruct Hi as [Ho Ht Hon Hp Ha Hn Hb]. split_and!; try done.
  intros Hph. assert (done_ s = true) by (apply Hd; congruence).
  split_and!; [done|by apply Hn|]. intros Hpc. specialize (Hb Hpc ltac:(done)). congruence.
Qed.

(** A wakeup is lost: the timer thread finds the queue empty, a client adds a
    task and notifies, and only then the timer thread starts to wait. *)
Definition lost (t0 : Z) (x : T) : state :=
  mk_state TWait false false DIdle t0 [(t0, x)] [(t0, x)] [].

Lemma lost_reachable t0 x : reachable (lost t0 x).
Proof.
  pose proof (reach_init t0) as R.
  eapply reach_step in R; [|by apply step_test]. cbn in R.
  eapply reach_step in R; [|by apply step_manage]. cbn in R.
  eapply reach_step in R; [|by apply step_look_empty]. cbn in R.
  eapply reach_step in R; [|by apply step_predicate]. cbn in R.
  eapply reach_step in R; [|by apply (step_emplace _ t0 x)]. cbn in R.
  eapply reach_step in R; [|by apply step_add_notify]. cbn in R.
  eapply reach_step in R; [|by apply step_block]. exact R.
Qed.

(** C31: A notification can be lost, because add_task notifies without holding
    sync_.mtx: a state is reachable where a task is due, its add_task has
    finished, nothing else is under way, and the timer thread waits without a
    time limit. From there the passing of time alone never runs the task: every
    step leaves the timer waiting with the task queued, unless it is a spurious
    wakeup or somebody adds another task or destroys the scheduler. *)
Theorem lost_wakeup (t0 : Z) (x : T) :
  exists s, reachable s /\ tpc s = TWait /\ adding s = false /\ phase s = DIdle /\
    (t0, x) ∈ tasks_ s /\ t0 <= now s /\
    forall s', step s s' ->
      (tpc s' = TWait /\ tasks_ s' = tasks_ s /\ ran s' = []) \/
      s' = goto TPredicate s \/ adding s' = true \/ phase s' = DSet.
Proof.
  exists (lost t0 x). split; [apply lost_reachable|]. cbn. split_and!; try done; [by left|].
  intros s' Hs. inversion Hs; subst; cbn in *; try discriminate; try done; auto.
Qed.

(** ** The abstract scheduler: a pool of timed tasks

    What a client of the scheduler may rely on knows nothing of queues, threads
    and locks: tasks are added to a pool, and every now and then all tasks that
    are due leave it and run, in the order of their times. *)
Record pool := mk_pool { p_now : Z; p_pending : list (Z * T); p_ran : list (Z * (Z * T)) }.

(** Pools are the same when they hold the same tasks, in whatever order. *)
#[global] Instance pool_equiv : Equiv pool := fun p q =>
  p_now p = p_now q /\ p_pending p ≡ₚ p_pending q /\ p_ran p = p_ran q.
#[global] Instance pool_equivalence : Equivalence (≡@{pool}).
Proof.
  split.
  - intros p. by split_and!.
  - intros p q (? & ? & ?). by split_and!.
  - intros p q r (H1 & H2 & H3) (H4 & H5 & H6). split_and!; [congruence|by rewrite H2|congruence].
Qed.

Inductive pool_step : pool -> pool -> Prop :=
| pool_tick p d : 0 <= d -> pool_step p (mk_pool (p_now p + d) (p_pending p) (p_ran p))
| pool_add p time t pending : pending ≡ₚ (time, t) :: p_pending p ->
    pool_step p (mk_pool (p_now p) pending (p_ran p))
| pool_run p due rest : p_pending p ≡ₚ due ++ rest -> ordered due ->
    Forall (fun kt => kt.1 <= p_now p) due -> Forall (fun kt => p_now p < kt.1) rest ->
    pool_step p (mk_pool (p_now p) rest (p_ran p ++ map (pair (p_now p)) due)).

(** The order of a pool's tasks does not matter to what it can do. *)
Lemma pool_step_equiv p q p' :
  p ≡ q -> pool_step p p' -> exists q', pool_step q q' /\ p' ≡ q'.
Proof.
  destruct q as [nq dq rq]. intros (Hn & Hp & Hr) Hs. cbn in *. subst nq rq. destruct Hs as [p d Hd|p time t pe Hpe|p due rest Hpe Ho Hdue Hrest].
  - eexists. split; [by apply (pool_tick _ d)|]. by split_and!.
  - exists (mk_pool (p_now p) pe (p_ran p)). split; [|done].
    apply (pool_add (mk_pool _ dq _) time t). by rewrite Hpe, Hp.
  - eexists. split; [apply (pool_run (mk_pool _ dq _) due rest); cbn; try done; by rewrite <- Hp|]. by split_and!.
Qed.

Definition pool_of (s : state) : pool := mk_pool (now s) (tasks_ s) (ran s).

Lemma pool_notify s : pool_of (notify s) = pool_of s.
Proof. unfold notify. by destruct (tpc s). Qed.

(** A step of the threads is a step of the pool, or none. *)
Lemma step_simulated s s' : inv s -> step s s' ->
  pool_of s' = pool_of s \/ pool_step (pool_of s) (pool_of s').
Proof.
  intros Hi Hs. destruct Hs; rewrite ?pool_notify; try (by left); right.
  - by apply (pool_tick (pool_of s)).
  - destruct (upper_bound_spec (now s) (tasks_ s) (inv_ordered s Hi)) as [H1 H2].
    apply (pool_run (pool_of s)); cbn; try done; [by rewrite take_drop|].
    apply ordered_take, Hi.
  - apply (pool_add (pool_of s) time t), emplace_perm.
Qed.

(** C30: the scheduler implements the pool: whatever the interleaving of the timer
    thread, the clients that add tasks and the destructor, the state that was
    reached is one that the pool reaches; in particular, whenever tasks run,
    those are all the tasks that are due then, in the order of their times. *)
Theorem scheduler_refines s : reachable s -> exists t0, rtc pool_step (mk_pool t0 [] []) (pool_of s).
Proof.
  induction 1 as [t0|s s' Hr [t0 IH] Hs]; [by exists t0|]. exists t0.
  destruct (step_simulated s s' (reachable_inv s Hr) Hs) as [->|Hp]; [done|]. by eapply rtc_r.
Qed.
End threads.

Lemma scheduler_safety_witness :
  exists s : state (T := nat), reachable s /\ ran_tasks s ++ tasks_ s ≡ₚ added s.
Proof.
  exists (lost 5 1%nat). split; [apply lost_reachable|].
  exact (proj1 (scheduler_safety (lost 5 1%nat) (lost_reachable 5 1%nat))).
Defined.

(** A task added for time 5 is run at time 5. *)
Lemma scheduler_refines_witness :
  exists (s : state (T := nat)) t0, reachable s /\ ran s = [(5, (5, 1%nat))] /\
    rtc pool_step (mk_pool t0 [] []) (pool_of s).
Proof.
  assert (exists s : state (T := nat), reachable s /\ ran s = [(5, (5, 1%nat))]) as (s & Hr & Hs).
  { pose proof (reach_init (T := nat) 5) as R.
    eapply reach_step in R; [|by apply (step_emplace _ 5 1%nat)]. cbn in R.
    eapply reach_step in R; [|by apply step_add_notify]. cbn in R.
    eapply reach_step in R; [|by apply step_test]. cbn in R.
    eapply reach_step in R; [|by apply step_manage]. cbn in R. by eexists. }
  destruct (scheduler_refines s Hr) as [t0 Hp]. by exists s, t0.
Defined.

Lemma manage_spec_witness :
  manage 7 [(3, 1%nat); (7, 2%nat); (9, 3%nat)] = ([(3, 1%nat); (7, 2%nat)], [(9, 3%nat)]) /\
  ordered (emplace 8 4%nat [(3, 1%nat); (7, 2%nat); (9, 3%nat)]).
Proof.
  assert (ordered [(3, 1%nat); (7, 2%nat); (9, 3%nat)]) as Ho
    by (repeat constructor; cbn; lia).
  split; [reflexivity|]. pose proof (manage_spec 7 8 4%nat _ Ho) as Hm.
  destruct Hm as (_ & _ & _ & _ & _ & Hm & _). exact Hm.
Defined.
End Scheduler.
