(* ===== verification/Stats.v ===== *)
(** * Statistics reports (srt_socket.cpp, srt_socket_group.cpp)

    The CSV line and the JSON object a socket reports. The text of a line is
    the sequence of values put on the stream, so that the rendering of a number
    is left to the C++ library; a JSON object is a map sorted by key. *)

From Stdlib Require Import ZArith Lia Ascii String SpecFloat.
From stdpp Require Import prelude strings list.
From S2P Require Import Prelude Sys Logic.

Module Stats.
Local Open Scope string_scope.
Local Open Scope list_scope.
Local Open Scope Z_scope.

(** What is put on the output stream. *)
Inductive token := TText (s : string) | TTime (s : string) | TInt (z : Z) | TDouble (d : spec_float).

(** The version macros of the SRT headers, and the two conditions on them. *)
Record version := mk_version { v_major : Z; v_minor : Z; v_patch : Z }.
Definition SRT_VERSION : version := mk_version 1 5 3.
Definition HAS_PKT_REORDER_TOL (v : version) : bool :=
  (1 <=? v_major v) && (4 <=? v_minor v) && (0 <? v_patch v).
Definition HAS_UNIQUE_PKTS (v : version) : bool :=
  (v_major v =? 1) && ((4 <? v_minor v) || ((v_minor v =? 4) && (2 <=? v_patch v))).

(** ** CSV *)
Definition csv_header (v : version) : list token :=
  [TText "Timepoint,";
   TText "Time,SocketID,weight,pktFlowWindow,pktCongestionWindow,pktFlightSize,";
   TText "msRTT,mbpsBandwidth,mbpsMaxBW,pktSent,"] ++
  (if HAS_UNIQUE_PKTS v then [TText "pktSentUnique,"] else []) ++
  [TText "pktSndLoss,pktSndDrop,pktRetrans,byteSent,";
   TText "byteAvailSndBuf,byteSndDrop,mbpsSendRate,usPktSndPeriod,msSndBuf,pktRecv,"] ++
  (if HAS_UNIQUE_PKTS v then [TText "pktRecvUnique,"] else []) ++
  [TText "pktRcvLoss,pktRcvDrop,pktRcvUndecrypt,pktRcvRetrans,pktRcvBelated,";
   TText "byteRecv,byteAvailRcvBuf,byteRcvLoss,byteRcvDrop,mbpsRecvRate,msRcvBuf,msRcvTsbPdDelay"] ++
  (if HAS_PKT_REORDER_TOL v then [TText ",pktReorderTolerance"] else []) ++
  [TText (of_chars ["010"%char])].

Definition csv_row (v : version) (timestamp : string) (socketid weight : Z) (s : Srt.stats)
  : list token :=
  [TTime timestamp; TText ","; TInt (msTimeStamp s); TText ","; TInt socketid; TText ",";
   TInt weight; TText ","; TInt (pktFlowWindow s); TText ","; TInt (pktCongestionWindow s);
   TText ","; TInt (pktFlightSize s); TText ","; TDouble (msRTT s); TText ",";
   TDouble (mbpsBandwidth s); TText ","; TDouble (mbpsMaxBW s); TText ","; TInt (pktSent s);
   TText ","] ++
  (if HAS_UNIQUE_PKTS v then [TInt (pktSentUnique s); TText ","] else []) ++
  [TInt (pktSndLoss s); TText ","; TInt (pktSndDrop s); TText ","; TInt (pktRetrans s); TText ",";
   TInt (byteSent s); TText ","; TInt (byteAvailSndBuf s); TText ","; TInt (byteSndDrop s);
   TText ","; TDouble (mbpsSendRate s); TText ","; TDouble (usPktSndPeriod s); TText ",";
   TInt (msSndBuf s); TText ","; TInt (pktRecv s); TText ","] ++
  (if HAS_UNIQUE_PKTS v then [TInt (pktRecvUnique s); TText ","] else []) ++
  [TInt (pktRcvLoss s); TText ","; TInt (pktRcvDrop s); TText ","; TInt (pktRcvUndecrypt s);
   TText ","; TInt (pktRcvRetrans s); TText ","; TInt (pktRcvBelated s); TText ",";
   TInt (byteRecv s); TText ","; TInt (byteAvailRcvBuf s); TText ","; TInt (byteRcvLoss s);
   TText ","; TInt (byteRcvDrop s); TText ","; TDouble (mbpsRecvRate s); TText ",";
   TInt (msRcvBuf s); TText ","; TInt (msRcvTsbPdDelay s)] ++
  (if HAS_PKT_REORDER_TOL v then [TText ","; TInt (pktReorderTolerance s)] else []) ++
  [TText (of_chars ["010"%char])].

(** stats_to_csv: the header, or a row that starts with the current time. *)
Definition stats_to_csv {W} `{Env W} (socketid weight : Z) (s : Srt.stats) (print_header : bool)
  : io W (list token) :=
  if print_header then ret (csv_header SRT_VERSION)
  else
    let! ts := invoke timestamp_now in
    ret (csv_row SRT_VERSION ts socketid weight s).

(** ** JSON (nlohmann::json) *)
Inductive json := JNull | JInt (z : Z) | JDouble (d : spec_float) | JStr (s : string)
                | JObj (l : list (string * json)) | JArr (l : list json).

(** [root[key] = value]. *)
Definition jset (key : string) (value : json) (root : list (string * json))
  : list (string * json) := SMap.ins key value root.

(** The fields the two JSON functions set, in source order. HAS_PUT_TIME is
    undefined by stats_to_csv above them in the file, so no time is set. *)
Definition json_common (s : Srt.stats) (root : list (string * json)) : list (string * json) :=
  foldl (fun r kv => jset kv.1 kv.2 r) root
    [("pktFlowWindow", JInt (pktFlowWindow s)); ("pktCongestionWindow", JInt (pktCongestionWindow s));
     ("pktFlightSize", JInt (pktFlightSize s)); ("msRTT", JDouble (msRTT s));
     ("mbpsBandwidth", JDouble (mbpsBandwidth s)); ("mbpsMaxBW", JDouble (mbpsMaxBW s));
     ("pktSent", JInt (pktSent s)); ("pktSndLoss", JInt (pktSndLoss s));
     ("pktSndDrop", JInt (pktSndDrop s)); ("pktRetrans", JInt (pktRetrans s));
     ("byteSent", JInt (byteSent s)); ("byteAvailSndBuf", JInt (byteAvailSndBuf s));
     ("byteSndDrop", JInt (byteSndDrop s)); ("mbpsSendRate", JDouble (mbpsSendRate s));
     ("usPktSndPeriod", JDouble (usPktSndPeriod s)); ("msSndBuf", JInt (msSndBuf s));
     ("pktRecv", JInt (pktRecv s)); ("pktRcvLoss", JInt (pktRcvLoss s));
     ("pktRcvDrop", JInt (pktRcvDrop s))].

Definition json_tail (v : version) (s : Srt.stats) (root : list (string * json))
  : list (string * json) :=
  let root := if HAS_PKT_REORDER_TOL v
              then jset "pktReorderTolerance" (JInt (pktReorderTolerance s)) root else root in
  if HAS_UNIQUE_PKTS v
  then jset "pktRecvUnique" (JInt (pktRecvUnique s))
         (jset "pktSentUnique" (JInt (pktSentUnique s)) root)
  else root.

Definition srt_stats_to_json (v : version) (socketid : Z) (s : Srt.stats) : list (string * json) :=
  let root := jset "SocketID" (JInt socketid) (jset "Time" (JInt (msTimeStamp s)) []) in
  let root := json_common s root in
  let root := foldl (fun r kv => jset kv.1 kv.2 r) root
    [("pktRcvUndecrypt", JInt (pktRcvUndecrypt s)); ("mbpsRecvRate", JDouble (mbpsRecvRate s));
     ("msRcvBuf", JInt (msRcvBuf s)); ("msRcvTsbPdDelay", JInt (msRcvTsbPdDelay s))] in
  json_tail v s root.

Definition group_stats_to_json (v : version) (socketid weight : Z) (s : Srt.stats)
  : list (string * json) :=
  let root := jset "weight" (JInt weight)
    (jset "SocketID" (JInt socketid) (jset "Time" (JInt (msTimeStamp s)) [])) in
  let root := json_common s root in
  let root := foldl (fun r kv => jset kv.1 kv.2 r) root
    [("pktRcvRetrans", JInt (pktRcvRetrans s)); ("pktRcvBelated", JInt (pktRcvBelated s));
     ("byteRecv", JInt (byteRecv s)); ("byteAvailRcvBuf", JInt (byteAvailRcvBuf s));
     ("byteRcvLoss", JInt (byteRcvLoss s)); ("byteRcvDrop", JInt (byteRcvDrop s));
     ("mbpsRecvRate", JDouble (mbpsRecvRate s)); ("msRcvBuf", JInt (msRcvBuf s));
     ("msRcvTsbPdDelay", JInt (msRcvTsbPdDelay s))] in
  json_tail v s root.

(** ** A report: text, or a JSON document that is dumped followed by a newline *)
Inductive report := RText (l : list token) | RJson (root : list (string * json)).

(** ** Reading a line back: its cells *)
Inductive item := ICh (c : char) | ITok (t : token).
Definition items (l : list token) : list item :=
  l ≫= fun t => match t with TText s => ICh <$> chars s | _ => [ITok t] end.

(** The cells of the first line: separated by commas, ended by a newline. *)
Fixpoint split_cells (l : list item) (cur : list item) : list (list item) :=
  match l with
  | [] => [cur]
  | ICh c :: l' =>
      if Ascii.eqb c ","%char then cur :: split_cells l' []
      else if Ascii.eqb c "010"%char then [cur]
      else split_cells l' (cur ++ [ICh c])
  | ITok t :: l' => split_cells l' (cur ++ [ITok t])
  end.
Definition cells (l : list token) : list (list item) := split_cells (items l) [].

(** What every column holds. *)
Definition columns (v : version) (ts : string) (id weight : Z) (s : Srt.stats)
  : list (string * token) :=
  [("Timepoint", TTime ts); ("Time", TInt (msTimeStamp s)); ("SocketID", TInt id);
   ("weight", TInt weight); ("pktFlowWindow", TInt (pktFlowWindow s));
   ("pktCongestionWindow", TInt (pktCongestionWindow s)); ("pktFlightSize", TInt (pktFlightSize s));
   ("msRTT", TDouble (msRTT s)); ("mbpsBandwidth", TDouble (mbpsBandwidth s));
   ("mbpsMaxBW", TDouble (mbpsMaxBW s)); ("pktSent", TInt (pktSent s))] ++
  (if HAS_UNIQUE_PKTS v then [("pktSentUnique", TInt (pktSentUnique s))] else []) ++
  [("pktSndLoss", TInt (pktSndLoss s)); ("pktSndDrop", TInt (pktSndDrop s));
   ("pktRetrans", TInt (pktRetrans s)); ("byteSent", TInt (byteSent s));
   ("byteAvailSndBuf", TInt (byteAvailSndBuf s)); ("byteSndDrop", TInt (byteSndDrop s));
   ("mbpsSendRate", TDouble (mbpsSendRate s)); ("usPktSndPeriod", TDouble (usPktSndPeriod s));
   ("msSndBuf", TInt (msSndBuf s)); ("pktRecv", TInt (pktRecv s))] ++
  (if HAS_UNIQUE_PKTS v then [("pktRecvUnique", TInt (pktRecvUnique s))] else []) ++
  [("pktRcvLoss", TInt (pktRcvLoss s)); ("pktRcvDrop", TInt (pktRcvDrop s));
   ("pktRcvUndecrypt", TInt (pktRcvUndecrypt s)); ("pktRcvRetrans", TInt (pktRcvRetrans s));
   ("pktRcvBelated", TInt (pktRcvBelated s)); ("byteRecv", TInt (byteRecv s));
   ("byteAvailRcvBuf", TInt (byteAvailRcvBuf s)); ("byteRcvLoss", TInt (byteRcvLoss s));
   ("byteRcvDrop", TInt (byteRcvDrop s)); ("mbpsRecvRate", TDouble (mbpsRecvRate s));
   ("msRcvBuf", TInt (msRcvBuf s)); ("msRcvTsbPdDelay", TInt (msRcvTsbPdDelay s))] ++
  (if HAS_PKT_REORDER_TOL v then [("pktReorderTolerance", TInt (pktReorderTolerance s))] else []).

(** C32: For every version of the library the header and the rows of the CSV
    report have the same number of columns, and each column of a row holds the
    statistic its header names. *)
Theorem csv_row_matches_header v ts id weight s :
  cells (csv_header v) = map (fun c => ICh <$> chars c.1) (columns v ts id weight s) /\
  cells (csv_row v ts id weight s) = map (fun c => [ITok c.2]) (columns v ts id weight s).
Proof.
  unfold csv_header, csv_row, columns.
  destruct (HAS_UNIQUE_PKTS v), (HAS_PKT_REORDER_TOL v); split; reflexivity.
Qed.

Definition jtoken (t : token) : json :=
  match t with TInt z => JInt z | TDouble d => JDouble d | TText s | TTime s => JStr s end.

(** The columns of a row without some of them, as a JSON object. *)
Definition json_of (missing : list string) (cs : list (string * token)) : list (string * json) :=
  SMap.of_list (map (fun c => (c.1, jtoken c.2))
                  (filter (fun c => negb (existsb (String.eqb c.1) missing) = true) cs)).

(** C33: For every version of the library the JSON object of a socket holds, under
    each key, the same statistic as the CSV column of that name; the columns it
    leaves out are exactly the listed ones, and they differ between a single
    socket and a member of a group. *)
Theorem json_agrees_with_csv v ts id weight s :
  srt_stats_to_json v id s =
    json_of ["Timepoint"; "weight"; "pktRcvRetrans"; "pktRcvBelated"; "byteRecv";
             "byteAvailRcvBuf"; "byteRcvLoss"; "byteRcvDrop"] (columns v ts id weight s) /\
  group_stats_to_json v id weight s =
    json_of ["Timepoint"; "pktRcvUndecrypt"] (columns v ts id weight s).
Proof.
  unfold srt_stats_to_json, group_stats_to_json, json_tail, columns.
  destruct (HAS_UNIQUE_PKTS v), (HAS_PKT_REORDER_TOL v); split; reflexivity.
Qed.
End Stats.
