(* ===== verification/Uri.v ===== *)
(** * UriParser (submodule/srt/apps/uriparser.cpp, uriparser.hpp)

    The URI parser the program configures every connection with. Parsing runs
    in the option monad: [None] is a std::out_of_range thrown by substr or a
    loop that does not end, which [Parse_total] excludes for texts below 4 GiB. *)

From Stdlib Require Import ZArith Lia Ascii String Sorted.
From stdpp Require Import prelude strings list sorting.
From S2P Require Import Prelude.

Module Uri.
Local Open Scope string_scope.
Local Open Scope list_scope.
Local Open Scope nat_scope.

Inductive DefaultExpect := EXPECT_FILE | EXPECT_HOST.
Inductive Type_ := UNKNOWN | FILE | UDP | TCP | SRT | RTMP | HTTP | RTP.
#[global] Instance DefaultExpect_eq_dec : EqDecision DefaultExpect.
Proof. solve_decision. Defined.
#[global] Instance Type_eq_dec : EqDecision Type_.
Proof. solve_decision. Defined.

Record UriParser := mk_uri {
  m_origUri : string; m_proto : string; m_host : string; m_port : string;
  m_path : string; m_uriType : Type_; m_expect : DefaultExpect;
  m_mapQuery : list (string * string) }.

Definition g_types : list (string * Type_) :=
  SMap.of_list [("file", FILE); ("udp", UDP); ("tcp", TCP); ("srt", SRT);
                ("rtmp", RTMP); ("http", HTTP); ("rtp", RTP); ("", UNKNOWN)].

(** *** Accessors *)
Definition proto (u : UriParser) : string := m_proto u.
Definition type (u : UriParser) : Type_ := m_uriType u.
Definition host (u : UriParser) : string := m_host u.
Definition port (u : UriParser) : string := m_port u.
Definition path (u : UriParser) : string := m_path u.
Definition uri (u : UriParser) : string := m_origUri u.
Definition parameters (u : UriParser) : list (string * string) := m_mapQuery u.

(** [portno()]: the port as a number, 0 when it is not a port number. *)
Definition portno (u : UriParser) : Z :=
  let i := CNum.atoi (m_port u) in
  if (i <=? 0)%Z || (65535 <? i)%Z then 0%Z else i.

(** [u[key] = val] and [u[key].exists()] (MapProxy). *)
Definition set_param (key val : string) (u : UriParser) : UriParser :=
  mk_uri (m_origUri u) (m_proto u) (m_host u) (m_port u) (m_path u) (m_uriType u)
    (m_expect u) (SMap.ins key val (m_mapQuery u)).
Definition param_exists (key : string) (u : UriParser) : bool := SMap.has key (m_mapQuery u).

(** [makeUri()]: also stores the result as the original URI. *)
Fixpoint print_query (q : list (string * string)) : string :=
  match q with
  | [] => ""
  | [(k, v)] => k +:+ "=" +:+ v
  | (k, v) :: q' => k +:+ "=" +:+ v +:+ "&" +:+ print_query q'
  end.

Definition makeUri (u : UriParser) : string :=
  let prefix := if bool_decide (m_proto u = "") then "" else m_proto u +:+ "://" in
  let hide_port := (bool_decide (m_port u = "") || bool_decide (m_port u = "0")) &&
                   bool_decide (m_expect u = EXPECT_FILE) in
  prefix +:+ m_host u +:+ (if hide_port then "" else ":" +:+ m_port u) +:+
  (if bool_decide (m_path u = "") then ""
   else match m_path u with
        | String "/" _ => m_path u
        | _ => "/" +:+ m_path u
        end) +:+
  (if bool_decide (m_mapQuery u = []) then "" else "?" +:+ print_query (m_mapQuery u)).

(** *** url_decode *)
Definition hex_pair (a b : char) : option Z :=
  match CNum.digit_of a, CNum.digit_of b with
  | Some x, Some y =>
      if (x <? 16)%Z && (y <? 16)%Z && negb (x * 16 + y =? 0)%Z then Some (x * 16 + y)%Z else None
  | _, _ => None
  end.

Fixpoint url_decode_loop (fuel : nat) (str : string) (prev_idx : nat) (ret : string)
  : option string :=
  match fuel with
  | O => None
  | S fuel' =>
      let finish :=
        rest ← CStr.substr prev_idx (CStr.size str - prev_idx) str; Some (ret +:+ rest) in
      match CStr.find_char "%" prev_idx str with
      | None => finish
      | Some idx =>
          if CStr.size str <=? idx + 2 then finish
          else
            match (a ← chars str !! (idx + 1); b ← chars str !! (idx + 2); hex_pair a b) with
            | None => finish
            | Some hex =>
                seg ← CStr.substr prev_idx (idx - prev_idx) str;
                url_decode_loop fuel' str (idx + 3)
                  (ret +:+ seg +:+ of_chars [ascii_of_nat (Z.to_nat hex)])
            end
      end
  end.

Definition url_decode (str : string) : option string :=
  url_decode_loop (S (CStr.size str)) str 0 "".

(** *** Parse, in the order of the source *)

(** [(int)(idx + 1)], as the position in the query is kept. *)
Definition int_after (idx : nat) : Z := CInt.to_int (Z.of_nat idx + 1).

(** The part before '?', and where the query starts: iQueryStart, -1 for nowhere. *)
Definition split_query (strUrl : string) : option (string * Z) :=
  match CStr.find "?" 0 strUrl with
  | Some idx => h ← CStr.substr 0 idx strUrl; Some (h, int_after idx)
  | None => Some (strUrl, (-1)%Z)
  end.

Definition parse_proto (h : string) : option (string * string) :=
  match CStr.find "://" 0 h with
  | Some idx =>
      p ← CStr.substr 0 idx h;
      h' ← CStr.substr (idx + 3) (CStr.size h - (idx + 3)) h;
      Some (CStr.lowercase p, h')
  | None => Some ("", h)
  end.

(** Where "[" is, where the search for the path starts, host and path. *)
Definition parse_path (h : string) : option (option nat * string * string) :=
  let i6pos := CStr.find "[" 0 h in
  let path_since :=
    match i6pos with
    | Some p => default 0 (CStr.find "]" p h)
    | None => 0
    end in
  match CStr.find "/" path_since h with
  | Some idx =>
      pth ← CStr.substr idx (CStr.size h - idx) h;
      h' ← CStr.substr 0 idx h;
      Some (i6pos, h', pth)
  | None => Some (i6pos, h, "")
  end.

(** user:password@host, or @host for multicast. *)
Definition parse_userinfo (h : string) (q : list (string * string))
  : option (string * list (string * string)) :=
  match CStr.find_char "@" 0 h with
  | None => Some (h, q)
  | Some atp =>
      realhost ← CStr.substr_from (atp + 1) h;
      if decide (0 < atp) then
        prehost ← CStr.substr 0 (atp - 0) h;
        match CStr.find_char ":" 0 prehost with
        | Some colon =>
            pw ← CStr.substr_from (colon + 1) prehost;
            user ← (if decide (0 < colon) then CStr.substr 0 (colon - 0) prehost else Some "");
            Some (realhost, SMap.ins "password" pw (SMap.ins "user" user q))
        | None => Some (realhost, SMap.ins "user" prehost q)
        end
      else Some (realhost, SMap.ins "multicast" "1" q)
  end.

(** Host and port; a bracketed host at the edges loses its brackets. *)
Definition parse_hostport (i6pos : option nat) (h : string) : option (string * string) :=
  let '(idx, hostend, stripbrackets) :=
    match i6pos with
    | Some i6 =>
        let hostend := CStr.find "]" i6 h in
        let idx := CStr.rfind_char ":" h in
        match hostend with
        | Some he =>
            let '(idx', lasthost) :=
              match idx with
              | Some i => if decide (i < he) then (None, Some (CStr.size h)) else (idx, idx)
              | None => (idx, idx)
              end in
            let strip :=
              bool_decide (i6 = 0) &&
              match lasthost with
              | Some (S l) => bool_decide (he = l)
              | _ => false
              end in
            (idx', he, strip)
        | None => (idx, 0, false)
        end
    | None => (CStr.rfind_char ":" h, 0, false)
    end in
  hp ← (match idx with
        | Some i =>
            p ← CStr.substr (i + 1) (CStr.size h - (i + 1)) h;
            h' ← CStr.substr 0 i h;
            Some (h', p)
        | None => Some (h, "")
        end);
  let '(h', p) := hp in
  if stripbrackets : bool then
    let he := if decide (hostend = 0) then CStr.size h' - 1 else hostend in
    (* [hostend - 1] is a size_t: 0 - 1 is npos, "to the end" *)
    let count := if decide (he = 0) then CStr.size h' else he - 1 in
    h'' ← CStr.substr 1 count h'; Some (h'', p)
  else Some (h', p).

(** A host that is one positive integer is a port. *)
Definition lone_port (h p : string) : string * string :=
  if bool_decide (p = "") && negb (bool_decide (h = "")) then
    let '(val, eos) := CNum.strtol h in
    if (0 <? val)%Z && (eos =? CStr.size h) then ("", h) else (h, p)
  else (h, p).

(** The query pairs from position [start]. *)
Definition parse_pair (pair : string) (q : list (string * string))
  : option (list (string * string)) :=
  match CStr.find "=" 0 pair with
  | Some idx =>
      k ← CStr.substr 0 idx pair;
      v ← CStr.substr (idx + 1) (CStr.size pair - (idx + 1)) pair;
      k' ← url_decode k;
      v' ← url_decode v;
      Some (SMap.ins k' v' q)
  | None => Some q
  end.

Fixpoint parse_query (fuel : nat) (strUrl : string) (iQueryStart : Z)
    (q : list (string * string)) : option (list (string * string)) :=
  if (-1 <? iQueryStart)%Z then
    match fuel with
    | O => None
    | S fuel' =>
        let start := Z.to_nat iQueryStart in
        match CStr.find "&" start strUrl with
        | Some idx =>
            pair ← CStr.substr start (idx - start) strUrl;
            q' ← parse_pair pair q;
            parse_query fuel' strUrl (int_after idx) q'
        | None =>
            pair ← CStr.substr start (CStr.size strUrl - start) strUrl;
            q' ← parse_pair pair q;
            parse_query fuel' strUrl (-1)%Z q'   (* (int)npos *)
        end
    end
  else Some q.

(** "/./" of a file URI, and the file default for a URI with no protocol. *)
Definition fix_file_path (proto path : string) : option string :=
  if bool_decide (proto = "file") && (3 <? CStr.size path) then
    s ← CStr.substr 0 3 path;
    if bool_decide (s = "/./") then CStr.substr_from 3 path else Some path
  else Some path.

Definition default_file (exp : DefaultExpect) (proto host port path : string)
  : string * string * string :=
  if bool_decide (exp = EXPECT_FILE) && bool_decide (proto = "") && bool_decide (port = "")
  then ("file", "", host +:+ path) else (proto, host, path).

Definition Parse (strUrl : string) (exp : DefaultExpect) : option UriParser :=
  '(h0, iQueryStart) ← split_query strUrl;
  '(proto, h1) ← parse_proto h0;
  '(i6pos, h2, path0) ← parse_path h1;
  '(h3, q0) ← parse_userinfo h2 [];
  '(h4, p4) ← parse_hostport i6pos h3;
  let '(h5, port) := lone_port h4 p4 in
  q ← parse_query (S (CStr.size strUrl)) strUrl iQueryStart q0;
  path1 ← fix_file_path proto path0;
  let '(proto', host', path') := default_file exp proto h5 port path1 in
  Some (mk_uri strUrl proto' host' port path'
          (default UNKNOWN (SMap.get proto' g_types)) exp q).

Example parse_srt :
  Parse "srt://127.0.0.1:4200?transtype=live&rcvbuf=1000000000&sndbuf=1000000000" EXPECT_FILE =
  Some (mk_uri "srt://127.0.0.1:4200?transtype=live&rcvbuf=1000000000&sndbuf=1000000000"
          "srt" "127.0.0.1" "4200" "" SRT EXPECT_FILE
          [("rcvbuf", "1000000000"); ("sndbuf", "1000000000"); ("transtype", "live")]).
Proof. vm_compute. reflexivity. Qed.
Example parse_v6 :
  (fun u => (host u, port u)) <$> Parse "srt://[::1]:4200" EXPECT_FILE = Some ("::1", "4200").
Proof. vm_compute. reflexivity. Qed.
Example parse_port : (fun u => (host u, portno u)) <$> Parse "srt://:4200" EXPECT_FILE = Some ("", 4200%Z).
Proof. vm_compute. reflexivity. Qed.

(** *** Parsing never throws *)
Lemma find_lt c pos s i :
  pos <= CStr.size s -> CStr.find (String c "") pos s = Some i ->
  pos <= i /\ i < CStr.size s.
Proof.
  intros Hpos H. apply CStr.find_bound in H as [? H]; [|done].
  change (CStr.size (String c "")) with 1 in H. lia.
Qed.

(** The position after [i], as an int, while it fits; up to 4 GiB what does not fit
    is negative. *)
Lemma int_after_id i : (Z.of_nat i < CInt.INT_MAX)%Z -> int_after i = Z.of_nat (S i).
Proof.
  intros Hi. unfold int_after. rewrite CInt.to_int_id; [lia|]. unfold CInt.INT_MIN, CInt.INT_MAX in *. lia.
Qed.
Lemma int_after_cases i :
  (Z.of_nat i + 1 < 2 ^ 32)%Z -> (int_after i < 0)%Z \/ int_after i = Z.of_nat (S i).
Proof.
  intros Hi. destruct (Z.lt_ge_cases (Z.of_nat i) CInt.INT_MAX) as [Hlt|Hge]; [right; by apply int_after_id|left].
  unfold int_after, CInt.to_int, CInt.INT_MAX in *.
  replace (Z.of_nat i + 1 + 2 ^ 31)%Z with (Z.of_nat i + 1 - 2 ^ 31 + 1 * 2 ^ 32)%Z by lia.
  rewrite Z.mod_add, Z.mod_small by lia. lia.
Qed.

(** A position in the text from which the loop ends. *)
Definition good_start (s : string) (st : Z) : Prop := (st <= Z.of_nat (CStr.size s))%Z.
Lemma good_after s i : (Z.of_nat (CStr.size s) < 2 ^ 32)%Z -> i < CStr.size s -> good_start s (int_after i).
Proof. intros Hs Hi. unfold good_start. destruct (int_after_cases i); lia. Qed.

Lemma split_query_total s : (Z.of_nat (CStr.size s) < 2 ^ 32)%Z ->
  exists h st, split_query s = Some (h, st) /\ good_start s st.
Proof.
  intros Hs. unfold split_query. destruct (CStr.find "?" 0 s) as [i|] eqn:E.
  - apply find_lt in E as [_ Hi]; [|lia]. rewrite ?CStr.substr_0. simpl.
    do 2 eexists. split; [done|]. by apply good_after.
  - do 2 eexists. split; [done|]. unfold good_start. lia.
Qed.

Lemma parse_proto_total h : is_Some (parse_proto h).
Proof.
  unfold parse_proto. destruct (CStr.find "://" 0 h) as [i|] eqn:E; [|by eauto].
  apply CStr.find_bound in E as [_ Hi]; [|lia]. change (CStr.size "://") with 3 in Hi.
  rewrite ?CStr.substr_0. simpl. rewrite CStr.substr_rest by lia. by eauto.
Qed.

Lemma parse_path_total h : is_Some (parse_path h).
Proof.
  unfold parse_path.
  assert (default 0 (CStr.find "[" 0 h ≫= fun p => CStr.find "]" p h) <= CStr.size h) as Hs.
  { destruct (CStr.find "[" 0 h) as [p|] eqn:E; simpl; [|lia].
    apply find_lt in E as [_ Hp]; [|lia].
    destruct (CStr.find "]" p h) as [e|] eqn:E'; simpl; [|lia]. apply find_lt in E'; lia. }
  assert (forall n, n <= CStr.size h -> forall o : option nat,
    is_Some (match CStr.find "/" n h with
             | Some idx => pth ← CStr.substr idx (CStr.size h - idx) h;
                           h' ← CStr.substr 0 idx h; Some (o, h', pth)
             | None => Some (o, h, "") end)) as Hk.
  { intros n Hn o. destruct (CStr.find "/" n h) as [i|] eqn:E; [|by eauto].
    apply find_lt in E as [_ Hi]; [|done]. rewrite CStr.substr_rest by lia. simpl.
    rewrite ?CStr.substr_0. by eauto. }
  revert Hs. destruct (CStr.find "[" 0 h) as [p|]; simpl; intros Hs; apply Hk; [exact Hs|lia].
Qed.

Lemma parse_userinfo_total h q : is_Some (parse_userinfo h q).
Proof.
  unfold parse_userinfo. destruct (CStr.find_char "@" 0 h) as [i|] eqn:E; [|by eauto].
  apply CStr.find_char_bound in E as (_ & Hi & _).
  rewrite CStr.substr_from_ok by lia. simpl. case_decide; [|by eauto].
  rewrite ?CStr.substr_0. simpl.
  match goal with |- context [CStr.find_char ":" 0 ?x] => set (ph := x) end.
  destruct (CStr.find_char ":" 0 ph) as [c|] eqn:E; [|by eauto].
  apply CStr.find_char_bound in E as (_ & Hc & _).
  rewrite CStr.substr_from_ok by lia. simpl. case_decide; [|by eauto].
  rewrite ?CStr.substr_0. by eauto.
Qed.

Lemma size_take_chars n s : n <= CStr.size s -> CStr.size (of_chars (take n (chars s))) = n.
Proof. intros. rewrite CStr.size_of_chars, length_take. unfold CStr.size in *. lia. Qed.

Lemma parse_hostport_total i6 h : is_Some (parse_hostport i6 h).
Proof.
  (* the choice of the port's colon stays inside the host, and a stripped
     host is not empty *)
  assert (forall (idx : option nat) he (strip : bool),
    match idx with Some i => i < CStr.size h | None => True end ->
    (strip = true -> 0 < match idx with Some i => i | None => CStr.size h end) ->
    is_Some (hp ← (match idx with
        | Some i => p ← CStr.substr (i + 1) (CStr.size h - (i + 1)) h;
                    h' ← CStr.substr 0 i h; Some (h', p)
        | None => Some (h, "") end);
      let '(h', p) := hp in
      if strip then
        let he' := if decide (he = 0) then CStr.size h' - 1 else he in
        let count := if decide (he' = 0) then CStr.size h' else he' - 1 in
        h'' ← CStr.substr 1 count h'; Some (h'', p)
      else Some (h', p))) as Hk.
  { intros [i|] he [|] Hi Hst; simpl in *; rewrite ?CStr.substr_rest by lia; simpl;
      rewrite ?CStr.substr_0; simpl; try by eauto.
    - rewrite CStr.substr_ok; [by eauto|]. rewrite ?drop_0, size_take_chars by lia. specialize (Hst eq_refl). lia.
    - rewrite CStr.substr_ok; [by eauto|]. specialize (Hst eq_refl). lia. }
  unfold parse_hostport.
  assert (forall i, CStr.rfind_char ":" h = Some i -> i < CStr.size h) as Hr
    by apply CStr.rfind_char_bound.
  assert (is_Some (hp ← (match CStr.rfind_char ":" h with
      | Some i => p ← CStr.substr (i + 1) (CStr.size h - (i + 1)) h;
                  h' ← CStr.substr 0 i h; Some (h', p)
      | None => Some (h, "") end); let '(h', p) := hp in Some (h', p))) as Hplain.
  { apply (Hk (CStr.rfind_char ":" h) 0 false); [|done].
    destruct (CStr.rfind_char ":" h); eauto. }
  destruct i6 as [i6|]; [|exact Hplain].
  destruct (CStr.find "]" i6 h) as [he|] eqn:Ehe; [|exact Hplain].
  destruct (CStr.rfind_char ":" h) as [i|] eqn:Er.
  - specialize (Hr i eq_refl). destruct (decide (i < he)).
    + apply (Hk None he (bool_decide (i6 = 0) &&
          match CStr.size h with S l => bool_decide (he = l) | _ => false end)); [done|].
      destruct (CStr.size h); [by rewrite andb_false_r|lia].
    + apply (Hk (Some i) he (bool_decide (i6 = 0) &&
          match i with S l => bool_decide (he = l) | _ => false end)); [done|].
      destruct i; [by rewrite andb_false_r|lia].
  - apply (Hk None he (bool_decide (i6 = 0) && false)); [done|]. by rewrite andb_false_r.
Qed.

Lemma url_decode_loop_total fuel s prev ret :
  prev <= CStr.size s -> CStr.size s - prev < fuel ->
  is_Some (url_decode_loop fuel s prev ret).
Proof.
  revert prev ret. induction fuel as [|f IH]; intros prev ret Hp Hf; [lia|]. simpl.
  rewrite CStr.substr_rest by done. simpl.
  destruct (CStr.find_char "%" prev s) as [i|] eqn:E; [|by eauto].
  apply CStr.find_char_bound in E as (? & ? & _).
  case_match eqn:Hle; [by eauto|]. apply Nat.leb_gt in Hle.
  case_match; [|by eauto]. rewrite CStr.substr_ok by done. simpl. apply IH; lia.
Qed.

Lemma url_decode_total s : is_Some (url_decode s).
Proof. apply url_decode_loop_total; lia. Qed.

Lemma parse_pair_total pair q : is_Some (parse_pair pair q).
Proof.
  unfold parse_pair. destruct (CStr.find "=" 0 pair) as [i|] eqn:E; [|by eauto].
  apply find_lt in E as [_ Hi]; [|lia].
  rewrite CStr.substr_0, CStr.substr_rest by lia. cbn [mbind option_bind].
  match goal with |- context [url_decode ?s] =>
    destruct (url_decode_total s) as [? ->] end. cbn [mbind option_bind].
  match goal with |- context [url_decode ?s] =>
    destruct (url_decode_total s) as [? ->] end. by eauto.
Qed.

Lemma parse_query_total fuel s st q :
  (Z.of_nat (CStr.size s) < 2 ^ 32)%Z -> good_start s st -> (Z.of_nat (CStr.size s) - st < Z.of_nat fuel)%Z ->
  is_Some (parse_query fuel s st q).
Proof.
  intros Hs. revert st q. unfold good_start. induction fuel as [|f IH]; intros st q Hn Hf; cbn [parse_query];
    (destruct (Z.ltb_spec (-1) st); [|by eauto]); [lia|].
  destruct (CStr.find "&" (Z.to_nat st) s) as [i|] eqn:E.
  - apply find_lt in E as [? Hi]; [|lia]. rewrite CStr.substr_ok by lia. cbn [mbind option_bind].
    match goal with |- context [parse_pair ?p ?q] =>
      destruct (parse_pair_total p q) as [q' ->] end. cbn [mbind option_bind].
    destruct (int_after_cases i ltac:(lia)) as [Hneg| ->]; [|apply IH; lia].
    destruct f; cbn [parse_query]; rewrite (proj2 (Z.ltb_ge _ _)) by lia; by eauto.
  - rewrite CStr.substr_rest by lia. cbn [mbind option_bind].
    match goal with |- context [parse_pair ?p ?q] =>
      destruct (parse_pair_total p q) as [q' ->] end. simpl. destruct f; by eauto.
Qed.

Lemma not_elem_drop {A} (x : A) n l : x ∉ l -> x ∉ drop n l.
Proof. intros Hx Hin. apply Hx. rewrite <- (take_drop n l). apply elem_of_app. by right. Qed.

(** At 4 GiB the position wraps around: a text whose last character is the only '&'
    is scanned again and again. *)
Lemma parse_query_endless a fuel st q :
  (Z.of_nat (length a) = 2 ^ 32 - 1)%Z -> "&"%char ∉ a -> "="%char ∉ a ->
  (st = 0 \/ st = 1)%Z -> parse_query fuel (of_chars (a ++ ["&"%char])) st q = None.
Proof.
  intros Hlen Ha He. revert st q. induction fuel as [|f IH]; intros st q Hst; cbn [parse_query];
    rewrite (proj2 (Z.ltb_lt _ _)) by lia; [done|].
  assert (1 <= length a) as Hl by lia.
  assert (CStr.find "&" (Z.to_nat st) (of_chars (a ++ ["&"%char])) = Some (length a)) as ->.
  { assert (drop (Z.to_nat st) (a ++ ["&"%char]) = drop (Z.to_nat st) a ++ ["&"%char]) as Hd
      by (apply drop_app_le; lia).
    unfold CStr.find. rewrite CStr.chars_of_chars, Hd, (CStr.index_of_app "&"%char [] _ []).
    - cbn. f_equal. rewrite length_drop. lia.
    - by apply not_elem_drop. }
  rewrite CStr.substr_ok by (rewrite CStr.size_of_chars, length_app; cbn; lia). cbn [mbind option_bind].
  unfold parse_pair at 1. rewrite CStr.chars_of_chars, drop_app_le by lia.
  rewrite take_app_length' by (rewrite length_drop; lia).
  assert (CStr.find "=" 0 (of_chars (drop (Z.to_nat st) a)) = None) as ->.
  { unfold CStr.find. rewrite drop_0, CStr.chars_of_chars, (CStr.index_of_None "="%char []); [done|].
    by apply not_elem_drop. }
  cbn [mbind option_bind]. apply IH. left. unfold int_after. rewrite Hlen. reflexivity.
Qed.

Lemma fix_file_path_total pr p : is_Some (fix_file_path pr p).
Proof.
  unfold fix_file_path. case_match eqn:E; [|by eauto].
  apply andb_true_iff in E as [_ E]. apply Nat.ltb_lt in E.
  rewrite ?CStr.substr_0. simpl. rewrite CStr.substr_from_ok by lia. case_bool_decide; by eauto.
Qed.

(** Parsing a text below 4 GiB produces a result. *)
Lemma Parse_some strUrl exp : (Z.of_nat (CStr.size strUrl) < 2 ^ 32)%Z -> is_Some (Parse strUrl exp).
Proof.
  intros Hs. unfold Parse.
  destruct (split_query_total strUrl Hs) as (h & st & -> & Hst). cbn [mbind option_bind].
  destruct (parse_proto_total h) as [[pr h1] ->]. cbn [mbind option_bind].
  destruct (parse_path_total h1) as [[[i6 h2] p0] ->]. cbn [mbind option_bind].
  destruct (parse_userinfo_total h2 []) as [[h3 q0] ->]. cbn [mbind option_bind].
  destruct (parse_hostport_total i6 h3) as [[h4 p4] ->]. cbn [mbind option_bind].
  destruct (lone_port h4 p4) as [h5 port].
  destruct (Z.lt_ge_cases st 0) as [Hneg|Hpos].
  - assert (parse_query (S (CStr.size strUrl)) strUrl st q0 = Some q0) as ->
      by (cbn [parse_query]; by rewrite (proj2 (Z.ltb_ge _ _)) by lia).
    cbn [mbind option_bind]. destruct (fix_file_path_total pr p0) as [p1 ->]. cbn [mbind option_bind].
    destruct (default_file exp pr h5 port p1) as [[? ?] ?]. by eauto.
  - destruct (parse_query_total (S (CStr.size strUrl)) strUrl st q0) as [q ->]; [done|done|lia|].
    cbn [mbind option_bind]. destruct (fix_file_path_total pr p0) as [p1 ->]. cbn [mbind option_bind].
    destruct (default_file exp pr h5 port p1) as [[? ?] ?]. by eauto.
Qed.

(** C19: Parsing a URI below 4 GiB always produces a result: none of the substr
    calls of [Parse] and url_decode can throw std::out_of_range, and both scanning
    loops stop after at most one round per character, although the position in the
    query is kept in an int. The bound is sharp: for a text of 4 GiB the position
    wraps around to the start, and the loop over the query does not end, however
    many rounds it is given. *)
Theorem Parse_total :
  (forall strUrl exp, (Z.of_nat (CStr.size strUrl) < 2 ^ 32)%Z -> is_Some (Parse strUrl exp)) /\
  (exists strUrl start, Z.of_nat (CStr.size strUrl) = (2 ^ 32)%Z /\ split_query strUrl = Some ("", start) /\
     forall fuel q, parse_query fuel strUrl start q = None).
Proof.
  split; [exact Parse_some|].
  remember (Z.to_nat (2 ^ 32 - 2)) as n eqn:Hn. assert (Z.of_nat n = 2 ^ 32 - 2)%Z as Hn' by (rewrite Hn, Z2Nat.id; lia).
  clear Hn. set (a := "?"%char :: replicate n "a"%char).
  assert (Z.of_nat (length a) = 2 ^ 32 - 1)%Z as Hlen by (unfold a; cbn [length]; rewrite length_replicate; lia).
  assert (forall c, c <> "?"%char -> c <> "a"%char -> c ∉ a) as Hnot.
  { intros c Hq Hc [Hin|Hin]%elem_of_cons; [done|]. by apply elem_of_replicate in Hin as [-> _]. }
  exists (of_chars (a ++ ["&"%char])), 1%Z. split; [|split].
  - rewrite CStr.size_of_chars, length_app. cbn [length]. lia.
  - unfold split_query, CStr.find. rewrite CStr.chars_of_chars. reflexivity.
  - intros fuel q. apply parse_query_endless; [exact Hlen|by apply Hnot|by apply Hnot|by right].
Qed.
Lemma Parse_total_witness : is_Some (Parse "srt://127.0.0.1:4200?transtype=live" EXPECT_HOST).
Proof. apply (proj1 Parse_total). by vm_compute. Defined.

(** [portno()] is a port number: between 0 and 65535, and 0 is returned
    exactly when the text does not denote a number from 1 to 65535. *)
Theorem portno_range u :
  (0 <= portno u <= 65535)%Z /\
  (portno u = 0%Z <-> ~ (1 <= CNum.atoi (m_port u) <= 65535)%Z) /\
  (portno u <> 0%Z -> portno u = CNum.atoi (m_port u)).
Proof.
  unfold portno. destruct ((CNum.atoi (m_port u) <=? 0)%Z || (65535 <? CNum.atoi (m_port u))%Z) eqn:E.
  - apply orb_true_iff in E as [E|E]; [apply Z.leb_le in E|apply Z.ltb_lt in E]; lia.
  - apply orb_false_iff in E as [E1 E2]. apply Z.leb_gt in E1. apply Z.ltb_ge in E2. lia.
Qed.

(** *** url_decode against its specification *)

(** What percent-decoding means: every %XY with a non-zero hexadecimal pair
    becomes one character; the first ill-formed % ends the decoding and the
    rest is kept as it is. *)
Fixpoint decoded (l : list char) : list char :=
  match l with
  | [] => []
  | c :: l1 =>
      if bool_decide (c = "%"%char) then
        match l1 with
        | a :: b :: l2 =>
            match hex_pair a b with
            | Some h => ascii_of_nat (Z.to_nat h) :: decoded l2
            | None => l
            end
        | _ => l
        end
      else c :: decoded l1
  end.

Lemma decoded_plain a l : "%"%char ∉ a -> decoded (a ++ l) = a ++ decoded l.
Proof.
  induction a as [|c a IH]; [done|]. intros [Hc Ha]%not_elem_of_cons. simpl.
  rewrite bool_decide_false by done. by rewrite IH.
Qed.

Lemma decoded_percent s i prev :
  CStr.find_char "%" prev s = Some i ->
  exists a r, drop prev (chars s) = a ++ ("%"%char :: r) /\ ("%"%char ∉ a) /\
              i = prev + length a /\ r = drop (i + 1) (chars s).
Proof.
  unfold CStr.find_char. rewrite fmap_Some. intros (j & Hj & ->).
  apply CStr.index_where_Some in Hj as (a & x & b & Hd & <- & Hx & Ha).
  apply bool_decide_eq_true in Hx as ->. exists a, b. apply CStr.forallb_not_elem in Ha.
  repeat split; [done..|].
  replace (prev + length a + 1) with (prev + (length a + 1)) by lia.
  by rewrite <- drop_drop, Hd, <- drop_drop, drop_app_length.
Qed.

Lemma no_percent s prev :
  CStr.find_char "%" prev s = None -> "%"%char ∉ drop prev (chars s).
Proof.
  unfold CStr.find_char. by rewrite fmap_None, CStr.index_where_None, CStr.forallb_not_elem.
Qed.

Lemma decoded_id l : "%"%char ∉ l -> decoded l = l.
Proof. intros. rewrite <- (app_nil_r l) at 1. rewrite decoded_plain by done. apply app_nil_r. Qed.

Lemma url_decode_loop_spec fuel s prev ret :
  prev <= CStr.size s -> CStr.size s - prev < fuel ->
  url_decode_loop fuel s prev ret = Some (ret +:+ of_chars (decoded (drop prev (chars s)))).
Proof.
  revert prev ret. induction fuel as [|f IH]; intros prev ret Hp Hf; [lia|].
  cbn [url_decode_loop]. rewrite CStr.substr_rest by done. cbn [mbind option_bind].
  destruct (CStr.find_char "%" prev s) as [i|] eqn:E.
  2:{ apply no_percent in E. by rewrite decoded_id. }
  pose proof (CStr.find_char_bound _ _ _ _ E) as (Hpi & Hi & _).
  apply decoded_percent in E as (a & r & Hd & Ha & Hia & Hr).
  assert (length r = CStr.size s - (i + 1)) as Hlr
    by (rewrite Hr, length_drop; unfold CStr.size; lia).
  rewrite Hd, decoded_plain by done. cbn [decoded].
  rewrite bool_decide_true by done.
  destruct (CStr.size s <=? i + 2) eqn:Hle.
  { apply Nat.leb_le in Hle. destruct r as [|x [|y r]]; simpl in Hlr; [done|done|lia]. }
  apply Nat.leb_gt in Hle. destruct r as [|x [|y r]]; simpl in Hlr; [lia|lia|].
  assert (chars s !! (i + 1) = Some x) as Hx
    by (rewrite <- (Nat.add_0_r (i + 1)), <- lookup_drop, <- Hr; done).
  assert (chars s !! (i + 2) = Some y) as Hy
    by (replace (i + 2) with (i + 1 + 1) by lia; rewrite <- lookup_drop, <- Hr; done).
  rewrite Hx, Hy. cbn [mbind option_bind].
  destruct (hex_pair x y) as [h|]; [|done].
  rewrite CStr.substr_ok by done. cbn [mbind option_bind].
  rewrite IH by lia. f_equal.
  assert (drop (i + 3) (chars s) = r) as ->
    by (replace (i + 3) with (i + 1 + 2) by lia; rewrite <- drop_drop, <- Hr; done).
  assert (take (i - prev) (drop prev (chars s)) = a) as ->
    by (rewrite Hd; replace (i - prev) with (length a) by lia; apply take_app_length).
  rewrite CStr.of_chars_app. apply CStr.chars_inj.
  rewrite !CStr.chars_app, !CStr.chars_of_chars. simpl. by rewrite <- !app_assoc.
Qed.

(** The percent-encoding of a string, where [safe] characters stay. *)
Definition hex_char (n : nat) : char := ascii_of_nat (if n <? 10 then n + 48 else n + 55).
Definition encode_char (safe : char -> bool) (c : char) : list char :=
  if safe c then [c]
  else ["%"%char; hex_char (nat_of_ascii c / 16); hex_char (nat_of_ascii c mod 16)].
Definition url_encode (safe : char -> bool) (s : string) : string :=
  of_chars (chars s ≫= encode_char safe).

Lemma hex_pair_encode c :
  c <> zero ->
  ascii_of_nat ∘ Z.to_nat <$> hex_pair (hex_char (nat_of_ascii c / 16)) (hex_char (nat_of_ascii c mod 16))
    = Some c.
Proof. destruct c as [[] [] [] [] [] [] [] []]; intros Hc; first [by vm_compute|by destruct Hc]. Qed.

(** Decoding is the inverse of percent-encoding: whatever set of
    characters the encoder leaves unescaped, as long as it escapes "%", every
    string without NUL comes back unchanged (the source rejects %00). *)
Theorem url_decode_encode safe s :
  safe "%"%char = false -> zero ∉ chars s ->
  url_decode (url_encode safe s) = Some s.
Proof.
  intros Hsafe. unfold url_decode. rewrite url_decode_loop_spec by lia. rewrite drop_0.
  unfold url_encode. rewrite CStr.chars_of_chars. intros Hz. f_equal.
  change (of_chars (decoded (chars s ≫= encode_char safe)) = s).
  apply CStr.chars_inj. rewrite CStr.chars_of_chars.
  induction (chars s) as [|c l IH]; [done|].
  apply not_elem_of_cons in Hz as [Hc Hl]. specialize (IH Hl). cbn [mbind list_bind].
  unfold encode_char at 1. destruct (safe c) eqn:Hs.
  - simpl. rewrite bool_decide_false by congruence. by rewrite IH.
  - pose proof (hex_pair_encode c ltac:(congruence)) as Hh.
    apply fmap_Some in Hh as (h & Hh & Hch). cbn [app decoded].
    rewrite bool_decide_true, Hh, IH by done. by rewrite Hch.
Qed.

Lemma url_decode_encode_witness :
  url_decode (url_encode (fun c => CStr.isdigit c) "a b%&=") = Some "a b%&=".
Proof. apply url_decode_encode; [reflexivity|by apply (bool_decide_eq_true_1 (_ ∉ _))]. Defined.

(** *** makeUri and Parse are inverse on well-formed URIs *)

(** No character of [bad] occurs in [s]. *)
Definition free_of (bad s : string) : Prop :=
  Forall (fun c => c ∉ chars s) (chars bad).

Lemma free_of_cons c bad s :
  free_of (String c bad) s <-> (c ∉ chars s) /\ free_of bad s.
Proof. unfold free_of. simpl. by rewrite Forall_cons. Qed.

#[global] Instance free_of_dec bad s : Decision (free_of bad s).
Proof. unfold free_of. apply _. Defined.

Lemma free_of_sub b b' s :
  bool_decide (Forall (fun c => c ∈ chars b') (chars b)) = true ->
  free_of b' s -> free_of b s.
Proof.
  rewrite bool_decide_eq_true. unfold free_of. rewrite !Forall_forall. auto.
Qed.

Lemma free_of_app bad a b : free_of bad (a +:+ b) <-> free_of bad a /\ free_of bad b.
Proof.
  unfold free_of. rewrite <- Forall_and. apply Forall_iff. intros c.
  by rewrite CStr.chars_app, not_elem_of_app.
Qed.

Lemma free_of_1 c s : free_of (String c "") s -> (c ∉ chars s).
Proof. by intros [? _]%free_of_cons. Qed.

Definition sorted_keys (q : list (string * string)) : Prop :=
  StronglySorted (fun a b => String.compare a.1 b.1 = Lt) q.

Definition wf_pair (kv : string * string) : Prop :=
  free_of "=&%" kv.1 /\ free_of "&%" kv.2.

Record wf_uri (u : UriParser) : Prop := {
  wf_proto : free_of "?:" (m_proto u) /\ m_proto u <> "" /\ m_proto u <> "file" /\
             CStr.lowercase (m_proto u) = m_proto u;
  wf_host : free_of "?/@[:" (m_host u);
  wf_port : free_of "?/@[:" (m_port u) /\ m_port u <> "" /\ m_port u <> "0";
  wf_path : m_path u = "" \/ exists p, m_path u = String "/" p /\ free_of "?[" p;
  wf_type : m_uriType u = default UNKNOWN (SMap.get (m_proto u) g_types);
  wf_query : sorted_keys (m_mapQuery u) /\ Forall wf_pair (m_mapQuery u) }.

Lemma find1_at c pos s a b :
  drop pos (chars s) = a ++ c :: b -> c ∉ a ->
  CStr.find (String c "") pos s = Some (pos + length a).
Proof.
  intros Hd Ha. unfold CStr.find. rewrite Hd.
  by rewrite (CStr.index_of_app c [] a b).
Qed.

Lemma find1_start c s a b :
  chars s = a ++ c :: b -> c ∉ a -> CStr.find (String c "") 0 s = Some (length a).
Proof. intros. by apply (find1_at c 0 s a b). Qed.

Lemma find1_none c pos s :
  c ∉ drop pos (chars s) -> CStr.find (String c "") pos s = None.
Proof. intros H. unfold CStr.find. by rewrite (CStr.index_of_None c []). Qed.

Lemma split_query_some base q :
  free_of "?" base -> (Z.of_nat (CStr.size base) < CInt.INT_MAX)%Z ->
  split_query (base +:+ "?" +:+ q) = Some (base, Z.of_nat (CStr.size base + 1)).
Proof.
  intros Hb Hsize. apply free_of_1 in Hb. unfold split_query.
  assert (chars (base +:+ "?" +:+ q) = chars base ++ "?"%char :: chars q) as Hc
    by (by rewrite CStr.chars_app).
  rewrite (find1_start "?" _ (chars base) (chars q)) by done.
  rewrite CStr.substr_0. cbn [mbind option_bind].
  rewrite Hc, take_app_length, CStr.of_chars_chars.
  change (length (chars base)) with (CStr.size base). rewrite int_after_id by done.
  by rewrite Nat.add_1_r.
Qed.

Lemma split_query_none base : free_of "?" base -> split_query base = Some (base, (-1)%Z).
Proof.
  intros Hb. apply free_of_1 in Hb. unfold split_query.
  by rewrite find1_none by by rewrite drop_0.
Qed.

Lemma parse_proto_spec pr rest :
  free_of ":" pr -> parse_proto (pr +:+ "://" +:+ rest) = Some (CStr.lowercase pr, rest).
Proof.
  intros Hp. apply free_of_1 in Hp. unfold parse_proto, CStr.find. rewrite drop_0.
  assert (chars (pr +:+ "://" +:+ rest) = chars pr ++ ":"%char :: (["/"%char; "/"%char] ++ chars rest))
    as Hc by (by rewrite CStr.chars_app).
  rewrite Hc, (CStr.index_of_app ":"%char ["/"%char; "/"%char]) by done.
  cbn [fmap option_fmap option_map]. rewrite CStr.substr_0, CStr.substr_rest.
  - cbn [mbind option_bind]. rewrite Hc, Nat.add_0_l, take_app_length, CStr.of_chars_chars.
    rewrite <- drop_drop, drop_app_length. cbn [drop app]. by rewrite ?drop_0, CStr.of_chars_chars.
  - unfold CStr.size. rewrite Hc, length_app. simpl. lia.
Qed.

Lemma parse_path_spec hp p :
  free_of "/[" hp -> (p = "" \/ exists p', p = String "/" p' /\ free_of "[" p') ->
  parse_path (hp +:+ p) = Some (None, hp, p).
Proof.
  intros Hh Hp. rewrite !free_of_cons in Hh.
  destruct Hh as (Hsl & Hbr & _). unfold parse_path.
  rewrite (find1_none "[" 0).
  2:{ rewrite drop_0, CStr.chars_app, not_elem_of_app. split; [done|].
      destruct Hp as [->|(p' & -> & Hp')]; [by apply not_elem_of_nil|].
      apply free_of_1 in Hp'. by apply not_elem_of_cons. }
  destruct Hp as [->|(p' & -> & Hp')].
  { assert (hp +:+ "" = hp) as -> by (apply CStr.chars_inj; by rewrite CStr.chars_app, app_nil_r).
    by rewrite find1_none by by rewrite drop_0. }
  assert (chars (hp +:+ String "/" p') = chars hp ++ "/"%char :: chars p') as Hc
    by (by rewrite CStr.chars_app).
  rewrite (find1_start "/" _ (chars hp) (chars p')) by done.
  rewrite CStr.substr_0, CStr.substr_rest by (unfold CStr.size; rewrite Hc, length_app; lia).
  cbn [mbind option_bind]. rewrite Hc, take_app_length, drop_app_length.
  rewrite CStr.of_chars_chars. by change ("/"%char :: chars p') with (chars (String "/" p'));
    rewrite CStr.of_chars_chars.
Qed.

Lemma parse_userinfo_none h q : free_of "@" h -> parse_userinfo h q = Some (h, q).
Proof.
  intros Hh. apply free_of_1 in Hh. unfold parse_userinfo, CStr.find_char.
  rewrite drop_0. apply CStr.forallb_not_elem, CStr.index_where_None in Hh. by rewrite Hh.
Qed.

Lemma parse_hostport_spec h p :
  free_of ":" p -> parse_hostport None (h +:+ ":" +:+ p) = Some (h, p).
Proof.
  intros Hp. apply free_of_1 in Hp.
  assert (chars (h +:+ ":" +:+ p) = chars h ++ ":"%char :: chars p) as Hc
    by (by rewrite CStr.chars_app).
  unfold parse_hostport, CStr.rfind_char. rewrite Hc, CStr.last_index_where_app;
    [|by apply bool_decide_eq_true|by apply CStr.forallb_not_elem].
  rewrite CStr.substr_rest, CStr.substr_0 by (unfold CStr.size; rewrite Hc, length_app; simpl; lia).
  cbn [mbind option_bind]. rewrite Hc, take_app_length, <- drop_drop, drop_app_length.
  cbn [drop app]. by rewrite ?drop_0, !CStr.of_chars_chars.
Qed.

Lemma url_decode_plain s : "%"%char ∉ chars s -> url_decode s = Some s.
Proof.
  intros H. unfold url_decode. rewrite url_decode_loop_spec by lia.
  by rewrite drop_0, decoded_id, CStr.of_chars_chars.
Qed.

Lemma parse_pair_spec k v q :
  wf_pair (k, v) -> parse_pair (k +:+ "=" +:+ v) q = Some (SMap.ins k v q).
Proof.
  unfold wf_pair. simpl. rewrite !free_of_cons. intros [(He & _ & Hpk & _) (_ & Hpv & _)].
  assert (chars (k +:+ "=" +:+ v) = chars k ++ "="%char :: chars v) as Hc
    by (by rewrite CStr.chars_app).
  unfold parse_pair. rewrite (find1_start "=" _ (chars k) (chars v)) by done.
  rewrite CStr.substr_0, CStr.substr_rest by (unfold CStr.size; rewrite Hc, length_app; simpl; lia).
  cbn [mbind option_bind]. rewrite Hc, take_app_length.
  rewrite <- drop_drop, drop_app_length. cbn [drop app]. rewrite ?drop_0, !CStr.of_chars_chars.
  rewrite url_decode_plain by done. cbn [mbind option_bind]. by rewrite url_decode_plain.
Qed.

(** Inserting a key above all the others appends it. *)
Lemma ins_last (k v : string) (q : list (string * string)) :
  Forall (fun a => String.compare a.1 k = Lt) q -> SMap.ins k v q = q ++ [(k, v)].
Proof.
  induction 1 as [|[k' v'] q Hk _ IH]; [done|]. simpl in *.
  rewrite String.compare_antisym, Hk. simpl. by rewrite IH.
Qed.

Lemma parse_query_spec fuel s st q acc :
  drop st (chars s) = chars (print_query q) -> q <> [] ->
  st <= CStr.size s -> CStr.size s - st < fuel -> (Z.of_nat (CStr.size s) <= CInt.INT_MAX)%Z ->
  Forall wf_pair q -> sorted_keys (acc ++ q) ->
  parse_query fuel s (Z.of_nat st) acc = Some (acc ++ q).
Proof.
  revert st q acc. induction fuel as [|f IH]; intros st q acc Hd Hq Hst Hf Hint Hwf Hs; [lia|].
  destruct q as [|[k v] q]; [done|]. cbn [parse_query].
  rewrite (proj2 (Z.ltb_lt _ _)) by lia. rewrite Nat2Z.id.
  apply Forall_cons in Hwf as [Hkv Hwf].
  assert ("&"%char ∉ chars (k +:+ "=" +:+ v)) as Hamp.
  { destruct Hkv as [Hk Hv]. apply free_of_1. rewrite !free_of_app. repeat split.
    - by eapply free_of_sub; [|exact Hk].
    - by apply (bool_decide_eq_true_1 (free_of _ _)).
    - by eapply free_of_sub; [|exact Hv]. }
  assert (SMap.ins k v acc = acc ++ [(k, v)]) as Hins.
  { apply ins_last, Forall_forall. intros a Ha.
    apply (StronglySorted_app_1_elem_of _ _ _ a (k, v) Hs); [done|by left]. }
  destruct q as [|kv2 q].
  - simpl in Hd. rewrite find1_none by by rewrite Hd.
    rewrite CStr.substr_rest, Hd by done. cbn [mbind option_bind].
    rewrite CStr.of_chars_chars, parse_pair_spec by done. cbn [mbind option_bind].
    rewrite Hins. by destruct f.
  - assert (drop st (chars s) = chars (k +:+ "=" +:+ v) ++ "&"%char :: chars (print_query (kv2 :: q))) as Hd2.
    { rewrite Hd. change (print_query ((k, v) :: kv2 :: q))
        with (k +:+ "=" +:+ v +:+ "&" +:+ print_query (kv2 :: q)).
      rewrite !CStr.chars_app. by rewrite <- !app_assoc. }
    rewrite (find1_at "&" st s _ _ Hd2 Hamp).
    rewrite CStr.substr_ok by done. cbn [mbind option_bind].
    replace (st + _ - st) with (length (chars (k +:+ "=" +:+ v))) by lia.
    rewrite Hd2, take_app_length, CStr.of_chars_chars, parse_pair_spec by done.
    cbn [mbind option_bind]. rewrite Hins.
    assert (length (drop st (chars s)) = CStr.size s - st) as Hl by by rewrite length_drop.
    rewrite Hd2, length_app in Hl. cbn [length] in Hl.
    replace (acc ++ (k, v) :: kv2 :: q) with ((acc ++ [(k, v)]) ++ kv2 :: q) in * by by rewrite <- app_assoc.
    rewrite int_after_id by lia. replace (S (st + _)) with (st + length (chars (k +:+ "=" +:+ v)) + 1) by lia.
    apply IH; [|done|lia|lia|done|done|done].
    rewrite <- Nat.add_assoc, <- drop_drop, Hd2, <- drop_drop, drop_app_length.
    by rewrite <- (drop_0 (chars _)) at 2.
Qed.

(** The URI up to the query. *)
Definition base_uri (u : UriParser) : string :=
  m_proto u +:+ "://" +:+ (m_host u +:+ ":" +:+ m_port u) +:+ m_path u.

Lemma makeUri_shape u :
  wf_uri u ->
  makeUri u = if bool_decide (m_mapQuery u = []) then base_uri u
              else base_uri u +:+ "?" +:+ print_query (m_mapQuery u).
Proof.
  intros [(_ & Hp & _) _ (_ & Ht & Ht0) Hpath _ _]. unfold makeUri, base_uri.
  rewrite (bool_decide_false (m_proto u = "")), (bool_decide_false (m_port u = "")),
    (bool_decide_false (m_port u = "0")) by done. cbn [orb andb].
  assert ((if bool_decide (m_path u = "") then "" else
     match m_path u with String "/" _ => m_path u | _ => "/" +:+ m_path u end) = m_path u) as ->.
  { by destruct Hpath as [->|(p & -> & _)]. }
  apply CStr.chars_inj. case_bool_decide; rewrite !CStr.chars_app; [by rewrite app_nil_r, <- !app_assoc|].
  by rewrite <- !app_assoc.
Qed.

(** Closes [free_of] goals from the well-formedness hypotheses. *)
Ltac free_solver :=
  rewrite ?free_of_app; repeat split;
  first [ by apply (bool_decide_eq_true_1 (free_of _ _)); vm_compute
        | match goal with
          | H : free_of _ ?s |- free_of _ ?s => eapply free_of_sub; [|exact H]; vm_compute; reflexivity
          end ].

(** C18: On a well-formed URI (a known or unknown lower-case protocol other
    than "file", a host and a port with no separators, an absolute path,
    query pairs sorted by key with no reserved character) whose text has a length
    that fits an int, as the position in the query does, parsing what [makeUri]
    prints gives back every field: the two are inverse. *)
Theorem Parse_makeUri u :
  wf_uri u -> (Z.of_nat (CStr.size (makeUri u)) <= CInt.INT_MAX)%Z ->
  Parse (makeUri u) (m_expect u) =
    Some (mk_uri (makeUri u) (m_proto u) (m_host u) (m_port u) (m_path u)
            (m_uriType u) (m_expect u) (m_mapQuery u)).
Proof.
  intros Hwf Hint. pose proof (makeUri_shape u Hwf) as Hmk.
  destruct Hwf as [(Hp & Hpe & Hpf & Hlow) Hh (Ht & Hte & _) Hpath Hty [Hsort Hq]].
  assert (free_of "?[" (m_path u)) as Hpath'.
  { destruct Hpath as [->|(p & -> & Hpp)]; [free_solver|].
    change (String "/" p) with ("/" +:+ p). free_solver. }
  assert (free_of "?" (base_uri u)) as Hbase by (unfold base_uri; free_solver).
  unfold Parse.
  assert (exists st, split_query (makeUri u) = Some (base_uri u, st) /\
    parse_query (S (CStr.size (makeUri u))) (makeUri u) st [] = Some (m_mapQuery u))
    as (st & -> & Hquery).
  { rewrite Hmk in Hint |- *. case_bool_decide as Hn.
    - exists (-1)%Z. rewrite Hn. split; [by apply split_query_none|done].
    - assert (CStr.size (base_uri u) + 1 <= CStr.size (base_uri u +:+ "?" +:+ print_query (m_mapQuery u)))
        by (rewrite CStr.size_app; change (CStr.size ("?" +:+ print_query (m_mapQuery u)))
              with (S (CStr.size (print_query (m_mapQuery u)))); lia).
      eexists. split; [apply split_query_some; [done|lia]|].
      apply (parse_query_spec _ _ _ (m_mapQuery u) []); try done; [|lia].
      rewrite CStr.chars_app, <- drop_drop. unfold CStr.size. by rewrite drop_app_length. }
  cbn [mbind option_bind]. unfold base_uri.
  rewrite parse_proto_spec by free_solver. cbn [mbind option_bind].
  rewrite parse_path_spec; [|free_solver|].
  2:{ destruct Hpath as [->|(p & -> & Hpp)]; [by left|right; exists p]. split; [done|free_solver]. }
  cbn [mbind option_bind].
  rewrite parse_userinfo_none by free_solver.
  cbn [mbind option_bind].
  rewrite parse_hostport_spec by free_solver. cbn [mbind option_bind].
  unfold lone_port. rewrite bool_decide_false by done. cbn [andb negb].
  rewrite Hquery. cbn [mbind option_bind].
  unfold fix_file_path, default_file. rewrite Hlow, !(bool_decide_false (m_proto u = _)) by done.
  cbn [andb mbind option_bind]. rewrite andb_false_r. cbn [andb]. by rewrite <- Hty.
Qed.

Definition sample_uri : UriParser :=
  mk_uri "" "srt" "127.0.0.1" "4200" "/live" SRT EXPECT_FILE
    [("rcvbuf", "1000000000"); ("transtype", "live")].

Lemma sample_uri_wf : wf_uri sample_uri.
Proof.
  assert (forall b s, bool_decide (free_of b s) = true -> free_of b s) as Hf
    by (intros b s; apply bool_decide_eq_true_1).
  split; repeat split; try (by apply Hf); try done.
  - right. exists "live". split; [done|by apply Hf].
  - repeat constructor.
  - do 2 (apply Forall_cons; split; [split; by apply Hf|]). by apply Forall_nil.
Qed.

Lemma Parse_makeUri_witness :
  Parse "srt://127.0.0.1:4200/live?rcvbuf=1000000000&transtype=live" EXPECT_FILE =
    Some (mk_uri "srt://127.0.0.1:4200/live?rcvbuf=1000000000&transtype=live"
            "srt" "127.0.0.1" "4200" "/live" SRT EXPECT_FILE
            [("rcvbuf", "1000000000"); ("transtype", "live")]).
Proof. apply (Parse_makeUri sample_uri sample_uri_wf). vm_compute. discriminate. Defined.

(** The comment in [Parse] says that brackets at the edges of the host are
    stripped; with no colon in the host they are not. *)
Example bracketed_host_kept :
  (host <$> Parse "srt://[localhost]" EXPECT_FILE) = Some "[localhost]" /\
  (host <$> Parse "srt://[localhost]:4200" EXPECT_FILE) = Some "localhost".
Proof. split; vm_compute; reflexivity. Qed.

(** A path with a bracketed part before its last "/" is not recognised. *)
Example bracket_in_path :
  ((fun u => (host u, path u)) <$> Parse "file://h/a[1]/b" EXPECT_FILE) = Some ("h/a[1]", "/b").
Proof. vm_compute. reflexivity. Qed.
End Uri.
