(* ===== verification/SockOpts.v ===== *)
(** * Socket options (srt/apps/socketoptions.hpp, socketoptions.cpp)

    The table of the options a URI may carry, the conversion of an option's
    text to the value passed to srt_setsockopt, the connection mode that follows
    from the URI, and the two passes that apply the options of a URI to a
    socket: SrtConfigurePre before and SrtConfigurePost after the connection. *)

From Stdlib Require Import ZArith Lia Ascii String.
From stdpp Require Import prelude strings list.
From S2P Require Import Prelude Sys Logic.

Module SockOpts.
Local Open Scope string_scope.
Local Open Scope list_scope.
Local Open Scope Z_scope.

Inductive Type_ := STRING | INT | INT64 | BOOL | ENUM.
Inductive Binding := PRE | POST.
Inductive Mode := FAILURE | LISTENER | CALLER | RENDEZVOUS.
#[global] Instance Type_eq_dec : EqDecision Type_.
Proof. solve_decision. Defined.
#[global] Instance Binding_eq_dec : EqDecision Binding.
Proof. solve_decision. Defined.
#[global] Instance Mode_eq_dec : EqDecision Mode.
Proof. solve_decision. Defined.

Definition true_names : list string := ["1"; "yes"; "on"; "true"].
Definition false_names : list string := ["0"; "no"; "off"; "false"].
Definition enummap_transtype : list (string * Z) := [("live", SRTT_LIVE); ("file", SRTT_FILE)].

Record SocketOption := mk_option {
  name : string; symbol : Z; binding : Binding; type : Type_;
  valmap : option (list (string * Z)) }.

(** The std::map<std::string, std::string> of the URI parameters. *)
Definition options_t := list (string * string).

Section options.
Context `{Build}.

Definition srt_options : list SocketOption :=
  [ mk_option "transtype" SRTO_TRANSTYPE PRE ENUM (Some enummap_transtype);
    mk_option "maxbw" SRTO_MAXBW POST INT64 None;
    mk_option "pbkeylen" SRTO_PBKEYLEN PRE INT None;
    mk_option "passphrase" SRTO_PASSPHRASE PRE STRING None;
    mk_option "mss" SRTO_MSS PRE INT None;
    mk_option "fc" SRTO_FC PRE INT None;
    mk_option "sndbuf" SRTO_SNDBUF PRE INT None;
    mk_option "rcvbuf" SRTO_RCVBUF PRE INT None;
    mk_option "ipttl" SRTO_IPTTL PRE INT None;
    mk_option "iptos" SRTO_IPTOS PRE INT None;
    mk_option "inputbw" SRTO_INPUTBW POST INT64 None;
    mk_option "mininputbw" SRTO_MININPUTBW POST INT64 None;
    mk_option "oheadbw" SRTO_OHEADBW POST INT None;
    mk_option "latency" SRTO_LATENCY PRE INT None;
    mk_option "tsbpdmode" SRTO_TSBPDMODE PRE BOOL None;
    mk_option "tlpktdrop" SRTO_TLPKTDROP PRE BOOL None;
    mk_option "snddropdelay" SRTO_SNDDROPDELAY POST INT None;
    mk_option "nakreport" SRTO_NAKREPORT PRE BOOL None;
    mk_option "conntimeo" SRTO_CONNTIMEO PRE INT None;
    mk_option "drifttracer" SRTO_DRIFTTRACER POST BOOL None;
    mk_option "lossmaxttl" SRTO_LOSSMAXTTL POST INT None;
    mk_option "rcvlatency" SRTO_RCVLATENCY PRE INT None;
    mk_option "peerlatency" SRTO_PEERLATENCY PRE INT None;
    mk_option "minversion" SRTO_MINVERSION PRE INT None;
    mk_option "streamid" SRTO_STREAMID PRE STRING None;
    mk_option "congestion" SRTO_CONGESTION PRE STRING None;
    mk_option "messageapi" SRTO_MESSAGEAPI PRE BOOL None;
    mk_option "payloadsize" SRTO_PAYLOADSIZE PRE INT None;
    mk_option "kmrefreshrate" SRTO_KMREFRESHRATE PRE INT None;
    mk_option "kmpreannounce" SRTO_KMPREANNOUNCE PRE INT None;
    mk_option "enforcedencryption" SRTO_ENFORCEDENCRYPTION PRE BOOL None;
    mk_option "ipv6only" SRTO_IPV6ONLY PRE INT None;
    mk_option "peeridletimeo" SRTO_PEERIDLETIMEO PRE INT None;
    mk_option "packetfilter" SRTO_PACKETFILTER PRE STRING None ] ++
  (if ENABLE_BONDING then
     [ mk_option "groupconnect" SRTO_GROUPCONNECT PRE INT None;
       mk_option "groupminstabletimeo" SRTO_GROUPMINSTABLETIMEO PRE INT None ] else []) ++
  (if SRT_ENABLE_BINDTODEVICE then
     [ mk_option "bindtodevice" SRTO_BINDTODEVICE PRE STRING None ] else []) ++
  [ mk_option "retransmitalgo" SRTO_RETRANSMITALGO PRE INT None ] ++
  (if ENABLE_AEAD_API_PREVIEW then
     [ mk_option "cryptomode" SRTO_CRYPTOMODE PRE INT None ] else []) ++
  (if ENABLE_MAXREXMITBW then
     [ mk_option "maxrexmitbw" SRTO_MAXREXMITBW POST INT64 None ] else []).

(** The [extract] specialisations: the value passed on, or failure. *)
Definition extract_int (value : string) : option optval :=
  match CNum.stoi 0 value with CNum.StoOk z => Some (OInt z) | _ => None end.
Definition extract_int64 (value : string) : option optval :=
  match CNum.stoll value with CNum.StoOk z => Some (OInt64 z) | _ => None end.
Definition extract_bool (value : string) : option optval :=
  if bool_decide (value ∈ false_names) then Some (OBool false)
  else if bool_decide (value ∈ true_names) then Some (OBool true)
  else None.
Definition extract_enum (vm : option (list (string * Z))) (value : string) : option optval :=
  match vm ≫= SMap.get value with
  | Some z => Some (OInt z)
  | None => extract_int value
  end.
Definition extract (o : SocketOption) (value : string) : option optval :=
  match type o with
  | STRING => Some (OStr value)
  | INT => extract_int value
  | INT64 => extract_int64 value
  | BOOL => extract_bool value
  | ENUM => extract_enum (valmap o) value
  end.

Definition SrtInterpretMode (modestr host adapter : string) : Mode :=
  if String.eqb modestr "client" || String.eqb modestr "caller" then CALLER
  else if String.eqb modestr "server" || String.eqb modestr "listener" then LISTENER
  else if String.eqb modestr "rendezvous" then RENDEZVOUS
  else if String.eqb modestr "default" then
    if String.eqb host "" then LISTENER
    else if negb (String.eqb adapter "") then RENDEZVOUS
    else CALLER
  else FAILURE.

Section io.
Context {W : Type} `{Env W}.

(** [SocketOption::apply<SRT>]. *)
Definition apply (o : SocketOption) (sock : Z) (value : string) : io W bool :=
  match extract o value with
  | Some v => let! r := invoke (srt_setsockopt sock (symbol o) v) in ret (negb (r =? -1))
  | None => ret false
  end.

(** The loop over the table that both passes run: the names it adds to the
    failures. *)
Fixpoint apply_options (b : Binding) (sock : Z) (options : options_t)
    (table : list SocketOption) : io W (list string) :=
  match table with
  | [] => ret []
  | o :: table' =>
      if bool_decide (binding o = b) then
        match SMap.get (name o) options with
        | Some value =>
            let! ok := apply o sock value in
            let! fails := apply_options b sock options table' in
            ret (if ok then fails else name o :: fails)
        | None => apply_options b sock options table'
        end
      else apply_options b sock options table'
  end.

(** The "linger" option, outside the common loop; its result is ignored. *)
Definition set_linger (sock : Z) (options : options_t) : io W unit :=
  match SMap.get "linger" options with
  | None => ret ()
  | Some value =>
      match CNum.stoi 10 value with
      | CNum.StoOk z =>
          do! invoke (srt_setsockopt sock SRTO_LINGER (OLinger (if 0 <? z then 1 else 0) z)) in
          ret ()
      | CNum.StoInvalid => throw (StdInvalidArgument "stoi")
      | CNum.StoRange => throw (StdOutOfRange "stoi")
      end
  end.

Definition mode_of_options (host : string) (options : options_t) : Mode :=
  SrtInterpretMode (default "default" (SMap.get "mode" options)) host
    (default "" (SMap.get "adapter" options)).

(** Returns the mode and the list of failures. *)
Definition SrtConfigurePre (sock : Z) (host : string) (options : options_t)
  : io W (Mode * list string) :=
  let mode := mode_of_options host options in
  let fails0 := if decide (mode = FAILURE) then ["mode"] else [] in
  do! set_linger sock options in
  let! fails := apply_options PRE sock options srt_options in
  ret (if decide (fails = []) then mode else FAILURE, fails0 ++ fails).

Definition SrtConfigurePost (sock : Z) (options : options_t) : io W (list string) :=
  apply_options POST sock options srt_options.

(** ** Specification *)

(** The options of one pass that the URI sets, in the order of the table. *)
Definition requested (b : Binding) (options : options_t) (table : list SocketOption)
  : list (SocketOption * string) :=
  omap (fun o => if bool_decide (binding o = b)
                 then pair o <$> SMap.get (name o) options else None) table.

(** What applying a list of requests does: one srt_setsockopt for each value
    that converts, in order; the failures are the requests whose text does not
    convert or whose value the library rejects. *)
Inductive applied (sock : Z) : list (SocketOption * string) -> list event -> list string -> Prop :=
| applied_nil : applied sock [] [] []
| applied_unreadable o value rs t fails :
    extract o value = None -> applied sock rs t fails ->
    applied sock ((o, value) :: rs) t (name o :: fails)
| applied_set o value v rs t fails r :
    extract o value = Some v -> r <> -1 -> applied sock rs t fails ->
    applied sock ((o, value) :: rs) (Ev (srt_setsockopt sock (symbol o) v) r :: t) fails
| applied_rejected o value v rs t fails :
    extract o value = Some v -> applied sock rs t fails ->
    applied sock ((o, value) :: rs) (Ev (srt_setsockopt sock (symbol o) v) (-1) :: t)
      (name o :: fails).

Lemma apply_options_applied b sock options table w :
  wp (apply_options b sock options table)
    (fun o t _ => exists fails, o = Done fails /\
                  applied sock (requested b options table) t fails) w.
Proof.
  revert w. induction table as [|o table IH]; intros w.
  { apply wp_ret. eexists. split; [done|constructor]. }
  cbn [apply_options]. unfold requested. cbn [omap list_omap].
  case_bool_decide as Hb; [|apply IH].
  destruct (SMap.get (name o) options) as [value|] eqn:Hv; [|apply IH].
  cbn [fmap option_fmap option_map]. fold (requested b options table).
  apply wp_bind. unfold apply. destruct (extract o value) as [v|] eqn:He.
  - wp_steps. eapply wp_mono; [apply IH|].
    intros o' t w' (fails & -> & Ha). wp_steps.
    eexists. split; [done|]. rewrite ?app_nil_r.
    destruct (Z.eqb_spec r (-1)) as [->|]; cbn; by econstructor.
  - wp_steps. eapply wp_mono; [apply IH|].
    intros o' t w' (fails & -> & Ha). cbn. wp_steps.
    rewrite ?app_nil_r. eexists. split; [done|]. by econstructor.
Qed.

(** The failures of [applied] come in the order of the requests. *)
Lemma applied_sublist sock rs t fails :
  applied sock rs t fails -> sublist fails (map (fun r => name r.1) rs).
Proof. induction 1; simpl; by constructor. Qed.

Lemma applied_calls sock rs t fails :
  applied sock rs t fails ->
  calls t = omap (fun r => srt_setsockopt sock (symbol r.1) <$> extract r.1 r.2) rs.
Proof.
  induction 1; [done|..]; cbn; repeat match goal with H : extract _ _ = _ |- _ => rewrite H end;
    cbn; unfold calls in *; cbn; congruence.
Qed.

Lemma elem_of_requested b options table o value :
  (o, value) ∈ requested b options table <->
  o ∈ table /\ binding o = b /\ SMap.get (name o) options = Some value.
Proof.
  unfold requested. rewrite list_elem_of_omap. split.
  - intros (o' & Hin & Ho). case_bool_decide; [|done].
    apply fmap_Some in Ho as (v & Hv & [= <- <-]). done.
  - intros (Hin & Hb & Hv). exists o. rewrite bool_decide_true by done. by rewrite Hv.
Qed.

(** The text of the mode, host and adapter decide the mode. *)
Lemma set_linger_wp sock options (Q : post unit) w :
  (SMap.get "linger" options = None -> Q (Done tt) [] w) ->
  (forall value z r w1, SMap.get "linger" options = Some value ->
     CNum.stoi 10 value = CNum.StoOk z ->
     Q (Done tt)
       [Ev (srt_setsockopt sock SRTO_LINGER (OLinger (if 0 <? z then 1 else 0) z)) r] w1) ->
  (forall value e, SMap.get "linger" options = Some value ->
     e = (match CNum.stoi 10 value with
          | CNum.StoInvalid => StdInvalidArgument "stoi" | _ => StdOutOfRange "stoi" end) ->
     (forall z, CNum.stoi 10 value <> CNum.StoOk z) -> Q (Throw e) [] w) ->
  wp (set_linger sock options) Q w.
Proof.
  intros Hnone Hok Hbad. unfold set_linger.
  destruct (SMap.get "linger" options) as [value|] eqn:E; [|by apply wp_ret, Hnone].
  destruct (CNum.stoi 10 value) as [z| |] eqn:Ez.
  - wp_steps. by apply (Hok value z).
  - apply wp_throw. eapply Hbad; [done| |]; by rewrite Ez.
  - apply wp_throw. eapply Hbad; [done| |]; by rewrite Ez.
Qed.

(** C27: SrtConfigurePre, on every branch. A "linger" option goes first: when its
    text is not a number the function throws and no call was made. Then exactly
    the PRE options of the URI are applied, once each, in the order of the
    table. The result lists "mode" when the mode is unknown, followed by the
    names of the options that could not be applied; the returned mode is the
    interpreted one when no option failed and FAILURE otherwise. *)
Theorem SrtConfigurePre_spec sock host options w :
  wp (SrtConfigurePre sock host options)
    (fun o t _ =>
       let mode := mode_of_options host options in
       let configured t' :=
         exists fails,
           applied sock (requested PRE options srt_options) t' fails /\
           o = Done (if decide (fails = []) then mode else FAILURE,
                     (if decide (mode = FAILURE) then ["mode"] else []) ++ fails) in
       match CNum.stoi 10 <$> SMap.get "linger" options with
       | None => configured t
       | Some (CNum.StoOk z) =>
           exists r t', configured t' /\
             t = Ev (srt_setsockopt sock SRTO_LINGER (OLinger (if 0 <? z then 1 else 0) z)) r :: t'
       | Some CNum.StoInvalid => o = Throw (StdInvalidArgument "stoi") /\ t = []
       | Some CNum.StoRange => o = Throw (StdOutOfRange "stoi") /\ t = []
       end) w.
Proof.
  unfold SrtConfigurePre. apply wp_bind, set_linger_wp.
  - intros ->. wp_steps. eapply wp_mono; [apply apply_options_applied|].
    intros o t w' (fails & -> & Ha). wp_steps. rewrite app_nil_r. cbn [fmap option_fmap option_map]. by exists fails.
  - intros value z r w1 -> Hz. wp_steps. eapply wp_mono; [apply apply_options_applied|].
    intros o t w' (fails & -> & Ha). wp_steps. rewrite app_nil_r. cbn [fmap option_fmap option_map]. rewrite Hz.
    exists r, t. split; [by exists fails|done].
  - intros value e -> -> Hno. cbn [fmap option_fmap option_map]. destruct (CNum.stoi 10 value); [|done..].
    by destruct (Hno z).
Qed.

(** The mode SrtConfigurePre returns, unless it is FAILURE, is the interpreted one. *)
Lemma SrtConfigurePre_mode sock host options w :
  wp (SrtConfigurePre sock host options)
    (fun o _ _ => match o with
       | Done (m, _) => m <> FAILURE -> m = mode_of_options host options
       | _ => True end) w.
Proof.
  unfold SrtConfigurePre. apply wp_bind, set_linger_wp.
  1: intros _. 2: intros value z r w1 _ _. 3: done.
  all: wp_steps; eapply wp_mono; [apply apply_options_applied|];
    intros o t w' (fails & -> & _); wp_steps; by destruct (decide (fails = [])).
Qed.

Lemma SrtConfigurePost_applied sock options w :
  wp (SrtConfigurePost sock options)
    (fun o t _ => exists fails, o = Done fails /\
                  applied sock (requested POST options srt_options) t fails) w.
Proof. apply apply_options_applied. Qed.
End io.

Lemma srt_options_nodup : NoDup (map name srt_options).
Proof.
  unfold srt_options.
  destruct ENABLE_BONDING, SRT_ENABLE_BINDTODEVICE, ENABLE_AEAD_API_PREVIEW, ENABLE_MAXREXMITBW;
    apply (bool_decide_unpack _); vm_compute; exact I.
Qed.

Lemma requested_cons b options o table :
  requested b options (o :: table) =
    (if bool_decide (binding o = b)
     then match SMap.get (name o) options with Some v => [(o, v)] | None => [] end else []) ++
    requested b options table.
Proof.
  unfold requested. cbn [omap list_omap]. case_bool_decide; [|done].
  by destruct (SMap.get (name o) options).
Qed.

Lemma requested_none options b table k :
  k ∉ map name table ->
  filter (fun r => name r.1 = k) (requested b options table) = [].
Proof.
  induction table as [|o table IH]; [done|]. cbn [map].
  intros [Hne Hk]%not_elem_of_cons. rewrite requested_cons, filter_app, IH by done.
  case_bool_decide; [|done]. destruct (SMap.get (name o) options); [|done].
  by rewrite filter_cons_False by (cbn; congruence).
Qed.

(** An option of the URI that the table knows is applied in exactly one of
    the two passes, exactly once, with the text the URI gives it: no entry of
    the table shadows another one. *)
Theorem each_option_applied_once options k value :
  SMap.get k options = Some value -> k ∈ map name srt_options ->
  exists o, o ∈ srt_options /\ name o = k /\
    filter (fun r => name r.1 = k)
      (requested PRE options srt_options ++ requested POST options srt_options) = [(o, value)].
Proof.
  intros Hv. pose proof srt_options_nodup as Hnd. revert Hnd.
  generalize srt_options as table.
  induction table as [|o table IH]; [by intros _ ?%not_elem_of_nil|].
  cbn [map]. rewrite NoDup_cons. intros [Hfresh Hnd] Hin.
  rewrite !requested_cons, !filter_app.
  destruct (decide (name o = k)) as [<-|Hne].
  - exists o. split_and!; [by left|done|]. rewrite Hv, !requested_none by done.
    destruct (binding o); repeat (case_bool_decide; try done);
      cbn; by rewrite decide_True.
  - apply elem_of_cons in Hin as [->|Hin]; [done|].
    destruct (IH Hnd Hin) as (o' & Ho' & Hn & Hf). exists o'. split_and!; [by right|done|].
    rewrite <- Hf, filter_app. f_equal.
    + destruct (SMap.get (name o) options); case_bool_decide; cbn; by rewrite ?decide_False.
    + destruct (SMap.get (name o) options); case_bool_decide; cbn; by rewrite ?decide_False.
Qed.
End options.

(** The connection mode, as a table: an explicit mode name wins; "default"
    (no mode in the URI) means listener without a host, rendezvous with a host
    and an adapter, caller with a host only; any other text is an error. *)
Theorem SrtInterpretMode_table modestr host adapter :
  let m := SrtInterpretMode modestr host adapter in
  (m = CALLER <-> modestr ∈ ["client"; "caller"] \/
                  modestr = "default" /\ host <> "" /\ adapter = "") /\
  (m = LISTENER <-> modestr ∈ ["server"; "listener"] \/ modestr = "default" /\ host = "") /\
  (m = RENDEZVOUS <-> modestr = "rendezvous" \/
                      modestr = "default" /\ host <> "" /\ adapter <> "") /\
  (m = FAILURE <-> modestr ∉ ["client"; "caller"; "server"; "listener"; "rendezvous"; "default"]).
Proof.
  unfold SrtInterpretMode. rewrite !elem_of_cons, !elem_of_nil.
  repeat (match goal with |- context [String.eqb ?a ?b] => destruct (String.eqb_spec a b) end;
          subst; cbn [orb negb]); naive_solver.
Qed.

(** Values that convert are inside the range of the type they convert to. *)
Lemma extract_int_range value v :
  extract_int value = Some v ->
  exists z, v = OInt z /\ CInt.INT_MIN <= z <= CInt.INT_MAX.
Proof.
  unfold extract_int, CNum.stoi. destruct (CNum.strtol_exact 0 value) as [z n].
  case_decide; [done|]. destruct (CInt.in_int z) eqn:E; [|done].
  intros [= <-]. exists z. split; [done|]. by apply CInt.in_int_spec.
Qed.

Lemma names_disjoint value : value ∈ false_names -> value ∉ true_names.
Proof. unfold false_names, true_names. set_solver. Qed.

Lemma extract_bool_spec value v :
  extract_bool value = Some v <->
  (value ∈ false_names /\ v = OBool false) \/ (value ∈ true_names /\ v = OBool true).
Proof.
  unfold extract_bool. pose proof (names_disjoint value).
  case_bool_decide as Hf; [|case_bool_decide as Ht]; naive_solver.
Qed.
Lemma each_option_applied_once_witness :
  exists o, name o = "latency" /\
    let _ := mk_build false false false false in
    filter (fun r => name r.1 = "latency")
      (requested PRE [("latency", "20"); ("mode", "caller")] srt_options ++
       requested POST [("latency", "20"); ("mode", "caller")] srt_options) = [(o, "20")].
Proof.
  destruct (each_option_applied_once (H := mk_build false false false false)
    [("latency", "20"); ("mode", "caller")] "latency" "20" eq_refl
    ltac:(apply (bool_decide_unpack _); vm_compute; exact I)) as (o & _ & Hn & Hf).
  exists o. split; [exact Hn|]. exact Hf.
Defined.

(** Setting options leaves a program state alone. *)
Section leaves.
Context `{Build} {W S : Type} `{Env W} (R : W -> W -> Prop) `{!Monotone R} (bad : string).
Abbreviation leaves m := (frames (W:=W) (S:=S) R bad m).

Lemma frames_apply_options b sock options table : leaves (apply_options b sock options table).
Proof.
  induction table as [|o table IH]; cbn [apply_options]; unfold apply; frames_steps; done.
Qed.
Hint Resolve frames_apply_options : frames.
Lemma frames_SrtConfigurePre sock host options : leaves (SrtConfigurePre sock host options).
Proof. unfold SrtConfigurePre, set_linger. frames_steps. Qed.
Lemma frames_SrtConfigurePost sock options : leaves (SrtConfigurePost sock options).
Proof. unfold SrtConfigurePost. frames_steps. Qed.
End leaves.
End SockOpts.
#[export] Hint Extern 1 (frames _ _ (SockOpts.SrtConfigurePre _ _ _)) =>
  apply SockOpts.frames_SrtConfigurePre; tc_solve : frames.
#[export] Hint Extern 1 (frames _ _ (SockOpts.SrtConfigurePost _ _)) =>
  apply SockOpts.frames_SrtConfigurePost; tc_solve : frames.
