(* ===== verification/CreateAddr.v ===== *)
(** * create_addr (misc.cpp)

    Turns a host name and a port into an address: an empty name means the
    wildcard address, a numeric name is decoded by inet_pton, any other name is
    resolved by getaddrinfo. *)

From Stdlib Require Import ZArith Lia Ascii String.
From stdpp Require Import prelude strings list.
From S2P Require Import Prelude NetAddr Sys Logic.
Import NetAddr.

Module CreateAddr.
Local Open Scope string_scope.
Local Open Scope list_scope.
Local Open Scope Z_scope.

Section create_addr.
Context {W : Type} `{Env W}.

(** [inet_pton(family, name.c_str(), result.get_addr())] on a fresh
    [netaddr_any(family)]: [Some] of the address it fills when it returns 1. *)
Definition pton (fam : Z) (name : string) : io W (option netaddr_any) :=
  let result := of_domain fam in
  let! r := invoke (inet_pton fam (CStr.c_str name)) in
  match r with
  | None => ret None
  | Some bytes =>
      match get_addr result with
      | Some off => ret (Some (mk_netaddr (store off bytes (storage result)) (len result)))
      | None => undefined "inet_pton writes through NULL"
      end
  end.

(** The loop over the two families. *)
Fixpoint try_families (name : string) (port : Z) (families : list Z)
  : io W (option netaddr_any) :=
  match families with
  | [] => ret None
  | fam :: families' =>
      let! r := pton fam name in
      match r with
      | Some result => ret (Some (set_hport port result))
      | None => try_families name port families'
      end
  end.

Definition families_of (prefFamily : Z) : list Z :=
  if negb (prefFamily =? AF_INET) then [AF_INET6; AF_INET] else [AF_INET; AF_INET6].

(** [result.set(val->ai_addr); result.len = result.size(); result.hport(port)]. *)
Definition from_addrinfo (sa : list char) (port : Z) : io W netaddr_any :=
  match set_sockaddr sa (of_domain AF_UNSPEC) with
  | Some result => ret (set_hport port (mk_netaddr (storage result) (size result)))
  | None => undefined "set reads past the sockaddr"
  end.

Definition create_addr (name : string) (port : Z) (prefFamily : Z) : io W netaddr_any :=
  if String.eqb name "" then
    ret (set_hport port (of_domain (if prefFamily =? AF_INET6 then prefFamily else AF_INET)))
  else
    let! found := try_families name port (families_of prefFamily) in
    match found with
    | Some result => ret result
    | None =>
        let! val := invoke (getaddrinfo prefFamily (CStr.c_str name)) in
        match val with
        | Some sa => from_addrinfo sa port
        | None => ret (of_domain AF_UNSPEC)
        end
    end.

(** netaddr_any::str: host and port as text, by getnameinfo. *)
Definition str (a : netaddr_any) : io W string :=
  if negb (family a =? AF_INET) && negb (family a =? AF_INET6) then ret "unknown:0" else
  let! hostbuf := invoke (getnameinfo (take (Z.to_nat (size a)) (storage a))) in
  ret (default "" hostbuf +:+ ":" +:+ CNum.to_string (hport a)).
End create_addr.

(** What the resolver of the operating system promises: inet_pton fills an
    address of the size of its family, getaddrinfo yields the sockaddr of an
    IPv4 or an IPv6 address. *)
Definition addr_len (fam : Z) : nat := if fam =? AF_INET then 4 else 16.
Class ResolverOk (W : Type) `{Env W} : Prop := {
  pton_len fam name w bytes w' :
    answer (inet_pton fam name) w = (Some bytes, w') -> length bytes = addr_len fam;
  gai_sockaddr fam name w sa w' :
    answer (getaddrinfo fam name) w = (Some sa, w') ->
    (sa_family sa = AF_INET /\ length sa = sizeof_sockaddr_in) \/
    (sa_family sa = AF_INET6 /\ length sa = sizeof_sockaddr_in6) }.

(** The address [a] is the one with family [fam], address [bytes] and [port]. *)
Definition resolved (a : netaddr_any) (fam : Z) (bytes : list char) (port : Z) : Prop :=
  wf a /\ family a = fam /\ address_bytes a = bytes /\ hport a = CInt.to_u16 port.

Lemma resolved_set_hport a fam bytes port :
  wf a -> family a = fam -> address_bytes a = bytes ->
  resolved (set_hport port a) fam bytes port.
Proof.
  intros Hwf Hf Hb. destruct (set_hport_fields a port (proj1 Hwf)) as (Hp & Hf' & H4 & H6).
  split; [by apply wf_set_hport|]. split; [by rewrite Hf'|]. split; [|done].
  unfold address_bytes in *. by rewrite Hf', H4, H6.
Qed.

(** Storing an address of the right length over an empty one of its family. *)
Lemma stored_address fam off bytes :
  fam = AF_INET \/ fam = AF_INET6 -> get_addr (of_domain fam) = Some off ->
  length bytes = addr_len fam ->
  let a := mk_netaddr (store off bytes (storage (of_domain fam))) (len (of_domain fam)) in
  wf a /\ family a = fam /\ address_bytes a = bytes.
Proof.
  intros Hfam Hoff Hlen a.
  assert ((2 <= off)%nat /\ (off + length bytes <= length (storage (of_domain fam)))%nat /\
          family (of_domain fam) = fam /\ len (of_domain fam) = size_of fam) as (H2 & Hle & Hf & Hl).
  { destruct Hfam as [-> | ->]; vm_compute in Hoff; simplify_eq; rewrite Hlen; vm_compute;
      split_and!; lia. }
  assert (family a = fam) as Hfa by (unfold a, family; cbn [storage]; by rewrite sa_family_store).
  split; [|split; [done|]].
  - split; [unfold a; cbn [storage]; rewrite length_store by done; by destruct Hfam as [-> | ->]|].
    unfold is_ip, size. rewrite Hfa. split; [done|]. by destruct Hfam as [-> | ->].
  - unfold address_bytes. rewrite Hfa. unfold sin_addr, sin6_addr, a. cbn [storage].
    pose proof (load_store_same off bytes _ Hle) as Hs. rewrite Hlen in Hs.
    destruct Hfam as [-> | ->]; vm_compute in Hoff; simplify_eq; exact Hs.
Qed.

Lemma load_take off k n m : (off + k <= n)%nat -> load off k (take n m) = load off k m.
Proof.
  intros. apply list_eq. intros i. rewrite !lookup_load. case_decide; [|done].
  by rewrite lookup_take_lt by lia.
Qed.

Section spec.
Context {W : Type} `{ResolverOk W}.

Lemma pton_spec fam name w :
  fam = AF_INET \/ fam = AF_INET6 ->
  wp (pton fam name)
    (fun o t _ => exists r : option (list char), t = [Ev (inet_pton fam (CStr.c_str name)) r] /\
       match r with
       | None => o = Done None
       | Some bytes => exists a, o = Done (Some a) /\ wf a /\ family a = fam /\
                                 address_bytes a = bytes
       end) w.
Proof.
  intros Hfam. unfold pton. wp_steps.
  destruct r as [bytes|].
  - apply pton_len in Hans. destruct (get_addr (of_domain fam)) as [off|] eqn:Hoff;
      [|by destruct Hfam as [-> | ->]].
    wp_steps. exists (Some bytes). split; [done|]. eexists. split; [done|].
    by apply stored_address.
  - wp_steps. by exists None.
Qed.

Lemma from_addrinfo_spec sa port (Q : post (W:=W) netaddr_any) w :
  (sa_family sa = AF_INET /\ length sa = sizeof_sockaddr_in) \/
  (sa_family sa = AF_INET6 /\ length sa = sizeof_sockaddr_in6) ->
  (forall a, resolved a (sa_family sa)
      (load (if sa_family sa =? AF_INET then 4 else 8) (addr_len (sa_family sa)) sa) port ->
    Q (Done a) [] w) ->
  wp (W:=W) (from_addrinfo sa port) Q w.
Proof.
  intros Hsa HQ. unfold from_addrinfo.
  assert (exists n m, set_sockaddr sa (of_domain AF_UNSPEC) = Some (mk_netaddr m (Z.of_nat n)) /\
    memcpy n sa (zeros storage_size) = Some m /\ (n <= storage_size)%nat /\
    n = length sa /\ size_of (sa_family sa) = Z.of_nat n) as (n & m & Hset & Hm & Hn & Hl & Hs).
  { destruct Hsa as [[Hf Hl]|[Hf Hl]]; unfold set_sockaddr, memcpy; rewrite Hf, Hl;
      eexists _, _; split_and!; try done; vm_compute; lia. }
  rewrite Hset. apply wp_ret, HQ.
  pose proof Hset as Hwf. apply wf_set_sockaddr in Hwf; [|done].
  pose proof Hm as Hmf. eapply (memcpy_wf _ _ (of_domain AF_UNSPEC)) in Hmf as [_ Hmf];
    [|done|done|destruct Hsa as [[_ ->]|[_ ->]] in Hl; subst; vm_compute; lia|done].
  apply memcpy_Some in Hm as (Hlm & Htk & _); [|done].
  apply resolved_set_hport.
  - unfold size, family. cbn [storage]. rewrite Hmf, Hs. exact Hwf.
  - done.
  - unfold address_bytes, family, sin_addr, sin6_addr. cbn [storage]. rewrite Hmf.
    assert (forall off k, (off + k <= n)%nat -> load off k m = load off k sa) as Hload.
    { intros off k Hk. rewrite <- (load_take off k n m), <- (load_take off k n sa) by done.
      by rewrite Htk. }
    destruct Hsa as [[Hf Hl']|[Hf Hl']]; rewrite Hf; apply Hload; rewrite Hl, Hl'; vm_compute; lia.
Qed.
(** C28: create_addr. Without a name it makes no call and yields the wildcard
    address of the preferred family (IPv4 unless IPv6 is preferred). With a
    name it tries inet_pton, IPv6 first unless IPv4 is preferred, and only when
    both fail asks getaddrinfo for the preferred family. Whatever resolves
    first gives the family and the address; the port is always the given one,
    modulo 2^16, and the object is well formed. When nothing resolves, the
    result is the empty address of unspecified family. *)
Theorem create_addr_spec name port pref w :
  wp (W:=W) (create_addr name port pref) (fun o t _ =>
    let n := CStr.c_str name in
    exists a, o = Done a /\
    if String.eqb name "" then
      t = [] /\ resolved a (if pref =? AF_INET6 then AF_INET6 else AF_INET)
                  (zeros (addr_len (family a))) port
    else exists f1 f2,
      (f1, f2) = (if pref =? AF_INET then (AF_INET, AF_INET6) else (AF_INET6, AF_INET)) /\
      ((exists b, t = [Ev (inet_pton f1 n) (Some b)] /\ resolved a f1 b port) \/
       (exists b, t = [Ev (inet_pton f1 n) None; Ev (inet_pton f2 n) (Some b)] /\
                  resolved a f2 b port) \/
       (exists sa, t = [Ev (inet_pton f1 n) None; Ev (inet_pton f2 n) None;
                        Ev (getaddrinfo pref n) (Some sa)] /\
                   resolved a (sa_family sa)
                     (load (if sa_family sa =? AF_INET then 4 else 8)
                        (addr_len (sa_family sa)) sa) port) \/
       (t = [Ev (inet_pton f1 n) None; Ev (inet_pton f2 n) None;
             Ev (getaddrinfo pref n) None] /\ a = of_domain AF_UNSPEC))) w.
Proof.
  unfold create_addr. destruct (String.eqb name "") eqn:En.
  { wp_steps. eexists. split; [done|]. split; [done|].
    rewrite (proj1 (proj2 (set_hport_fields _ port (proj1 (wf_of_domain _))))).
    destruct (Z.eqb_spec pref AF_INET6) as [->|]; by apply resolved_set_hport; [apply wf_of_domain|..]. }
  assert (exists f1 f2, families_of pref = [f1; f2] /\
    (f1, f2) = (if pref =? AF_INET then (AF_INET, AF_INET6) else (AF_INET6, AF_INET)) /\
    (f1 = AF_INET \/ f1 = AF_INET6) /\ (f2 = AF_INET \/ f2 = AF_INET6))
    as (f1 & f2 & Hfs & Heq & Hf1 & Hf2).
  { unfold families_of. destruct (pref =? AF_INET); do 2 eexists; naive_solver. }
  rewrite Hfs. cbn [try_families]. wp_steps.
  eapply wp_mono; [by apply pton_spec|].
  intros o t w1 ([b|] & -> & Hr); [destruct Hr as (a & -> & Hwf & Hf & Hb)|subst o]; wp_steps.
  { eexists. split; [done|]. exists f1, f2. split; [done|]. left. exists b.
    split; [done|]. by apply resolved_set_hport. }
  eapply wp_mono; [by apply pton_spec|].
  intros o t w2 ([b|] & -> & Hr); [destruct Hr as (a & -> & Hwf & Hf & Hb)|subst o]; wp_steps.
  { eexists. split; [done|]. exists f1, f2. split; [done|]. right; left. exists b.
    split; [done|]. by apply resolved_set_hport. }
  destruct r as [sa|]; wp_steps.
  - apply from_addrinfo_spec; [by eapply gai_sockaddr|]. intros a Ha.
    eexists. split; [done|]. exists f1, f2. split; [done|]. right; right; left.
    exists sa. done.
  - eexists. split; [done|]. exists f1, f2. split; [done|]. right; right; right. done.
Qed.
End spec.

(** A resolver that knows the numeric names "::1" and "127.0.0.1" and one
    host. *)
Definition example_resolver (c : call) : resp c :=
  match c as c0 return resp c0 with
  | inet_pton fam name =>
      if (fam =? AF_INET6) && String.eqb name "::1" then Some (zeros 15 ++ [byte_of 1])
      else if (fam =? AF_INET) && String.eqb name "127.0.0.1" then
        Some [byte_of 127; byte_of 0; byte_of 0; byte_of 1]
      else None
  | getaddrinfo _ name =>
      if String.eqb name "localhost" then
        Some (storage (mk_netaddr (put_family AF_INET
                (store 4 [byte_of 127; byte_of 0; byte_of 0; byte_of 1] (zeros 16))) 16))
      else None
  | c => default_resp c
  end.
#[export] Instance example_resolver_env : Env unit := fun_env example_resolver.
Lemma example_resolver_ok : ResolverOk unit.
Proof.
  split.
  - intros fam name w bytes w'. unfold answer, example_resolver_env, fun_env, example_resolver.
    destruct ((fam =? AF_INET6) && _) eqn:E6.
    { apply andb_true_iff in E6 as [->%Z.eqb_eq _]. by intros [= <- _]. }
    destruct ((fam =? AF_INET) && _) eqn:E4; [|done].
    apply andb_true_iff in E4 as [->%Z.eqb_eq _]. by intros [= <- _].
  - intros fam name w sa w'. unfold answer, example_resolver_env, fun_env, example_resolver.
    destruct (String.eqb name "localhost"); [|done]. intros [= <- _]. left. by vm_compute.
Defined.

Example create_addr_localhost :
  create_addr "localhost" 4200 AF_UNSPEC tt =
    (Done (set_hport 4200 (of_in_addr (of_domain AF_UNSPEC)
             [byte_of 127; byte_of 0; byte_of 0; byte_of 1] 0)),
     [Ev (inet_pton AF_INET6 "localhost") None; Ev (inet_pton AF_INET "localhost") None;
      Ev (getaddrinfo AF_UNSPEC "localhost") (Some (take 16 (storage
        (of_in_addr (of_domain AF_UNSPEC) [byte_of 127; byte_of 0; byte_of 0; byte_of 1] 0))))], tt).
Proof. reflexivity. Qed.

Lemma create_addr_spec_witness :
  exists o t a, create_addr "127.0.0.1" 4200 AF_UNSPEC tt = (o, t, tt) /\ o = Done a /\
    length t = 2%nat /\ hport a = 4200.
Proof.
  pose proof (create_addr_spec (H0 := example_resolver_ok) "127.0.0.1" 4200 AF_UNSPEC tt) as Hs.
  unfold wp in Hs. destruct (create_addr "127.0.0.1" 4200 AF_UNSPEC tt) as [[o t] []] eqn:E.
  destruct Hs as (a & -> & _). vm_compute in E. injection E as <- <-.
  eexists _, _, _. split; [reflexivity|]. split; [reflexivity|]. split; reflexivity.
Defined.

(** Resolving a name leaves a program state alone. *)
Section leaves.
Context {W S : Type} `{Env W} (R : W -> W -> Prop) `{!Monotone R} (bad : string).
Hypothesis Hbad : bad <> "inet_pton writes through NULL" /\ bad <> "set reads past the sockaddr".

Lemma frames_create_addr name port pref : frames (W:=W) (S:=S) R bad (create_addr name port pref).
Proof.
  destruct Hbad as [Hb1 Hb2]. unfold create_addr.
  assert (forall l, frames (W:=W) (S:=S) R bad (try_families name port l)) as Ht.
  { induction l as [|f l IH]; cbn [try_families]; unfold pton; frames_steps; try done.
    by frames_apply frames_undefined. }
  unfold from_addrinfo. frames_steps. by frames_apply frames_undefined.
Qed.
End leaves.
End CreateAddr.
