(* ===== verification/SrtSocket.v ===== *)
(** * socket::srt (srt_socket.cpp, srt_socket.hpp)

    One SRT socket: the constructor that creates, configures and binds it, the
    constructor that adopts an accepted socket, the destructor, listen, accept,
    connect, read and write. The object is a record; its fields change only in
    the constructor, so the operations take the record and return what they
    return. Log output is not modelled, but the calls a log statement makes to
    build its text are. *)

From Stdlib Require Import ZArith Lia Ascii String.
From stdpp Require Import prelude strings list.
From S2P Require Import Prelude NetAddr Sys Logic Socket Stats Uri SockOpts CreateAddr.

Module SrtSocket.
Local Open Scope string_scope.
Local Open Scope list_scope.
Local Open Scope Z_scope.
Import Socket SockOpts CreateAddr.

Record srt := mk_srt {
  m_bind_socket : Z; m_epoll_connect : Z; m_epoll_io : Z; m_mode : Mode;
  m_blocking_mode : bool; m_host : string; m_port : Z; m_options : options_t }.

Definition set_epoll_connect (e : Z) (this : srt) : srt :=
  mk_srt (m_bind_socket this) e (m_epoll_io this) (m_mode this) (m_blocking_mode this)
    (m_host this) (m_port this) (m_options this).
Definition set_epoll_io (e : Z) (this : srt) : srt :=
  mk_srt (m_bind_socket this) (m_epoll_connect this) e (m_mode this) (m_blocking_mode this)
    (m_host this) (m_port this) (m_options this).
Definition set_mode (m : Mode) (this : srt) : srt :=
  mk_srt (m_bind_socket this) (m_epoll_connect this) (m_epoll_io this) m (m_blocking_mode this)
    (m_host this) (m_port this) (m_options this).
Definition set_options (b : bool) (o : options_t) (this : srt) : srt :=
  mk_srt (m_bind_socket this) (m_epoll_connect this) (m_epoll_io this) (m_mode this) b
    (m_host this) (m_port this) o.

Definition mode (this : srt) : Mode := m_mode this.
Definition is_caller (this : srt) : bool := bool_decide (m_mode this = CALLER).
Definition id (this : srt) : Z := m_bind_socket this.

(** [SRT_EPOLL_IN | SRT_EPOLL_OUT | SRT_EPOLL_ERR]. *)
Definition EPOLL_IO : Z := Z.lor (Z.lor SRT_EPOLL_IN SRT_EPOLL_OUT) SRT_EPOLL_ERR.

Section srt.
Context `{Build} {W : Type} `{Env W}.

(** The constructor of UriParser: a text whose parsing does not end has no result. *)
Definition parse_uri (uri : string) : io W Uri.UriParser :=
  match Uri.Parse uri Uri.EXPECT_FILE with Some u => ret u | None => fun w => (NoFuel, [], w) end.

(** [throw socket::exception(srt_getlasterror_str())]. *)
Definition throw_lasterror {A} : io W A :=
  let! msg := invoke srt_getlasterror_str in throw (SocketException msg).

Definition raise_exception {A} (place : string) : io W A :=
  do! invoke srt_getlasterror in
  let! message := invoke srt_getlasterror_str in
  throw (SocketException (place +:+ ": " +:+ message)).
Definition raise_exception_reason {A} (place reason : string) : io W A :=
  throw (SocketException (place +:+ ": " +:+ reason)).

(** assert_options_valid(options, extra), in the order of the map. *)
Fixpoint assert_options_valid (options : options_t) (extra : list string) : io W unit :=
  match options with
  | [] => ret tt
  | (key, val) :: options' =>
      let opt_found := existsb (fun o => String.eqb (name o) key) srt_options in
      if opt_found || bool_decide (key ∈ extra) then assert_options_valid options' extra
      else throw (SocketException
             ("Invalid URI query option '" +:+ key +:+ "=" +:+ val +:+ " (not recognized)!"))
  end.

Definition join_failures (failures : list string) : string :=
  foldr (fun f s => f +:+ ", " +:+ s) "" failures.

(** configure_pre(sock): its result and the object with its mode set. *)
Definition configure_pre (sock : Z) (this : srt) : io W (Z * srt) :=
  let maybe := if m_blocking_mode this then 1 else 0 in
  let! result := invoke (srt_setsockopt sock SRTO_RCVSYN (OInt maybe)) in
  if result =? -1 then ret (result, this) else
  let! '(conmode, failures) := SrtConfigurePre sock (m_host this) (m_options this) in
  if decide (conmode = FAILURE) then
    throw (SocketException ("Wrong value of option(s): " +:+ join_failures failures))
  else
  let this := set_mode conmode this in
  if decide (m_mode this = RENDEZVOUS) then
    let! result := invoke (srt_setsockopt sock SRTO_RENDEZVOUS (OInt 1)) in
    if result =? -1 then ret (result, this) else ret (SRT_SUCCESS, this)
  else ret (SRT_SUCCESS, this).

(** The lambda [bind_me] of handle_hosts: [sizeof(sockaddr)] is 16. *)
Definition bind_me (this : srt) (sa : NetAddr.netaddr_any) : io W unit :=
  let! bind_res := invoke (srt_bind (m_bind_socket this) (NetAddr.storage sa)
                             (Z.of_nat NetAddr.sizeof_sockaddr)) in
  if bind_res <? 0 then
    do! invoke (srt_close (m_bind_socket this)) in raise_exception "srt::bind"
  else ret tt.

(** The "bind" option: address and port, which defaults to the URI's port. *)
Definition parse_bind (bindopt : string) (m_port : Z) : string * CNum.sto_result :=
  let bindipport := CStr.lowercase bindopt in
  let idx := CStr.find ":" 0 bindipport in
  let bindip := default "" (CStr.substr 0 (default (CStr.size bindipport) idx) bindipport) in
  (bindip, match idx with
           | Some i => CNum.stoi 10 (default ""
                         (CStr.substr (i + 1) (CStr.size bindipport - (i + 1)) bindipport))
           | None => CNum.StoOk m_port
           end).

Definition handle_hosts (this : srt) : io W srt :=
  match SMap.get "bind" (m_options this) with
  | Some bindopt =>
      let '(bindip, bindport) := parse_bind bindopt (m_port this) in
      match bindport with
      | CNum.StoInvalid => throw (StdInvalidArgument "stoi")
      | CNum.StoRange => throw (StdOutOfRange "stoi")
      | CNum.StoOk bindport =>
          let this := set_options (m_blocking_mode this) (SMap.del "bind" (m_options this)) this in
          let! sa_bind := catch_invalid_argument
            (create_addr bindip (CInt.to_u16 bindport) NetAddr.AF_UNSPEC)
            (fun _ => throw (SocketException "create_addr_inet failed")) in
          do! bind_me this sa_bind in
          ret this
      end
  | None =>
      if decide (m_mode this = RENDEZVOUS) then
        let! sa := catch_invalid_argument
          (create_addr "" (CInt.to_u16 (m_port this)) NetAddr.AF_UNSPEC)
          (raise_exception_reason "create_addr") in
        do! bind_me this sa in
        ret this
      else if decide (m_mode this = LISTENER) then
        let! sa := catch_invalid_argument
          (create_addr (m_host this) (CInt.to_u16 (m_port this)) NetAddr.AF_UNSPEC)
          (raise_exception_reason "create_addr") in
        do! bind_me this sa in
        ret this
      else ret this
  end.

(** The "blocking" option of the constructor. *)
Definition take_blocking (this : srt) : srt :=
  match SMap.get "blocking" (m_options this) with
  | Some v => set_options (negb (bool_decide (v ∈ false_names)))
                (SMap.del "blocking" (m_options this)) this
  | None => this
  end.

(** The polling objects of a non-blocking socket. *)
Definition create_epolls (this : srt) : io W srt :=
  if m_blocking_mode this then ret this else
  let! ec := invoke srt_epoll_create in
  let this := set_epoll_connect ec this in
  if ec =? -1 then throw_lasterror else
  let to_accept := bool_decide (m_mode this = LISTENER) in
  let modes := Z.lor SRT_EPOLL_ERR (if to_accept then SRT_EPOLL_IN else SRT_EPOLL_OUT) in
  let! r := invoke (srt_epoll_add_usock ec (m_bind_socket this) modes) in
  if r =? SRT_ERROR then throw_lasterror else
  let! ei := invoke srt_epoll_create in
  let this := set_epoll_io ei this in
  let! r := invoke (srt_epoll_add_usock ei (m_bind_socket this) EPOLL_IO) in
  if r =? SRT_ERROR then throw_lasterror else
  ret this.

(** The constructor from a URI. *)
Definition srt_of_uri (src_uri : Uri.UriParser) : io W srt :=
  let! s := invoke srt_create_socket in
  if s =? SRT_INVALID_SOCK then throw_lasterror else
  let this := mk_srt s (-1) (-1) FAILURE false (Uri.host src_uri) (Uri.portno src_uri)
                (Uri.parameters src_uri) in
  let this := take_blocking this in
  do! assert_options_valid (m_options this) ["bind"; "mode"] in
  let! '(res, this) := configure_pre (m_bind_socket this) this in
  if negb (SRT_SUCCESS =? res) then throw_lasterror else
  let! this := create_epolls this in
  handle_hosts this.

(** The constructor that adopts a connected socket. *)
Definition srt_of_sock (sock : Z) (blocking : bool) : io W srt :=
  let this := mk_srt sock (-1) (-1) FAILURE blocking "" (-1) [] in
  if m_blocking_mode this then ret this else
  let! ei := invoke srt_epoll_create in
  let this := set_epoll_io ei this in
  let! r := invoke (srt_epoll_add_usock ei (m_bind_socket this) EPOLL_IO) in
  if r =? SRT_ERROR then throw_lasterror else
  ret this.

(** The destructor. *)
Definition destroy (this : srt) : io W unit :=
  do! (if m_blocking_mode this then ret tt else
       do! (if negb (m_epoll_connect this =? -1)
            then do! invoke (srt_epoll_release (m_epoll_connect this)) in ret tt
            else ret tt) in
       do! invoke (srt_epoll_release (m_epoll_io this)) in ret tt) in
  do! invoke (srt_close (m_bind_socket this)) in
  ret tt.

(** The result is always 0: failures of POST options are only logged. *)
Definition configure_post (this : srt) (sock : Z) : io W Z :=
  let is_blocking := if m_blocking_mode this then 1 else 0 in
  let! result := invoke (srt_setsockopt sock SRTO_SNDSYN (OInt is_blocking)) in
  if result =? -1 then ret result else
  let! result := invoke (srt_setsockopt sock SRTO_RCVSYN (OInt is_blocking)) in
  if result =? -1 then ret result else
  do! SrtConfigurePost sock (m_options this) in
  ret 0.

Definition listen (this : srt) : io W unit :=
  let! res := invoke (srt_listen (m_bind_socket this) 2) in
  if res =? SRT_ERROR then
    do! invoke (srt_close (m_bind_socket this)) in raise_exception "listen"
  else
  let! res := configure_post this (m_bind_socket this) in
  if res =? SRT_ERROR then raise_exception "listen::configure_post" else ret tt.

(** *** print_negotiated_config *)
Definition cryptomodes : list (Z * string) := [(0, "AUTO"); (1, "AES-CTR"); (2, "AES-GCM")].
Definition km_states : list (Z * string) :=
  [(0, "UNSECURED"); (1, "SECURING"); (2, "SECURED"); (3, "NOSECRET"); (4, "BADSECRET")].
Definition convert (v : Z) (values : list (Z * string)) : string :=
  match find (fun kv => kv.1 =? v) values with Some kv => kv.2 | None => "INVALID" end.

Definition get_sock_value (s sopt : Z) : io W Z :=
  let! '(res, ival) := invoke (srt_getsockflag s sopt) in
  if negb (res =? SRT_SUCCESS) then ret (-1) else ret ival.

(** The stream id is read into a string of 512 NULs, which keeps its size. *)
Definition streamid_text (res : Z) (value : string) : string :=
  let len := if res =? SRT_SUCCESS then CStr.size value else 0%nat in
  if decide (0 < len)%nat then value +:+ of_chars (replicate (512 - CStr.size value) zero)
  else "not set".

Definition print_negotiated_config (sock : Z) : io W string :=
  let! pbkeylen := get_sock_value sock SRTO_PBKEYLEN in
  let! km_state := get_sock_value sock SRTO_KMSTATE in
  let! km_state_rcv := get_sock_value sock SRTO_RCVKMSTATE in
  let! km_state_snd := get_sock_value sock SRTO_SNDKMSTATE in
  let! tsbpd := get_sock_value sock SRTO_TSBPDMODE in
  let! latency_str :=
    (if 0 <? tsbpd then
       let! latency_rcv := get_sock_value sock SRTO_RCVLATENCY in
       let! latency_peer := get_sock_value sock SRTO_PEERLATENCY in
       ret ("Latency RCV " +:+ CNum.to_string latency_rcv +:+ "ms, peer " +:+
            CNum.to_string latency_peer +:+ "ms")
     else ret "off") in
  let! crypto_mode_str :=
    (if ENABLE_AEAD_API_PREVIEW then
       let! crypto_mode := get_sock_value sock SRTO_CRYPTOMODE in
       ret (convert crypto_mode cryptomodes)
     else ret "") in
  let! '(res, streamid) := invoke (srt_getsockflag_str sock SRTO_STREAMID 512) in
  ret ("TSBPD " +:+ latency_str +:+ ". KM state " +:+ convert km_state km_states +:+
       " (RCV " +:+ convert km_state_rcv km_states +:+ ", SND " +:+
       convert km_state_snd km_states +:+ "). PB key length: " +:+ CNum.to_string pbkeylen +:+
       ". Cryptomode " +:+ crypto_mode_str +:+ ". Stream ID: " +:+ streamid_text res streamid).

(** *** accept and connect *)
Definition accept (this : srt) : io W srt :=
  do! (if m_blocking_mode this then ret tt else
       let! er := invoke (srt_epoll_wait (m_epoll_connect this) 2 0 (-1)) in
       if ep_res er =? -1 then raise_exception "accept::epoll_wait" else ret tt) in
  let! sock := invoke (srt_accept (m_bind_socket this)) in
  if sock =? SRT_INVALID_SOCK then raise_exception "accept" else
  let! res := configure_post this sock in
  if res =? SRT_ERROR then raise_exception "accept::configure_post" else
  do! print_negotiated_config sock in
  srt_of_sock sock (m_blocking_mode this).

(** connect returns [shared_from_this()]: the object itself. *)
Definition connect (this : srt) : io W unit :=
  let! sa := catch_invalid_argument
    (create_addr (m_host this) (CInt.to_u16 (m_port this)) NetAddr.AF_UNSPEC)
    (raise_exception_reason "connect::create_addr") in
  let! res := invoke (srt_connect (m_bind_socket this) (NetAddr.storage sa) (NetAddr.size sa)) in
  do! (if res =? SRT_ERROR then
         let! reason := invoke (srt_getrejectreason (m_bind_socket this)) in
         do! invoke (srt_close (m_bind_socket this)) in
         let! err := invoke srt_getlasterror_str in
         let! rr := invoke (srt_rejectreason_str reason) in
         raise_exception_reason "connect failed" (err +:+ ". Reject reason: " +:+ rr)
       else ret tt) in
  do! (if m_blocking_mode this then ret tt else
       let! er := invoke (srt_epoll_wait (m_epoll_connect this) 0 2 (-1)) in
       if negb (ep_res er =? -1) then
         let! state := invoke (srt_getsockstate (m_bind_socket this)) in
         if negb (state =? SRTS_CONNECTED) then
           let! reason := invoke (srt_getrejectreason (m_bind_socket this)) in
           let! rr := invoke (srt_rejectreason_str reason) in
           raise_exception_reason "connect failed" rr
         else ret tt
       else raise_exception "connect.epoll_wait") in
  let! res := configure_post this (m_bind_socket this) in
  if res =? SRT_ERROR then raise_exception "connect::onfigure_post" else
  do! print_negotiated_config (m_bind_socket this) in
  ret tt.

(** async_accept and async_connect, seen by a caller that waits for the future at
    once: the object that owns the connection. *)
Definition async_accept (this : srt) : io W srt := do! listen this in accept this.
Definition async_connect (this : srt) : io W srt := do! connect this in ret this.
(** async_read answers with a future that has no shared state. *)
Definition async_read (this : srt) : io W (option srt) := ret None.

(** *** read and write *)

(** [read(mutable_buffer(data, size), timeout_ms)]: the number of bytes and the
    bytes that were written at the front of the buffer. *)
Definition read (this : srt) (size : Z) (timeout_ms : Z) : io W (Z * list char) :=
  let! ready :=
    (if m_blocking_mode this then ret true else
     let! er := invoke (srt_epoll_wait (m_epoll_io this) 2 0 timeout_ms) in
     if ep_res er =? SRT_ERROR then
       let! e := invoke srt_getlasterror in
       if e =? SRT_ETIMEOUT then ret false else raise_exception "read::epoll"
     else ret true) in
  if negb ready then ret (0, []) else
  let! '(res, data) := invoke (srt_recvmsg2 (m_bind_socket this) (CInt.to_int size)) in
  if SRT_ERROR =? res then
    let! e := invoke srt_getlasterror in
    if negb (e =? SRT_EASYNCRCV) then raise_exception "read::recv" else ret (0, [])
  else ret (CInt.to_size res, data).

Definition write (this : srt) (data : list char) (timeout_ms : Z) : io W Z :=
  do! (if m_blocking_mode this then ret tt else
       let! er := invoke (srt_epoll_wait (m_epoll_io this) 2 2 timeout_ms) in
       if ep_res er =? SRT_ERROR then raise_exception "write::epoll" else ret tt) in
  let! res := invoke (srt_sendmsg2 (m_bind_socket this) data
                        (CInt.to_int (Z.of_nat (length data)))) in
  if res =? SRT_ERROR then
    let! e := invoke srt_getlasterror in
    if e =? SRT_EASYNCSND then ret 0 else
    let! reason := invoke srt_getlasterror_str in
    raise_exception_reason "write::send" reason
  else ret res.

(** statistics(stats, instant). *)
Definition statistics (this : srt) : io W (Z * Srt.stats) := invoke (srt_bstats (m_bind_socket this)).

(** get_statistics(stats_format, print_header). *)
Definition get_statistics (this : srt) (stats_format : string) (print_header : bool)
  : io W Stats.report :=
  let! '(res, stats) := invoke (srt_bstats (m_bind_socket this)) in
  if SRT_ERROR =? res then raise_exception "statistics" else
  if String.eqb stats_format "json" then
    if print_header then ret (Stats.RText [])
    else ret (Stats.RJson (Stats.jset "LinksStats" Stats.JNull
           (Stats.jset "ConnStats"
              (Stats.JObj (Stats.srt_stats_to_json Stats.SRT_VERSION (m_bind_socket this) stats)) [])))
  else
    let! line := Stats.stats_to_csv (m_bind_socket this) 0 stats print_header in
    ret (Stats.RText line).

(** ** Who opens and who closes what *)
Inductive action := OpenSock (s : Z) | CloseSock (s : Z) | OpenEpoll (e : Z) | ReleaseEpoll (e : Z).

Definition action_of (e : event) : option action :=
  match e with
  | Ev srt_create_socket r => if r =? SRT_INVALID_SOCK then None else Some (OpenSock r)
  | Ev (srt_accept _) r => if r =? SRT_INVALID_SOCK then None else Some (OpenSock r)
  | Ev (srt_accept_bond _ _) r => if r =? SRT_INVALID_SOCK then None else Some (OpenSock r)
  | Ev (srt_create_group _) r => if r =? SRT_INVALID_SOCK then None else Some (OpenSock r)
  | Ev (srt_close s) _ => Some (CloseSock s)
  | Ev srt_epoll_create r => if r =? -1 then None else Some (OpenEpoll r)
  | Ev (srt_epoll_release e) _ => Some (ReleaseEpoll e)
  | _ => None
  end.
Definition ledger (t : list event) : list action := omap action_of t.

Lemma ledger_app t1 t2 : ledger (t1 ++ t2) = ledger t1 ++ ledger t2.
Proof. apply omap_app. Qed.

Lemma ledger_cons e t : ledger (e :: t) = ledger [e] ++ ledger t.
Proof. apply (ledger_app [e] t). Qed.

(** Calls that neither open nor close anything. *)
Definition neutral (c : call) : bool :=
  match c with
  | srt_create_socket | srt_accept _ | srt_accept_bond _ _ | srt_create_group _
  | srt_close _ | srt_epoll_create | srt_epoll_release _ => false
  | _ => true
  end.

Lemma ledger_neutral t : forallb neutral (calls t) = true -> ledger t = [].
Proof.
  induction t as [|[c r] t IH]; [done|]. cbn. intros [Hc Ht]%andb_true_iff.
  unfold ledger in *. cbn. destruct c; try done; by apply IH.
Qed.

Lemma only_apply_options b sock options table : only neutral (apply_options (W:=W) b sock options table).
Proof.
  induction table as [|o table IH]; cbn [apply_options]; only_steps; try done.
  unfold apply. only_steps.
Qed.
#[local] Hint Resolve only_apply_options : only.

Lemma only_SrtConfigurePre sock host options :
  only neutral (SrtConfigurePre (W:=W) sock host options).
Proof. unfold SrtConfigurePre, set_linger. only_steps. Qed.
Lemma only_create_addr name port pref : only neutral (create_addr (W:=W) name port pref).
Proof.
  unfold create_addr.
  assert (forall l, only neutral (try_families (W:=W) name port l)) as Ht.
  { induction l as [|f l IH]; cbn [try_families]; unfold pton; only_steps; done. }
  only_steps; unfold from_addrinfo; only_steps.
Qed.
Lemma only_raise P place : P srt_getlasterror = true -> P srt_getlasterror_str = true ->
  forall A, only P (raise_exception (A:=A) place).
Proof. intros H1 H2 A. unfold raise_exception. apply only_bind; [by apply only_invoke|]. intros _.
  apply only_bind; [by apply only_invoke|]. intros ?. only_steps. Qed.
Lemma only_configure_pre sock this : only neutral (configure_pre sock this).
Proof. unfold configure_pre. pose proof (only_SrtConfigurePre sock). only_steps; try done. Qed.
Lemma only_configure_post this sock : only neutral (configure_post this sock).
Proof. unfold configure_post, SrtConfigurePost. only_steps. Qed.
Lemma only_assert_options options extra : only neutral (assert_options_valid options extra).
Proof. induction options as [|[k v] options IH]; cbn [assert_options_valid]; only_steps; done. Qed.
Lemma only_print_config sock : only neutral (print_negotiated_config sock).
Proof. unfold print_negotiated_config, get_sock_value. only_steps. Qed.

(** ** The constructor and the destructor *)
Definition known_option (extra : list string) (k : string) : Prop :=
  k ∈ map name srt_options \/ k ∈ extra.
#[export] Instance known_option_dec extra k : Decision (known_option extra k).
Proof. apply _. Defined.

Lemma assert_options_valid_wp options extra (Q : post (W:=W) unit) w :
  (Forall (fun kv => known_option extra kv.1) options -> Q (Done tt) [] w) ->
  (forall k v l1 l2, options = l1 ++ (k, v) :: l2 ->
     Forall (fun kv => known_option extra kv.1) l1 -> ~ known_option extra k ->
     Q (Throw (SocketException ("Invalid URI query option '" +:+ k +:+ "=" +:+ v +:+
                                " (not recognized)!"))) [] w) ->
  wp (assert_options_valid options extra) Q w.
Proof.
  assert (forall k, existsb (fun o => String.eqb (name o) k) srt_options = true <->
                    k ∈ map name srt_options) as Hex.
  { intros k. rewrite existsb_exists, list_elem_of_In, in_map_iff.
    setoid_rewrite String.eqb_eq. split; intros (x & ? & ?); by exists x. }
  induction options as [|[k v] options IH]; intros Hok Hbad; cbn [assert_options_valid].
  { apply wp_ret, Hok. constructor. }
  destruct (decide (known_option extra k)) as [Hk|Hk].
  - rewrite (proj2 (orb_true_iff _ _)).
    2: { rewrite Hex, bool_decide_eq_true. exact Hk. }
    apply IH.
    + intros Hall. apply Hok. by constructor.
    + intros k' v' l1 l2 -> Hl1 Hk'. apply (Hbad k' v' ((k, v) :: l1) l2); [done|by constructor|done].
  - rewrite (proj2 (orb_false_iff _ _)).
    2: { rewrite <- not_true_iff_false, Hex, bool_decide_eq_false. unfold known_option in Hk. tauto. }
    apply wp_throw. by apply (Hbad k v [] options).
Qed.

(** A URI option that is neither in the table nor "bind" nor "mode" (nor
    "blocking", which is taken out first) makes the constructor throw a
    socket::exception that names the first such option in key order, before any
    option is applied; the socket created just before is left open. In
    particular "adapter" and "linger", which SrtConfigurePre would handle, are
    refused. *)
Theorem unknown_option_refused uri k v w :
  SMap.get k (Uri.parameters uri) = Some v ->
  k <> "blocking" -> ~ known_option ["bind"; "mode"] k ->
  wp (srt_of_uri uri)
    (fun o t _ => exists msg, o = Throw (SocketException msg) /\
       ((ledger t = [] /\ exists e, t = [Ev srt_create_socket SRT_INVALID_SOCK; Ev srt_getlasterror_str e])
        \/ exists s, t = [Ev srt_create_socket s] /\ ledger t = [OpenSock s] /\
           exists k' v', (k', v') ∈ Uri.parameters uri /\ ~ known_option ["bind"; "mode"] k' /\
             msg = "Invalid URI query option '" +:+ k' +:+ "=" +:+ v' +:+ " (not recognized)!")) w.
Proof.
  intros Hk Hne Hun. unfold srt_of_uri. wp_steps.
  { unfold throw_lasterror. wp_steps. apply Z.eqb_eq in Heqb as ->.
    eexists. split; [done|]. left. split; [done|]. by eexists. }
  assert (forall s b kv, kv ∈ m_options (take_blocking (mk_srt s (-1) (-1) FAILURE b (Uri.host uri)
             (Uri.portno uri) (Uri.parameters uri))) -> kv ∈ Uri.parameters uri) as Hsub.
  { intros s b kv. unfold take_blocking. cbn. destruct (SMap.get "blocking" _); cbn; [|done].
    unfold SMap.del. by intros [_ ?]%list_elem_of_filter. }
  apply assert_options_valid_wp.
  - intros Hall. exfalso. apply Hun.
    assert (SMap.get k (m_options (take_blocking (mk_srt r (-1) (-1) FAILURE false (Uri.host uri)
             (Uri.portno uri) (Uri.parameters uri)))) = Some v) as Hk'.
    { unfold take_blocking. cbn [m_options]. destruct (SMap.get "blocking" _);
        cbn [m_options set_options]; [|done]. by rewrite SMap.get_del_ne by congruence. }
    apply SMap.get_elem in Hk'. by apply (proj1 (Forall_forall _ _) Hall) in Hk'.
  - intros k' v' l1 l2 Heq _ Hk'. wp_simpl. eexists. split; [done|]. right. exists r.
    split; [done|]. cbn. rewrite Heqb. split; [done|]. exists k', v'. split; [|done].
    apply (Hsub r false). rewrite Heq. set_solver.
Qed.

(** What the SRT API says of polling on an id that srt_epoll_create did not
    return. *)
Class EpollOk : Prop := {
  epoll_add_invalid s modes w r w' :
    answer (srt_epoll_add_usock (-1) s modes) w = (r, w') -> r = SRT_ERROR }.

Definition epolls_of (this : srt) : list action :=
  if m_blocking_mode this then [] else
  (if m_epoll_connect this =? -1 then [] else [OpenEpoll (m_epoll_connect this)]) ++
  [OpenEpoll (m_epoll_io this)].

Lemma create_epolls_wp `{EpollOk} this w :
  wp (create_epolls this) (fun o t _ =>
    match o with
    | Done this' => ledger t = epolls_of this' /\ m_bind_socket this' = m_bind_socket this /\
                    m_mode this' = m_mode this /\ m_blocking_mode this' = m_blocking_mode this /\
                    m_options this' = m_options this /\ m_host this' = m_host this /\
                    m_port this' = m_port this
    | _ => True end) w.
Proof.
  unfold create_epolls, throw_lasterror. wp_steps; try done.
  { unfold epolls_of. by rewrite Heqb. }
  unfold epolls_of, ledger. cbn. rewrite !Heqb, !Heqb0. cbn.
  destruct (Z.eqb_spec r1 (-1)) as [->|].
  - match goal with Ha : answer (srt_epoll_add_usock (-1) _ _) _ = _ |- _ =>
      by apply epoll_add_invalid in Ha as -> end.
  - cbn. done.
Qed.

(** The fields that configuration and binding leave alone. *)
Definition same_socket (this this' : srt) : Prop :=
  m_bind_socket this' = m_bind_socket this /\ m_epoll_connect this' = m_epoll_connect this /\
  m_epoll_io this' = m_epoll_io this /\ m_blocking_mode this' = m_blocking_mode this /\
  m_host this' = m_host this /\ m_port this' = m_port this.

Lemma configure_pre_wp sock this w :
  wp (configure_pre sock this) (fun o t _ =>
    match o with
    | Done (res, this') =>
        ledger t = [] /\ same_socket this this' /\ m_options this' = m_options this /\
        (res = SRT_SUCCESS -> m_mode this' = mode_of_options (m_host this) (m_options this) /\
                              m_mode this' <> FAILURE)
    | _ => True end) w.
Proof.
  assert (wp (configure_pre sock this) (fun o _ _ => match o with
      | Done (res, this') => same_socket this this' /\ m_options this' = m_options this /\
         (res = SRT_SUCCESS -> m_mode this' = mode_of_options (m_host this) (m_options this) /\
                              m_mode this' <> FAILURE)
      | _ => True end) w) as Hf.
  { unfold configure_pre. wp_steps.
    { apply Z.eqb_eq in Heqb as ->. done. }
    eapply wp_mono; [apply SrtConfigurePre_mode|].
    intros [[mode fails]|e|u|] t w1 Hm; wp_simpl; try done.
    destruct (decide (mode = FAILURE)) as [|Hmode]; [by wp_steps|].
    specialize (Hm Hmode). unfold same_socket. wp_steps; cbn; try done. }
  eapply wp_mono; [exact (wp_and _ _ _ _ (only_configure_pre sock this w) Hf)|].
  intros [[res this']|e|u|] t w1 [Ht H']; try done.
  split; [by apply ledger_neutral|done].
Qed.

Lemma bind_me_wp this sa w :
  wp (bind_me this sa) (fun o t _ => match o with Done _ => ledger t = [] | _ => True end) w.
Proof. unfold bind_me, raise_exception. by wp_steps. Qed.

Lemma handle_hosts_wp this w :
  wp (handle_hosts this) (fun o t _ =>
    match o with
    | Done this' => ledger t = [] /\ same_socket this this' /\ m_mode this' = m_mode this /\
                    m_options this' = SMap.del "bind" (m_options this)
    | _ => True end) w.
Proof.
  set (Q := fun (o : outcome srt) t (_ : W) =>
    match o with
    | Done this' => ledger t = [] /\ same_socket this this' /\ m_mode this' = m_mode this /\
                    m_options this' = SMap.del "bind" (m_options this)
    | _ => True end).
  assert (forall (this' : srt) name port h,
    (forall msg w, wp (h msg) (fun o _ _ => match o with Done _ => False | _ => True end) w) ->
    same_socket this this' -> m_mode this' = m_mode this ->
    m_options this' = SMap.del "bind" (m_options this) ->
    wp (let! sa := catch_invalid_argument (create_addr name port NetAddr.AF_UNSPEC) h in
        do! bind_me this' sa in ret this') Q w) as Hgen.
  { intros this' name port h Hh Hs Hm Ho. wp_steps.
    eapply wp_mono; [apply only_create_addr|].
    intros [sa|e|u|] t w1 Ht; cbn; try done.
    - wp_steps. eapply wp_mono; [apply bind_me_wp|].
      intros [[]|e|u|] t2 w2 Ht2; wp_steps; try done.
      split; [|done]. rewrite app_nil_r, ledger_app, ledger_neutral by done. done.
    - destruct e; try done. eapply wp_mono; [apply Hh|]. by intros [sa|e|u|]. }
  unfold handle_hosts. destruct (SMap.get "bind" (m_options this)) as [b|] eqn:Hb.
  { destruct (parse_bind b (m_port this)) as [ip [z| |]]; [|by wp_steps..].
    apply Hgen; try done. }
  assert (m_options this = SMap.del "bind" (m_options this)) as Hd by (by rewrite SMap.del_none).
  destruct (decide _); [by apply Hgen|]. destruct (decide _); [by apply Hgen|].
  apply wp_ret. by unfold Q.
Qed.

Lemma destroy_wp this w :
  wp (destroy this) (fun o t _ => o = Done tt /\
    ledger t = (if m_blocking_mode this then [] else
      (if m_epoll_connect this =? -1 then [] else [ReleaseEpoll (m_epoll_connect this)]) ++
      [ReleaseEpoll (m_epoll_io this)]) ++ [CloseSock (m_bind_socket this)]) w.
Proof.
  unfold destroy. wp_steps; (split; [done|]); rewrite ?Heqb, ?Heqb0; cbn; try done.
  - apply negb_true_iff in Heqb0 as ->. done.
  - apply negb_false_iff in Heqb0 as ->. done.
Qed.

(** Everything the constructor establishes when it returns. *)
Definition constructed (src_uri : Uri.UriParser) (this : srt) (t : list event) : Prop :=
  let this0 := take_blocking (mk_srt 0 (-1) (-1) FAILURE false (Uri.host src_uri)
                 (Uri.portno src_uri) (Uri.parameters src_uri)) in
  ledger t = OpenSock (m_bind_socket this) :: epolls_of this /\
  m_host this = m_host this0 /\ m_port this = m_port this0 /\
  m_blocking_mode this = m_blocking_mode this0 /\
  m_options this = SMap.del "bind" (m_options this0) /\
  Forall (fun kv => known_option ["bind"; "mode"] kv.1) (m_options this0) /\
  m_mode this = mode_of_options (m_host this0) (m_options this0) /\ m_mode this <> FAILURE.

Lemma srt_of_uri_wp `{EpollOk} src_uri w :
  wp (srt_of_uri src_uri) (fun o t _ =>
    match o with Done this => constructed src_uri this t | _ => True end) w.
Proof.
  unfold srt_of_uri, throw_lasterror. wp_steps; try done.
  apply assert_options_valid_wp; [|done]. intros Hvalid. wp_steps.
  eapply wp_mono; [apply configure_pre_wp|].
  intros [[res this1]|e|u|] t1 w1 Hc1; wp_simpl; try done.
  destruct Hc1 as (Hl1 & (Hs1 & Hec1 & Hei1 & Hb1 & Hh1 & Hp1) & Ho1 & Hm1).
  destruct (SRT_SUCCESS =? res) eqn:Hres; cbn [negb]; [|by wp_steps].
  apply Z.eqb_eq in Hres as <-. destruct (Hm1 eq_refl) as [Hmode Hmf].
  wp_steps. eapply wp_mono; [apply create_epolls_wp|].
  intros [this2|e|u|] t2 w2 Hc2; wp_simpl; try done.
  destruct Hc2 as (Hl2 & Hs2 & Hm2 & Hb2 & Ho2 & Hh2 & Hp2).
  eapply wp_mono; [apply handle_hosts_wp|].
  intros [this3|e|u|] t3 w3 Hc3; try done.
  destruct Hc3 as (Hl3 & (Hs3 & Hec3 & Hei3 & Hb3 & Hh3 & Hp3) & Hm3 & Ho3).
  assert (forall s, m_bind_socket (take_blocking (mk_srt s (-1) (-1) FAILURE false (Uri.host src_uri)
    (Uri.portno src_uri) (Uri.parameters src_uri))) = s) as Htb.
  { intros s. unfold take_blocking. cbn. by destruct (SMap.get _ _). }
  unfold constructed. rewrite ledger_cons, !ledger_app, Hl1, Hl2, Hl3. cbn. rewrite Heqb. cbn.
  rewrite app_nil_r. split_and!.
  - rewrite Hs3, Hs2, Hs1, Htb. f_equal. unfold epolls_of. by rewrite Hb3, Hec3, Hei3.
  - rewrite Hh3, Hh2, Hh1. unfold take_blocking; cbn. by destruct (SMap.get _ _).
  - rewrite Hp3, Hp2, Hp1. unfold take_blocking; cbn. by destruct (SMap.get _ _).
  - rewrite Hb3, Hb2, Hb1. unfold take_blocking; cbn. by destruct (SMap.get _ _).
  - rewrite Ho3, Ho2, Ho1. unfold take_blocking; cbn. by destruct (SMap.get _ _).
  - unfold take_blocking in *; cbn in *. by destruct (SMap.get _ _).
  - rewrite Hm3, Hm2, Hmode. unfold take_blocking; cbn. by destruct (SMap.get _ _).
  - by rewrite Hm3, Hm2.
Qed.

(** C21: Resources of a socket object: constructing it from any URI and then
    destroying it opens one socket and, when it is non-blocking, the two
    polling objects, and closes exactly what it opened, once each. *)
Theorem ctor_dtor_balance `{EpollOk} src_uri w :
  wp (let! this := srt_of_uri src_uri in destroy this)
    (fun o t _ => o = Done tt ->
       exists s epolls, ledger t = (OpenSock s :: map OpenEpoll epolls) ++
                                   map ReleaseEpoll epolls ++ [CloseSock s]) w.
Proof.
  wp_steps. eapply wp_mono; [apply srt_of_uri_wp|].
  intros [this|e|u|] t w1 Hc1; wp_simpl; try done. destruct Hc1 as [Hl _].
  eapply wp_mono; [apply destroy_wp|]. intros o t2 w2 [-> Hl2] _.
  rewrite ledger_app, Hl, Hl2. unfold epolls_of. exists (m_bind_socket this).
  destruct (m_blocking_mode this); [by exists []|].
  destruct (m_epoll_connect this =? -1).
  - by exists [m_epoll_io this].
  - by exists [m_epoll_connect this; m_epoll_io this].
Qed.


(** ** read and write *)

(** The poll phase of a non-blocking read reported something other than an
    error; a blocking socket does not poll. *)
Definition polled (this : srt) (timeout_ms : Z) (t : list event) : Prop :=
  if m_blocking_mode this then t = []
  else exists er, t = [Ev (srt_epoll_wait (m_epoll_io this) 2 0 timeout_ms) er] /\ ep_res er <> -1.

Inductive read_run (this : srt) (size timeout_ms : Z) : outcome (Z * list char) -> list event -> Prop :=
| read_timeout er :
    m_blocking_mode this = false -> ep_res er = -1 ->
    read_run this size timeout_ms (Done (0, []))
      [Ev (srt_epoll_wait (m_epoll_io this) 2 0 timeout_ms) er; Ev srt_getlasterror SRT_ETIMEOUT]
| read_poll_error er e e' msg :
    m_blocking_mode this = false -> ep_res er = -1 -> e <> SRT_ETIMEOUT ->
    read_run this size timeout_ms (Throw (SocketException ("read::epoll" +:+ ": " +:+ msg)))
      [Ev (srt_epoll_wait (m_epoll_io this) 2 0 timeout_ms) er; Ev srt_getlasterror e;
       Ev srt_getlasterror e'; Ev srt_getlasterror_str msg]
| read_spurious t d :
    polled this timeout_ms t ->
    read_run this size timeout_ms (Done (0, []))
      (t ++ [Ev (srt_recvmsg2 (m_bind_socket this) (CInt.to_int size)) (-1, d);
             Ev srt_getlasterror SRT_EASYNCRCV])
| read_error t d e e' msg :
    polled this timeout_ms t -> e <> SRT_EASYNCRCV ->
    read_run this size timeout_ms (Throw (SocketException ("read::recv" +:+ ": " +:+ msg)))
      (t ++ [Ev (srt_recvmsg2 (m_bind_socket this) (CInt.to_int size)) (-1, d);
             Ev srt_getlasterror e; Ev srt_getlasterror e'; Ev srt_getlasterror_str msg])
| read_data t n d :
    polled this timeout_ms t -> n <> -1 ->
    read_run this size timeout_ms (Done (CInt.to_size n, d))
      (t ++ [Ev (srt_recvmsg2 (m_bind_socket this) (CInt.to_int size)) (n, d)]).

(** C24: read, on every branch: a poll that times out and a read that is not ready
    after all return 0 bytes; any other failure of the poll or of the receive
    is a socket::exception that names the phase and carries the library's
    message; otherwise exactly one message is received and its size returned.
    The socket is read only after a successful poll. *)
Theorem read_spec this size timeout_ms w :
  wp (read this size timeout_ms) (fun o t _ => read_run this size timeout_ms o t) w.
Proof.
  unfold read.
  assert (forall t w, polled this timeout_ms t ->
    wp (let! '(res, data) := invoke (srt_recvmsg2 (m_bind_socket this) (CInt.to_int size)) in
        if SRT_ERROR =? res then
          let! e := invoke srt_getlasterror in
          if negb (e =? SRT_EASYNCRCV) then raise_exception "read::recv" else ret (0, [])
        else ret (CInt.to_size res, data))
      (fun o t' _ => read_run this size timeout_ms o (t ++ t')) w) as Hrecv.
  { intros t w' Hp. unfold raise_exception. wp_steps. destruct r as [n d].
    destruct (Z.eqb_spec SRT_ERROR n) as [<-|Hn]; wp_steps.
    - apply negb_true_iff, Z.eqb_neq in Heqb. by apply read_error.
    - apply negb_false_iff, Z.eqb_eq in Heqb as ->. by apply read_spurious.
    - apply read_data; [done|]. unfold SRT_ERROR in Hn. lia. }
  destruct (m_blocking_mode this) eqn:Hb.
  { wp_simpl. apply wp_bind, wp_ret. wp_simpl. eapply wp_mono; [apply (Hrecv []); unfold polled; by rewrite Hb|]. done. }
  apply wp_bind, wp_bind, wp_invoke. intros er w1 _. wp_simpl.
  destruct (Z.eqb_spec (ep_res er) SRT_ERROR) as [He|He].
  - unfold raise_exception. wp_steps.
    + apply Z.eqb_eq in Heqb. subst. by apply read_timeout.
    + apply Z.eqb_neq in Heqb. by eapply read_poll_error.
  - apply wp_ret. wp_simpl. eapply wp_mono;
      [apply (Hrecv [Ev (srt_epoll_wait (m_epoll_io this) 2 0 timeout_ms) er])|done].
    unfold polled. rewrite Hb. by exists er.
Qed.

(** The socket seen through the interface. *)
Definition srt_socket (this : srt) : isocket W := {|
  sock_ep := SrtEp (m_bind_socket this); sock_id := id this; sock_is_caller := is_caller this;
  sock_supports_statistics := true; sock_read := read this; sock_write := write this |}.

Lemma polled_quiet this timeout_ms t :
  polled this timeout_ms t -> received t = [] /\ sent t = [].
Proof. unfold polled. destruct (m_blocking_mode this); [by intros ->|]. by intros (er & -> & _). Qed.

Lemma read_refines `{!SrtOk W} this cap timeout_ms w :
  0 <= cap <= CInt.INT_MAX ->
  wp (read this cap timeout_ms) (read_post (SrtEp (m_bind_socket this)) cap) w.
Proof.
  intros Hcap. unfold read.
  assert (forall t w, received t = [] -> sent t = [] ->
    wp (let! '(res, data) := invoke (srt_recvmsg2 (m_bind_socket this) (CInt.to_int cap)) in
        if SRT_ERROR =? res then
          let! e := invoke srt_getlasterror in
          if negb (e =? SRT_EASYNCRCV) then raise_exception "read::recv" else ret (0, [])
        else ret (CInt.to_size res, data))
      (fun o t' w1 => read_post (SrtEp (m_bind_socket this)) cap o (t ++ t') w1) w) as Hrecv.
  { intros t w' Hrt Hst. unfold raise_exception, read_post. wp_steps. destruct r as [n d].
    apply srt_recv_ok in Hans. rewrite CInt.to_int_id in Hans by (unfold CInt.INT_MIN; lia).
    destruct (Z.eqb_spec SRT_ERROR n) as [<-|Hn]; wp_steps.
    - by rewrite received_app, sent_app, Hrt, Hst.
    - rewrite received_app, sent_app, Hrt, Hst. cbn. split_and!; done || lia.
    - destruct Hans as [->|[Hn' Hd]]; [done|].
      rewrite received_app, sent_app, Hrt, Hst, CInt.to_size_id
        by (unfold CInt.SIZE_MOD, CInt.INT_MAX in *; lia).
      cbn. destruct (0 <? n); split_and!; done || lia. }
  destruct (m_blocking_mode this).
  { apply wp_bind, wp_ret. wp_simpl. eapply wp_mono; [by apply (Hrecv [])|done]. }
  apply wp_bind, wp_bind, wp_invoke. intros er w1 _. wp_simpl.
  destruct (ep_res er =? SRT_ERROR).
  - unfold raise_exception. wp_steps; [|done]. unfold read_post. cbn. split_and!; done || lia.
  - apply wp_ret. wp_simpl. eapply wp_mono;
      [by apply (Hrecv [Ev (srt_epoll_wait (m_epoll_io this) 2 0 timeout_ms) er])|done].
Qed.

(** Writing, with the place an error names as a parameter. *)
Definition write_at (place : string) (blocking : bool) (epoll_io sock : Z) (data : list char)
    (timeout_ms : Z) : io W Z :=
  do! (if blocking then ret tt else
       let! er := invoke (srt_epoll_wait epoll_io 2 2 timeout_ms) in
       if ep_res er =? SRT_ERROR then raise_exception "write::epoll" else ret tt) in
  let! res := invoke (srt_sendmsg2 sock data (CInt.to_int (Z.of_nat (length data)))) in
  if res =? SRT_ERROR then
    let! e := invoke srt_getlasterror in
    if e =? SRT_EASYNCSND then ret 0 else
    let! reason := invoke srt_getlasterror_str in
    raise_exception_reason place reason
  else ret res.

Lemma write_at_refines `{!SrtOk W} place blocking epoll_io sock data timeout_ms w :
  Z.of_nat (length data) <= CInt.INT_MAX ->
  wp (write_at place blocking epoll_io sock data timeout_ms) (write_post (SrtEp sock) data) w.
Proof.
  intros Hlen. unfold write_at, write_post, raise_exception, raise_exception_reason.
  wp_steps; try done; cbn.
  all: match goal with Ha : answer (srt_sendmsg2 _ _ _) _ = _ |- _ => apply srt_send_ok in Ha end.
  all: rewrite ?CInt.to_int_id in * by (unfold CInt.INT_MIN; lia).
  all: repeat match goal with E : (_ =? _) = true |- _ => apply Z.eqb_eq in E; subst
                            | E : (_ =? _) = false |- _ => apply Z.eqb_neq in E end.
  all: cbn; try (split_and!; done || lia).
  all: match goal with |- context [0 <? ?n] => destruct (0 <? n) end; split_and!; done || lia.
Qed.

Lemma write_refines `{!SrtOk W} this data timeout_ms w :
  Z.of_nat (length data) <= CInt.INT_MAX ->
  wp (write this data timeout_ms) (write_post (SrtEp (m_bind_socket this)) data) w.
Proof. apply (write_at_refines "write::send"). Qed.

#[global] Instance srt_isocket_ok `{!SrtOk W} this : IsocketOk (srt_socket this).
Proof.
  split; intros; cbn [srt_socket sock_read sock_write sock_ep];
    [unfold read, raise_exception; only_steps
    |unfold write, raise_exception, raise_exception_reason; only_steps
    |by apply read_refines|by apply write_refines].
Qed.

(** ** accept and connect *)

Lemma configure_post_returns this sock : returns (configure_post this sock).
Proof.
  unfold configure_post, SrtConfigurePost.
  assert (forall table, returns (apply_options (W:=W) POST sock (m_options this) table)) as Ho.
  { induction table as [|o table IH]; cbn [apply_options]; unfold apply; returns_steps; done. }
  returns_steps.
Qed.
Lemma print_config_returns sock : returns (print_negotiated_config sock).
Proof. unfold print_negotiated_config, get_sock_value. returns_steps. Qed.

Lemma accept_wp `{EpollOk} this w :
  wp (accept this) (fun o t _ =>
    match o with
    | Done child =>
        ledger t = OpenSock (m_bind_socket child) :: epolls_of child /\
        m_blocking_mode child = m_blocking_mode this /\ m_mode child = FAILURE /\
        m_epoll_connect child = -1
    | Throw (SocketException _) =>
        ledger t = [] \/ exists s, s <> SRT_INVALID_SOCK /\
          (ledger t = [OpenSock s] \/ exists e, ledger t = [OpenSock s; OpenEpoll e])
    | _ => False
    end) w.
Proof.
  unfold accept. apply wp_bind.
  apply (wp_mono _ (fun o t _ => ledger t = [] /\ match o with
    | Done _ | Throw (SocketException _) => True | _ => False end)).
  { unfold raise_exception. by wp_steps. }
  intros [[]|[]|u|] t w1 [Hl Ho]; try done; wp_simpl; [|by left].
  unfold raise_exception. wp_steps.
  { rewrite ledger_app, Hl. cbn. rewrite Heqb. by left. }
  apply Z.eqb_neq in Heqb as Hs.
  assert (forall t', ledger (t ++ Ev (srt_accept (m_bind_socket this)) r :: t') =
                     OpenSock r :: ledger t') as Hacc.
  { intros t'. rewrite ledger_app, ledger_cons, Hl. cbn. by rewrite Heqb. }
  eapply wp_mono; [apply wp_and; [apply only_configure_post|apply configure_post_returns]|].
  intros o t2 w2 [Ht2 [res ->]]. apply ledger_neutral in Ht2. wp_steps.
  { right. exists r. split; [done|]. left. by rewrite Hacc, ledger_app, Ht2. }
  eapply wp_mono; [apply wp_and; [apply only_print_config|apply print_config_returns]|].
  intros o t3 w3 [Ht3 [msg ->]]. apply ledger_neutral in Ht3.
  unfold srt_of_sock, throw_lasterror. wp_steps; cbn [m_blocking_mode] in *;
    rewrite !Hacc, !ledger_app, Ht2, Ht3; unfold epolls_of; cbn; rewrite ?Heqb1.
  - done.
  - right. exists r. split; [done|]. destruct (_ =? -1); [by left|right; by eexists].
  - match goal with Ha : answer srt_epoll_create _ = (?e, _) |- _ =>
      destruct (Z.eqb_spec e (-1)) as [->|] end; [|done].
    match goal with Ha : answer (srt_epoll_add_usock (-1) _ _) _ = _ |- _ =>
      by apply epoll_add_invalid in Ha as -> end.
Qed.

(** C26: accept hands over a new object that owns the accepted socket: it
    inherits the blocking mode, is not a caller, and has its own polling object
    when it is non-blocking; nothing is closed. When it throws after a socket
    was accepted, that socket (and no other) is left open. *)
Theorem accept_ownership `{EpollOk} this w :
  wp (accept this) (fun o t _ =>
    match o with
    | Done child =>
        ledger t = OpenSock (m_bind_socket child) :: epolls_of child /\
        m_blocking_mode child = m_blocking_mode this /\ m_mode child = FAILURE /\
        m_epoll_connect child = -1
    | Throw (SocketException _) =>
        ledger t = [] \/ exists s, s <> SRT_INVALID_SOCK /\
          (ledger t = [OpenSock s] \/ exists e, ledger t = [OpenSock s; OpenEpoll e])
    | _ => False
    end) w.
Proof. apply accept_wp. Qed.

(** What connect promises; see [connect_spec]. *)
Definition connect_post (this : srt) : post (W:=W) unit := fun o t _ =>
  match o with
  | Done _ =>
      ledger t = [] /\
      (exists sa len r, Ev (srt_connect (m_bind_socket this) sa len) r ∈ t /\ r <> SRT_ERROR) /\
      (m_blocking_mode this = false ->
         exists er, Ev (srt_epoll_wait (m_epoll_connect this) 0 2 (-1)) er ∈ t /\ ep_res er <> -1 /\
                    Ev (srt_getsockstate (m_bind_socket this)) SRTS_CONNECTED ∈ t)
  | Throw _ => ledger t = [] \/ ledger t = [CloseSock (m_bind_socket this)] /\
      exists sa len, Ev (srt_connect (m_bind_socket this) sa len) SRT_ERROR ∈ t
  | _ => True
  end.

(** The end of connect, once the library has reported the connection. *)
Lemma connect_tail this t w :
  connect_post this (Done tt) t w ->
  wp (let! res := configure_post this (m_bind_socket this) in
      if res =? SRT_ERROR then raise_exception "connect::onfigure_post" else
      do! print_negotiated_config (m_bind_socket this) in ret tt)
    (fun o t' w' => connect_post this o (t ++ t') w') w.
Proof.
  intros (Hl & (sa & len & r & Hc & Hr) & Hw). unfold connect_post, raise_exception. wp_steps.
  eapply wp_mono; [apply wp_and; [apply only_configure_post|apply configure_post_returns]|].
  intros o t2 w2 [Ht2 [res ->]]. apply ledger_neutral in Ht2. wp_steps.
  { left. by rewrite !ledger_app, Hl, Ht2. }
  eapply wp_mono; [apply wp_and; [apply only_print_config|apply print_config_returns]|].
  intros o t3 w3 [Ht3 [msg ->]]. apply ledger_neutral in Ht3. wp_steps.
  rewrite !ledger_app, Hl, Ht2, Ht3. split; [done|]. split.
  - exists sa, len, r. split; [by apply elem_of_app; left|done].
  - intros Hb. destruct (Hw Hb) as (er & He & ? & Hst). exists er.
    split_and!; [by apply elem_of_app; left|done|by apply elem_of_app; left].
Qed.

(** C25: connect returns normally only when the library reported the connection:
    srt_connect did not fail, for a non-blocking socket the wait for
    writability succeeded and the socket state was CONNECTED afterwards, and
    both directions were switched to the object's blocking mode. It never opens
    or closes anything, except that it closes the socket when srt_connect
    itself fails. *)
Theorem connect_spec this w : wp (connect this) (connect_post this) w.
Proof.
  unfold connect, raise_exception_reason. apply wp_bind, wp_catch.
  eapply wp_mono; [apply only_create_addr|].
  intros [sa|e|u|] t0 w0 Ht0; wp_simpl; [|destruct e|done|done].
  2-8: unfold connect_post; cbn; wp_steps; left; rewrite ?app_nil_r; by apply ledger_neutral.
  apply ledger_neutral in Ht0. apply wp_bind, (wp_invoke (srt_connect _ _ _)).
  intros r w1 _. wp_simpl. destruct (Z.eqb_spec r SRT_ERROR) as [->|Hr].
  { wp_steps. right. rewrite ledger_app, Ht0. split; [done|].
    exists (NetAddr.storage sa), (NetAddr.size sa). set_solver. }
  apply wp_bind, wp_ret. wp_simpl.
  set (e1 := Ev (srt_connect (m_bind_socket this) (NetAddr.storage sa) (NetAddr.size sa)) r).
  assert (exists sa len r, Ev (srt_connect (m_bind_socket this) sa len) r ∈ t0 ++ [e1] /\
                           r <> SRT_ERROR) as Hconn.
  { exists (NetAddr.storage sa), (NetAddr.size sa), r. set_solver. }
  destruct (m_blocking_mode this) eqn:Hb.
  { apply wp_bind, wp_ret. wp_simpl. eapply wp_mono; [apply (connect_tail this (t0 ++ [e1]))|].
    - split; [by rewrite ledger_app, Ht0|]. split; [done|]. congruence.
    - intros o t w2. cbv beta. rewrite <- app_assoc. done. }
  apply wp_bind, wp_bind, (wp_invoke (srt_epoll_wait _ _ _ _)). intros er w2 _. wp_simpl.
  set (e2 := Ev (srt_epoll_wait (m_epoll_connect this) 0 2 (-1)) er).
  destruct (Z.eqb_spec (ep_res er) (-1)) as [He|He]; wp_simpl.
  { unfold raise_exception. wp_steps. left. by rewrite ledger_app, Ht0. }
  apply wp_bind, (wp_invoke (srt_getsockstate _)). intros st w3 _. wp_simpl.
  set (e3 := Ev (srt_getsockstate (m_bind_socket this)) st).
  destruct (Z.eqb_spec st SRTS_CONNECTED) as [Hst|Hst]; wp_simpl.
  2: { wp_steps. left. by rewrite ledger_app, Ht0. }
  apply wp_ret. wp_simpl. eapply wp_mono; [apply (connect_tail this (t0 ++ [e1; e2; e3]))|].
  - split; [by rewrite ledger_app, Ht0|]. split; [set_solver|]. intros _. exists er.
    split_and!; [set_solver|done|]. unfold e3. rewrite Hst. set_solver.
  - intros o t w4. cbv beta. rewrite <- app_assoc. done.
Qed.
End srt.

(** ** A library that always succeeds, to evaluate the code on examples *)
Definition example_srt (c : call) : resp c :=
  match c as c0 return resp c0 with
  | srt_create_socket => 7
  | srt_accept _ => 8
  | srt_epoll_create => 3
  | srt_epoll_add_usock e _ _ => if e =? -1 then SRT_ERROR else 0
  | srt_getsockstate _ => SRTS_CONNECTED
  | srt_recvmsg2 _ cap => if 5 <=? cap then (5, chars "hello") else (SRT_ERROR, [])
  | srt_sendmsg2 _ _ len => if 0 <=? len then len else SRT_ERROR
  | c => default_resp c
  end.
#[export] Instance example_build : Build := mk_build false false false false.
Definition example_srt_env : Env unit := fun_env example_srt.

Lemma example_epoll_ok : EpollOk (H0 := example_srt_env).
Proof. by split; intros s modes [] r [] [= <-]. Defined.
Lemma example_srt_ok : @SrtOk unit example_srt_env.
Proof.
  split; intros s; unfold answer, example_srt_env, fun_env, example_srt.
  - intros cap [] r d [] Ha. revert Ha. destruct (Z.leb_spec 5 cap); intros [= <- <-]; [right|by left].
    cbn. lia.
  - intros data len [] r [] Ha. revert Ha. destruct (Z.leb_spec 0 len); intros [= <-]; [right|by left].
    lia.
Defined.

Lemma example_udp_ok : @UdpOk unit example_srt_env.
Proof.
  split; intros fd ? ? []; unfold answer, example_srt_env, fun_env, example_srt; cbn.
  - intros n d [] Hcap [= <- <-]. cbn. lia.
  - intros n [] [= <-]. lia.
Defined.

Definition example_uri : Uri.UriParser :=
  Uri.mk_uri "srt://127.0.0.1:4200?latency=20" "srt" "127.0.0.1" "4200" "" Uri.SRT
    Uri.EXPECT_FILE [("latency", "20"); ("mode", "caller")].

Lemma unknown_option_refused_witness :
  exists msg t,
    srt_of_uri (H0 := example_srt_env)
      (Uri.set_param "adapter" "10.0.0.1" example_uri) tt = (Throw (SocketException msg), t, tt).
Proof.
  pose proof (unknown_option_refused (H0 := example_srt_env)
    (Uri.set_param "adapter" "10.0.0.1" example_uri) "adapter" "10.0.0.1" tt
    eq_refl ltac:(discriminate)
    ltac:(intros Hk; apply (bool_decide_pack _) in Hk; vm_compute in Hk; exact Hk)) as Hs.
  unfold wp in Hs. destruct (srt_of_uri _ tt) as [[o t] []].
  destruct Hs as (msg & -> & _). by exists msg, t.
Defined.

Lemma ctor_dtor_balance_witness :
  ledger (snd (fst ((let! this := srt_of_uri (H0 := example_srt_env) example_uri in
                     destroy (H0 := example_srt_env) this) tt))) =
    [OpenSock 7; OpenEpoll 3; OpenEpoll 3; ReleaseEpoll 3; ReleaseEpoll 3; CloseSock 7].
Proof.
  pose proof (ctor_dtor_balance (H0 := example_srt_env) (H1 := example_epoll_ok)
                example_uri tt) as Hs.
  unfold wp in Hs.
  destruct ((let! this := srt_of_uri (H0 := example_srt_env) example_uri in
             destroy (H0 := example_srt_env) this) tt) as [[o t] []] eqn:E.
  vm_compute in E. injection E as <- <-.
  destruct (Hs eq_refl) as (s & epolls & _). reflexivity.
Defined.


Definition example_object : srt := mk_srt 7 3 4 CALLER false "127.0.0.1" 4200 [].

(** A socket of the example takes every message whole. *)
Lemma example_reliable this :
  m_blocking_mode this = true -> reliable (srt_socket (H0 := example_srt_env) this).
Proof.
  intros Hb data timeout [] Hlen. cbn [sock_write srt_socket]. unfold write, write_at. rewrite Hb.
  apply wp_bind, wp_ret. wp_simpl. apply wp_bind, (wp_invoke (H := example_srt_env)). intros r [] Ha. wp_simpl.
  revert Ha. unfold answer, example_srt_env, fun_env, example_srt.
  rewrite CInt.to_int_id by (unfold CInt.INT_MIN; lia). rewrite (proj2 (Z.leb_le _ _)) by lia. intros [= <-].
  rewrite (proj2 (Z.eqb_neq _ _)) by (unfold SRT_ERROR; lia). by apply wp_ret.
Qed.

Lemma accept_ownership_witness :
  exists child t, accept (H0 := example_srt_env) example_object tt = (Done child, t, tt) /\
                  ledger t = OpenSock (m_bind_socket child) :: epolls_of child.
Proof.
  pose proof (accept_ownership (H0 := example_srt_env) (H1 := example_epoll_ok)
                example_object tt) as Hs.
  unfold wp in Hs. destruct (accept (H0 := example_srt_env) example_object tt) as [[o t] []] eqn:E.
  vm_compute in E. injection E as <- <-.
  eexists _, _. split; [reflexivity|]. exact (proj1 Hs).
Defined.
End SrtSocket.
