(* ===== verification/Acceptor.v ===== *)
(** * Accepting connections in the background (acceptor.hpp)

    async_accept of acceptor.hpp: a thread that accepts connections until
    something throws. No file of the program includes the header. *)

From Stdlib Require Import ZArith Lia Ascii String.
From stdpp Require Import prelude strings list.
From S2P Require Import Prelude Sys Logic Socket SrtSocket.

Module Acceptor.
Local Open Scope list_scope.
Local Open Scope Z_scope.
Import SrtSocket.

Section acceptor.
Context {W : Type} `{Env W}.

(** [catch (...)], and what becomes of the exception of a task whose future is never
    asked for its result. *)
Definition swallow {A} (m : io W A) : io W unit :=
  catch_exn (fun _ => Some EmptyString) (do! m in ret tt) (fun _ => ret tt).

(** One round: srt::async_accept listens and starts accept in a thread; at the end
    of the scope the destructor of the future waits for the thread, and with the
    future goes the object it holds. *)
Definition accept_round (s : srt) (_ : unit) : io W (unit + unit) :=
  do! listen s in
  do! swallow (let! s_accepted := accept s in destroy s_accepted) in
  ret (inl tt).

(** The body of the thread. *)
Definition async_accept (fuel : nat) (s : srt) : io W unit :=
  swallow (loop fuel (accept_round s) tt).

(** ** What becomes of the connections *)

(** What one round does with sockets and polling objects: it accepts a connection
    and closes it again, with the polling object made for it; or nothing is
    accepted; or setting up the accepted socket fails, and it stays open. *)
Definition session (l : list action) : Prop :=
  (exists s epolls, l = OpenSock s :: map OpenEpoll epolls ++ map ReleaseEpoll epolls ++ [CloseSock s]) \/
  l = [] \/ (exists s, l = [OpenSock s]) \/ (exists s e, l = [OpenSock s; OpenEpoll e]).
Definition sessions (l : list action) : Prop := exists ls, Forall session ls /\ l = concat ls.

Lemma sessions_nil : sessions [].
Proof. by exists []. Qed.
Lemma sessions_snoc l l' : sessions l -> session l' -> sessions (l ++ l').
Proof.
  intros (ls & Hls & ->) Hl'. exists (ls ++ [l']). rewrite Forall_app, Forall_singleton, concat_app. cbn.
  by rewrite app_nil_r.
Qed.

(** A round that fails has failed to listen. *)
Definition round_post (s : srt) : post (W:=W) (unit + unit) := fun o t _ =>
  match o with
  | Done r => r = inl tt /\ session (ledger t)
  | Throw _ => ledger t = [] \/ ledger t = [CloseSock (m_bind_socket s)]
  | _ => False
  end.

Lemma listen_wp s w :
  wp (listen s) (fun o t _ => match o with
    | Done _ => ledger t = []
    | Throw _ => ledger t = [] \/ ledger t = [CloseSock (m_bind_socket s)]
    | _ => False
    end) w.
Proof.
  unfold listen, raise_exception. wp_steps; [by right|].
  eapply wp_mono; [apply wp_and; [apply only_configure_post|apply configure_post_returns]|].
  intros o t w1 [Ht [res ->]]. apply ledger_neutral in Ht. wp_steps; rewrite ?app_nil_r.
  - left. rewrite ledger_cons, ledger_app, Ht. done.
  - by rewrite ledger_cons, Ht.
Qed.

Lemma swallow_wp {A} (m : io W A) (P : list event -> Prop) w :
  wp m (fun o t _ => match o with Done _ | Throw _ => P t | _ => False end) w ->
  wp (swallow m) (fun o t _ => o = Done tt /\ P t) w.
Proof.
  intros Hm. unfold swallow. apply wp_catch, wp_bind. eapply wp_mono; [exact Hm|].
  intros o t w1 Ho. destruct o; wp_simpl; try apply wp_ret; wp_simpl; rewrite ?app_nil_r; try done.
Qed.

Section accepting.
Context `{!EpollOk (W:=W)}.

Lemma accept_round_wp s w : wp (accept_round s tt) (round_post s) w.
Proof.
  apply wp_bind. eapply wp_mono; [apply listen_wp|]. intros o t w1 Ho. destruct o; try done. wp_simpl.
  apply wp_bind. eapply wp_mono.
  { apply (swallow_wp _ (fun t => session (ledger t))), wp_bind.
    eapply wp_mono; [apply accept_wp|]. intros o t2 w2 Ho2. destruct o as [child|e| |]; try done; wp_simpl.
    - destruct Ho2 as (Hl & Hb & _ & Hc). eapply wp_mono; [apply destroy_wp|].
      intros o t3 w3 [-> Hd]. left. rewrite ledger_app, Hl, Hd. unfold epolls_of. rewrite Hc. cbn.
      destruct (m_blocking_mode child); [by exists (m_bind_socket child), []|].
      by exists (m_bind_socket child), [m_epoll_io child].
    - destruct e; try done. right. destruct Ho2 as [->|(x & _ & [->|[y ->]])]; eauto. }
  intros o t2 w2 [-> Hs]. wp_simpl. apply wp_ret. wp_simpl. split; [done|].
  rewrite !ledger_app, Ho. by rewrite app_nil_r.
Qed.

(** The thread never lets an exception out, whatever the library does. Every
    connection it accepts is closed again before the next one is accepted, and it
    leaves the loop only when listening has failed, which may have closed the
    listening socket. *)
Theorem accepted_and_dropped fuel s w :
  wp (async_accept fuel s) (fun o t _ =>
    exists l rest, ledger t = l ++ rest /\ sessions l /\
      match o with
      | Done _ => rest = [] \/ rest = [CloseSock (m_bind_socket s)]
      | NoFuel => rest = []
      | _ => False
      end) w.
Proof.
  apply wp_catch, wp_bind, (wp_loop (fun _ t _ => sessions (ledger t))); [apply sessions_nil|..].
  { intros [] t w1 Hs. exists (ledger t), []. by rewrite app_nil_r. }
  intros [] t w1 Hs. eapply wp_mono; [apply accept_round_wp|]. intros o t2 w2 Ho.
  destruct o as [r|e|u|]; cbn in Ho |- *; try done.
  - destruct Ho as [-> Ho]. rewrite ledger_app. by apply sessions_snoc.
  - apply wp_ret. exists (ledger t), (ledger t2). rewrite app_nil_r, ledger_app. tauto.
Qed.
End accepting.
End acceptor.

(** Two rounds on a library that always accepts. *)
Example accepted_twice :
  (let '(o, t, _) := async_accept (H := example_srt_env) 2 example_object tt in (o, ledger t)) =
  (NoFuel, [OpenSock 8; OpenEpoll 3; ReleaseEpoll 3; CloseSock 8;
            OpenSock 8; OpenEpoll 3; ReleaseEpoll 3; CloseSock 8]).
Proof. vm_compute. reflexivity. Qed.
End Acceptor.
