(* ===== verification/SrtGroup.v ===== *)
(** * socket::srt_group (srt_socket_group.cpp, srt_socket_group.hpp)

    A bonded connection: several SRT URIs that are listened on or connected
    to as one group. Compiled only with ENABLE_BONDING. The group owns a
    scheduler; its queue of tasks is part of the object. *)

From Stdlib Require Import ZArith Lia Ascii String.
From stdpp Require Import prelude strings list.
From S2P Require Import Prelude NetAddr Sys Logic Socket Scheduler Stats Uri SockOpts CreateAddr SrtSocket.

Module SrtGroup.
Local Open Scope string_scope.
Local Open Scope list_scope.
Local Open Scope Z_scope.
Import Socket SockOpts CreateAddr.

(** The tasks the group schedules: print_member_socket and the lambda connfn. *)
Inductive sched_task := PrintMember (sock : Z) | Reconnect (group : Z) (target : group_config).

Record srt_group := mk_group {
  m_bind_socket : Z; m_listeners : list Z; m_targets : list group_config;
  m_epoll_connect : Z; m_epoll_io : Z; m_mode : Mode; m_blocking_mode : bool;
  m_host : string; m_port : Z; m_opts_link : list options_t;
  m_scheduler : list (Z * sched_task) }.

Definition set_bind_socket (s : Z) (g : srt_group) : srt_group :=
  mk_group s (m_listeners g) (m_targets g) (m_epoll_connect g) (m_epoll_io g) (m_mode g)
    (m_blocking_mode g) (m_host g) (m_port g) (m_opts_link g) (m_scheduler g).
Definition add_listener (s : Z) (g : srt_group) : srt_group :=
  mk_group (m_bind_socket g) (m_listeners g ++ [s]) (m_targets g) (m_epoll_connect g)
    (m_epoll_io g) (m_mode g) (m_blocking_mode g) (m_host g) (m_port g) (m_opts_link g) (m_scheduler g).
Definition add_target (t : group_config) (g : srt_group) : srt_group :=
  mk_group (m_bind_socket g) (m_listeners g) (m_targets g ++ [t]) (m_epoll_connect g)
    (m_epoll_io g) (m_mode g) (m_blocking_mode g) (m_host g) (m_port g) (m_opts_link g) (m_scheduler g).
Definition set_epolls (c i : Z) (g : srt_group) : srt_group :=
  mk_group (m_bind_socket g) (m_listeners g) (m_targets g) c i (m_mode g)
    (m_blocking_mode g) (m_host g) (m_port g) (m_opts_link g) (m_scheduler g).
Definition set_blocking (b : bool) (o : list options_t) (g : srt_group) : srt_group :=
  mk_group (m_bind_socket g) (m_listeners g) (m_targets g) (m_epoll_connect g) (m_epoll_io g)
    (m_mode g) b (m_host g) (m_port g) o (m_scheduler g).
Definition set_scheduler (q : list (Z * sched_task)) (g : srt_group) : srt_group :=
  mk_group (m_bind_socket g) (m_listeners g) (m_targets g) (m_epoll_connect g) (m_epoll_io g)
    (m_mode g) (m_blocking_mode g) (m_host g) (m_port g) (m_opts_link g) q.

Definition mode (g : srt_group) : Mode := m_mode g.
Definition is_caller (g : srt_group) : bool := bool_decide (m_mode g = CALLER).
Definition id (g : srt_group) : Z := m_bind_socket g.

Definition LOG_SRT_GROUP : string := "SOCKET::SRT_GROUP ".

Definition detect_srt_mode (uri : Uri.UriParser) : Mode :=
  SrtInterpretMode (default "default" (SMap.get "mode" (Uri.parameters uri))) (Uri.host uri)
    (default "" (SMap.get "adapter" (Uri.parameters uri))).

(** validate_srt_group: the loop carries the mode of the previous URI. *)
Fixpoint validate_loop (prev_mode : Mode) (urls : list Uri.UriParser) : Mode :=
  match urls with
  | [] => prev_mode
  | url :: urls' =>
      if negb (bool_decide (Uri.type url = Uri.SRT)) then FAILURE else
      let mode := detect_srt_mode url in
      if bool_decide (mode = FAILURE) then FAILURE else
      if negb (bool_decide (prev_mode = FAILURE)) && negb (bool_decide (mode = prev_mode))
      then FAILURE
      else validate_loop mode urls'
  end.
Definition validate_srt_group (urls : list Uri.UriParser) : Mode := validate_loop FAILURE urls.

Section group.
Context `{Build} {W : Type} `{Env W}.

Definition detect_group_type (opts : options_t) : io W Z :=
  match SMap.get "grouptype" opts with
  | None => ret SRT_GTYPE_BROADCAST
  | Some gmode =>
      if String.eqb gmode "broadcast" then ret SRT_GTYPE_BROADCAST
      else if String.eqb gmode "backup" then ret SRT_GTYPE_BACKUP
      else throw (SocketException
             (LOG_SRT_GROUP +:+ ": Failed to detect group mode. Value provided: " +:+ gmode))
  end.

Definition detect_link_weight (uri : Uri.UriParser) : io W Z :=
  match SMap.get "weight" (Uri.parameters uri) with
  | None => ret 0
  | Some weight_str =>
      match CNum.stoi 10 weight_str with
      | CNum.StoInvalid =>
          throw (SocketException (LOG_SRT_GROUP +:+ ": Bad input. weight=" +:+ weight_str))
      | CNum.StoRange =>
          throw (SocketException (LOG_SRT_GROUP +:+ ": Integer overflow. weight=" +:+ weight_str))
      | CNum.StoOk weight =>
          if (weight <? 0) || (32767 <? weight) then
            throw (SocketException (LOG_SRT_GROUP +:+
              ": Wrong link weight provided. The allowed value is between 0 and 32767."))
          else ret weight
      end
  end.

Definition throw_lasterror {A} : io W A := SrtSocket.throw_lasterror.
Definition raise_exception {A} (place : string) : io W A := SrtSocket.raise_exception place.
Definition raise_exception_reason {A} (place reason : string) : io W A :=
  SrtSocket.raise_exception_reason place reason.

(** [if (SRT_SUCCESS != m) throw socket::exception(srt_getlasterror_str())]. *)
Definition check_success (r : Z) : io W unit :=
  if negb (SRT_SUCCESS =? r) then throw_lasterror else ret tt.
Definition check_error (r : Z) : io W unit :=
  if SRT_ERROR =? r then throw_lasterror else ret tt.

(** The lambda configure_link of configure_pre. *)
Definition configure_link (this : srt_group) (sock : Z) (li : nat) : io W Z :=
  match m_opts_link this !! li with
  | None => undefined "m_opts_link out of range"
  | Some opts =>
      let! '(conmode, failures) := SrtConfigurePre sock (m_host this) opts in
      ret (if decide (conmode = FAILURE) then SRT_ERROR else SRT_SUCCESS)
  end.
Definition configure_pre (this : srt_group) (sock : Z) (link_index : nat) : io W Z :=
  let maybe := if m_blocking_mode this then 1 else 0 in
  let! result := invoke (srt_setsockopt sock SRTO_RCVSYN (OInt maybe)) in
  if result =? -1 then ret result else
  let! r0 := configure_link this sock 0 in
  if negb (r0 =? SRT_SUCCESS) then ret SRT_ERROR else
  if negb (link_index =? 0)%nat then configure_link this sock link_index else ret SRT_SUCCESS.

Definition configure_post (this : srt_group) (sock : Z) (link_index : nat) : io W Z :=
  let is_blocking := if m_blocking_mode this then 1 else 0 in
  let! result := invoke (srt_setsockopt sock SRTO_SNDSYN (OInt is_blocking)) in
  if result =? -1 then ret result else
  let! result := invoke (srt_setsockopt sock SRTO_RCVSYN (OInt is_blocking)) in
  if result =? -1 then ret result else
  match m_opts_link this !! link_index with
  | None => undefined "m_opts_link out of range"
  | Some opts => do! SrtConfigurePost sock opts in ret 0
  end.

(** One listener of create_listeners: the socket for the i-th URI. *)
Definition create_listener (this : srt_group) (i : nat) (url : Uri.UriParser) : io W srt_group :=
  let! sa := create_addr (Uri.host url) (CInt.to_u16 (Uri.portno url)) NetAddr.AF_UNSPEC in
  let! s := invoke srt_create_socket in
  if s =? SRT_INVALID_SOCK then throw_lasterror else
  let! r := invoke (srt_setsockflag s SRTO_GROUPCONNECT (OInt 1)) in
  do! check_success r in
  let! r := configure_pre this s i in
  do! check_success r in
  let! r := invoke (srt_bind s (NetAddr.storage sa) (NetAddr.size sa)) in
  do! check_success r in
  do! (if negb (m_blocking_mode this) then
         let! r := invoke (srt_epoll_add_usock (m_epoll_connect this) s
                             (Z.lor SRT_EPOLL_IN SRT_EPOLL_ERR)) in
         do! check_error r in
         let! r := invoke (srt_epoll_add_usock (m_epoll_io this) s SrtSocket.EPOLL_IO) in
         check_error r
       else ret tt) in
  ret (add_listener s this).

Fixpoint create_listeners (this : srt_group) (i : nat) (src_uri : list Uri.UriParser)
  : io W srt_group :=
  match src_uri with
  | [] => ret this
  | url :: src_uri' =>
      let! this := create_listener this i url in create_listeners this (S i) src_uri'
  end.

(** The lambda try_bind of create_callers: the empty address means "no bind". *)
Definition try_bind (uri : Uri.UriParser) (fam : Z) : io W NetAddr.netaddr_any :=
  let none := NetAddr.of_domain NetAddr.AF_UNSPEC in
  match SMap.get "bind" (Uri.parameters uri) with
  | None => ret none
  | Some bindopt =>
      let bindipport := CStr.lowercase bindopt in
      match CStr.find ":" 0 bindipport with
      | None => ret none
      | Some idx =>
          let bindip := default "" (CStr.substr 0 idx bindipport) in
          match CNum.stoi 10 (default "" (CStr.substr (idx + 1)
                   (CStr.size bindipport - (idx + 1)) bindipport)) with
          | CNum.StoInvalid => throw (StdInvalidArgument "stoi")
          | CNum.StoRange => throw (StdOutOfRange "stoi")
          | CNum.StoOk bindport =>
              catch_invalid_argument (create_addr bindip (CInt.to_u16 bindport) fam)
                (fun _ => ret none)
          end
      end
  end.

Definition set_weight (w : Z) (gd : group_config) : group_config :=
  mk_group_config (gc_srcaddr gd) (gc_peeraddr gd) (CInt.to_u16 w) (gc_config gd) (gc_token gd).

(** One target of create_callers. *)
Definition create_target (uri : Uri.UriParser) : io W group_config :=
  let! sa := catch_invalid_argument
    (create_addr (Uri.host uri) (CInt.to_u16 (Uri.portno uri)) NetAddr.AF_UNSPEC)
    (raise_exception_reason "connect::create_addr") in
  let! bindsa := try_bind uri (NetAddr.family sa) in
  let! gd := invoke (srt_prepare_endpoint
    (if NetAddr.empty bindsa then None else Some (NetAddr.storage bindsa))
    (NetAddr.storage sa) (NetAddr.size sa)) in
  let! weight := detect_link_weight uri in
  ret (set_weight weight gd).

Fixpoint create_targets (this : srt_group) (uris : list Uri.UriParser) : io W srt_group :=
  match uris with
  | [] => ret this
  | uri :: uris' =>
      let! gd := create_target uri in create_targets (add_target gd this) uris'
  end.

Definition set_connect_callback (this : srt_group) : io W unit :=
  do! invoke (srt_connect_callback (m_bind_socket this)) in ret tt.

Definition create_callers (this : srt_group) (uris : list Uri.UriParser) (gtype : Z)
  : io W srt_group :=
  let! g := invoke (srt_create_group gtype) in
  let this := set_bind_socket g this in
  if g =? SRT_INVALID_SOCK then raise_exception "srt_create_group" else
  let! r := configure_pre this (m_bind_socket this) 0 in
  do! check_success r in
  let! r := configure_post this (m_bind_socket this) 0 in
  do! check_success r in
  let! this := create_targets this uris in
  do! (if negb (m_blocking_mode this) then
         let! r := invoke (srt_epoll_add_usock (m_epoll_connect this) (m_bind_socket this)
                             (Z.lor SRT_EPOLL_OUT SRT_EPOLL_ERR)) in
         do! check_error r in
         let! r := invoke (srt_epoll_add_usock (m_epoll_io this) (m_bind_socket this)
                             SrtSocket.EPOLL_IO) in
         check_error r
       else ret tt) in
  do! set_connect_callback this in
  ret this.

Definition valid_extra : list string := ["bind"; "mode"; "weight"; "grouptype"; "blocking"].

(** The constructor from a list of URIs. *)
Definition group_of_uris (uris : list Uri.UriParser) : io W srt_group :=
  let mode0 := validate_srt_group uris in
  if bool_decide (mode0 = FAILURE) then
    throw (SocketException "Group mode validation failed!")
  else if bool_decide (mode0 = RENDEZVOUS) then
    throw (SocketException "Rendezvous mode is not supported by socket groups!")
  else
  do! for_each (fun uri => SrtSocket.assert_options_valid (Uri.parameters uri) valid_extra) uris in
  match map Uri.parameters uris with
  | [] => undefined "m_opts_link[0] of an empty vector"
  | opts0 :: opts =>
      let this := mk_group SRT_INVALID_SOCK [] [] (-1) (-1) mode0 true "" (-1) (opts0 :: opts) [] in
      let! gtype := detect_group_type opts0 in
      let this :=
        match SMap.get "blocking" opts0 with
        | Some v => set_blocking (negb (bool_decide (v ∈ false_names)))
                      (SMap.del "blocking" opts0 :: opts) this
        | None => this
        end in
      let! this :=
        (if negb (m_blocking_mode this) then
           let! ec := invoke srt_epoll_create in
           if ec =? -1 then throw_lasterror else
           let! ei := invoke srt_epoll_create in
           if ei =? -1 then throw_lasterror else
           ret (set_epolls ec ei this)
         else ret this) in
      if bool_decide (m_mode this = LISTENER) then create_listeners this 0 uris
      else create_callers this uris gtype
  end.

(** The constructor of an accepted connection. *)
Definition group_of_accepted (group : srt_group) (group_id : Z) : io W srt_group :=
  let this := mk_group group_id [] [] (-1) (-1) (m_mode group) (m_blocking_mode group) "" (-1) [] [] in
  if m_blocking_mode this then ret this else
  let! ei := invoke srt_epoll_create in
  let this := set_epolls (m_epoll_connect this) ei this in
  if ei =? -1 then throw_lasterror else
  let! r := invoke (srt_epoll_add_usock ei (m_bind_socket this) SrtSocket.EPOLL_IO) in
  do! check_error r in
  ret this.

Definition release_targets (this : srt_group) : io W unit :=
  for_each (fun gd => do! invoke (srt_delete_config (gc_config gd)) in ret tt) (m_targets this).
Definition release_listeners (this : srt_group) : io W unit :=
  for_each (fun s => do! invoke (srt_close s) in ret tt) (m_listeners this).

(** The destructor; the scheduler member is destroyed after it. *)
Definition destroy (this : srt_group) : io W unit :=
  do! (if negb (m_blocking_mode this) then
         do! (if negb (m_epoll_connect this =? -1)
              then do! invoke (srt_epoll_release (m_epoll_connect this)) in ret tt else ret tt) in
         (if negb (m_epoll_io this =? -1)
          then do! invoke (srt_epoll_release (m_epoll_io this)) in ret tt else ret tt)
       else ret tt) in
  do! release_targets this in
  do! release_listeners this in
  do! invoke (srt_close (m_bind_socket this)) in
  ret tt.

Definition set_listen_callback (this : srt_group) : io W unit :=
  for_each (fun sockid =>
    let! r := invoke (srt_listen_callback sockid) in
    if r =? SRT_ERROR then
      let! msg := invoke srt_getlasterror_str in raise_exception_reason "listen failed with {}" msg
    else ret tt) (m_listeners this).

Definition listen (this : srt_group) : io W unit :=
  do! set_listen_callback this in
  for_each (fun sockid =>
    let! r := invoke (srt_listen sockid 5) in
    if r =? SRT_ERROR then
      let! msg := invoke srt_getlasterror_str in raise_exception_reason "listen failed with {}" msg
    else ret tt) (m_listeners this).

Definition accept (this : srt_group) : io W srt_group :=
  let! accepted_sock :=
    (if negb (m_blocking_mode this) then
       let! er := invoke (srt_epoll_wait (m_epoll_connect this) 2 0 (-1)) in
       if ep_res er =? SRT_ERROR then raise_exception "accept::epoll_wait" else
       match ep_read er with
       | [] => undefined "ready[0] is read but was not written"
       | lstnr_sock :: ready =>
           let! s := invoke (srt_accept lstnr_sock) in
           if negb (s =? SRT_INVALID_SOCK) then ret s else
           match ready with
           | [] => undefined "ready[1] is read but was not written"
           | _ :: _ => raise_exception "accept"
           end
       end
     else
       let! s := invoke (srt_accept_bond (m_listeners this) (-1)) in
       if s =? SRT_INVALID_SOCK then
         let! msg := invoke srt_getlasterror_str in
         raise_exception_reason "accept_bond failed with {}" msg
       else ret s) in
  do! SrtSocket.print_negotiated_config accepted_sock in
  let! res := configure_post this accepted_sock 0 in
  if res =? SRT_ERROR then raise_exception "accept::configure_post" else
  group_of_accepted this accepted_sock.

(** connect: the branch for separate members is disabled in the source
    ([!m_blocking_mode && false]); the result is the object itself. *)
Definition connect (this : srt_group) : io W unit :=
  let! st := invoke (srt_connect_group (m_bind_socket this) (m_targets this)) in
  if st =? SRT_ERROR then raise_exception "srt_group::connect" else
  do! SrtSocket.print_negotiated_config (m_bind_socket this) in
  ret tt.

(** *** Callbacks and scheduled tasks *)

(** print_member_socket: looks up the weight of the member in its group, whose
    data is read into an array of three. *)
Definition print_member_socket (sock : Z) : io W unit :=
  let! '(res, gtype) := invoke (srt_getsockflag sock SRTO_GROUPTYPE) in
  if (res =? SRT_SUCCESS) && (gtype =? SRT_GTYPE_BACKUP) then
    let! group_id := invoke (srt_groupof sock) in
    do! invoke (srt_group_data group_id 3) in
    ret tt
  else ret tt.

(** connfn: the scheduled reconnection of a member. *)
Definition connfn (group : Z) (target : group_config) : io W unit :=
  do! invoke (srt_connect_group group [target]) in ret tt.

Definition run_task (t : sched_task) : io W unit :=
  match t with
  | PrintMember sock => print_member_socket sock
  | Reconnect group target => connfn group target
  end.

(** One round of the group's timer thread. *)
Definition manage_tasks (this : srt_group) : io W srt_group :=
  let! q := Scheduler.manage_tasks run_task (m_scheduler this) in
  ret (set_scheduler q this).

(** Delays in nanoseconds: 20 microseconds and 1 second. *)
Definition on_listen_callback (this : srt_group) (sock : Z) : io W (Z * srt_group) :=
  let! q := Scheduler.schedule_in 20000 (PrintMember sock) (m_scheduler this) in
  ret (0, set_scheduler q this).

Definition listen_callback_fn (opaq : option srt_group) (sock : Z) : io W (Z * option srt_group) :=
  match opaq with
  | None => ret (0, None)
  | Some group =>
      do! invoke (srt_getsockname sock) in
      let! '(r, group) := on_listen_callback group sock in
      ret (r, Some group)
  end.

(** The objects of automatic storage of a call, by their numbers: alive, or ended
    with the block that declared them. *)
Inductive automatic := Alive (target : group_config) | Ended.
Definition declare_target (target : group_config) (frame : list automatic) : nat * list automatic :=
  (length frame, frame ++ [Alive target]).
Definition end_of_block (p : nat) (frame : list automatic) : list automatic := <[p := Ended]> frame.
Definition LIFETIME : string := "use of an object after its lifetime".
Definition deref_member (p : nat) (frame : list automatic) : io W group_config :=
  match frame !! p with Some (Alive target) => ret target | _ => undefined LIFETIME end.

(** The loop that looks for the member: [target] is declared anew, as a copy, in each
    round, and [member] is its address. *)
Fixpoint find_member (targets : list group_config) (token : Z) (frame : list automatic)
    : option nat * list automatic :=
  match targets with
  | [] => (None, frame)
  | element :: targets' =>
      let '(target, frame) := declare_target element frame in
      if negb (gc_token element =? token) then find_member targets' token (end_of_block target frame)
      else (Some target, end_of_block target frame)
  end.
Definition schedule_reconnection (this : srt_group) (frame : list automatic) (member : option nat) : io W srt_group :=
  match member with
  | Some member =>
      let! target := deref_member member frame in
      let! q := Scheduler.schedule_in 1000000000 (Reconnect (m_bind_socket this) target) (m_scheduler this) in
      ret (set_scheduler q this)
  | None => ret this
  end.
Definition on_connect_callback (this : srt_group) (sock error token : Z) : io W srt_group :=
  if error =? SRT_SUCCESS then ret this else
  let '(member, frame) := find_member (m_targets this) token [] in
  schedule_reconnection this frame member.

Definition connect_callback_fn (opaq : option srt_group) (sock error token : Z)
  : io W (option srt_group) :=
  match opaq with
  | None => ret None
  | Some group => let! group := on_connect_callback group sock error token in ret (Some group)
  end.

(** *** read and write *)
Definition read (this : srt_group) (size : Z) (timeout_ms : Z) : io W (Z * list char) :=
  let! ready :=
    (if m_blocking_mode this then ret true else
     let! er := invoke (srt_epoll_wait (m_epoll_io this) 2 0 timeout_ms) in
     if ep_res er =? SRT_ERROR then
       let! e := invoke srt_getlasterror in
       if e =? SRT_ETIMEOUT then ret false else raise_exception "read::epoll"
     else ret true) in
  if negb ready then ret (0, []) else
  let! '(res, data) := invoke (srt_recvmsg2 (m_bind_socket this) (CInt.to_int size)) in
  if SRT_ERROR =? res then
    let! e := invoke srt_getlasterror in
    if negb (e =? SRT_EASYNCRCV) then raise_exception "read::recv" else ret (0, [])
  else ret (CInt.to_size res, data).

Definition write (this : srt_group) (data : list char) (timeout_ms : Z) : io W Z :=
  do! (if m_blocking_mode this then ret tt else
       let! er := invoke (srt_epoll_wait (m_epoll_io this) 2 2 timeout_ms) in
       if ep_res er =? SRT_ERROR then raise_exception "write::epoll" else ret tt) in
  let! res := invoke (srt_sendmsg2 (m_bind_socket this) data
                        (CInt.to_int (Z.of_nat (length data)))) in
  if res =? SRT_ERROR then
    let! e := invoke srt_getlasterror in
    if e =? SRT_EASYNCSND then ret 0 else
    let! reason := invoke srt_getlasterror_str in
    raise_exception_reason "socket::write::send" reason
  else ret res.

(** *** Statistics *)
Definition statistics (this : srt_group) : io W (Z * Srt.stats) :=
  invoke (srt_bstats (m_bind_socket this)).

(** The loop over the members: the report of each connected member whose
    statistics can be read. *)
Fixpoint member_reports {A} (report : Z -> Srt.stats -> Z -> io W A) (members : list group_data)
  : io W (list A) :=
  match members with
  | [] => ret []
  | m :: members' =>
      if negb (gd_sockstate m =? SRTS_CONNECTED) then member_reports report members' else
      let! '(res, stats) := invoke (srt_bstats (gd_id m)) in
      if SRT_ERROR =? res then
        do! invoke srt_getlasterror_str in member_reports report members'
      else
        let! r := report (gd_id m) stats (gd_weight m) in
        let! rs := member_reports report members' in
        ret (r :: rs)
  end.

(** The members, or nothing when their number or their data cannot be read. *)
Definition read_members (this : srt_group) : io W (option (list group_data)) :=
  let! '(res, group_size) := invoke (srt_group_data_size (m_bind_socket this)) in
  if negb (res =? SRT_SUCCESS) then ret None else
  let! '(num_members, group_data) := invoke (srt_group_data (m_bind_socket this) group_size) in
  if num_members =? SRT_ERROR then
    do! invoke srt_getlasterror_str in ret None
  else if (Z.of_nat (length group_data) <? num_members) then
    undefined "group_data[i] out of range"
  else ret (Some (take (Z.to_nat num_members) group_data)).

Definition get_statistics_csv (this : srt_group) (print_header : bool) : io W (list Stats.token) :=
  if print_header then Stats.stats_to_csv (m_bind_socket this) 0 stats_zero true else
  let! '(res, stats) := invoke (srt_bstats (m_bind_socket this)) in
  if SRT_ERROR =? res then raise_exception "statistics" else
  let! csv_stats := Stats.stats_to_csv (m_bind_socket this) 0 stats false in
  let! members := read_members this in
  match members with
  | None => ret csv_stats
  | Some members =>
      let! rows := member_reports (fun id stats weight => Stats.stats_to_csv id weight stats false)
                     members in
      ret (csv_stats ++ List.concat rows)
  end.

(** [linksStats] starts as null and becomes an array at the first push_back. *)
Definition get_statistics_json (this : srt_group) : io W (list (string * Stats.json)) :=
  let root := Stats.jset "LinksStats" (Stats.JArr []) [] in
  let! '(res, stats) := invoke (srt_bstats (m_bind_socket this)) in
  if SRT_ERROR =? res then raise_exception "statistics" else
  let root := Stats.jset "ConnStats"
    (Stats.JObj (Stats.group_stats_to_json Stats.SRT_VERSION (m_bind_socket this) 0 stats)) root in
  let! members := read_members this in
  match members with
  | None => ret root
  | Some members =>
      let! links := member_reports (fun id stats weight =>
          ret (Stats.JObj (Stats.group_stats_to_json Stats.SRT_VERSION id weight stats))) members in
      ret (Stats.jset "LinksStats"
             (if decide (links = []) then Stats.JNull else Stats.JArr links) root)
  end.

Definition get_statistics (this : srt_group) (stats_format : string) (print_header : bool)
  : io W Stats.report :=
  if String.eqb stats_format "json" then
    if print_header then ret (Stats.RText [])
    else let! root := get_statistics_json this in ret (Stats.RJson root)
  else let! line := get_statistics_csv this print_header in ret (Stats.RText line).

(** ** Properties *)

Lemma validate_loop_spec urls prev m :
  m <> FAILURE -> prev <> FAILURE ->
  validate_loop prev urls = m <->
  prev = m /\ Forall (fun u => Uri.type u = Uri.SRT /\ detect_srt_mode u = m) urls.
Proof.
  intros Hm. revert prev. induction urls as [|u urls IH]; intros prev Hp; cbn [validate_loop].
  { split; [intros ->; by split; [|constructor]|by intros [-> _]]. }
  rewrite (bool_decide_eq_false_2 (prev = FAILURE)) by done. cbn [negb andb].
  rewrite Forall_cons.
  destruct (decide (Uri.type u = Uri.SRT)) as [Ht|Ht];
    [rewrite bool_decide_eq_true_2 by done|rewrite bool_decide_eq_false_2 by done]; cbn [negb];
    [|naive_solver].
  case_bool_decide as Hd; [naive_solver congruence|].
  case_bool_decide as He; cbn [negb]; [|naive_solver congruence].
  rewrite He, IH by congruence. naive_solver.
Qed.

(** C36: validate_srt_group accepts exactly the non-empty lists of SRT URIs that
    all mean the same connection mode, and then returns that mode. *)
Theorem validate_srt_group_spec urls m :
  m <> FAILURE ->
  validate_srt_group urls = m <->
  urls <> [] /\ Forall (fun u => Uri.type u = Uri.SRT /\ detect_srt_mode u = m) urls.
Proof.
  intros Hm. unfold validate_srt_group. destruct urls as [|u urls]; cbn [validate_loop].
  { split; [congruence|]. by intros [? _]. }
  rewrite Forall_cons.
  destruct (decide (Uri.type u = Uri.SRT)) as [Ht|Ht];
    [rewrite bool_decide_eq_true_2 by done|rewrite bool_decide_eq_false_2 by done]; cbn [negb];
    [|naive_solver].
  case_bool_decide as Hd; [naive_solver congruence|]. cbn [negb andb bool_decide].
  rewrite (bool_decide_eq_true_2 (FAILURE = FAILURE)) by done. cbn [negb andb].
  rewrite validate_loop_spec by done. naive_solver.
Qed.

(** The weight a URI means: what std::stoi reads from "weight", 0 without it. *)
Definition link_weight (uri : Uri.UriParser) : option Z :=
  match SMap.get "weight" (Uri.parameters uri) with
  | None => Some 0
  | Some s => match CNum.stoi 10 s with
              | CNum.StoOk w => if (0 <=? w) && (w <=? 32767) then Some w else None
              | _ => None
              end
  end.

Lemma detect_link_weight_wp uri w (Q : post (W:=W) Z) :
  (forall x, link_weight uri = Some x -> 0 <= x <= 32767 -> Q (Done x) [] w) ->
  (forall msg, link_weight uri = None -> Q (Throw (SocketException msg)) [] w) ->
  wp (detect_link_weight uri) Q w.
Proof.
  unfold link_weight, detect_link_weight. intros Hok Hbad.
  destruct (SMap.get "weight" (Uri.parameters uri)) as [s|]; [|apply wp_ret, Hok; done || lia].
  destruct (CNum.stoi 10 s) as [x| |]; [|by apply wp_throw, Hbad..].
  destruct (Z.ltb_spec x 0), (Z.ltb_spec 32767 x); cbn [orb];
    first [apply wp_throw, Hbad|apply wp_ret, Hok]; try lia;
    destruct (Z.leb_spec 0 x), (Z.leb_spec x 32767); done || lia.
Qed.

(** *** What is opened and closed *)
Import SrtSocket(action, OpenSock, CloseSock, OpenEpoll, ReleaseEpoll, ledger, neutral,
  ledger_app, ledger_cons, ledger_neutral).

Lemma group_only_configure_pre this sock li : only neutral (configure_pre this sock li).
Proof.
  unfold configure_pre, configure_link. pose proof (SrtSocket.only_SrtConfigurePre (W:=W) sock).
  only_steps; try done.
Qed.
Lemma group_only_configure_post this sock li : only neutral (configure_post this sock li).
Proof.
  unfold configure_post, SrtConfigurePost. pose proof (SrtSocket.only_apply_options (W:=W)).
  only_steps.
Qed.
Lemma only_check_success r : only neutral (check_success r).
Proof. unfold check_success, throw_lasterror, SrtSocket.throw_lasterror. only_steps. Qed.
Lemma only_check_error r : only neutral (check_error r).
Proof. unfold check_error, throw_lasterror, SrtSocket.throw_lasterror. only_steps. Qed.
Lemma group_only_create_addr name port fam : only neutral (create_addr (W:=W) name port fam).
Proof. apply SrtSocket.only_create_addr. Qed.
Hint Resolve group_only_configure_pre group_only_configure_post only_check_success only_check_error
  group_only_create_addr : only.

Lemma only_create_target uri : only neutral (create_target uri).
Proof.
  unfold create_target, try_bind, detect_link_weight, raise_exception_reason,
    SrtSocket.raise_exception_reason. only_steps.
Qed.
Lemma group_only_assert_options options extra :
  only neutral (SrtSocket.assert_options_valid (W:=W) options extra).
Proof. apply SrtSocket.only_assert_options. Qed.

Lemma create_target_weight uri w :
  wp (create_target uri) (fun o _ _ =>
    match o with
    | Done gd => link_weight uri = Some (gc_weight gd) /\ 0 <= gc_weight gd <= 32767
    | _ => True end) w.
Proof.
  unfold create_target. apply wp_bind. eapply wp_mono; [by apply wp_true|].
  intros [sa|e|u|] t w1 _; wp_simpl; try done.
  apply wp_bind. eapply wp_mono; [by apply wp_true|].
  intros [bindsa|e|u|] t2 w2 _; wp_simpl; try done.
  apply wp_bind, (wp_invoke (srt_prepare_endpoint _ _ _)). intros gd w3 _. wp_simpl.
  apply wp_bind, detect_link_weight_wp; wp_simpl; [|done]. intros x Hx Hr. apply wp_ret. wp_simpl.
  cbn [gc_weight set_weight]. by rewrite CInt.to_u16_id by lia.
Qed.

(** The fields the two creation loops leave alone. *)
Definition same_frame (g g' : srt_group) : Prop :=
  m_bind_socket g' = m_bind_socket g /\ m_epoll_connect g' = m_epoll_connect g /\
  m_epoll_io g' = m_epoll_io g /\ m_mode g' = m_mode g /\ m_blocking_mode g' = m_blocking_mode g.

Lemma create_targets_wp this uris w :
  wp (create_targets this uris) (fun o t _ =>
    match o with
    | Done this' => ledger t = [] /\ same_frame this this' /\ m_listeners this' = m_listeners this /\
        exists gds, m_targets this' = m_targets this ++ gds /\
          Forall2 (fun uri gd => link_weight uri = Some (gc_weight gd) /\ 0 <= gc_weight gd <= 32767)
            uris gds
    | _ => True end) w.
Proof.
  revert this w. induction uris as [|uri uris IH]; intros this w; cbn [create_targets].
  { apply wp_ret. split_and!; try done. exists []. rewrite app_nil_r. by split; [|constructor]. }
  apply wp_bind. eapply wp_mono; [apply wp_and; [apply only_create_target|apply create_target_weight]|].
  intros [gd|e|u|] t w1 [Ht Hgd]; wp_simpl; try done.
  eapply wp_mono; [apply IH|]. intros [this'|e|u|] t2 w2; cbn; try done.
  intros (Hl & Hs & Hls & gds & Hts & Hall). rewrite ledger_app, ledger_neutral, Hl by done.
  split_and!; try done; [by destruct Hs as (?&?&?&?&?)..|].
  exists (gd :: gds). rewrite Hts, <- app_assoc. split; [done|]. by constructor.
Qed.

Lemma create_listeners_wp this i uris w :
  wp (create_listeners this i uris) (fun o t _ =>
    match o with
    | Done this' => same_frame this this' /\ m_targets this' = m_targets this /\
        exists socks, m_listeners this' = m_listeners this ++ socks /\
          ledger t = map OpenSock socks /\ length socks = length uris
    | _ => True end) w.
Proof.
  revert this i w. induction uris as [|uri uris IH]; intros this i w; cbn [create_listeners].
  { apply wp_ret. split_and!; try done. exists []. by rewrite app_nil_r. }
  apply wp_bind.
  apply (wp_mono _ (fun o t _ => match o with
    | Done this' => exists s, this' = add_listener s this /\ ledger t = [OpenSock s] | _ => True end)).
  { unfold create_listener. apply wp_bind. eapply wp_mono; [apply group_only_create_addr|].
    intros [sa|e|u|] t0 w0 Ht0; wp_simpl; try done. apply ledger_neutral in Ht0.
    apply wp_bind, (wp_invoke srt_create_socket). intros s w1 _. wp_simpl.
    destruct (Z.eqb_spec s SRT_INVALID_SOCK) as [->|Hs];
      [unfold throw_lasterror, SrtSocket.throw_lasterror; by wp_steps|].
    eapply only_yields_wp with (P := neutral) (V := fun g => g = add_listener s this);
      [only_steps|yields_steps; done|].
    intros [g|e|u|] t w2 Ht Hg; try done. exists s. split; [done|].
    rewrite ledger_app, ledger_cons, Ht0, (ledger_neutral t) by done. cbn.
    by rewrite (proj2 (Z.eqb_neq _ _) Hs). }
  intros [g|e|u|] t w1 Hg; wp_simpl; try done. destruct Hg as (s & -> & Hl).
  eapply wp_mono; [apply IH|]. intros [this'|e|u|] t2 w2; cbn; try done.
  intros (Hs & Hts & socks & Hls & Hl2 & Hn). split_and!; try done.
  exists (s :: socks). rewrite Hls, ledger_app, Hl, Hl2, <- app_assoc. cbn. by rewrite Hn.
Qed.

Lemma create_callers_wp this uris gtype w :
  wp (create_callers this uris gtype) (fun o t _ =>
    match o with
    | Done this' => ledger t = [OpenSock (m_bind_socket this')] /\
        same_frame (set_bind_socket (m_bind_socket this') this) this' /\
        m_listeners this' = m_listeners this /\
        exists gds, m_targets this' = m_targets this ++ gds /\
          Forall2 (fun uri gd => link_weight uri = Some (gc_weight gd) /\ 0 <= gc_weight gd <= 32767)
            uris gds
    | _ => True end) w.
Proof.
  unfold create_callers. apply wp_bind, (wp_invoke (srt_create_group _)). intros g w1 _. wp_simpl.
  destruct (Z.eqb_spec g SRT_INVALID_SOCK) as [->|Hg].
  { unfold raise_exception, SrtSocket.raise_exception. by wp_steps. }
  apply wp_bind. eapply wp_mono; [apply group_only_configure_pre|].
  intros [r1|e|u|] t1 w2 Ht1; wp_simpl; try done.
  apply wp_bind. eapply wp_mono; [apply only_check_success|].
  intros [[]|e|u|] t2 w3 Ht2; wp_simpl; try done.
  apply wp_bind. eapply wp_mono; [apply group_only_configure_post|].
  intros [r2|e|u|] t3 w4 Ht3; wp_simpl; try done.
  apply wp_bind. eapply wp_mono; [apply only_check_success|].
  intros [[]|e|u|] t4 w5 Ht4; wp_simpl; try done.
  apply wp_bind. eapply wp_mono; [apply create_targets_wp|].
  intros [this'|e|u|] t5 w6 Hthis; wp_simpl; try done.
  destruct Hthis as (Hl & Hs & Hls & gds & Hgds & Hall).
  eapply only_yields_wp with (P := neutral) (V := fun g => g = this'); [|yields_steps; done|].
  { unfold set_connect_callback. only_steps. }
  intros [g'|e|u|] t w7 Ht Hg'; try done. subst g'.
  destruct Hs as (Hb & Hs). cbn in Hb.
  apply ledger_neutral in Ht1, Ht2, Ht3, Ht4, Ht.
  rewrite ledger_cons, !ledger_app, Hl, Ht1, Ht2, Ht3, Ht4, Ht. cbn.
  rewrite (proj2 (Z.eqb_neq _ _) Hg), Hb. split_and!; try done. by exists gds.
Qed.

(** Everything the constructor establishes when it returns. *)
Definition constructed (uris : list Uri.UriParser) (this : srt_group) (t : list event) : Prop :=
  let epolls := if m_blocking_mode this then [] else [m_epoll_connect this; m_epoll_io this] in
  m_mode this = validate_srt_group uris /\
  (m_blocking_mode this = false -> m_epoll_connect this <> -1 /\ m_epoll_io this <> -1) /\
  ((m_mode this = LISTENER /\ m_targets this = [] /\ length (m_listeners this) = length uris /\
    m_bind_socket this = SRT_INVALID_SOCK /\
    ledger t = map OpenEpoll epolls ++ map OpenSock (m_listeners this)) \/
   (m_mode this = CALLER /\ m_listeners this = [] /\
    ledger t = map OpenEpoll epolls ++ [OpenSock (m_bind_socket this)] /\
    Forall2 (fun uri gd => link_weight uri = Some (gc_weight gd) /\ 0 <= gc_weight gd <= 32767)
      uris (m_targets this))).

(** The polling objects of the constructor. *)
Lemma epolls_wp (this : srt_group) w :
  wp (if negb (m_blocking_mode this) then
        let! ec := invoke srt_epoll_create in
        if ec =? -1 then throw_lasterror else
        let! ei := invoke srt_epoll_create in
        if ei =? -1 then throw_lasterror else
        ret (set_epolls ec ei this)
      else ret this)
    (fun o t _ => match o with
       | Done this' => exists c i, this' = set_epolls c i this /\
           (m_blocking_mode this = false -> c <> -1 /\ i <> -1) /\
           ledger t = map OpenEpoll (if m_blocking_mode this then [] else [c; i])
       | _ => True end) w.
Proof.
  destruct (m_blocking_mode this) eqn:Hb; cbn [negb].
  { apply wp_ret. exists (m_epoll_connect this), (m_epoll_io this).
    split; [by destruct this|done]. }
  unfold throw_lasterror, SrtSocket.throw_lasterror. wp_steps; try done.
  apply Z.eqb_neq in Heqb as H1, Heqb0 as H2. exists r, r0. split; [done|]. split; [done|].
  cbn. by rewrite Heqb, Heqb0.
Qed.

Lemma validate_not_rendezvous uris m :
  validate_srt_group uris = m -> m <> FAILURE -> m <> RENDEZVOUS -> m = LISTENER \/ m = CALLER.
Proof. destruct m; naive_solver. Qed.

Lemma group_of_uris_wp uris w :
  wp (group_of_uris uris) (fun o t _ =>
    match o with Done this => constructed uris this t | _ => True end) w.
Proof.
  unfold group_of_uris. case_bool_decide as Hf; [by wp_steps|].
  case_bool_decide as Hr; [by wp_steps|].
  apply wp_bind. eapply wp_mono;
    [apply (only_for_each neutral); intros x; apply group_only_assert_options|].
  intros [[]|e|u|] t0 w0 Ht0; wp_simpl; try done. apply ledger_neutral in Ht0.
  destruct (map Uri.parameters uris) as [|opts0 opts]; [by wp_steps|].
  apply wp_bind. eapply wp_mono;
    [instantiate (1 := fun o t _ => forallb neutral (calls t) = true); revert w0;
     change (only neutral (detect_group_type opts0)); unfold detect_group_type; only_steps|].
  intros [gtype|e|u|] t1 w1 Ht1; wp_simpl; try done. apply ledger_neutral in Ht1.
  set (this0 := mk_group _ _ _ _ _ _ _ _ _ _ _).
  set (this1 := match SMap.get "blocking" opts0 with Some _ => _ | None => _ end).
  assert (m_mode this1 = validate_srt_group uris /\ m_targets this1 = [] /\ m_listeners this1 = [] /\
          m_bind_socket this1 = SRT_INVALID_SOCK) as (Hm & Hts & Hls & Hbs)
    by (unfold this1, this0; by destruct (SMap.get _ _)).
  apply wp_bind. eapply wp_mono; [apply epolls_wp|].
  intros [this2|e|u|] t2 w2 H2; wp_simpl; try done. destruct H2 as (c & i & -> & Hci & Hl2).
  case_bool_decide as HL.
  - eapply wp_mono; [apply create_listeners_wp|]. intros [this3|e|u|] t3 w3; cbn; try done.
    intros ((Hb3 & Hc3 & Hi3 & Hm3 & Hbl3) & Hts3 & socks & Hls3 & Hl3 & Hn3).
    cbn in *. rewrite Hls in Hls3. cbn in Hls3.
    unfold constructed. rewrite !ledger_app, Ht0, Ht1, Hl2, Hl3, Hb3, Hm3, Hbl3, Hc3, Hi3, Hls3, Hts3.
    split_and!; try done. left. split_and!; done.
  - eapply wp_mono; [apply create_callers_wp|]. intros [this3|e|u|] t3 w3; cbn; try done.
    intros (Hl3 & (Hb3 & Hc3 & Hi3 & Hm3 & Hbl3) & Hls3 & gds & Hts3 & Hall).
    cbn in *. rewrite Hts in Hts3. cbn in Hts3.
    unfold constructed. rewrite !ledger_app, Ht0, Ht1, Hl2, Hl3, Hm3, Hbl3, Hc3, Hi3, Hls3, Hts3.
    split_and!; try done. right. rewrite Hls. split_and!; try done.
    rewrite Hm. destruct (validate_not_rendezvous uris _ eq_refl Hf Hr); congruence.
Qed.

Lemma for_each_close (l : list Z) w :
  wp (for_each (fun s => do! invoke (srt_close s) in ret tt) l)
    (fun o t _ => o = Done tt /\ ledger t = map CloseSock l) w.
Proof.
  revert w. induction l as [|s l IH]; intros w; cbn [for_each]; [by apply wp_ret|].
  wp_steps. eapply wp_mono; [apply IH|]. intros o t w1 [-> Hl]. split; [done|].
  by rewrite ledger_cons, Hl.
Qed.

Lemma group_destroy_wp this w :
  wp (destroy this) (fun o t _ => o = Done tt /\
    ledger t = map ReleaseEpoll (if m_blocking_mode this then [] else
                 filter (fun e => e <> -1) [m_epoll_connect this; m_epoll_io this]) ++
               map CloseSock (m_listeners this) ++ [CloseSock (m_bind_socket this)]) w.
Proof.
  unfold destroy. apply wp_bind.
  apply (wp_mono _ (fun o t _ => o = Done tt /\ ledger t = map ReleaseEpoll
    (if m_blocking_mode this then [] else
       filter (fun e => e <> -1) [m_epoll_connect this; m_epoll_io this]))).
  { destruct (m_blocking_mode this); cbn [negb]; [by apply wp_ret|].
    rewrite !filter_cons, filter_nil.
    destruct (Z.eqb_spec (m_epoll_connect this) (-1)), (Z.eqb_spec (m_epoll_io this) (-1));
      cbn [negb]; wp_steps; split; try done; by repeat case_decide. }
  intros o t w1 [-> Hl]. wp_simpl. apply wp_bind.
  apply (wp_mono _ (fun o t _ => o = Done tt /\ ledger t = [])).
  { unfold release_targets.
    assert (returns (for_each (fun gd => do! invoke (srt_delete_config (gc_config gd)) in ret tt)
              (m_targets this))) as Hr by (apply returns_for_each; intros x; returns_steps).
    assert (only neutral (for_each (fun gd => do! invoke (srt_delete_config (gc_config gd)) in ret tt)
              (m_targets this))) as Ho by (apply only_for_each; intros x; only_steps).
    eapply wp_mono; [apply wp_and; [apply Hr|apply Ho]|].
    intros o t' w' [[[] ->] Ht]. split; [done|by apply ledger_neutral]. }
  intros o t2 w2 [-> Hl2]. wp_simpl. apply wp_bind. eapply wp_mono; [apply for_each_close|].
  intros o t3 w3 [-> Hl3]. wp_steps. split; [done|].
  by rewrite !ledger_app, Hl, Hl2, Hl3.
Qed.

(** C34: Resources of a group: constructing it from any list of URIs and then
    destroying it opens polling objects and sockets (one listener per URI, or
    one group), and closes exactly those, once each; a group of listeners also
    closes the invalid id, since it has no socket of its own. *)
Theorem group_balance uris w :
  wp (let! this := group_of_uris uris in destroy this)
    (fun o t _ => o = Done tt ->
       exists epolls socks,
         ledger t = map OpenEpoll epolls ++ map OpenSock socks ++
                    map ReleaseEpoll epolls ++ map CloseSock socks ++
                    (if bool_decide (validate_srt_group uris = LISTENER)
                     then [CloseSock SRT_INVALID_SOCK] else [])) w.
Proof.
  apply wp_bind. eapply wp_mono; [apply group_of_uris_wp|].
  intros [this|e|u|] t w1 Hc; wp_simpl; try done.
  destruct Hc as (Hm & Hep & Hk). eapply wp_mono; [apply group_destroy_wp|].
  intros o t2 w2 [-> Hl2] _. rewrite ledger_app, Hl2.
  exists (if m_blocking_mode this then [] else [m_epoll_connect this; m_epoll_io this]).
  assert ((if m_blocking_mode this then [] else
             filter (fun e => e <> -1) [m_epoll_connect this; m_epoll_io this]) =
          (if m_blocking_mode this then [] else [m_epoll_connect this; m_epoll_io this])) as ->.
  { destruct (m_blocking_mode this); [done|]. destruct (Hep eq_refl).
    by rewrite !filter_cons, filter_nil, !decide_True. }
  rewrite <- Hm. destruct Hk as [(HL & _ & _ & Hb & Hl)|(HC & Hls & Hl & _)].
  - exists (m_listeners this). rewrite Hl, Hb, HL, <- !app_assoc. done.
  - exists [m_bind_socket this]. rewrite Hl, Hls, HC, <- !app_assoc. done.
Qed.


(** The search ends with the number of the first member that has the token, and all
    the copies that were made have ended. *)
Lemma find_member_spec targets token frame : Forall (eq Ended) frame ->
  (exists pre gd post, targets = pre ++ gd :: post /\ gc_token gd = token /\ token ∉ map gc_token pre /\
     find_member targets token frame = (Some (length frame + length pre)%nat, frame ++ replicate (S (length pre)) Ended)) \/
  (token ∉ map gc_token targets /\
     find_member targets token frame = (None, frame ++ replicate (length targets) Ended)).
Proof.
  revert frame. induction targets as [|gd targets IH]; intros frame Hf; cbn [find_member declare_target].
  { right. split; [by apply not_elem_of_nil|]. by rewrite app_nil_r. }
  assert (end_of_block (length frame) (frame ++ [Alive gd]) = frame ++ [Ended]) as ->.
  { unfold end_of_block. rewrite insert_app_r_alt by done. by rewrite Nat.sub_diag. }
  destruct (Z.eqb_spec (gc_token gd) token) as [Ht|Ht]; cbn [negb].
  { left. exists [], gd, targets. rewrite Nat.add_0_r. repeat split; [done|]. by apply not_elem_of_nil. }
  destruct (IH (frame ++ [Ended])) as [(pre & gd' & post & -> & Ht' & Hpre & ->)|[Hno ->]].
  - apply Forall_app. split; [done|]. by repeat constructor.
  - left. exists (gd :: pre), gd', post. split; [done|]. split; [done|]. split.
    + cbn. apply not_elem_of_cons. by split.
    + rewrite <- (assoc_L app), length_app. cbn. do 2 f_equal. lia.
  - right. split; [cbn; apply not_elem_of_cons; by split|]. by rewrite <- (assoc_L app).
Qed.

(** C37: what becomes of a group member whose connection failed. For a token of the
    group the callback finds the first member with that token, but [member] is the
    address of the loop's own copy of it, whose lifetime has ended with the loop, so
    that the use of it is undefined and no reconnection is scheduled; for another
    token nothing happens. The rest of the callback would do what is meant: with an
    object that is alive it schedules the reconnection of this target in a second. *)
Theorem reconnection_undefined this sock error token (w : W) :
  error <> SRT_SUCCESS ->
  (token ∈ map gc_token (m_targets this) ->
     (exists pre gd post, m_targets this = pre ++ gd :: post /\ gc_token gd = token /\ token ∉ map gc_token pre /\
        find_member (m_targets this) token [] = (Some (length pre), replicate (S (length pre)) Ended)) /\
     on_connect_callback this sock error token w = (Undefined LIFETIME, [], w)) /\
  (token ∉ map gc_token (m_targets this) ->
     on_connect_callback this sock error token w = (Done this, [], w)) /\
  (forall frame member target, frame !! member = Some (Alive target) ->
     wp (schedule_reconnection this frame (Some member)) (fun o t _ => exists now, t = [Ev steady_now now] /\
       o = Done (set_scheduler (Scheduler.emplace (now + 1000000000) (Reconnect (m_bind_socket this) target)
                                  (m_scheduler this)) this)) w).
Proof.
  intros He. unfold on_connect_callback. rewrite (proj2 (Z.eqb_neq _ _) He).
  split; [|split].
  - intros Hin. destruct (find_member_spec (m_targets this) token []) as [(pre & gd & post & E & Ht & Hpre & Hf)|[Hno _]];
      [done| |done]. cbn [length Nat.add app] in Hf. split; [by exists pre, gd, post|]. rewrite Hf.
    unfold schedule_reconnection, deref_member, bind. by rewrite lookup_replicate_2 by lia.
  - intros Hno. destruct (find_member_spec (m_targets this) token []) as [(pre & gd & post & E & Ht & _)|[_ ->]]; [done| |done].
    exfalso. apply Hno. rewrite E, map_app, <- Ht. apply elem_of_app. right. by left.
  - intros frame member target Hm. unfold schedule_reconnection, deref_member. rewrite Hm.
    apply wp_bind, wp_ret. wp_simpl. unfold Scheduler.schedule_in. wp_steps. eauto.
Qed.

(** The group seen through the interface. *)
Definition group_socket (this : srt_group) : isocket W := {|
  sock_ep := SrtEp (m_bind_socket this); sock_id := id this; sock_is_caller := is_caller this;
  sock_supports_statistics := true; sock_read := read this; sock_write := write this |}.

(** Reading a group is reading a single socket with the group's handles. *)
Lemma read_as_srt this size timeout_ms :
  read this size timeout_ms =
  SrtSocket.read (SrtSocket.mk_srt (m_bind_socket this) (m_epoll_connect this) (m_epoll_io this)
    (m_mode this) (m_blocking_mode this) (m_host this) (m_port this) []) size timeout_ms.
Proof. reflexivity. Qed.

#[global] Instance group_isocket_ok `{!SrtOk W} this : IsocketOk (group_socket this).
Proof.
  split; intros; cbn [group_socket sock_read sock_write sock_ep].
  - rewrite read_as_srt. apply (read_calls (s := SrtSocket.srt_socket _)).
  - unfold write, raise_exception, raise_exception_reason, SrtSocket.raise_exception,
      SrtSocket.raise_exception_reason. only_steps.
  - rewrite read_as_srt. by apply SrtSocket.read_refines.
  - by apply (SrtSocket.write_at_refines "socket::write::send").
Qed.
End group.

Definition example_group_uri (port w : string) : Uri.UriParser :=
  Uri.mk_uri "" "srt" "127.0.0.1" port "" Uri.SRT Uri.EXPECT_FILE [("weight", w)].

Example example_group :
  match group_of_uris (H := SrtSocket.example_build) (H0 := SrtSocket.example_srt_env)
          [example_group_uri "4200" "10"; example_group_uri "4201" "32767"] tt with
  | (Done g, _, _) => (m_mode g, map gc_weight (m_targets g), m_bind_socket g)
  | _ => (FAILURE, [], 0)
  end = (CALLER, [10; 32767], 0).
Proof. vm_compute. reflexivity. Qed.

Lemma validate_srt_group_spec_witness :
  validate_srt_group [example_group_uri "4200" "1"] = CALLER.
Proof.
  apply (validate_srt_group_spec [example_group_uri "4200" "1"] CALLER); [discriminate|].
  split; [discriminate|]. repeat constructor.
Defined.

Definition example_member (token : Z) : group_config := mk_group_config [] [] 0 0 token.
Lemma reconnection_undefined_witness :
  on_connect_callback (W := unit)
    (mk_group 5 [] [example_member 8; example_member 9] 1 2 CALLER false "" (-1) [] []) 11 2001 9 tt =
    (Undefined LIFETIME, [], tt).
Proof.
  apply (proj1 (reconnection_undefined
    (mk_group 5 [] [example_member 8; example_member 9] 1 2 CALLER false "" (-1) [] []) 11 2001 9 tt
    ltac:(discriminate))).
  cbn. right. by left.
Defined.
End SrtGroup.
