(* ===== verification/Misc.v ===== *)
(** * Connections and the reconnecting runner (misc.cpp, misc.hpp)

    create_connection makes a connection from the parsed URIs, and common_run
    runs a processing function on connections, again and again. Both pass
    std::shared_ptr's to sockets around; the objects live in an explicit heap
    with reference counts, and a destructor runs when the last reference goes
    away. The references that a stats_writer keeps are not modelled: its header
    is not in the repository. *)

From Stdlib Require Import ZArith Lia Ascii String.
From stdpp Require Import prelude strings list.
From S2P Require Import Prelude NetAddr Sys Logic Socket Uri SockOpts CreateAddr SrtSocket SrtGroup.

Module Misc.
Local Open Scope string_scope.
Local Open Scope list_scope.
Local Open Scope Z_scope.
Import Socket.

(** The objects behind a shared_ptr<isocket>. *)
Inductive object :=
| OSrt (s : SrtSocket.srt)
| OGroup (g : SrtGroup.srt_group)
| OUdp (fd : Z) (is_caller : bool).

(** A heap cell: an object with its reference count, or a destroyed object. *)
Inductive cell := Live (o : object) (n : nat) | Dead.

(** The heap, and the variable listeningSock. *)
Record store := mk_store { st_heap : list cell; st_listening : option nat }.

Definition DANGLING : string := "null or dangling pointer".

Section pointers.
Context {W : Type} `{Env W}.

Definition set_heap (h : list cell) (s : store) : store := mk_store h (st_listening s).
Definition set_listening (p : option nat) (s : store) : store := mk_store (st_heap s) p.

(** make_shared. *)
Definition alloc (o : object) : io (W * store) nat :=
  let! s := get in
  do! put (set_heap (st_heap s ++ [Live o 1]) s) in
  ret (length (st_heap s)).

Definition deref (p : nat) : io (W * store) object :=
  let! s := get in
  match st_heap s !! p with
  | Some (Live o _) => ret o
  | _ => undefined DANGLING
  end.

(** Copying a shared_ptr. *)
Definition incref (p : nat) : io (W * store) unit :=
  let! s := get in
  match st_heap s !! p with
  | Some (Live o n) => put (set_heap (<[p := Live o (S n)]> (st_heap s)) s)
  | _ => undefined DANGLING
  end.

Definition destroy_object (o : object) : io (W * store) unit :=
  match o with
  | OSrt s => SrtSocket.destroy s
  | OGroup g => SrtGroup.destroy g
  | OUdp fd _ => udp_dtor fd
  end.

(** Releasing a reference. *)
Definition decref (p : nat) : io (W * store) unit :=
  let! s := get in
  match st_heap s !! p with
  | Some (Live o (S n)) =>
      if decide (n = 0%nat) then
        do! put (set_heap (<[p := Dead]> (st_heap s)) s) in destroy_object o
      else put (set_heap (<[p := Live o n]> (st_heap s)) s)
  | _ => undefined DANGLING
  end.

(** [listeningSock = p] on a null variable, and [listeningSock.reset()]. *)
Definition assign_listening (p : nat) : io (W * store) unit :=
  let! s := get in put (set_listening (Some p) s).
Definition reset_listening : io (W * store) unit :=
  let! s := get in
  match st_listening s with
  | None => ret tt
  | Some p => do! put (set_listening None s) in decref p
  end.
Definition is_listening : io (W * store) bool :=
  let! s := get in ret (match st_listening s with Some _ => true | None => false end).

(** [dynamic_cast<T*>(listeningSock.get())], which is dereferenced. *)
Definition listening_object : io (W * store) (nat * object) :=
  let! s := get in
  match st_listening s with
  | None => undefined DANGLING
  | Some p => let! o := deref p in ret (p, o)
  end.
Definition listening_srt : io (W * store) (nat * SrtSocket.srt) :=
  let! '(p, o) := listening_object in
  match o with OSrt s => ret (p, s) | _ => undefined DANGLING end.
Definition listening_group : io (W * store) (nat * SrtGroup.srt_group) :=
  let! '(p, o) := listening_object in
  match o with OGroup g => ret (p, g) | _ => undefined DANGLING end.
End pointers.

Section connection.
Context `{Build} {W : Type} `{Env W}.

(** Several URIs, or one with "grouptype": a group. *)
Definition is_group (parsedUrls : list Uri.UriParser) : bool :=
  match parsedUrls with
  | [] => false
  | uri :: rest => negb (bool_decide (rest = [])) || SMap.has "grouptype" (Uri.parameters uri)
  end.

Definition create_group_connection (parsedUrls : list Uri.UriParser) : io (W * store) nat :=
  if ENABLE_BONDING then
    let! isListening := is_listening in
    do! (if negb isListening then
           let! g := SrtGroup.group_of_uris parsedUrls in
           let! p := alloc (OGroup g) in
           assign_listening p
         else ret tt) in
    let! '(p, s) := listening_group in
    let accept := bool_decide (SrtGroup.mode s = SockOpts.LISTENER) in
    do! (if accept then SrtGroup.listen s else ret tt) in
    let! connection :=
      (if accept then let! c := SrtGroup.accept s in alloc (OGroup c)
       else do! SrtGroup.connect s in do! incref p in ret p) in
    do! (if negb (bool_decide (SrtGroup.mode s = SockOpts.LISTENER))
         then reset_listening else ret tt) in
    ret connection
  else throw (SocketException "Use -DENABLE_BONDING=ON to enable socket groups!").

Definition create_srt_connection (uri : Uri.UriParser) : io (W * store) nat :=
  let! isListening := is_listening in
  do! (if negb isListening then
         let! s := SrtSocket.srt_of_uri uri in
         let! p := alloc (OSrt s) in
         assign_listening p
       else ret tt) in
  let! '(p, s) := listening_srt in
  let accept := bool_decide (SrtSocket.mode s = SockOpts.LISTENER) in
  do! (if accept && negb isListening then SrtSocket.listen s else ret tt) in
  let! connection := catch_socket
    (if accept then let! c := SrtSocket.accept s in alloc (OSrt c)
     else do! SrtSocket.connect s in do! incref p in ret p)
    (fun msg => do! reset_listening in throw (SocketException msg)) in
  do! (if negb (bool_decide (SrtSocket.mode s = SockOpts.LISTENER))
       then reset_listening else ret tt) in
  ret connection.

Definition create_connection (parsedUrls : list Uri.UriParser) : io (W * store) nat :=
  match parsedUrls with
  | [] => throw (SocketException "No URL was provided")
  | uri :: _ =>
      if is_group parsedUrls then create_group_connection parsedUrls
      else if decide (Uri.type uri = Uri.UDP) then
        let! '(fd, is_caller) := udp_ctor (Uri.uri uri) in alloc (OUdp fd is_caller)
      else if decide (Uri.type uri = Uri.SRT) then create_srt_connection uri
      else throw (SocketException ("Unknown protocol '" +:+ Uri.proto uri +:+ "'."))
  end.

(** create_connection with a temporary listening socket (misc.hpp). *)
Definition create_connection1 (uris : list Uri.UriParser) : io (W * store) nat :=
  finally (create_connection uris) reset_listening.

(** The object as the program uses it. *)
Definition as_isocket (o : object) : isocket W :=
  match o with
  | OSrt s => SrtSocket.srt_socket s
  | OGroup g => SrtGroup.group_socket g
  | OUdp fd c => udp_socket fd c
  end.
End connection.

(** ** common_run *)
Record stats_config := mk_stats_config {
  stats_freq_ms : Z; stats_file : string; stats_format : string }.

(** steady_clock time points count nanoseconds. *)
Definition SECOND : Z := 1000000000.

Section run.
Context `{Build} {W : Type} `{Env W}.

(** The pacing of the attempts: the new [nextReconnect] comes from the time read
    before sleeping. *)
Definition pace_step (nextReconnect : Z) : io W Z :=
  let! tnow := invoke steady_now in
  do! (if tnow <? nextReconnect then do! invoke (sleep_until nextReconnect) in ret tt
       else ret tt) in
  ret (tnow + SECOND).
End run.

Section runner.
Context `{Build} {W : Type} `{Env W}.

Definition processing_fn_t := isocket (W * store) -> io (W * store) unit.

(** What the try block does with a connection, whose shared_ptr goes out of
    scope at the end. create_connection never returns a null pointer. *)
Definition use_connection (stats closeListener : bool) (processingFn : processing_fn_t) (conn : nat)
  : io (W * store) unit :=
  finally
    (do! (if closeListener then reset_listening else ret tt) in
     let! o := deref conn in
     do! (if stats then do! invoke (stats_writer_add (sock_id (as_isocket o))) in ret tt
          else ret tt) in
     do! processingFn (as_isocket o) in
     (if stats then do! invoke (stats_writer_remove (sock_id (as_isocket o))) in ret tt
      else ret tt))
    (decref conn).

(** One round of the do-while loop. *)
Definition run_round (parsedUrls : list Uri.UriParser) (stats reconnect closeListener : bool)
    (processingFn : processing_fn_t) (nextReconnect : Z) : io (W * store) (Z + unit) :=
  let! nextReconnect' := pace_step nextReconnect in
  do! catch_socket
    (let! conn := create_connection parsedUrls in
     use_connection stats closeListener processingFn conn)
    (fun _ => ret tt) in
  let! again :=
    (if reconnect then let! forceBreak := invoke load_break in ret (negb forceBreak)
     else ret false) in
  ret (if again : bool then inl nextReconnect' else inr tt).

(** The stats_writer of the configuration: [None] when it cannot be opened. *)
Definition open_stats (cfg : stats_config) : io (W * store) (option bool) :=
  let writeStats := negb (String.eqb (stats_file cfg) "") && (0 <? stats_freq_ms cfg) in
  if writeStats then
    let! r := invoke (stats_writer_open (stats_file cfg) (stats_format cfg) (stats_freq_ms cfg)) in
    match r with
    | Some _ => ret None
    | None => ret (Some true)
    end
  else ret (Some false).

Fixpoint parse_urls (urls : list string) : io (W * store) (list Uri.UriParser) :=
  match urls with
  | [] => ret []
  | url :: urls' =>
      let! u := SrtSocket.parse_uri url in
      let! us := parse_urls urls' in ret (u :: us)
  end.

Definition common_run (fuel : nat) (urls : list string) (cfg : stats_config)
    (reconnect closeListener : bool) (processingFn : processing_fn_t) : io (W * store) unit :=
  match urls with
  | [] => ret tt
  | _ =>
      let! stats := open_stats cfg in
      match stats with
      | None => ret tt
      | Some stats =>
          finally
            (let! parsedUrls := parse_urls urls in
             let! nextReconnect := invoke steady_now in
             loop fuel (run_round parsedUrls stats reconnect closeListener processingFn)
               nextReconnect)
            (do! reset_listening in
             if stats then do! invoke stats_writer_close in ret tt else ret tt)
      end
  end.
End runner.

(** ** The operations of the sockets leave the heap alone *)
Section leave_heap.
Context `{Build} {W : Type} `{Env W} (R : W -> W -> Prop) `{!Monotone R}.
Abbreviation leaves m := (frames (W:=W) (S:=store) R DANGLING m).

Lemma heap_create_addr name port pref : leaves (CreateAddr.create_addr name port pref).
Proof. apply CreateAddr.frames_create_addr; [tc_solve|by split]. Qed.
Lemma frames_raise {A} place : leaves (SrtSocket.raise_exception (A:=A) place).
Proof. unfold SrtSocket.raise_exception. frames_steps. Qed.
Lemma frames_raise_reason {A} place reason : leaves (SrtSocket.raise_exception_reason (A:=A) place reason).
Proof. unfold SrtSocket.raise_exception_reason. frames_steps. Qed.
Lemma frames_lasterror {A} : leaves (SrtSocket.throw_lasterror (A:=A)).
Proof. unfold SrtSocket.throw_lasterror. frames_steps. Qed.
Hint Resolve heap_create_addr frames_raise frames_raise_reason
  frames_lasterror : frames.

Lemma frames_configure_post this sock : leaves (SrtSocket.configure_post this sock).
Proof. unfold SrtSocket.configure_post. frames_steps. Qed.
Lemma frames_print_config sock : leaves (SrtSocket.print_negotiated_config sock).
Proof. unfold SrtSocket.print_negotiated_config, SrtSocket.get_sock_value. frames_steps. Qed.
Lemma frames_assert_options options extra : leaves (SrtSocket.assert_options_valid options extra).
Proof. induction options as [|[k v] l IH]; cbn [SrtSocket.assert_options_valid]; frames_steps; done. Qed.
Lemma frames_bind_me this sa : leaves (SrtSocket.bind_me this sa).
Proof. unfold SrtSocket.bind_me. frames_steps. Qed.
Hint Resolve frames_configure_post frames_print_config frames_assert_options frames_bind_me : frames.

Lemma frames_srt_of_uri uri : leaves (SrtSocket.srt_of_uri uri).
Proof.
  unfold SrtSocket.srt_of_uri, SrtSocket.configure_pre, SrtSocket.create_epolls,
    SrtSocket.handle_hosts. frames_steps.
Qed.
Lemma frames_listen this : leaves (SrtSocket.listen this).
Proof. unfold SrtSocket.listen. frames_steps. Qed.
Lemma frames_accept this : leaves (SrtSocket.accept this).
Proof. unfold SrtSocket.accept, SrtSocket.srt_of_sock. frames_steps. Qed.
Lemma frames_connect this : leaves (SrtSocket.connect this).
Proof. unfold SrtSocket.connect. frames_steps. Qed.
Lemma frames_destroy this : leaves (SrtSocket.destroy this).
Proof. unfold SrtSocket.destroy. frames_steps. Qed.

Lemma frames_group_configure_pre this sock li : leaves (SrtGroup.configure_pre this sock li).
Proof. unfold SrtGroup.configure_pre, SrtGroup.configure_link. frames_steps. Qed.
Lemma frames_group_configure_post this sock li : leaves (SrtGroup.configure_post this sock li).
Proof. unfold SrtGroup.configure_post. frames_steps. Qed.
Lemma frames_check r : leaves (SrtGroup.check_success r) /\ leaves (SrtGroup.check_error r).
Proof.
  unfold SrtGroup.check_success, SrtGroup.check_error, SrtGroup.throw_lasterror. split; frames_steps.
Qed.
Lemma frames_check_success r : leaves (SrtGroup.check_success r).
Proof. apply frames_check. Qed.
Lemma frames_check_error r : leaves (SrtGroup.check_error r).
Proof. apply frames_check. Qed.
Hint Resolve frames_group_configure_pre frames_group_configure_post frames_check_success
  frames_check_error : frames.

Lemma frames_create_listeners this i uris : leaves (SrtGroup.create_listeners this i uris).
Proof.
  revert this i. induction uris as [|u uris IH]; intros this i;
    cbn [SrtGroup.create_listeners]; unfold SrtGroup.create_listener, SrtGroup.throw_lasterror;
    frames_steps; done.
Qed.
Lemma frames_create_targets this uris : leaves (SrtGroup.create_targets this uris).
Proof.
  revert this. induction uris as [|u uris IH]; intros this; cbn [SrtGroup.create_targets];
    unfold SrtGroup.create_target, SrtGroup.try_bind, SrtGroup.detect_link_weight,
      SrtGroup.raise_exception_reason; frames_steps; done.
Qed.
Hint Resolve frames_create_listeners frames_create_targets : frames.
Lemma frames_group_of_uris uris : leaves (SrtGroup.group_of_uris uris).
Proof.
  unfold SrtGroup.group_of_uris, SrtGroup.detect_group_type, SrtGroup.create_callers,
    SrtGroup.set_connect_callback, SrtGroup.throw_lasterror, SrtGroup.raise_exception.
  frames_steps.
Qed.
Lemma frames_group_listen this : leaves (SrtGroup.listen this).
Proof. unfold SrtGroup.listen, SrtGroup.set_listen_callback, SrtGroup.raise_exception_reason. frames_steps. Qed.
Lemma frames_group_accept this : leaves (SrtGroup.accept this).
Proof.
  unfold SrtGroup.accept, SrtGroup.group_of_accepted, SrtGroup.raise_exception,
    SrtGroup.raise_exception_reason, SrtGroup.throw_lasterror. frames_steps.
Qed.
Lemma frames_group_connect this : leaves (SrtGroup.connect this).
Proof. unfold SrtGroup.connect, SrtGroup.raise_exception. frames_steps. Qed.
Lemma frames_group_destroy this : leaves (SrtGroup.destroy this).
Proof. unfold SrtGroup.destroy, SrtGroup.release_targets, SrtGroup.release_listeners. frames_steps. Qed.
Lemma frames_destroy_object o : leaves (destroy_object o).
Proof.
  destruct o; cbn [destroy_object]; [apply frames_destroy|apply frames_group_destroy|].
  unfold udp_dtor. frames_steps.
Qed.
Lemma destroy_object_returns o : returns (W:=W * store) (destroy_object o).
Proof.
  destruct o; cbn [destroy_object]; unfold SrtSocket.destroy, SrtGroup.destroy, udp_dtor,
    SrtGroup.release_targets, SrtGroup.release_listeners; returns_steps;
    apply returns_for_each; intros ?; returns_steps.
Qed.
Lemma frames_udp_ctor uri : leaves (udp_ctor uri).
Proof. unfold udp_ctor. frames_steps. Qed.

(** A socket whose traffic leaves the heap alone, as every socket does. *)
Definition socket_leaves (c : isocket (W * store)) : Prop :=
  (forall cap timeout, leaves (sock_read c cap timeout)) /\
  (forall data timeout, leaves (sock_write c data timeout)).
Lemma frames_srt_read this cap timeout : leaves (SrtSocket.read this cap timeout).
Proof. unfold SrtSocket.read. frames_steps. Qed.
Lemma frames_srt_write this data timeout : leaves (SrtSocket.write this data timeout).
Proof. unfold SrtSocket.write. frames_steps. Qed.
Lemma frames_group_read this cap timeout : leaves (SrtGroup.read this cap timeout).
Proof. rewrite SrtGroup.read_as_srt. apply frames_srt_read. Qed.
Lemma frames_group_write this data timeout : leaves (SrtGroup.write this data timeout).
Proof. unfold SrtGroup.write. frames_steps. Qed.
Lemma as_isocket_leaves o : socket_leaves (as_isocket o).
Proof.
  destruct o; split; intros; cbn; eauto using frames_srt_read, frames_srt_write,
    frames_group_read, frames_group_write; frames_steps.
Qed.
End leave_heap.

(** ** Reference counts *)

(** The references there are: the variable listeningSock and the locals. *)
Definition refs (s : store) (locals : list nat) : list nat := option_list (st_listening s) ++ locals.
Definition count (p : nat) (l : list nat) : nat := count_occ Nat.eq_dec l p.

(** Every live object has as many references as its count says, at least one;
    nothing refers to a destroyed object. *)
Definition heap_ok (s : store) (locals : list nat) : Prop :=
  forall p, match st_heap s !! p with
            | Some (Live _ n) => n = count p (refs s locals) /\ (0 < n)%nat
            | _ => count p (refs s locals) = 0%nat
            end.

Definition is_kind (grp : bool) (o : object) : Prop :=
  match o with OGroup _ => grp = true | OSrt _ => grp = false | OUdp _ _ => False end.

(** The listening socket is of the class the code casts it to. *)
Definition kind_ok (grp : bool) (s : store) : Prop :=
  forall p o n, st_listening s = Some p -> st_heap s !! p = Some (Live o n) -> is_kind grp o.

Lemma count_cons_eq p l : count p (p :: l) = S (count p l).
Proof. unfold count. by apply count_occ_cons_eq. Qed.
Lemma count_cons_ne p q l : p <> q -> count p (q :: l) = count p l.
Proof. unfold count. intros. apply count_occ_cons_neq. congruence. Qed.
Lemma count_app p l1 l2 : count p (l1 ++ l2) = (count p l1 + count p l2)%nat.
Proof. apply count_occ_app. Qed.
Lemma count_perm p l1 l2 : l1 ≡ₚ l2 -> count p l1 = count p l2.
Proof. unfold count. intros Hp. by apply (proj1 (Permutation_count_occ Nat.eq_dec l1 l2)). Qed.
Lemma refs_cons s p l : refs s (p :: l) ≡ₚ p :: refs s l.
Proof. unfold refs. by rewrite Permutation_middle. Qed.

Lemma heap_ok_live s p l : heap_ok s (p :: l) -> exists o n, st_heap s !! p = Some (Live o (S n)).
Proof.
  intros Hok. specialize (Hok p). rewrite (count_perm p _ _ (refs_cons s p l)), count_cons_eq in Hok.
  destruct (st_heap s !! p) as [[o n|]|]; [|done..]. destruct Hok as [-> _]. eauto.
Qed.

Lemma heap_ok_listening s l p :
  heap_ok s l -> st_listening s = Some p -> exists o n, st_heap s !! p = Some (Live o (S n)).
Proof.
  intros Hok Hl. apply (heap_ok_live (mk_store (st_heap s) None) p l).
  intros q. specialize (Hok q). unfold refs in *. by rewrite Hl in Hok.
Qed.

Section counting.
Context {W : Type} `{Env W}.
Implicit Types (Q : post (W:=W * store) unit).

Lemma alloc_wp o l w s (Q : post (W:=W * store) nat) :
  heap_ok s l ->
  (forall s', heap_ok s' (length (st_heap s) :: l) -> st_listening s' = st_listening s ->
     st_heap s' !! length (st_heap s) = Some (Live o 1) ->
     (forall q, (q < length (st_heap s))%nat -> st_heap s' !! q = st_heap s !! q) ->
     Q (Done (length (st_heap s))) [] (w, s')) ->
  wp (alloc o) Q (w, s).
Proof.
  intros Hok HQ. unfold alloc. apply wp_bind, wp_get. wp_simpl. apply wp_bind, wp_put. wp_simpl.
  apply wp_ret. wp_simpl. cbn [fst snd].
  assert (forall q, (q < length (st_heap s))%nat ->
    (st_heap s ++ [Live o 1]) !! q = st_heap s !! q) as Hold by (intros; by apply lookup_app_l).
  assert ((st_heap s ++ [Live o 1]) !! length (st_heap s) = Some (Live o 1)) as Hnew
    by (by rewrite lookup_app_r, Nat.sub_diag by lia).
  apply HQ; cbn; try done. intros p. cbn.
  rewrite (count_perm p _ _ (refs_cons (set_heap _ s) (length (st_heap s)) l)).
  change (refs (set_heap _ s) l) with (refs s l).
  pose proof (Hok p) as Hp.
  destruct (decide (p = length (st_heap s))) as [->|Hne].
  - rewrite lookup_ge_None_2 in Hp by done. rewrite Hnew, count_cons_eq, Hp. lia.
  - rewrite count_cons_ne by done. destruct (decide (p < length (st_heap s))%nat).
    + by rewrite Hold.
    + rewrite lookup_ge_None_2 in Hp by lia.
      rewrite lookup_ge_None_2; [done|]. rewrite length_app. cbn. lia.
Qed.

Lemma incref_wp p o n l w s Q :
  heap_ok s l -> st_heap s !! p = Some (Live o n) ->
  (forall s', heap_ok s' (p :: l) -> st_listening s' = st_listening s ->
     st_heap s' = <[p := Live o (S n)]> (st_heap s) -> Q (Done tt) [] (w, s')) ->
  wp (incref p) Q (w, s).
Proof.
  intros Hok Hp HQ. unfold incref. apply wp_bind, wp_get. wp_simpl. cbn [snd]. rewrite Hp.
  apply wp_put. apply HQ; cbn; try done. intros q. cbn.
  rewrite (count_perm q _ _ (refs_cons (set_heap _ s) p l)).
  change (refs (set_heap _ s) l) with (refs s l). pose proof (Hok q) as Hq.
  destruct (decide (q = p)) as [->|Hne].
  - rewrite list_lookup_insert_eq by (by eapply lookup_lt_Some). rewrite Hp in Hq.
    rewrite count_cons_eq. lia.
  - by rewrite list_lookup_insert_ne, count_cons_ne by done.
Qed.

(** Releasing a reference keeps the counts right, and never reaches a destroyed
    object. *)
Lemma decref_wp p l w s Q :
  heap_ok s (p :: l) ->
  (forall t w' s', heap_ok s' l -> st_listening s' = st_listening s ->
     (forall q, q <> p -> st_heap s' !! q = st_heap s !! q) ->
     (forall o' n, st_heap s' !! p = Some (Live o' n) -> exists n', st_heap s !! p = Some (Live o' n')) ->
     Q (Done tt) t (w', s')) ->
  wp (decref p) Q (w, s).
Proof.
  intros Hok HQ. destruct (heap_ok_live s p l Hok) as (o & n & Hp).
  assert (forall h, (forall q, q <> p -> h !! q = st_heap s !! q) ->
    match h !! p with
    | Some (Live _ m) => m = n /\ (0 < m)%nat
    | _ => n = 0%nat
    end -> heap_ok (set_heap h s) l) as Hnew.
  { intros h Hother Hh q. cbn. change (refs (set_heap _ s) l) with (refs s l).
    pose proof (Hok q) as Hq. rewrite (count_perm q _ _ (refs_cons s p l)) in Hq.
    destruct (decide (q = p)) as [->|Hne].
    - rewrite Hp, count_cons_eq in Hq. destruct (h !! p) as [[o' m|]|]; lia.
    - rewrite count_cons_ne in Hq by done. by rewrite Hother. }
  assert (p < length (st_heap s))%nat as Hlt by (by eapply lookup_lt_Some).
  unfold decref. apply wp_bind, wp_get. wp_simpl. cbn [snd]. rewrite Hp.
  destruct (decide (n = 0%nat)) as [->|Hn].
  - apply wp_bind, wp_put. wp_simpl.
    eapply wp_mono; [apply wp_and; [frames_apply (frames_destroy_object anywhere)|apply destroy_object_returns]|].
    intros o' t [w' s'] [(_ & Hs & _) [[] ->]]. cbn in Hs. subst s'. apply HQ; try done.
    + apply Hnew; [intros; by rewrite list_lookup_insert_ne|]. by rewrite list_lookup_insert_eq.
    + intros q Hq. cbn. by rewrite list_lookup_insert_ne.
    + intros o2 n2. cbn. by rewrite list_lookup_insert_eq.
  - apply wp_put. apply HQ; cbn; try done.
    + apply Hnew; [intros; by rewrite list_lookup_insert_ne|].
      rewrite list_lookup_insert_eq by done. lia.
    + intros q Hq. by rewrite list_lookup_insert_ne.
    + intros o2 n2. rewrite list_lookup_insert_eq by done. intros [= <- _]. eauto.
Qed.

Lemma reset_listening_wp l w s Q :
  heap_ok s l ->
  (forall t w' s', heap_ok s' l -> st_listening s' = None -> Q (Done tt) t (w', s')) ->
  wp reset_listening Q (w, s).
Proof.
  intros Hok HQ. unfold reset_listening. apply wp_bind, wp_get. wp_simpl. cbn [snd].
  destruct (st_listening s) as [p|] eqn:Hl; [|by apply wp_ret, HQ].
  apply wp_bind, wp_put. wp_simpl. cbn [fst]. eapply decref_wp with (l := l); [|by eauto].
  intros q. cbn. specialize (Hok q). unfold refs in *. cbn. by rewrite Hl in Hok.
Qed.
End counting.

(** ** Connections keep the reference counts right *)
Definition outcome_ok (L : list nat) (grp : bool) {A} (locals : A -> list nat) (o : outcome A) (s : store) : Prop :=
  match o with
  | Done a => heap_ok s (locals a ++ L) /\ kind_ok grp s
  | Throw _ => heap_ok s L /\ kind_ok grp s
  | Undefined u => u <> DANGLING
  | NoFuel => True
  end.

(** The connection code runs while the references [L] are held elsewhere. *)
Section connections.
Context `{Build} {W : Type} `{Env W} (L : list nat).

Definition safe_post (grp : bool) {A} (locals : A -> list nat) : post (W:=W * store) A :=
  fun o _ ws => outcome_ok L grp locals o ws.2.

Lemma kind_ok_none grp s : st_listening s = None -> kind_ok grp s.
Proof. intros Hl p o n Hp. congruence. Qed.

(** Code that leaves the heap alone, followed by code that keeps it right. *)
Lemma safe_frames_bind {A B} grp (m : io (W * store) A) (k : A -> io (W * store) B)
    (locals : B -> list nat) w s :
  frames anywhere DANGLING m -> heap_ok s L -> kind_ok grp s ->
  (forall a w', wp (k a) (safe_post grp locals) (w', s)) ->
  wp (bind m k) (safe_post grp locals) (w, s).
Proof.
  intros Hm Hs Hk Hcont. apply wp_bind. eapply wp_mono; [apply Hm|].
  intros o t [w' s'] (_ & Heq & Hb). cbn in Heq. subst s'.
  destruct o as [a|e|u|]; cbn; try done; try congruence; apply Hcont.
Qed.

(** A new object becomes the listening socket. *)
Lemma assign_new_wp grp o w s (Q : post (W:=W * store) unit) :
  heap_ok s L -> st_listening s = None -> is_kind grp o ->
  (forall p w' s', heap_ok s' L -> kind_ok grp s' -> st_listening s' = Some p ->
     st_heap s' !! p = Some (Live o 1) -> Q (Done tt) [] (w', s')) ->
  wp (let! p := alloc o in assign_listening p) Q (w, s).
Proof.
  intros Hok Hl Hk HQ. apply wp_bind. eapply alloc_wp; [done|]. intros s' Hok' Hl' Hnew _. wp_simpl.
  unfold assign_listening. apply wp_bind, wp_get. wp_simpl. apply wp_put. cbn [fst snd].
  eapply HQ; cbn; try done.
  - intros q. specialize (Hok' q). cbn. unfold refs in *. rewrite Hl', Hl in Hok'. exact Hok'.
  - intros q o' n [= <-]. cbn. rewrite Hnew. by intros [= <- _].
Qed.

(** Waiting for a connection: a new object for a listener, one more reference
    to the listening socket for a caller. *)
Lemma establish_wp {A} grp (is_listener : bool) (m1 : io (W * store) A) (mk : A -> object)
    (m2 : io (W * store) unit) p o n w s :
  heap_ok s L -> kind_ok grp s -> st_listening s = Some p -> st_heap s !! p = Some (Live o n) ->
  frames anywhere DANGLING m1 -> frames anywhere DANGLING m2 ->
  wp (if is_listener then let! c := m1 in alloc (mk c) else do! m2 in do! incref p in ret p)
    (fun r _ ws => match r with
       | Throw _ => ws.2 = s
       | r => outcome_ok L grp (fun q => [q]) r ws.2
       end) (w, s).
Proof.
  intros Hok Hk Hl Hp Hm1 Hm2. destruct is_listener; apply wp_bind.
  - eapply wp_mono; [apply Hm1|]. intros r t [w' s'] (_ & Heq & Hb). cbn in Heq. subst s'.
    destruct r as [c|e|u|]; wp_simpl; try done; try (cbn; congruence).
    eapply alloc_wp; [done|]. intros s' Hok' Hl' Hnew Hold. cbn. split; [done|].
    intros q o' m. rewrite Hl'. intros Hq. rewrite Hold; [by eapply Hk|].
    rewrite Hl in Hq. injection Hq as <-. by eapply lookup_lt_Some.
  - eapply wp_mono; [apply Hm2|]. intros r t [w' s'] (_ & Heq & Hb). cbn in Heq. subst s'.
    destruct r as [[]|e|u|]; wp_simpl; try done; try (cbn; congruence).
    apply wp_bind. eapply incref_wp; [done|done|]. intros s' Hok' Hl' Hh. wp_simpl. apply wp_ret. cbn.
    split; [done|]. intros q o' m. rewrite Hl', Hl. intros [= <-]. rewrite Hh.
    rewrite list_lookup_insert_eq by (by eapply lookup_lt_Some). intros [= <- _]. by eapply Hk.
Qed.

(** Dropping the listening socket at the end of a caller's connection. *)
Lemma finish_wp grp (is_listener : bool) q w s :
  heap_ok s (q :: L) -> kind_ok grp s ->
  wp (do! (if negb is_listener then reset_listening else ret tt) in ret q)
    (safe_post grp (fun q => [q])) (w, s).
Proof.
  intros Hok Hk. apply wp_bind. destruct is_listener; cbn [negb].
  { apply wp_ret. wp_simpl. by apply wp_ret. }
  eapply reset_listening_wp; [done|]. intros t w' s' Hok' Hl'.
  apply wp_ret. cbn. split; [done|]. by apply kind_ok_none.
Qed.

Lemma create_srt_connection_safe uri w s :
  heap_ok s L -> kind_ok false s ->
  wp (create_srt_connection uri) (safe_post false (fun q => [q])) (w, s).
Proof.
  intros Hok Hk. unfold create_srt_connection.
  assert (forall isl p sk n w s, heap_ok s L -> kind_ok false s -> st_listening s = Some p ->
    st_heap s !! p = Some (Live (OSrt sk) n) ->
    wp (let! '(p, s) := listening_srt in
        let accept := bool_decide (SrtSocket.mode s = SockOpts.LISTENER) in
        do! (if accept && negb isl then SrtSocket.listen s else ret tt) in
        let! connection := catch_socket
          (if accept then let! c := SrtSocket.accept s in alloc (OSrt c)
           else do! SrtSocket.connect s in do! incref p in ret p)
          (fun msg => do! reset_listening in throw (SocketException msg)) in
        do! (if negb accept then reset_listening else ret tt) in ret connection)
      (safe_post false (fun q => [q])) (w, s)) as Hrest.
  { clear. intros isl p sk n w s Hok Hk Hl Hp. unfold listening_srt, listening_object, deref.
    apply wp_bind, wp_bind, wp_bind, wp_get. wp_simpl. cbn [snd]. rewrite Hl.
    apply wp_bind, wp_bind, wp_get. wp_simpl. cbn [snd]. rewrite Hp.
    do 3 (apply wp_ret; wp_simpl).
    apply safe_frames_bind; [|done|done|].
    { destruct (_ && _); [frames_apply frames_listen|frames_apply frames_ret]. }
    intros _ w'. apply wp_bind, wp_catch.
    eapply wp_mono; [eapply (establish_wp false _ _ OSrt); [done..|frames_apply frames_accept|frames_apply frames_connect]|].
    intros r t [w2 s2] Hr. destruct r as [q|e|u|]; wp_simpl; try done.
    - destruct Hr as [Hok2 Hk2]. by apply finish_wp.
    - cbn in Hr. subst s2. destruct e; wp_simpl; cbn; try done.
      apply wp_bind. eapply reset_listening_wp; [done|]. intros t' w3 s3 Hok3 Hl3. wp_simpl.
      apply wp_throw. cbn. split; [done|]. by apply kind_ok_none. }
  unfold is_listening at 1. apply wp_bind, wp_bind, wp_get. wp_simpl. apply wp_ret. wp_simpl.
  cbn [snd]. destruct (st_listening s) as [p|] eqn:Hl; cbn [negb].
  - apply wp_bind, wp_ret. wp_simpl.
    pose proof (heap_ok_listening s L p Hok Hl) as (o & n & Hp).
    pose proof (Hk p o _ Hl Hp) as Hkind. destruct o; try done. by eapply (Hrest true).
  - apply wp_bind, wp_bind. eapply wp_mono; [frames_apply frames_srt_of_uri|].
    intros r t [w2 s2] (_ & Heq & Hb). cbn in Heq. subst s2.
    destruct r as [sk|e|u|]; wp_simpl; try done; try (cbn; congruence).
    eapply (assign_new_wp false); [done..|]. intros p w3 s3 Hok3 Hk3 Hl3 Hp3. wp_simpl.
    by eapply (Hrest false).
Qed.

Lemma create_group_connection_safe uris w s :
  heap_ok s L -> kind_ok true s ->
  wp (create_group_connection uris) (safe_post true (fun q => [q])) (w, s).
Proof.
  intros Hok Hk. unfold create_group_connection. destruct ENABLE_BONDING; [|by apply wp_throw].
  assert (forall p sk n w s, heap_ok s L -> kind_ok true s -> st_listening s = Some p ->
    st_heap s !! p = Some (Live (OGroup sk) n) ->
    wp (let! '(p, s) := listening_group in
        let accept := bool_decide (SrtGroup.mode s = SockOpts.LISTENER) in
        do! (if accept then SrtGroup.listen s else ret tt) in
        let! connection :=
          (if accept then let! c := SrtGroup.accept s in alloc (OGroup c)
           else do! SrtGroup.connect s in do! incref p in ret p) in
        do! (if negb accept then reset_listening else ret tt) in ret connection)
      (safe_post true (fun q => [q])) (w, s)) as Hrest.
  { clear. intros p sk n w s Hok Hk Hl Hp. unfold listening_group, listening_object, deref.
    apply wp_bind, wp_bind, wp_bind, wp_get. wp_simpl. cbn [snd]. rewrite Hl.
    apply wp_bind, wp_bind, wp_get. wp_simpl. cbn [snd]. rewrite Hp.
    do 3 (apply wp_ret; wp_simpl).
    apply safe_frames_bind; [|done|done|].
    { case_bool_decide; [frames_apply frames_group_listen|frames_apply frames_ret]. }
    intros _ w'. apply wp_bind.
    eapply wp_mono; [eapply (establish_wp true _ _ OGroup);
      [done..|frames_apply frames_group_accept|frames_apply frames_group_connect]|].
    intros r t [w2 s2] Hr. destruct r as [q|e|u|]; wp_simpl; try done.
    - destruct Hr as [Hok2 Hk2]. by apply finish_wp.
    - cbn in Hr. by subst s2. }
  unfold is_listening at 1. apply wp_bind, wp_bind, wp_get. wp_simpl. apply wp_ret. wp_simpl.
  cbn [snd]. destruct (st_listening s) as [p|] eqn:Hl; cbn [negb].
  - apply wp_bind, wp_ret. wp_simpl.
    pose proof (heap_ok_listening s L p Hok Hl) as (o & n & Hp).
    pose proof (Hk p o _ Hl Hp) as Hkind. destruct o; try done. by eapply Hrest.
  - apply wp_bind, wp_bind. eapply wp_mono; [frames_apply frames_group_of_uris|].
    intros r t [w2 s2] (_ & Heq & Hb). cbn in Heq. subst s2.
    destruct r as [sk|e|u|]; wp_simpl; try done; try (cbn; congruence).
    eapply (assign_new_wp true); [done..|]. intros p w3 s3 Hok3 Hk3 Hl3 Hp3. wp_simpl. by eapply Hrest.
Qed.

Lemma create_connection_safe uris w s :
  heap_ok s L -> kind_ok (is_group uris) s ->
  wp (create_connection uris) (safe_post (is_group uris) (fun q => [q])) (w, s).
Proof.
  intros Hok Hk. unfold create_connection. destruct uris as [|uri rest]; [by apply wp_throw|].
  destruct (is_group (uri :: rest)); [by apply create_group_connection_safe|].
  destruct (decide _).
  { apply safe_frames_bind; [frames_apply frames_udp_ctor|done|done|]. intros [fd c] w'.
    eapply alloc_wp; [done|]. intros s' Hok' Hl' Hnew Hold. cbn. split; [done|].
    intros q o n. rewrite Hl'. intros Hq.
    destruct (heap_ok_listening s L q Hok Hq) as (o' & n' & Hp).
    rewrite Hold by (by eapply lookup_lt_Some). by eapply Hk. }
  destruct (decide _); [by apply create_srt_connection_safe|]. by apply wp_throw.
Qed.

(** The body of the try block, up to the release of the connection. *)
Lemma deref_wp p o n w s (Q : post (W:=W * store) object) :
  st_heap s !! p = Some (Live o n) -> Q (Done o) [] (w, s) -> wp (deref p) Q (w, s).
Proof. intros Hp HQ. unfold deref. apply wp_bind, wp_get. wp_simpl. cbn [snd]. by rewrite Hp. Qed.

Lemma release_wp grp p (o : outcome unit) t w s :
  heap_ok s (p :: L) -> kind_ok grp s ->
  match o with Done _ | Throw _ => True | _ => False end ->
  wp (decref p) (fun o2 t2 w2 => match o2 with
     | Done _ => safe_post grp (fun _ => []) o (t ++ t2) w2
     | Throw e => safe_post grp (A:=unit) (fun _ => []) (Throw e) (t ++ t2) w2
     | Undefined u => safe_post grp (A:=unit) (fun _ => []) (Undefined u) (t ++ t2) w2
     | NoFuel => safe_post grp (A:=unit) (fun _ => []) NoFuel (t ++ t2) w2
     end) (w, s).
Proof.
  intros Hok Hk Ho. eapply decref_wp; [done|]. intros t2 w2 s2 Hok2 Hl2 Hother Hp.
  assert (kind_ok grp s2) as Hk2.
  { intros q ob n Hq Hlive. rewrite Hl2 in Hq. destruct (decide (q = p)) as [->|Hne].
    - destruct (Hp _ _ Hlive) as [n' Hlive']. by eapply Hk.
    - rewrite Hother in Hlive by done. by eapply Hk. }
  by destruct o.
Qed.

Lemma use_connection_safe grp stats closeListener f p w s :
  (forall c, socket_leaves anywhere c -> frames anywhere DANGLING (f c)) ->
  heap_ok s (p :: L) -> kind_ok grp s ->
  wp (use_connection stats closeListener f p) (safe_post grp (fun _ => [])) (w, s).
Proof.
  intros Hf Hok Hk. unfold use_connection. apply wp_finally.
  assert (forall w s, heap_ok s (p :: L) -> kind_ok grp s ->
    wp (let! o := deref p in
        do! (if stats then do! invoke (stats_writer_add (sock_id (as_isocket o))) in ret tt
             else ret tt) in
        do! f (as_isocket o) in
        (if stats then do! invoke (stats_writer_remove (sock_id (as_isocket o))) in ret tt
         else ret tt))
      (fun o _ ws => match o with
         | Undefined u => u <> DANGLING
         | NoFuel => True
         | _ => heap_ok ws.2 (p :: L) /\ kind_ok grp ws.2
         end) (w, s)) as Hrest.
  { clear w s Hok Hk. intros w s Hok Hk. destruct (heap_ok_live s p L Hok) as (o & n & Hp).
    apply wp_bind. eapply deref_wp; [done|]. wp_simpl.
    eapply (wp_mono _ (fun o _ ws' => anywhere w ws'.1 /\ ws'.2 = s /\ o <> Undefined DANGLING)).
    - apply (fun m => frames_bind anywhere DANGLING m _).
      + destruct stats; frames_steps.
      + intros _. frames_apply frames_bind; [apply Hf, as_isocket_leaves; tc_solve|intros _].
        destruct stats; frames_steps.
    - intros o' t [w' s'] (_ & Heq & Hb). cbn in Heq. subst s'. unfold after.
      destruct o'; try done; congruence. }
  apply wp_bind. eapply (wp_mono _ (fun o _ ws => o = Done tt /\ heap_ok ws.2 (p :: L) /\ kind_ok grp ws.2)).
  { destruct closeListener; [|by apply wp_ret].
    eapply reset_listening_wp; [done|]. intros t' w' s' Hok' Hl'. split_and!; try done.
    by apply kind_ok_none. }
  intros o t [w1 s1] (-> & Hok1 & Hk1). wp_simpl. eapply wp_mono; [by apply Hrest|].
  intros o t2 [w2 s2] Hpost. unfold after.
  destruct o as [[]|e|u|]; cbn in Hpost; try done; destruct Hpost as [Hok2 Hk2];
    by apply (release_wp grp).
Qed.

End connections.

(** ** The runner *)
Section runner_safe.
Context `{Build} {W : Type} `{Env W}.

Lemma frames_pace_step R `{!Monotone R} n : frames R DANGLING (pace_step (W:=W * store) n).
Proof. unfold pace_step. frames_steps. Qed.

(** What holds of the store between two rounds, and after an exception that the
    handler of the loop does not catch. *)
Definition settled (grp : bool) {A} (o : outcome A) (s : store) : Prop :=
  match o with
  | Throw (SocketException _) => False
  | Undefined u => u <> DANGLING
  | NoFuel => True
  | _ => heap_ok s [] /\ kind_ok grp s
  end.

Lemma pace_step_wp n w s (Q : post (W:=W * store) Z) :
  (forall n' t w', Q (Done n') t (w', s)) -> wp (pace_step n) Q (w, s).
Proof.
  intros HQ. eapply wp_mono; [apply wp_and; [apply (frames_pace_step anywhere)|]|].
  - instantiate (1 := fun o _ _ => exists n', o = Done n'). revert n.
    assert (forall n, returns (W:=W * store) (pace_step n)) as Hret; [|intros; apply Hret].
    intros n'. unfold pace_step. returns_steps.
  - intros o t [w' s'] [(_ & Heq & _) [n' ->]]. cbn in Heq. by subst s'.
Qed.

Lemma run_round_safe urls stats reconnect closeListener f n w s :
  (forall c, socket_leaves anywhere c -> frames anywhere DANGLING (f c)) ->
  heap_ok s [] -> kind_ok (is_group urls) s ->
  wp (run_round urls stats reconnect closeListener f n)
    (fun o _ ws => settled (is_group urls) o ws.2) (w, s).
Proof.
  intros Hf Hok Hk. unfold run_round. apply wp_bind, pace_step_wp. intros n' t w1. wp_simpl.
  apply wp_bind, wp_catch, wp_bind. eapply wp_mono; [by apply create_connection_safe|].
  assert (forall w s, heap_ok s [] -> kind_ok (is_group urls) s ->
    wp (let! again := (if reconnect then let! forceBreak := invoke load_break in ret (negb forceBreak)
                       else ret false) in
        ret (if again : bool then inl n' else inr tt))
      (fun o _ ws => settled (A:=Z + unit) (is_group urls) o ws.2) (w, s)) as Hend.
  { clear. intros w s Hok Hk. destruct reconnect; wp_steps; [|done].
    apply prod_answer in Hans as [_ Hs]. cbn in Hs. rewrite Hs. by destruct r. }
  intros o t2 [w2 s2] Hpost.
  assert (forall (o : outcome unit) t (w : W) s, safe_post [] (is_group urls) (fun _ => []) o t (w, s) ->
    match o with
    | Throw (SocketException _) | Done _ => heap_ok s [] /\ kind_ok (is_group urls) s
    | o => settled (is_group urls) o s
    end) as Hsafe by (by intros [[]|[]|u|]).
  destruct o as [p|e|u|]; wp_simpl.
  - destruct Hpost as [Hok2 Hk2].
    eapply wp_mono; [by apply use_connection_safe|]. intros o t3 [w3 s3] H3%Hsafe.
    destruct o as [[]|[]|u|]; wp_simpl; try done; destruct H3; by apply Hend.
  - destruct Hpost as [Hok2 Hk2]. destruct e; wp_simpl; try done. by apply Hend.
  - done.
  - done.
Qed.

Lemma heap_ok_dead s : heap_ok s [] -> st_listening s = None -> Forall (eq Dead) (st_heap s).
Proof.
  intros Hok Hl. apply Forall_lookup. intros p c Hp. specialize (Hok p).
  unfold refs in Hok. rewrite Hp, Hl in Hok. destruct c as [o n|]; [|done].
  cbn in Hok. lia.
Qed.

Lemma open_stats_wp cfg w s (Q : post (W:=W * store) (option bool)) :
  (forall r t w', Q (Done r) t (w', s)) -> wp (open_stats cfg) Q (w, s).
Proof.
  intros HQ. unfold open_stats. destruct (_ && _); wp_steps; try by apply HQ.
  all: apply prod_answer in Hans as [_ Hs]; cbn in Hs; destruct w0 as [w1 s1]; cbn in Hs; subst s1;
    apply HQ.
Qed.

Lemma parse_urls_wp urls w s (Q : post (W:=W * store) (list Uri.UriParser)) :
  (forall us, Q (Done us) [] (w, s)) -> Q NoFuel [] (w, s) ->
  wp (parse_urls urls) Q (w, s).
Proof.
  intros HQ HT. revert Q HQ HT. induction urls as [|u urls IH]; intros Q HQ HT; cbn [parse_urls];
    [by apply wp_ret|].
  apply wp_bind. unfold SrtSocket.parse_uri. destruct (Uri.Parse u Uri.EXPECT_FILE); [|exact HT].
  apply wp_ret. wp_simpl. apply wp_bind, IH; [|done]. intros us. wp_simpl. apply wp_ret. apply HQ.
Qed.

(** The loop from a settled store. *)
Lemma rounds_safe fuel urls stats reconnect closeListener f n w s :
  (forall c, socket_leaves anywhere c -> frames anywhere DANGLING (f c)) ->
  heap_ok s [] -> kind_ok (is_group urls) s ->
  wp (loop fuel (run_round urls stats reconnect closeListener f) n)
    (fun o _ ws => settled (is_group urls) o ws.2) (w, s).
Proof.
  intros Hf Hok Hk.
  apply (wp_loop (fun _ _ ws => heap_ok ws.2 [] /\ kind_ok (is_group urls) ws.2)); [done|done|].
  clear n w s Hok Hk. intros n t [w s] [Hok Hk].
  eapply wp_mono; [by apply run_round_safe|]. by intros [[n'|[]]|e|u|] t' [w' s'].
Qed.

(** Nothing dangling was used, no socket::exception is out, and no socket object
    is left alive. *)
Definition released : post (W:=W * store) unit := fun o _ ws =>
  match o with
  | Throw (SocketException _) => False
  | Done _ | Throw _ => Forall (eq Dead) (st_heap ws.2) /\ st_listening ws.2 = None
  | Undefined u => u <> DANGLING
  | NoFuel => True
  end.

(** Resource safety of common_run: whatever the URIs, the processing
    function and the behaviour of the environment, the runner never uses a
    destroyed or null socket; no socket::exception leaves it; and when it
    returns or throws, every socket object that was created has been destroyed
    and the listening socket is released. *)
Theorem common_run_safe fuel urls cfg reconnect closeListener f w :
  (forall c, socket_leaves anywhere c -> frames anywhere DANGLING (f c)) ->
  wp (common_run fuel urls cfg reconnect closeListener f)
    released (w, mk_store [] None).
Proof.
  intros Hf. unfold common_run. destruct urls as [|url urls]; [by apply wp_ret|].
  generalize (url :: urls). clear url urls. intros urls.
  apply wp_bind, open_stats_wp. intros stats t w1. destruct stats as [stats|]; wp_simpl;
    [|by apply wp_ret].
  apply wp_finally.
  eapply (wp_mono _ (fun o _ ws => exists g, settled g o ws.2)).
  - apply wp_bind, parse_urls_wp; [|by exists false]. intros us. wp_simpl.
    apply wp_bind, wp_invoke. intros t0 [w2 s2] [_ Hs]%prod_answer. cbn in Hs. subst s2. wp_simpl.
    eapply wp_mono; [by apply rounds_safe|]. intros o t2 ws Hset. by exists (is_group us).
  - intros o t2 [w2 s2] [g Hset].
    assert (heap_ok s2 [] ->
      wp (do! reset_listening in
          if stats then do! invoke stats_writer_close in ret tt else ret tt)
        (fun o2 t3 ws => o2 = Done tt /\ Forall (eq Dead) (st_heap ws.2) /\ st_listening ws.2 = None)
        (w2, s2)) as Hend.
    { intros Hok. apply wp_bind. eapply reset_listening_wp; [done|]. intros t3 w3 s3 Hok3 Hl3.
      pose proof (heap_ok_dead s3 Hok3 Hl3). wp_simpl. destruct stats; wp_steps; [|done].
      apply prod_answer in Hans as [_ Hs]. cbn in Hs. by rewrite Hs. }
    destruct o as [[]|e|u|]; try done; [|destruct e; try done];
      (eapply wp_mono; [apply Hend; apply Hset|by intros o3 t3 ws (-> & Hd & Hl)]).
Qed.
End runner_safe.

(** ** Scopes *)
Section scopes.
Context `{Build} {W : Type} `{Env W}.

(** The store after code that returns or throws; nothing dangling is used. *)
Definition leaving (P : store -> Prop) {A} : post (W:=W * store) A := fun o _ ws =>
  match o with Done _ | Throw _ => P ws.2 | Undefined u => u <> DANGLING | NoFuel => True end.

Lemma leaving_finally {A} (P P' : store -> Prop) (m : io (W * store) A) fin ws :
  wp m (leaving P) ws ->
  (forall w s, P s -> wp fin (fun o _ ws => o = Done tt /\ P' ws.2) (w, s)) ->
  wp (finally m fin) (leaving P') ws.
Proof.
  intros Hm Hfin. apply wp_finally. eapply wp_mono; [exact Hm|].
  intros o t [w s] Ho. destruct o as [a|e|u|]; try done;
    (eapply wp_mono; [by apply Hfin|]); by intros o2 t2 w2 [-> HP].
Qed.
Lemma leaving_frames {A} (P : store -> Prop) (m : io (W * store) A) w s :
  frames anywhere DANGLING m -> P s -> wp m (leaving P) (w, s).
Proof.
  intros Hm HP. eapply wp_mono; [apply Hm|]. intros o t [w' s'] (_ & Hs & Hb). cbn in Hs. subst s'.
  destruct o; try done. cbn. congruence.
Qed.

Lemma release_local p L w s :
  heap_ok s (p :: L) -> wp (decref p) (fun o _ ws => o = Done tt /\ heap_ok ws.2 L) (w, s).
Proof. intros Hok. eapply decref_wp; [done|]. by intros t w' s' Hok' _ _ _. Qed.
End scopes.

(** ** The sockets of the program *)
(** C23: every socket of the program implements the socket interface: what read
    returns is exactly what the network delivered on the endpoint, and fits the
    buffer; what write counts is exactly what was handed over; nothing else
    moves; a failure is a socket::exception. *)
Theorem object_refines {W} `{Env W} `{!SrtOk W} `{!UdpOk W} (o : object) :
  IsocketOk (as_isocket (W:=W) o).
Proof. destruct o; cbn [as_isocket]; tc_solve. Qed.

(** The endpoint of an object, in every environment. *)
Definition object_ep (o : object) : endpoint := sock_ep (@as_isocket unit (fun c w => (default_resp c, w)) o).
Lemma as_isocket_ep {W} `{Env W} o : sock_ep (as_isocket (W:=W) o) = object_ep o.
Proof. by destruct o. Qed.

(** An environment in which the library and the network behave as documented, and,
    if [whole], [o] takes every message whole. *)
Definition network (o : object) (whole : bool) (W : Type) (E : Env W) : Prop :=
  SrtOk W /\ UdpOk W /\ (whole = true -> reliable (as_isocket (W:=W) o)).
Lemma network_isocket o whole W E o' : network o whole W E -> IsocketOk (as_isocket (W:=W) o').
Proof. intros (? & ? & _). destruct o'; cbn; tc_solve. Qed.

Lemma object_refines_witness :
  wp (sock_write (as_isocket (H0 := SrtSocket.example_srt_env) (OSrt SrtSocket.example_object))
        (chars "abc") (-1)) (write_post (SrtEp 7) (chars "abc")) tt.
Proof.
  apply (object_refines (H := SrtSocket.example_srt_env) (SrtOk0 := SrtSocket.example_srt_ok)
           (UdpOk0 := SrtSocket.example_udp_ok) (OSrt SrtSocket.example_object)).
  by vm_compute.
Defined.

(** ** How often and when the runner tries *)
Section pacing.
Context `{Build} {W : Type} `{Env W}.

Lemma one_round urls stats closeListener f n :
  yields (W:=W * store) (fun r => r = inr tt) (run_round urls stats false closeListener f n).
Proof.
  unfold run_round. do 2 (eapply yields_bind; [apply yields_true|intros ? _]).
  eapply yields_bind; [by apply (yields_ret (fun b => b = false))|]. intros ? ->. by apply yields_ret.
Qed.

Lemma loop_once {W' A B} (body : A -> io W' (A + B)) fuel a w :
  yields (fun r => exists b, r = inr b) (body a) -> loop (S fuel) body a w = loop 1 body a w.
Proof.
  intros Hy. specialize (Hy w). unfold wp in Hy. cbn [loop]. unfold bind.
  destruct (body a w) as [[[r|e|u|] t] w1]; try done. destruct Hy as [b ->]. reflexivity.
Qed.

(** without [reconnect] the runner makes one attempt: more fuel than one
    round changes nothing, so it terminates when that attempt does. *)
Theorem common_run_once fuel urls cfg closeListener f w :
  common_run (S fuel) urls cfg false closeListener f w =
  common_run 1 urls cfg false closeListener f w.
Proof.
  unfold common_run. destruct urls as [|url urls]; [done|].
  apply bind_ext; [done|]. intros [stats|] w1; [|done]. apply finally_ext; [|done]. intros w2.
  apply bind_ext; [done|]. intros us w3. apply bind_ext; [done|]. intros n w4. apply loop_once.
  intros w5. eapply wp_mono; [apply one_round|]. intros [[?|?]|e|u|] t w6; naive_solver.
Qed.
End pacing.

(** What the C++ standard says of the steady clock: it never goes back, and
    sleep_until returns no earlier than the given time. *)
Class ClockOk {W} `{Env W} (clock : W -> Z) : Prop := {
  clock_mono c w r w' : answer c w = (r, w') -> clock w <= clock w';
  clock_now w t w' : answer steady_now w = (t, w') -> clock w <= t <= clock w';
  clock_sleep t w r w' : answer (sleep_until t) w = (r, w') -> t <= clock w' }.

Section clock.
Context {W : Type} `{Env W} (clock : W -> Z) `{!ClockOk clock}.

Lemma pace_step_clock n w :
  wp (pace_step n) (fun o _ w' => exists t, o = Done (t + SECOND) /\
    clock w <= t <= clock w' /\ n <= clock w') w.
Proof.
  unfold pace_step. wp_steps; apply clock_now in Hans as Ht.
  - apply clock_sleep in Hans0 as Hs. apply clock_mono in Hans0. exists r. split_and!; try done; lia.
  - exists r. split_and!; try done; lia.
Qed.

(** the pacing of the attempts: an attempt starts no earlier than one second
    after the last but one, whatever runs in between. *)
Theorem attempts_paced n0 n1 n2 n3 w0 t1 w1 w1' t2 w2 w2' t3 w3 :
  pace_step n0 w0 = (Done n1, t1, w1) -> clock w1 <= clock w1' ->
  pace_step n1 w1' = (Done n2, t2, w2) -> clock w2 <= clock w2' ->
  pace_step n2 w2' = (Done n3, t3, w3) -> clock w1 + SECOND <= clock w3.
Proof.
  intros E1 H1 E2 H2 E3.
  destruct (wp_run _ _ _ _ _ _ (pace_step_clock n1 w1') E2) as (tb & [= ->] & Hb & Hb').
  destruct (wp_run _ _ _ _ _ _ (pace_step_clock _ w2') E3) as (tc & _ & Hc & Hc'). lia.
Qed.
End clock.

(** An environment with a clock that only sleeping moves. *)
#[local] Instance clock_env : Env Z := fun c t =>
  match c as c0 return resp c0 * Z with
  | steady_now => (t, t)
  | sleep_until u => (tt, Z.max t u)
  | c => (default_resp c, t)
  end.
#[local] Instance clock_env_ok : @ClockOk Z clock_env (fun t => t).
Proof.
  split.
  - intros c w r w' Ha. destruct c; cbn in Ha; injection Ha as Hr Hw; lia.
  - intros w t w'. cbn. intros [= -> ->]. lia.
  - intros t w r w'. cbn. intros [= _ <-]. lia.
Qed.

Lemma attempts_paced_witness : 0 + SECOND <= SECOND.
Proof.
  exact (@attempts_paced Z clock_env (fun t => t) clock_env_ok 0 SECOND SECOND (2 * SECOND)
    0 [Ev steady_now 0] 0 0 [Ev steady_now 0; Ev (sleep_until SECOND) tt] SECOND SECOND
    [Ev steady_now SECOND] SECOND eq_refl ltac:(done) eq_refl ltac:(done) eq_refl).
Defined.

(** Consecutive attempts are not kept apart: when the first attempts fail at
    once, the third starts at the very time of the second. *)
Example third_attempt_immediate :
  (let! n1 := pace_step 0 in let! n2 := pace_step n1 in
   let! before := invoke steady_now in let! _ := pace_step n2 in
   let! after := invoke steady_now in ret (before, after)) 0 =
  (Done (SECOND, SECOND),
   [Ev steady_now 0; Ev steady_now 0; Ev (sleep_until SECOND) tt; Ev steady_now SECOND;
    Ev steady_now SECOND; Ev steady_now SECOND], SECOND).
Proof. reflexivity. Qed.
End Misc.
