(* ===== verification/Generate.v ===== *)
(** * Sending generated data (generate.cpp, generate.hpp)

    The "generate" command: messages of a fixed size sent at a rate, for a
    number of messages or a duration, some dropped at random. The generator of
    payloads, the pacers and the random distribution are the environment's. *)

From Stdlib Require Import ZArith Lia Ascii String SpecFloat.
From stdpp Require Import prelude strings list.
From S2P Require Import Prelude Sys Logic Socket SrtSocket Misc.

Module Generate.
Local Open Scope string_scope.
Local Open Scope list_scope.
Local Open Scope Z_scope.
Import Socket.

Record config := mk_config {
  stats_cfg : Misc.stats_config;
  sendrate : Z; num_messages : Z; duration : Z; message_size : Z;
  two_way : bool; reconnect : bool; close_listener : bool;
  enable_metrics : bool; spin_wait : bool; playback_csv : string;
  lossRate : spec_float }.

(** The variables of the for loop. *)
Record progress := mk_progress {
  pg_i : Z; pg_message : list char; pg_stat_time : Z; pg_prev_i : Z }.

Definition OVERFLOW : string := "signed integer overflow".

(** The comparison [<] of two doubles of 53 bits. *)
Definition flt (x y : spec_float) : bool :=
  match SFcompare x y with Some Lt => true | _ => false end.

(** iota from (char)0. *)
Definition iota (n : nat) : list char := (fun i => ascii_of_nat (i mod 256)) <$> seq 0 n.

Section generate.
Context {W : Type} `{Env W}.

(** Rate of the last report period, in bits per second: the product is computed
    in int, the quotients in 64 bits. *)
Definition report (n size elapsed_ns : Z) : io W Z :=
  if CInt.in_int (8 * n) && CInt.in_int (8 * n * size)
  then ret (Z.quot (8 * n * size) (Z.quot elapsed_ns 1000000) * 1000)
  else undefined OVERFLOW.

(** The increment [++i] at the end of a round. *)
Definition next_round (p : progress) : io W (progress + unit) :=
  if pg_i p <? CInt.INT_MAX
  then ret (inl (mk_progress (pg_i p + 1) (pg_message p) (pg_stat_time p) (pg_prev_i p)))
  else undefined OVERFLOW.

(** The body of the round once the message is due: the random drop, the send
    and the periodic report. *)
Definition send_message (cfg : config) (sock : isocket W) (p : progress) : io W progress :=
  let! random_value := invoke uniform_0_100 in
  if flt random_value (lossRate cfg) then ret p else
  let! message := invoke (generate_payload (pg_message p)) in
  do! sock_write sock message (-1) in
  let! tnow := invoke steady_now in
  if pg_stat_time p + Misc.SECOND <? tnow then
    do! report (pg_i p - pg_prev_i p) (message_size cfg) (tnow - pg_stat_time p) in
    ret (mk_progress (pg_i p) message tnow (pg_i p))
  else ret (mk_progress (pg_i p) message (pg_stat_time p) (pg_prev_i p)).

(** One round of the for loop, its condition included. *)
Definition pipe_round (cfg : config) (sock : isocket W) (ratepacer : bool) (num start_time : Z)
    (p : progress) : io W (progress + unit) :=
  let! go :=
    (if (num <? 0) || (pg_i p <? num)
     then let! force_break := invoke load_break in ret (negb force_break)
     else ret false) in
  if negb go then ret (inr tt) else
  do! (if ratepacer then do! invoke pacer_wait in ret tt else ret tt) in
  let! expired :=
    (if 0 <? duration cfg
     then let! tnow := invoke steady_now in
          ret (duration cfg * Misc.SECOND <? tnow - start_time)
     else ret false) in
  if expired : bool then ret (inr tt) else
  let! p' := send_message cfg sock p in next_round p'.

(** The pacer: one for the rate, one for a recording, or none. *)
Definition make_pacer (cfg : config) : io W bool :=
  let opened r := match r with Some e => throw e | None => ret true end in
  if negb (sendrate cfg =? 0) then
    let! r := invoke (pacer_open (sendrate cfg) (message_size cfg) (spin_wait cfg)) in opened r
  else if negb (String.eqb (playback_csv cfg) "") then
    let! r := invoke (csv_pacer_open (playback_csv cfg)) in opened r
  else ret false.

Definition run_pipe (fuel : nat) (cfg : config) (dst : isocket W) : io W unit :=
  if message_size cfg <? 0 then throw (StdLengthError "cannot create std::vector") else
  let message := iota (Z.to_nat (message_size cfg)) in
  let! start_time := invoke steady_now in
  let num := if 0 <? duration cfg then -1 else num_messages cfg in
  let! stat_time := invoke steady_now in
  let! ratepacer := make_pacer cfg in
  do! catch_socket
    (loop fuel (pipe_round cfg dst ratepacer num start_time)
      (mk_progress 0 message stat_time 0))
    (fun _ => ret tt) in
  do! invoke load_break in ret tt.
End generate.

(** generate::run. [fuel] bounds the attempts and [pipe_fuel] the messages of
    each. *)
Definition run `{Build} {W : Type} `{Env W} (fuel pipe_fuel : nat) (dst_urls : list string)
    (cfg : config) : io (W * Misc.store) unit :=
  Misc.common_run fuel dst_urls (stats_cfg cfg) (reconnect cfg) (close_listener cfg)
    (run_pipe pipe_fuel cfg).

(** ** What is sent *)

(** The random numbers drawn, and those that do not drop their message. *)
Definition draw_of (e : event) : option spec_float :=
  match e with Ev uniform_0_100 v => Some v | _ => None end.
Definition draws (t : list event) : list spec_float := omap draw_of t.
Definition kept (rate : spec_float) (t : list event) : list spec_float :=
  filter (fun v => flt v rate = false) (draws t).

(** Generating a payload fills the message in place. *)
Class PayloadOk (W : Type) `{Env W} : Prop :=
  payload_ok : forall d w d' w', answer (generate_payload d) w = (d', w') -> length d' = length d.

Lemma draws_app t1 t2 : draws (t1 ++ t2) = draws t1 ++ draws t2.
Proof. apply omap_app. Qed.
Lemma kept_app rate t1 t2 : kept rate (t1 ++ t2) = kept rate t1 ++ kept rate t2.
Proof. unfold kept. by rewrite draws_app, filter_app. Qed.
Lemma draws_traffic t : forallb traffic_call (calls t) = true -> draws t = [].
Proof. apply omap_only. by intros [[] r]. Qed.

Section spec.
Context {W : Type} `{Env W} `{!PayloadOk W} (cfg : config) (sock : isocket W) `{!IsocketOk sock}.
Hypothesis Hsize : 0 <= message_size cfg <= CInt.INT_MAX.

(** What a trace may have sent. *)
Definition sent_ok (t : list event) : Prop :=
  received t = [] /\
  Forall (fun m => m.1 = sock_ep sock /\ Z.of_nat (length m.2) <= message_size cfg) (sent t) /\
  (length (sent t) <= length (kept (lossRate cfg) t))%nat /\
  (reliable sock -> 0 < message_size cfg ->
     length (sent t) = length (kept (lossRate cfg) t) /\
     Forall (fun m => Z.of_nat (length m.2) = message_size cfg) (sent t)).

Lemma sent_ok_nil : sent_ok [].
Proof. repeat split; try done. Qed.
Lemma sent_ok_app t1 t2 : sent_ok t1 -> sent_ok t2 -> sent_ok (t1 ++ t2).
Proof.
  intros (R1 & F1 & L1 & E1) (R2 & F2 & L2 & E2). unfold sent_ok.
  rewrite received_app, sent_app, kept_app, R1, R2, !length_app, !Forall_app.
  split_and!; try done; [lia|]. intros Hr Hp.
  destruct (E1 Hr Hp) as [-> ?], (E2 Hr Hp) as [-> ?]. done.
Qed.

Definition sending (p : progress) : post (W:=W) progress := fun o t _ =>
  sent_ok t /\ length (draws t) = 1%nat /\
  match o with
  | Done p' => pg_i p' = pg_i p /\ Z.of_nat (length (pg_message p')) = message_size cfg
  | Throw (SocketException _) => ~ reliable sock
  | Undefined u => u = OVERFLOW
  | _ => False
  end.

(** One draw that does not drop the message, and the write. *)
Lemma sent_ok_write v d o t (w' : W) :
  flt v (lossRate cfg) = false -> forallb traffic_call (calls t) = true ->
  write_post (sock_ep sock) d o t w' -> Z.of_nat (length d) = message_size cfg ->
  (reliable sock -> o = Done (Z.of_nat (length d))) ->
  forall m, sent_ok ([Ev uniform_0_100 v; Ev (generate_payload m) d] ++ t).
Proof.
  intros Hv Ht [Hr Hw] Hd Hrel m. unfold sent_ok, kept.
  assert (draws ([Ev uniform_0_100 v; Ev (generate_payload m) d] ++ t) = [v]) as ->.
  { change (v :: draws t = [v]). by rewrite (draws_traffic t Ht). }
  rewrite filter_cons_True by done. cbn [received sent app].
  change (received (_ :: _ :: t)) with (received t). change (sent (_ :: _ :: t)) with (sent t).
  split; [done|]. destruct o as [n|[]|u|]; try done.
  - destruct Hw as [Hn ->]. split_and!.
    + destruct (0 <? n); repeat constructor. cbn. rewrite length_take. lia.
    + destruct (0 <? n); cbn; lia.
    + intros Hr' Hpos. specialize (Hrel Hr'). injection Hrel as ->.
      destruct (Z.ltb_spec 0 (Z.of_nat (length d))); [|lia]. split; [done|].
      repeat constructor. cbn. rewrite Nat2Z.id, firstn_all. done.
  - rewrite Hw. split_and!; [done|cbn; lia|]. intros Hr'. by specialize (Hrel Hr').
Qed.

Lemma send_message_wp p w :
  Z.of_nat (length (pg_message p)) = message_size cfg ->
  wp (send_message cfg sock p) (sending p) w.
Proof.
  intros Hp. unfold send_message. apply wp_bind, (wp_invoke uniform_0_100). intros v w1 _. wp_simpl.
  destruct (flt v (lossRate cfg)) eqn:Hv.
  { apply wp_ret. split; [|done]. unfold sent_ok, kept. change (draws _) with [v].
    rewrite filter_cons_False by congruence. by repeat split. }
  apply wp_bind, (wp_invoke (generate_payload _)). intros d w2 Hd. wp_simpl.
  apply (payload_ok (pg_message p)) in Hd. apply wp_bind, (reliable_write_wp sock); [lia|].
  intros o t w3 Ht Hw Hrel.
  assert (sent_ok ([Ev uniform_0_100 v; Ev (generate_payload (pg_message p)) d] ++ t)) as Hok
    by (by apply (sent_ok_write v d o t w3); [..|lia|]).
  assert (forall tail, sent_ok tail -> draws tail = [] ->
    sent_ok (([Ev uniform_0_100 v; Ev (generate_payload (pg_message p)) d] ++ t) ++ tail) /\
    length (draws (([Ev uniform_0_100 v; Ev (generate_payload (pg_message p)) d] ++ t) ++ tail)) = 1%nat)
    as Htail.
  { intros tail Htl Hdr. split; [by apply sent_ok_app|].
    rewrite !draws_app, Hdr, (draws_traffic t Ht). done. }
  destruct o as [n|[]|u|]; try (by destruct Hw).
  2: { wp_simpl. destruct (Htail [] sent_ok_nil eq_refl) as [H1 H2]. rewrite app_nil_r in H1, H2.
       split; [done|]. split; [done|]. intros Hr. by specialize (Hrel Hr). }
  wp_simpl. apply wp_bind, (wp_invoke steady_now). intros tnow w4 _. wp_simpl.
  destruct (Htail [Ev steady_now tnow] ltac:(by repeat split) eq_refl) as [H1 H2].
  rewrite <- app_assoc in H1, H2. cbn [app] in H1, H2.
  destruct (_ <? _); [|apply wp_ret; split_and!; try done; cbn; try lia].
  apply wp_bind. unfold report. destruct (_ && _); [apply wp_ret|apply wp_undefined]; wp_simpl.
  - apply wp_ret. split_and!; try done; cbn; lia.
  - by split_and!.
Qed.

(** Between two rounds: one draw per message so far. *)
Definition inv (num : Z) (p : progress) (t : list event) : Prop :=
  sent_ok t /\ Z.of_nat (length (draws t)) = pg_i p /\
  Z.of_nat (length (pg_message p)) = message_size cfg /\ (0 <= num -> pg_i p <= num).

(** After the loop. *)
Definition finish (num : Z) {A} (o : outcome A) (t : list event) : Prop :=
  sent_ok t /\ (0 <= num -> Z.of_nat (length (draws t)) <= num) /\
  match o with
  | Done _ => 0 <= num -> Ev load_break true ∉ t -> Z.of_nat (length (draws t)) = num
  | Throw (SocketException _) => ~ reliable sock
  | Undefined u => u = OVERFLOW
  | _ => False
  end.

Lemma quiet_sent_ok t : received t = [] -> sent t = [] -> draws t = [] -> sent_ok t.
Proof. intros Hr Hs Hd. unfold sent_ok, kept. by rewrite Hr, Hs, Hd. Qed.

Lemma quiet_inv num p t t' :
  inv num p t -> received t' = [] -> sent t' = [] -> draws t' = [] -> inv num p (t ++ t').
Proof.
  intros (Hok & Hd & Hm & Hi) Hr' Hs' Hd'. split; [apply sent_ok_app; [done|by apply quiet_sent_ok]|].
  by rewrite draws_app, Hd', app_nil_r.
Qed.

Definition timer_call (c : call) : bool :=
  match c with
  | pacer_wait | steady_now | load_break | pacer_open _ _ _ | csv_pacer_open _ => true
  | _ => false
  end.
Lemma timer_quiet t :
  forallb timer_call (calls t) = true -> received t = [] /\ sent t = [] /\ draws t = [].
Proof. intros Ht. split_and!; eapply omap_only; try done; by intros [[] r]. Qed.

(** The part of a round after the check of the duration. *)
Lemma round_send num p t w :
  inv num p t -> (0 <= num -> pg_i p < num) ->
  wp (let! p' := send_message cfg sock p in next_round p')
    (fun o t' _ => match o with
       | Done (inl p') => inv num p' (t ++ t') /\ pg_i p' = pg_i p + 1
       | Done (inr _) => False
       | o => finish num o (t ++ t')
       end) w.
Proof.
  intros (Hok & Hd & Hm & _) Hi. apply wp_bind. eapply wp_mono; [by apply send_message_wp|].
  intros o t1 w1 (Hok1 & Hd1 & Ho). assert (sent_ok (t ++ t1)) as Hok' by by apply sent_ok_app.
  assert (Z.of_nat (length (draws (t ++ t1))) = pg_i p + 1) as Hd2
    by (rewrite draws_app, length_app, Hd1; lia).
  assert (0 <= num -> Z.of_nat (length (draws (t ++ t1))) <= num) as Hb by lia.
  destruct o as [p'|[]|u|]; wp_simpl; try done.
  destruct Ho as [Hi1 Hm1]. unfold next_round. rewrite Hi1.
  destruct (Z.ltb_spec (pg_i p) CInt.INT_MAX); [apply wp_ret|apply wp_undefined];
    rewrite app_nil_r; [|done]. unfold inv. cbn. split_and!; try done; lia.
Qed.

Lemma round_wp pacer start num p t w :
  (0 <= num -> duration cfg <= 0) -> inv num p t ->
  wp (pipe_round cfg sock pacer num start p)
    (fun o t' _ => match o with
       | Done (inl p') => inv num p' (t ++ t') /\ pg_i p' = pg_i p + 1 /\ (0 <= num -> pg_i p < num)
       | Done (inr _) => finish num (Done tt) (t ++ t')
       | o => finish num o (t ++ t')
       end) w.
Proof.
  intros Hdur Hinv. pose proof Hinv as (Hok & Hd & Hm & Hi).
  unfold pipe_round. apply wp_bind.
  eapply (wp_mono _ (fun o t1 _ => received t1 = [] /\ sent t1 = [] /\ draws t1 = [] /\
    exists go, o = Done go /\ (go = true -> 0 <= num -> pg_i p < num) /\
      (go = false -> 0 <= num -> Ev load_break true ∈ t1 \/ pg_i p = num))).
  { destruct ((num <? 0) || (pg_i p <? num)) eqn:Hc.
    - apply wp_bind, (wp_invoke load_break). intros b w1 _. wp_simpl. apply wp_ret.
      split_and!; try done. exists (negb b). split_and!; [done|lia|]. intros Hb _. left.
      destruct b; [|done]. set_solver.
    - apply wp_ret. split_and!; try done. exists false. split_and!; [done..|]. lia. }
  intros o t1 w1 (Hr1 & Hs1 & Hd1 & go & -> & Hgo & Hstop). wp_simpl.
  pose proof (quiet_inv num p t t1 Hinv Hr1 Hs1 Hd1) as Hinv1.
  destruct go; cbn [negb].
  2: { apply wp_ret. rewrite app_nil_r. destruct Hinv1 as (Hok1 & Hd1' & _ & Hi1).
       split_and!; [done|lia|]. intros H0 Hnb. destruct (Hstop eq_refl H0); [set_solver|lia]. }
  eapply (wp_quiet_bind timer_call); [destruct pacer; only_steps|destruct pacer; returns_steps|].
  intros [] t2 w2 Ht2. destruct (timer_quiet t2 Ht2) as (Hr2 & Hs2 & Hd2).
  pose proof (quiet_inv num p _ t2 Hinv1 Hr2 Hs2 Hd2) as Hinv2. wp_simpl.
  eapply (wp_mono _ (fun o t3 w3 => match o with
     | Done (inl p') => inv num p' (((t ++ t1) ++ t2) ++ t3) /\ pg_i p' = pg_i p + 1
     | Done (inr _) => finish num (Done tt) (((t ++ t1) ++ t2) ++ t3)
     | o => finish num o (((t ++ t1) ++ t2) ++ t3) end)).
  2: { intros o t3 w3. rewrite <- !app_assoc. destruct o as [[]|e|u|]; naive_solver. }
  specialize (Hgo eq_refl). destruct (Z.ltb_spec 0 (duration cfg)) as [Hpos|Hneg].
  - apply wp_bind, wp_bind, (wp_invoke steady_now). intros tnow w3 _. wp_simpl. apply wp_ret.
    wp_simpl. pose proof (quiet_inv num p _ [Ev steady_now tnow] Hinv2 eq_refl eq_refl eq_refl) as Hinv3.
    destruct (_ <? _).
    + apply wp_ret. destruct Hinv3 as (Hok3 & Hd3 & _). split_and!; [done|lia..].
    + eapply wp_mono; [by apply (round_send num p _ w3 Hinv3)|]. intros o t3 w4. cbv beta. rewrite <- (app_assoc _ [_] t3).
      by destruct o as [[]|e|u|].
  - apply wp_bind, wp_ret. wp_simpl. eapply wp_mono; [by apply (round_send num p _ w2 Hinv2)|].
    by intros [[]|e|u|] t3 w4.
Qed.

Lemma rounds_wp fuel pacer start num p w :
  (0 <= num -> duration cfg <= 0) -> inv num p [] -> pg_i p = 0 ->
  wp (loop fuel (pipe_round cfg sock pacer num start) p)
    (fun o t _ => match o with
       | NoFuel => sent_ok t /\ (0 <= num -> Z.of_nat (length (draws t)) <= num) /\
                   ~ (0 <= num < Z.of_nat fuel)
       | o => finish num o t
       end) w.
Proof.
  intros Hdur Hinv H0. destruct (decide (0 <= num < Z.of_nat fuel)) as [Hb|Hb].
  - apply (wp_loop_bounded (fun n p t _ => inv num p t /\ Z.of_nat n = num - pg_i p) _ _ _ (Z.to_nat num));
      [lia|split; [done|lia]|].
    intros n p' t w' [Hinv' Hn]. eapply wp_mono; [by apply round_wp|].
    intros o t' w1. destruct o as [[p2|[]]|e|u|]; cbn; try done; [|by intros (_ & _ & [])].
    intros (Hi & Hp2 & Hlt). exists (n - 1)%nat. split; [lia|]. split; [done|lia].
  - apply (wp_loop (fun p t _ => inv num p t)); [done| |].
    + intros p' t w' (Hok & Hd & _ & Hi). split_and!; [done|lia|lia].
    + intros p' t w' Hinv'. eapply wp_mono; [by apply round_wp|].
      intros o t' w1. destruct o as [[p2|[]]|e|u|]; cbn; try done; [by intros [? _]|by intros (_ & _ & [])].
Qed.

(** What running the pipe promises; see [generate_spec]. *)
Definition generated (fuel : nat) : post (W:=W) unit := fun o t _ =>
  sent_ok t /\
  Z.of_nat (length (draws t)) <= num_messages cfg /\
  (reliable sock -> o = Done tt -> Ev load_break true ∉ t ->
     Z.of_nat (length (draws t)) = num_messages cfg) /\
  match o with
  | Done _ => True
  | Undefined u => u = OVERFLOW
  | Throw _ => draws t = [] /\ sent t = []
  | NoFuel => Z.of_nat fuel <= num_messages cfg
  end.

(** Calls that send nothing and draw nothing may surround the loop. *)
Lemma generated_pad fuel o t0 t t1 (w w' : W) :
  generated fuel o t w -> forallb timer_call (calls t0) = true -> forallb timer_call (calls t1) = true ->
  generated fuel o (t0 ++ t ++ t1) w'.
Proof.
  intros (Hok & Hd & Hall & Ho) (R0 & S0 & D0)%timer_quiet (R1 & S1 & D1)%timer_quiet.
  assert (draws (t0 ++ t ++ t1) = draws t) as Hdr
    by (by rewrite !draws_app, D0, D1, app_nil_r).
  assert (sent (t0 ++ t ++ t1) = sent t) as Hsent
    by (by rewrite !sent_app, S0, S1, app_nil_r).
  unfold generated. rewrite Hdr, Hsent. split_and!; [|done| |done].
  - apply sent_ok_app; [by apply quiet_sent_ok|]. apply sent_ok_app; [done|by apply quiet_sent_ok].
  - intros Hr Hdone Hnb. apply Hall; [done..|]. set_solver.
Qed.

Lemma make_pacer_wp w :
  wp (make_pacer cfg) (fun o t _ => forallb timer_call (calls t) = true /\
    match o with Done _ | Throw _ => True | _ => False end) w.
Proof.
  unfold make_pacer. destruct (negb _); [|destruct (negb _); [|by apply wp_ret]];
    (apply wp_bind, wp_invoke; intros r w1 _; wp_simpl; destruct r; [by apply wp_throw|by apply wp_ret]).
Qed.

(** C38: what generate sends: only messages of the configured size, all on the
    given socket, at most one per draw that does not drop it, and never more
    than [num_messages] when the duration is unlimited; a number of messages
    that is set is reached unless the user interrupts or a write fails. On a
    socket that takes messages whole, every message that is not dropped is sent
    whole. The only undefined behaviour is an overflow of int, the only exception
    that leaves the pipe comes from making the pacer, and a set number of
    messages ends the loop. *)
Theorem generate_spec fuel w :
  duration cfg <= 0 -> 0 <= num_messages cfg ->
  wp (run_pipe fuel cfg sock) (generated fuel) w.
Proof.
  intros Hdur Hnum. unfold run_pipe.
  destruct (Z.ltb_spec (message_size cfg) 0); [lia|]. destruct (Z.ltb_spec 0 (duration cfg)); [lia|].
  apply wp_bind, (wp_invoke steady_now). intros start w1 _. wp_simpl.
  apply wp_bind, (wp_invoke steady_now). intros stat w2 _. wp_simpl.
  set (t0 := [Ev steady_now start; Ev steady_now stat]).
  apply wp_bind. eapply wp_mono; [apply make_pacer_wp|]. intros o tp w3 [Htp Hpacer].
  assert (forallb timer_call (calls (t0 ++ tp)) = true) as Ht0 by by rewrite calls_app, forallb_app, Htp.
  assert (forall o t w w', generated fuel o t w -> generated fuel o (t0 ++ tp ++ t) w') as Hpad.
  { intros o' t w4 w' Hg. rewrite app_assoc, <- (app_nil_r t). by eapply generated_pad. }
  assert (forall e, generated fuel (Throw e) [] w3) as Hthrow.
  { intros e. by split_and!. }
  destruct o as [ratepacer|e|u|]; wp_simpl; try done.
  2: { rewrite <- (app_nil_r tp). by apply (Hpad _ [] w3). }
  assert (inv (num_messages cfg) (mk_progress 0 (iota (Z.to_nat (message_size cfg))) stat 0) []) as Hinv.
  { split; [apply sent_ok_nil|]. split_and!; [done| |done].
    cbn. unfold iota. rewrite length_fmap, length_seq. lia. }
  assert (forall (t : list event) (w3 : W), generated fuel (Done tt) t w3 ->
    wp (do! invoke load_break in ret tt)
      (fun o t2 w' => generated fuel o (t0 ++ tp ++ t ++ t2) w') w3) as Hend.
  { intros t w4 Hg. apply wp_bind, (wp_invoke load_break). intros b w5 _. wp_simpl. apply wp_ret.
    apply (Hpad _ _ w4). by apply (generated_pad fuel _ [] t [_] w4). }
  apply wp_bind, wp_catch. eapply wp_mono; [by apply rounds_wp|].
  intros o t w4 Hpost. destruct o as [[]|[]|u|]; try by destruct Hpost as (_ & _ & []).
  all: destruct Hpost as (Hok & Hd & Ho); wp_simpl.
  - apply Hend. split_and!; try done; auto.
  - apply wp_ret. rewrite app_nil_r. apply Hend. by split_and!; auto.
  - apply (Hpad _ t w4). by split_and!; auto.
  - apply (Hpad _ t w4). split_and!; auto; [done|lia].
Qed.
End spec.


(** A run on a library that always succeeds: three messages of four bytes. *)
Definition example_cfg : config :=
  mk_config (Misc.mk_stats_config 0 "" "csv") 0 3 0 4 false false false false false ""
    (S754_zero false).
Definition sock7 : isocket unit :=
  Misc.as_isocket (H0 := SrtSocket.example_srt_env) (Misc.OSrt SrtSocket.example_object).
Example run_pipe_three :
  (let '(o, t, _) := run_pipe (H := SrtSocket.example_srt_env) 4 example_cfg sock7 tt in (o, sent t)) =
  (Done tt, repeat (SrtEp 7, iota 4) 3).
Proof. vm_compute. reflexivity. Qed.

Lemma generate_spec_witness :
  wp (run_pipe (H := SrtSocket.example_srt_env) 4 example_cfg sock7) (generated example_cfg sock7 4) tt.
Proof.
  assert (PayloadOk unit (H := SrtSocket.example_srt_env)) by (by intros d [] d' [] [= <-]).
  assert (IsocketOk sock7) by apply (SrtSocket.srt_isocket_ok (SrtOk0 := SrtSocket.example_srt_ok)).
  by apply (generate_spec (H := SrtSocket.example_srt_env)).
Defined.

(** The pipe leaves the store of the runner alone. *)
Lemma frames_run_pipe {W} `{Env W} R `{!Monotone R} fuel cfg sock :
  Misc.socket_leaves R sock -> frames (W:=W) (S:=Misc.store) R Misc.DANGLING (run_pipe fuel cfg sock).
Proof.
  intros [_ Hw]. unfold run_pipe, make_pacer. frames_steps.
  unfold pipe_round, send_message, report, next_round. frames_steps; apply Hw.
Qed.

Lemma generate_released `{Build} {W} `{Env W} fuel pipe_fuel dst_urls cfg (w : W) :
  wp (run fuel pipe_fuel dst_urls cfg) Misc.released (w, Misc.mk_store [] None).
Proof. apply Misc.common_run_safe. intros c Hc. by apply frames_run_pipe, Hc. Qed.
End Generate.
