(* ===== verification/Receive.v ===== *)
(** * Receiving data (receive.cpp, receive.hpp)

    The "receive" command: messages are read, checked by the metrics validator
    (whose header is not in the repository) and answered, while a second thread
    writes the metrics. The two threads share the validator under a mutex; the
    code of each is modelled, the starting and joining of the thread are calls of
    the environment. *)

From Stdlib Require Import ZArith Lia Ascii String.
From stdpp Require Import prelude strings list.
From S2P Require Import Prelude Sys Logic Threads Socket SrtSocket Misc Generate.

Module Receive.
Local Open Scope string_scope.
Local Open Scope list_scope.
Local Open Scope Z_scope.
Import Socket.

Record config := mk_config {
  stats_cfg : Misc.stats_config;
  print_notifications : bool; send_reply : bool; reconnect : bool; close_listener : bool;
  enable_metrics : bool; metrics_freq_ms : Z; metrics_file : string;
  max_connections : Z; message_size : Z }.

Definition outMessage : list char := chars "Message received".
Definition METRICS_STOP : string := "metricsStop".
Definition METRICS : string := "metricsWritingLoop".

Section receive.
Context {W : Type} `{Env W}.

(** The thread that writes the metrics, with the time of the next report. The flag
    it is given is metricsStop, a local variable of the thread that starts it. *)
Definition metrics_round (is_open : bool) (freq_ms statTime : Z) : io W (Z + unit) :=
  let! stop := invoke (load_flag METRICS_STOP) in
  if stop : bool then ret (inr tt) else
  let! tnow := invoke steady_now in
  let! statTime' :=
    (if statTime <=? tnow then
       do! (if is_open then
              let! s := invoke (validator_csv false) in
              do! invoke (file_write (chars s)) in ret tt
            else do! invoke validator_stats in ret tt) in
       ret (statTime + freq_ms * 1000000)
     else ret statTime) in
  do! invoke (sleep_until statTime') in ret (inl statTime').

Definition metricsWritingLoop (fuel : nat) (is_open : bool) (freq_ms : Z) : io W unit :=
  let! statTime := invoke steady_now in
  loop fuel (metrics_round is_open freq_ms) statTime.

(** What is done with a message. traceMessage and the log only print. *)
Definition process_message (cfg : config) (sock : isocket W) (data : list char) : io W unit :=
  do! (if enable_metrics cfg then do! invoke (validate_packet data) in ret tt else ret tt) in
  if send_reply cfg then do! sock_write sock outMessage (-1) in ret tt else ret tt.

Definition read_round (cfg : config) (sock : isocket W) (_ : unit) : io W (unit + unit) :=
  let! forceBreak := invoke load_break in
  if forceBreak : bool then ret (inr tt) else
  let! '(bytes, data) := sock_read sock (message_size cfg) (-1) in
  if bytes =? 0 then ret (inl tt) else
  do! process_message cfg sock data in ret (inl tt).

(** The metrics file and the metrics thread: [None] when the file cannot be
    opened; otherwise whether the file is open and the thread runs. *)
Definition start_metrics (cfg : config) : io W (option (bool * bool)) :=
  if enable_metrics cfg && (0 <? metrics_freq_ms cfg) then
    let! file :=
      (if negb (String.eqb (metrics_file cfg) "") then
         let! ok := invoke (file_open_out (metrics_file cfg)) in
         if ok : bool then
           let! header := invoke (validator_csv true) in
           do! invoke (file_write (chars header)) in ret (Some true)
         else ret None
       else ret (Some false)) in
    match file with
    | None => ret None
    | Some is_open => do! invoke (async_start METRICS) in ret (Some (is_open, true))
    end
  else ret (Some (false, false)).

Definition runPipe (fuel : nat) (cfg : config) (src : isocket W) : io W unit :=
  if message_size cfg <? 0 then throw (StdLengthError "cannot create std::vector") else
  let! metrics := start_metrics cfg in
  match metrics with
  | None => ret tt
  | Some (is_open, metricsTh) =>
      finally
        (do! catch_socket (loop fuel (read_round cfg src) tt) (fun _ => ret tt) in
         do! invoke (store_flag METRICS_STOP true) in
         do! (if metricsTh : bool then do! invoke (async_wait METRICS) in ret tt else ret tt) in
         do! invoke load_break in ret tt)
        (if is_open : bool then do! invoke file_close in ret tt else ret tt)
  end.
End receive.

Definition run `{Build} {W : Type} `{Env W} (fuel pipe_fuel : nat) (srcUrls : list string)
    (cfg : config) : io (W * Misc.store) unit :=
  Misc.common_run fuel srcUrls (stats_cfg cfg) (reconnect cfg) (close_listener cfg)
    (runPipe pipe_fuel cfg).

(** ** What the pipe does with the messages it receives *)
Definition validated_of (e : event) : option (list char) :=
  match e with Ev (validate_packet d) _ => Some d | _ => None end.
Definition validated (t : list event) : list (list char) := omap validated_of t.

(** Every message received fits the buffer, is not empty, goes through the
    validator once, in order, when metrics are on, and is answered once when
    replies are on, on the same socket; [whole] tells that the socket takes every
    message whole. *)
Definition handled_at (cfg : config) (ep : endpoint) (whole : Prop) (t : list event) : Prop :=
  Forall (fun m => m.1 = ep /\ 0 < Z.of_nat (length m.2) <= message_size cfg) (received t) /\
  validated t = (if enable_metrics cfg then (received t).*2 else []) /\
  Forall (fun m => m.1 = ep /\ exists n, m.2 = take n outMessage) (sent t) /\
  (length (sent t) <= if send_reply cfg then length (received t) else 0)%nat /\
  (whole -> sent t = if send_reply cfg then (fun m => (m.1, outMessage)) <$> received t else []).

Section spec.
Context {W : Type} `{Env W} (cfg : config) (sock : isocket W) `{!IsocketOk sock}.
Hypothesis Hsize : 0 <= message_size cfg <= CInt.INT_MAX.

Definition handled : list event -> Prop := handled_at cfg (sock_ep sock) (reliable sock).

#[global] Instance handled_closed : Closed handled.
Proof.
  split; [unfold handled, handled_at; cbn; destruct (enable_metrics cfg), (send_reply cfg); by split_and!|].
  intros t1 t2 (F1 & V1 & S1 & L1 & R1) (F2 & V2 & S2 & L2 & R2). unfold handled, handled_at.
  unfold validated in *. rewrite received_app, sent_app, omap_app, !Forall_app, V1, V2, !length_app.
  split_and!; try done.
  - destruct (enable_metrics cfg); [by rewrite fmap_app|done].
  - destruct (send_reply cfg); lia.
  - intros Hr. rewrite (R1 Hr), (R2 Hr). destruct (send_reply cfg); [by rewrite fmap_app|done].
Qed.

Lemma handled_quiet t : received t = [] -> sent t = [] -> validated t = [] -> handled t.
Proof.
  intros Hr Hs Hv. unfold handled, handled_at. rewrite Hr, Hs, Hv.
  destruct (enable_metrics cfg), (send_reply cfg); by split_and!.
Qed.

(** A message received as [d] and then processed, with what the write did. *)
Lemma handled_message d tr tp :
  received tr = [(sock_ep sock, d)] -> sent tr = [] -> validated tr = [] ->
  0 < Z.of_nat (length d) <= message_size cfg ->
  received tp = [] -> validated tp = (if enable_metrics cfg then [d] else []) ->
  (if send_reply cfg
   then (sent tp = [] /\ ~ reliable sock) \/ exists n, sent tp = [(sock_ep sock, take n outMessage)] /\
          (reliable sock -> take n outMessage = outMessage)
   else sent tp = []) ->
  handled (tr ++ tp).
Proof.
  intros Hr Hs Hv Hd Hr' Hv' Hs'. unfold handled, handled_at, validated in *.
  rewrite received_app, sent_app, omap_app, Hr, Hs, Hv, Hr', Hv'. cbn [app].
  split_and!.
  - by apply Forall_singleton.
  - by destruct (enable_metrics cfg).
  - destruct (send_reply cfg); [|by rewrite Hs'].
    destruct Hs' as [[-> _]|(n & -> & _)]; [done|]. apply Forall_singleton. split; [done|]. by exists n.
  - destruct (send_reply cfg); [|by rewrite Hs']. destruct Hs' as [[-> _]|(n & -> & _)]; cbn; lia.
  - intros Hrel. destruct (send_reply cfg); [|done].
    destruct Hs' as [[_ []]|(n & -> & Hn)]; [done|]. by rewrite Hn.
Qed.

Lemma validated_traffic t : forallb traffic_call (calls t) = true -> validated t = [].
Proof. apply omap_only. by intros [[] r]. Qed.

(** What processing a message does. *)
Lemma process_message_wp d w :
  wp (process_message cfg sock d) (fun o t _ =>
    received t = [] /\ validated t = (if enable_metrics cfg then [d] else []) /\
    (if send_reply cfg
     then (sent t = [] /\ ~ reliable sock) \/ exists n, sent t = [(sock_ep sock, take n outMessage)] /\
            (reliable sock -> take n outMessage = outMessage)
     else sent t = []) /\
    match o with Done _ => True | Throw e => socket_exn e | _ => False end) w.
Proof.
  unfold process_message. apply wp_bind.
  eapply (wp_mono _ (fun o t _ => o = Done tt /\ received t = [] /\ sent t = [] /\
    validated t = (if enable_metrics cfg then [d] else []))).
  { destruct (enable_metrics cfg); [|by apply wp_ret].
    apply wp_bind, (wp_invoke (validate_packet d)). intros [] w1 _. by apply wp_ret. }
  intros o t w1 (-> & Hr & Hs & Hv). wp_simpl. destruct (send_reply cfg).
  2: { apply wp_ret. by rewrite app_nil_r. }
  apply wp_bind, (reliable_write_wp sock); [done|]. intros o t2 w2 Ht2 [Hr2 Hw] Hrel.
  assert (forall o : outcome unit, match o with Done _ => True | Throw e => socket_exn e | _ => False end ->
    (sent t2 = [] /\ ~ reliable sock) \/ (exists n, sent t2 = [(sock_ep sock, take n outMessage)] /\
       (reliable sock -> take n outMessage = outMessage)) ->
    received (t ++ t2) = [] /\
    validated (t ++ t2) = (if enable_metrics cfg then [d] else []) /\
    ((sent (t ++ t2) = [] /\ ~ reliable sock) \/
      (exists n, sent (t ++ t2) = [(sock_ep sock, take n outMessage)] /\
       (reliable sock -> take n outMessage = outMessage))) /\
    match o with Done _ => True | Throw e => socket_exn e | _ => False end) as Hend.
  { intros o' Ho Hsent. unfold validated in *.
    rewrite received_app, sent_app, omap_app, Hr, Hs, Hr2, Hv. fold (validated t2).
    rewrite (validated_traffic t2 Ht2), !app_nil_r. by split_and!. }
  destruct o as [n|[]|u|]; wp_simpl; try done.
  - apply wp_ret. rewrite app_nil_r. apply (Hend (Done tt)); [done|]. destruct Hw as [Hn ->].
    destruct (Z.ltb_spec 0 n); [right|left].
    + exists (Z.to_nat n). split; [done|]. intros Hrl. by injection (Hrel Hrl) as ->.
    + split; [done|]. intros Hrl. injection (Hrel Hrl) as Hlen.
      change (Z.of_nat (length outMessage)) with 16 in Hlen. lia.
  - apply (Hend (Throw (SocketException msg))); [done|]. left. split; [done|]. intros Hrl. by specialize (Hrel Hrl).
Qed.

Lemma read_round_ensures a : ensures handled socket_exn (read_round cfg sock a).
Proof.
  unfold read_round. apply ensures_bind; [tc_solve| |].
  { apply (ensures_invoke _ _ load_break). intros. by apply handled_quiet. }
  intros []; [apply ensures_ret; tc_solve|].
  intros w. apply wp_bind, (read_wp sock); [done|]. intros o t w1 Ht [Hs Hr].
  pose proof (validated_traffic t Ht) as Hv.
  destruct o as [[n d]|[]|u|]; wp_simpl; try done.
  2: { split; [|done]. by apply handled_quiet. }
  destruct Hr as (Hn & Hcap & Hr). destruct (Z.eqb_spec n 0) as [Hz|Hz].
  { apply wp_ret. rewrite app_nil_r. split; [|done]. apply handled_quiet; try done. by rewrite Hz in Hr. }
  destruct (Z.ltb_spec 0 n); [|lia].
  apply wp_bind. eapply wp_mono; [apply process_message_wp|].
  intros o t2 w2 (Hr2 & Hv2 & Hs2 & Ho).
  assert (handled (t ++ t2)) as Hh by (apply (handled_message d); try done; lia).
  destruct o as [[]|e|u|]; wp_simpl; try done. apply wp_ret. by rewrite app_nil_r.
Qed.

Lemma start_metrics_ensures : ensures handled no_exn (start_metrics cfg).
Proof. unfold start_metrics. ensures_steps; by apply handled_quiet. Qed.

Lemma runPipe_ensures fuel : ensures handled no_exn (runPipe fuel cfg sock).
Proof.
  unfold runPipe. destruct (Z.ltb_spec (message_size cfg) 0); [lia|].
  apply ensures_bind; [tc_solve|apply start_metrics_ensures|]. intros [[is_open metricsTh]|];
    ensures_steps; try (by apply handled_quiet); apply read_round_ensures.
Qed.

(** C40: what receive does: every message it receives is non-empty and fits the
    buffer, goes through the validator exactly once and in order when metrics
    are enabled, and is answered at most once when replies are on (exactly
    once, on a socket that takes messages whole); nothing else is validated or
    sent. The pipe has no undefined behaviour, and no exception leaves it. *)
Theorem receive_spec fuel : ensures handled no_exn (runPipe fuel cfg sock).
Proof. apply runPipe_ensures. Qed.
End spec.

(** Two rounds on a library that always delivers "hello", with replies. *)
Definition example_cfg : config :=
  mk_config (Misc.mk_stats_config 0 "" "csv") false true false false true 1000 "" 1 1316.
Definition sock7 : isocket unit :=
  Misc.as_isocket (H0 := SrtSocket.example_srt_env) (Misc.OSrt SrtSocket.example_object).
Example runPipe_twice :
  (let '(o, t, _) := runPipe (H := SrtSocket.example_srt_env) 2 example_cfg sock7 tt in
   (o, (received t).*2, validated t, (sent t).*2)) =
  (NoFuel, [chars "hello"; chars "hello"], [chars "hello"; chars "hello"], [outMessage; outMessage]).
Proof. vm_compute. reflexivity. Qed.

Lemma receive_spec_witness :
  ensures (handled example_cfg sock7) no_exn (runPipe (H := SrtSocket.example_srt_env) 2 example_cfg sock7).
Proof.
  assert (IsocketOk sock7) by apply (SrtSocket.srt_isocket_ok (SrtOk0 := SrtSocket.example_srt_ok)).
  by apply (receive_spec (H := SrtSocket.example_srt_env)).
Defined.

(** ** The two threads *)

(** A report of the metrics thread. *)
Definition metrics_report (e : event) : bool :=
  match ev_call e with validator_csv false | validator_stats => true | _ => false end.
Definition metrics_call (c : call) : bool :=
  match c with
  | load_flag _ | steady_now | validator_csv _ | validator_stats | file_write _ | sleep_until _ => true
  | _ => false
  end.
(** The first thread stores true in flags only, and looks at none; it writes the
    header of the metrics, no reports. *)
Definition pipe_call (c : call) : bool :=
  match c with
  | load_flag _ | validator_csv false | validator_stats => false
  | store_flag _ v => v
  | _ => true
  end.

Section threads.
Context {W : Type} `{Env W}.

Lemma metrics_round_going is_open freq st w :
  wp (metrics_round is_open freq st) (Threads.going METRICS_STOP metrics_report) w.
Proof.
  unfold metrics_round. apply wp_bind, (wp_invoke (load_flag METRICS_STOP)). intros stop w1 _. wp_simpl.
  destruct stop.
  { apply wp_ret. split; [done|]. apply Threads.helper_end; [done|by constructor]. }
  wp_steps; split; try done; split; cbn; done || lia.
Qed.

Lemma metrics_calls fuel is_open freq : only metrics_call (metricsWritingLoop (W:=W) fuel is_open freq).
Proof. unfold metricsWritingLoop, metrics_round. only_steps. Qed.
Lemma metrics_loop_helper fuel is_open freq w :
  wp (metricsWritingLoop fuel is_open freq) (fun o t _ =>
    forallb metrics_call (calls t) = true /\ Threads.stores METRICS_STOP t = [] /\
    Threads.helper METRICS_STOP metrics_report t /\
    (o = NoFuel -> Threads.loads METRICS_STOP t = repeat false fuel)) w.
Proof.
  apply wp_and; [apply metrics_calls|]. unfold metricsWritingLoop. apply wp_bind, wp_invoke. intros st w1 _. wp_simpl.
  eapply wp_mono; [apply (Threads.helper_loop METRICS_STOP metrics_report), metrics_round_going|].
  intros o t w2 (Hs & Hh & Hl). split; [exact Hs|]. split; [|exact Hl].
  by apply (Threads.helper_quiet METRICS_STOP metrics_report [Ev steady_now st]).
Qed.

Lemma pipe_calls fuel cfg (sock : isocket W) `{!IsocketOk sock} : only pipe_call (runPipe fuel cfg sock).
Proof.
  assert (forall {A} (m : io W A), only traffic_call m -> only pipe_call m) as Ht.
  { intros A m. apply only_weaken. by intros []. }
  unfold runPipe, start_metrics, read_round, process_message. only_steps; apply Ht; apply read_calls || apply write_calls.
Qed.
Lemma pipe_flags t : forallb pipe_call (calls t) = true ->
  Forall (eq true) (Threads.stores METRICS_STOP t) /\ Threads.loads METRICS_STOP t = [] /\
  Threads.reports metrics_report t = 0%nat.
Proof.
  unfold Threads.stores, Threads.loads, Threads.reports.
  induction t as [|[c r] t IH]; [by repeat constructor|]. cbn [calls fmap list_fmap forallb ev_call].
  intros [Hc Ht]%andb_true_iff. destruct (IH Ht) as (Hs & Hl & Hr).
  destruct c; cbn in Hc |- *; try done; [|destruct header; done].
  destruct v; [|done]. destruct (String.eqb flag METRICS_STOP); split_and!; auto.
Qed.
End threads.

(** C16: receive with the thread that writes its metrics, under every interleaving
    of their calls. The messages are handled as they are without that thread: each
    one validated once, in order, and answered at most once. Once the receiving
    loop has ended and the flag is set the metrics thread makes at most one more
    report, and it ends: it has not ended only if it ran no more rounds than it
    looked at the flag before. *)
Theorem receive_with_metrics cfg obj whole fuel1 fuel2 is_open o1 o2 t1 t2 t :
  0 <= message_size cfg <= CInt.INT_MAX ->
  Threads.runs_as (Misc.network obj whole) (fun W E => runPipe fuel1 cfg (Misc.as_isocket obj)) o1 t1 ->
  Threads.runs_as (fun _ _ => True) (fun W E => metricsWritingLoop fuel2 is_open (metrics_freq_ms cfg)) o2 t2 ->
  Threads.merge t1 t2 t -> Threads.coherent METRICS_STOP false t = true ->
  handled_at cfg (Misc.object_ep obj) (whole = true) t /\
  forall a b, t = a ++ Ev (store_flag METRICS_STOP true) tt :: b ->
    (Threads.reports metrics_report b <= 1)%nat /\
    (o2 = NoFuel -> (fuel2 <= length (Threads.loads METRICS_STOP a))%nat).
Proof.
  intros Hsize (W1 & E1 & w1 & w1' & Hnet & Hrun1) (W2 & E2 & w2 & w2' & _ & Hrun2) Hm Hc.
  pose proof (Misc.network_isocket _ _ _ _ obj Hnet) as Hok. destruct Hnet as (_ & _ & Hw).
  destruct (wp_run _ _ _ _ _ _ (runPipe_ensures cfg _ Hsize fuel1 w1) Hrun1) as [(Hr & Hv & Hs & Hl & Hrel) _].
  destruct (wp_run _ _ _ _ _ _ (metrics_loop_helper fuel2 is_open _ w2) Hrun2) as (Hcalls & Hst & Hh & Hlast).
  rewrite Misc.as_isocket_ep in *. split.
  - assert (received t = received t1 /\ sent t = sent t1 /\ validated t = validated t1) as (Er & Es & Ev).
    { split_and!; (eapply Threads.merge_view; [exact Hm|]); (eapply omap_only; [|exact Hcalls]); by intros [[] ?]. }
    unfold handled_at. rewrite Er, Es, Ev. split_and!; [done..|]. intros Hwhole. auto.
  - intros a b E. destruct (pipe_flags t1) as (Hst1 & Hl1 & Hr1).
    { exact (wp_run _ _ _ _ _ _ (pipe_calls fuel1 cfg _ w1) Hrun1). }
    destruct (Threads.told_to_stop METRICS_STOP metrics_report t1 t2 t a b) as [Hrep Hlen]; [done..|].
    split; [done|]. intros Ho2. rewrite (Hlast Ho2), Threads.length_unset in Hlen. exact Hlen.
Qed.

(** One message comes in, then the connection is lost; the metrics thread makes its
    first report before that, and then finds the flag set. *)
Definition pipe_env : Env nat := fun c k =>
  match c as c0 return resp c0 * nat with
  | srt_recvmsg2 _ cap =>
      match k with
      | O => ((SRT_ERROR, []), O)
      | S k' => (if 5 <=? cap then (5, chars "hello") else (SRT_ERROR, []), k')
      end
  | c => (SrtSocket.example_srt c, k)
  end.
Definition flags_env : Env (list bool) := fun c l =>
  match c as c0 return resp c0 * list bool with
  | load_flag _ => (default true (head l), tail l)
  | c => (default_resp c, l)
  end.
Definition metrics_cfg : config :=
  mk_config (Misc.mk_stats_config 0 "" "csv") false false false false true 1000 "" 1 1316.
Definition example_object : Misc.object := Misc.OSrt SrtSocket.example_object.
Definition pipe_trace : list event :=
  let '(_, t, _) := runPipe (H := pipe_env) 3 metrics_cfg (Misc.as_isocket (H0 := pipe_env) example_object) 1%nat in t.
Definition metrics_trace : list event :=
  let '(_, t, _) := metricsWritingLoop (H := flags_env) 3 false 1000 [false] in t.
Definition both_traces : list event :=
  ((Threads.until_stop pipe_trace).1 ++ (Threads.until_stop metrics_trace).1) ++
  ((Threads.until_stop pipe_trace).2 ++ (Threads.until_stop metrics_trace).2).

Lemma receive_with_metrics_witness :
  validated both_traces = [chars "hello"] /\ Threads.reports metrics_report both_traces = 1%nat /\
  handled_at metrics_cfg (SrtEp 7) (false = true) both_traces.
Proof.
  split; [vm_compute; reflexivity|]. split; [vm_compute; reflexivity|].
  apply (receive_with_metrics metrics_cfg example_object false 3 3 false (Done tt) (Done tt) pipe_trace metrics_trace).
  - by vm_compute.
  - exists nat, pipe_env, 1%nat, 0%nat. split; [|vm_compute; reflexivity].
    split; [|split; [|discriminate]].
    + split; intros s; unfold answer, pipe_env.
      * intros cap [|k] r d w' Ha; [injection Ha as <- <- <-; by left|]. revert Ha.
        destruct (Z.leb_spec 5 cap); intros [= <- <- <-]; [right|by left]. cbn. lia.
      * intros data len k r w' Ha. revert Ha. cbn. destruct (Z.leb_spec 0 len); intros [= <- <-]; [right|by left]. lia.
    + split; intros fd ? ? k; unfold answer, pipe_env; cbn.
      * intros n d w' Hcap [= <- <- <-]. cbn. lia.
      * intros n w' [= <- <-]. lia.
  - exists (list bool), flags_env, [false], []. split; [done|vm_compute; reflexivity].
  - apply Threads.until_stop_merge.
  - vm_compute. reflexivity.
Defined.

(** ** The commands end to end *)
Lemma frames_runPipe {W} `{Env W} R `{!Monotone R} fuel cfg sock :
  Misc.socket_leaves R sock -> frames (W:=W) (S:=Misc.store) R Misc.DANGLING (runPipe fuel cfg sock).
Proof.
  intros [Hr Hw]. unfold runPipe, start_metrics. frames_steps.
  unfold read_round, process_message. frames_steps; (apply Hr || apply Hw).
Qed.

(** Whatever the URLs, the configuration and the behaviour of the network, the
    command uses no destroyed or null socket object, lets no socket::exception
    out, and leaves no socket object alive. *)
Lemma receive_released `{Build} {W} `{Env W} fuel pipe_fuel src_urls cfg (w : W) :
  wp (run fuel pipe_fuel src_urls cfg) Misc.released (w, Misc.mk_store [] None).
Proof. apply Misc.common_run_safe. intros c Hc. by apply frames_runPipe, Hc. Qed.
End Receive.
