(* ===== verification/Route.v ===== *)
(** * Routing between two connections (route.cpp, route.hpp)

    The "route" command reads messages from one connection and writes them to
    another, and in its bidirectional mode back again in a second thread. The
    loop that forwards is modelled once; the second thread runs the same loop
    with the sockets exchanged. In the command its start and end are calls of the
    environment; what both threads do together is the subject of [bidirectional]. *)

From Stdlib Require Import ZArith Lia Ascii String.
From stdpp Require Import prelude strings list.
From S2P Require Import Prelude Sys Logic Threads Socket Uri SockOpts SrtSocket Misc.

Module Route.
Local Open Scope string_scope.
Local Open Scope list_scope.
Local Open Scope Z_scope.
Import Socket.

Record config := mk_config {
  message_size : Z; bidir : bool; close_listener : bool; stats_cfg : Misc.stats_config }.

Definition BACKWARD : string := "route [DST->SRC]".
Definition INVALID_FUTURE : string := "wait on a future without a shared state".

Section route.
Context {W : Type} `{Env W}.

(** One round of the loop; what the write returns is only logged. *)
Definition route_round (cfg : config) (sock_src sock_dst : isocket W) (_ : unit)
  : io W (unit + unit) :=
  let! force_break := invoke load_break in
  if force_break : bool then ret (inr tt) else
  let! '(bytes_read, data) := sock_read sock_src (message_size cfg) (-1) in
  if bytes_read =? 0 then ret (inl tt) else
  let! bytes_sent := sock_write sock_dst data (-1) in
  ret (inl tt).

Definition route (fuel : nat) (cfg : config) (src dst : isocket W) : io W unit :=
  if message_size cfg <? 0 then throw (StdLengthError "cannot create std::vector") else
  loop fuel (route_round cfg src dst) tt.
End route.

Section run.
Context `{Build} {W : Type} `{Env W}.

(** Moves the listening socket out of its variable. *)
Definition take_listening : io (W * Misc.store) (option nat) :=
  let! s := get in
  do! put (Misc.set_listening None s) in ret (Misc.st_listening s).
Definition release (p : option nat) : io (W * Misc.store) unit :=
  match p with None => ret tt | Some p => Misc.decref p end.

Definition open_connection (cfg : config) (urls : list Uri.UriParser) : io (W * Misc.store) nat :=
  if close_listener cfg then Misc.create_connection1 urls else Misc.create_connection urls.

(** The two directions, once both connections are there. The destructor of the
    future waits for the second thread. *)
Definition route_both (fuel : nat) (cfg : config) (src dst : nat) : io (W * Misc.store) unit :=
  let! s := Misc.deref src in
  let! d := Misc.deref dst in
  if bidir cfg then
    do! invoke (async_start BACKWARD) in
    finally (route fuel cfg (Misc.as_isocket s) (Misc.as_isocket d))
            (do! invoke (async_wait BACKWARD) in ret tt)
  else
    do! route fuel cfg (Misc.as_isocket s) (Misc.as_isocket d) in
    undefined INVALID_FUTURE.

(** The body of the try block. Local variables are released in the reverse order
    of their declaration: src, dst, listening_sock_b, listening_sock_a, stats. *)
Definition route_sockets (fuel : nat) (cfg : config) (src_urls dst_urls : list Uri.UriParser)
    (stats : bool) : io (W * Misc.store) unit :=
  finally
    (let! dst := open_connection cfg dst_urls in
     let! listening_sock_a := take_listening in
     finally
       (finally
          (finally
             (let! src := open_connection cfg src_urls in
              finally
                (do! (if stats then
                        let! s := Misc.deref src in let! d := Misc.deref dst in
                        do! invoke (stats_writer_add (sock_id (Misc.as_isocket (W:=W * Misc.store) s))) in
                        do! invoke (stats_writer_add (sock_id (Misc.as_isocket (W:=W * Misc.store) d))) in
                        ret tt
                      else ret tt) in
                 route_both fuel cfg src dst)
                (Misc.decref src))
             (Misc.decref dst))
          Misc.reset_listening)
       (release listening_sock_a))
    Misc.reset_listening.

Definition run (fuel : nat) (src_urls dst_urls : list string) (cfg : config)
  : io (W * Misc.store) unit :=
  let! parsed_src_urls := Misc.parse_urls src_urls in
  let! parsed_dst_urls := Misc.parse_urls dst_urls in
  catch_socket
    (let! stats := Misc.open_stats (stats_cfg cfg) in
     match stats with
     | None => throw (SocketException "stats_writer")
     | Some stats =>
         finally (route_sockets fuel cfg parsed_src_urls parsed_dst_urls stats)
           (if stats then do! invoke stats_writer_close in ret tt else ret tt)
     end)
    (fun _ => ret tt).
End run.

(** ** What is forwarded *)
Section spec.
Context {W : Type} `{Env W} (cfg : config) (src dst : isocket W) `{!IsocketOk src} `{!IsocketOk dst}.
Hypothesis Hsize : 0 <= message_size cfg <= CInt.INT_MAX.

(** What a trace of the loop has read from one socket and written to the other. *)
Definition routed (t : list event) : Prop :=
  Forall (fun m => m.1 = sock_ep src /\ 0 < Z.of_nat (length m.2) <= message_size cfg) (received t) /\
  Forall (fun m => m.1 = sock_ep dst) (sent t) /\
  forwarded (received t).*2 (sent t).*2 /\
  (reliable dst -> (sent t).*2 = (received t).*2).

#[global] Instance routed_closed : Closed routed.
Proof.
  split; [repeat split; constructor|].
  intros t1 t2 (F1 & S1 & W1 & R1) (F2 & S2 & W2 & R2). unfold routed.
  rewrite received_app, sent_app, !Forall_app, !fmap_app. split_and!; try done.
  - by apply forwarded_app.
  - intros Hr. by rewrite R1, R2.
Qed.
Lemma routed_quiet t : received t = [] -> sent t = [] -> routed t.
Proof. intros Hr Hs. unfold routed. rewrite Hr, Hs. by repeat split; constructor. Qed.

Lemma route_round_ensures a : ensures routed socket_exn (route_round cfg src dst a).
Proof.
  unfold route_round. apply ensures_bind; [tc_solve| |].
  { apply (ensures_invoke _ _ load_break). intros. by apply routed_quiet. }
  intros []; [apply ensures_ret; tc_solve|].
  intros w. apply wp_bind, (read_wp src); [done|]. intros o t w1 _ [Hs Hr].
  destruct o as [[n d]|[]|u|]; wp_simpl; try done; [|by split; [apply routed_quiet|]].
  destruct Hr as (Hn & Hcap & Hr). destruct (Z.eqb_spec n 0) as [Hz|Hz].
  { apply wp_ret. rewrite app_nil_r. split; [|done]. apply routed_quiet; [|done]. by rewrite Hz in Hr. }
  destruct (Z.ltb_spec 0 n); [|lia].
  apply wp_bind, (reliable_write_wp dst); [lia|]. intros o t2 w2 _ [Hr2 Hw] Hrel.
  assert (routed (t ++ t2)) as Hrt.
  { assert (Forall (fun m => m.1 = sock_ep src /\ 0 < Z.of_nat (length m.2) <= message_size cfg)
              [(sock_ep src, d)]) as Hd by (apply Forall_singleton; cbn; split; [done|lia]).
    unfold routed. rewrite received_app, sent_app, Hs, Hr, Hr2. cbn [app].
    destruct o as [m|[]|u|]; try done.
    - destruct Hw as [Hm ->]. destruct (Z.ltb_spec 0 m); split_and!; try done.
      + by apply Forall_singleton.
      + apply (fwd_sent d (Z.to_nat m) [] []); [lia|constructor].
      + intros Hrl. injection (Hrel Hrl) as ->. cbn. by rewrite Nat2Z.id, firstn_all.
      + apply fwd_lost. constructor.
      + intros Hrl. injection (Hrel Hrl) as ->. lia.
    - rewrite Hw. split_and!; try done; [apply fwd_lost; constructor|].
      intros Hrl. by specialize (Hrel Hrl). }
  destruct o as [m|[]|u|]; wp_simpl; try done. apply wp_ret. by rewrite app_nil_r.
Qed.

Lemma route_ensures fuel : ensures routed socket_exn (route fuel cfg src dst).
Proof.
  unfold route. destruct (Z.ltb_spec (message_size cfg) 0); [lia|].
  apply ensures_loop; [tc_solve|]. apply route_round_ensures.
Qed.

(** what route forwards: every message it reads is non-empty and fits the
    buffer; to the destination it sends, in the order received, each message at
    most once, whole, truncated or not at all as the destination's write
    allows, and nothing else; on a destination that takes messages whole, it
    sends exactly the messages received. The loop has no undefined behaviour and
    throws nothing but a socket's exception. *)
Theorem route_spec fuel : ensures routed socket_exn (route fuel cfg src dst).
Proof. apply route_ensures. Qed.
End spec.

Definition example_cfg : config := mk_config 1316 false false (Misc.mk_stats_config 0 "" "csv").
Definition sock7 : isocket unit :=
  Misc.as_isocket (H0 := SrtSocket.example_srt_env) (Misc.OSrt SrtSocket.example_object).

(** Two rounds on a library that always delivers "hello". *)
Example route_twice :
  (let '(o, t, _) := route (H := SrtSocket.example_srt_env) 2 example_cfg sock7 sock7 tt in
   (o, (received t).*2, (sent t).*2)) =
  (NoFuel, [chars "hello"; chars "hello"], [chars "hello"; chars "hello"]).
Proof. vm_compute. reflexivity. Qed.

Lemma route_spec_witness :
  ensures (routed example_cfg sock7 sock7) socket_exn
    (route (H := SrtSocket.example_srt_env) 2 example_cfg sock7 sock7).
Proof.
  assert (IsocketOk sock7) by apply (SrtSocket.srt_isocket_ok (SrtOk0 := SrtSocket.example_srt_ok)).
  by apply (route_spec (H := SrtSocket.example_srt_env)).
Defined.

(** ** Both directions *)
Section both.
Variables (cfg : config) (src dst : Misc.object).
Hypothesis Hsize : 0 <= message_size cfg <= CInt.INT_MAX.

(** A thread that routes from [src] to [dst]. *)
Definition route_thread (fuel : nat) (src dst : Misc.object) (W : Type) (E : Env W) : io W unit :=
  route fuel cfg (Misc.as_isocket src) (Misc.as_isocket dst).

(** The messages of a trace that come from, and go to, an endpoint. *)
Definition at_ep (ep : endpoint) (m : endpoint * list char) : option (list char) :=
  if decide (m.1 = ep) then Some m.2 else None.
Definition received_from (ep : endpoint) (t : list event) : list (list char) := omap (at_ep ep) (received t).
Definition sent_to (ep : endpoint) (t : list event) : list (list char) := omap (at_ep ep) (sent t).

Lemma at_ep_all ep (l : list (endpoint * list char)) :
  Forall (fun m => m.1 = ep) l -> omap (at_ep ep) l = l.*2.
Proof.
  induction 1 as [|m l Hm Hl IH]; [done|]. cbn. unfold at_ep at 1. rewrite decide_True by done. by rewrite IH.
Qed.
Lemma at_ep_none ep ep' (l : list (endpoint * list char)) :
  ep <> ep' -> Forall (fun m => m.1 = ep') l -> omap (at_ep ep) l = [].
Proof.
  intros Hne. induction 1 as [|m l Hm Hl IH]; [done|]. cbn. unfold at_ep at 1. by rewrite decide_False by congruence.
Qed.

(** What a trace passes on from one endpoint to another. *)
Definition passes (whole : bool) (from to : endpoint) (t : list event) : Prop :=
  Forall (fun d => 0 < Z.of_nat (length d) <= message_size cfg) (received_from from t) /\
  forwarded (received_from from t) (sent_to to t) /\
  (whole = true -> sent_to to t = received_from from t).
End both.

(** One thread: it receives on one endpoint and sends on the other only. *)
Lemma route_thread_trace cfg fuel src dst whole o t :
  0 <= message_size cfg <= CInt.INT_MAX ->
  Threads.runs_as (Misc.network dst whole) (route_thread cfg fuel src dst) o t ->
  Forall (fun m => m.1 = Misc.object_ep src) (received t) /\ Forall (fun m => m.1 = Misc.object_ep dst) (sent t) /\
  passes cfg whole (Misc.object_ep src) (Misc.object_ep dst) t.
Proof.
  intros Hsize (W & E & w & w' & Hnet & Hrun).
  pose proof (fun o => Misc.network_isocket _ _ _ _ o Hnet) as Hok. destruct Hnet as (_ & _ & Hw).
  destruct (wp_run _ _ _ _ _ _ (route_ensures cfg _ _ Hsize fuel w) Hrun) as [(Hr & Hs & Hf & Hrel) _].
  rewrite !Misc.as_isocket_ep in *. assert (Forall (fun m => m.1 = Misc.object_ep src) (received t)) as Hr1.
  { eapply Forall_impl; [exact Hr|]. by intros m []. }
  split; [done|]. split; [done|]. unfold passes, received_from, sent_to.
  rewrite !at_ep_all by done. split; [|by eauto]. apply Forall_fmap. eapply Forall_impl; [exact Hr|]. by intros m [].
Qed.

Lemma passes_merge cfg whole from to t1 t2 t :
  from <> to -> Threads.merge t1 t2 t -> passes cfg whole from to t1 ->
  Forall (fun m => m.1 = to) (received t2) -> Forall (fun m => m.1 = from) (sent t2) ->
  passes cfg whole from to t.
Proof.
  intros Hne Hm Hp Hr Hs. assert (Hview : received_from from t = received_from from t1 /\ sent_to to t = sent_to to t1).
  { split; (eapply Threads.merge_view; [by apply Threads.merge_omap|]).
    - by eapply at_ep_none; [exact Hne|].
    - by eapply at_ep_none; [exact (not_eq_sym Hne)|]. }
  unfold passes. by destruct Hview as [-> ->].
Qed.

(** C15: route --bidir, both threads at once. However the calls of the two threads
    are interleaved, and whatever they are answered, the program as a whole passes
    on each direction: what it sends to one endpoint is what it received from the
    other, in order, each message at most once, and exactly that when the socket
    takes messages whole. Neither direction disturbs the other, although both
    threads use both sockets. *)
Theorem bidirectional cfg src dst fuel1 fuel2 whole1 whole2 o1 o2 t1 t2 t :
  0 <= message_size cfg <= CInt.INT_MAX -> Misc.object_ep src <> Misc.object_ep dst ->
  Threads.runs_as (Misc.network dst whole1) (route_thread cfg fuel1 src dst) o1 t1 ->
  Threads.runs_as (Misc.network src whole2) (route_thread cfg fuel2 dst src) o2 t2 ->
  Threads.merge t1 t2 t ->
  passes cfg whole1 (Misc.object_ep src) (Misc.object_ep dst) t /\ passes cfg whole2 (Misc.object_ep dst) (Misc.object_ep src) t.
Proof.
  intros Hsize Hne Ht1 Ht2 Hm. apply route_thread_trace in Ht1 as (Hr1 & Hs1 & Hp1); [|done].
  apply route_thread_trace in Ht2 as (Hr2 & Hs2 & Hp2); [|done].
  split; [by eapply passes_merge|]. eapply passes_merge; [by apply not_eq_sym|by apply Threads.merge_comm|done..].
Qed.

(** Two connections on the library that always delivers "hello"; each thread makes
    one round, the calls of one between those of the other. *)
Definition end_a : Misc.object := Misc.OSrt (SrtSocket.mk_srt 7 3 4 SockOpts.CALLER true "" 4200 []).
Definition end_b : Misc.object := Misc.OSrt (SrtSocket.mk_srt 9 5 6 SockOpts.CALLER true "" 4200 []).
Definition example_trace (src dst : Misc.object) : list event :=
  let '(_, t, _) := route_thread example_cfg 1 src dst unit SrtSocket.example_srt_env tt in t.
Definition example_merge : list event :=
  concat (zip_with (fun e1 e2 => [e1; e2]) (example_trace end_a end_b) (example_trace end_b end_a)).
Lemma example_network dst : (dst = end_a \/ dst = end_b) -> Misc.network dst true unit SrtSocket.example_srt_env.
Proof.
  intros Hdst. split; [exact SrtSocket.example_srt_ok|]. split; [exact SrtSocket.example_udp_ok|].
  intros _. destruct Hdst as [-> | ->]; by apply SrtSocket.example_reliable.
Qed.

Lemma bidirectional_witness :
  sent_to (SrtEp 9) example_merge = [chars "hello"] /\
  passes example_cfg true (SrtEp 7) (SrtEp 9) example_merge /\
  passes example_cfg true (SrtEp 9) (SrtEp 7) example_merge.
Proof.
  split; [vm_compute; reflexivity|].
  apply (bidirectional example_cfg end_a end_b 1 1 true true NoFuel NoFuel (example_trace end_a end_b) (example_trace end_b end_a)).
  - by vm_compute.
  - discriminate.
  - exists unit, SrtSocket.example_srt_env, tt, tt. split; [by apply example_network; right|vm_compute; reflexivity].
  - exists unit, SrtSocket.example_srt_env, tt, tt. split; [by apply example_network; left|vm_compute; reflexivity].
  - vm_compute. repeat constructor.
Defined.

(** ** The command end to end *)
Section safety.
Context `{Build} {W : Type} `{Env W}.
Import Misc.

Lemma frames_route fuel cfg src dst :
  socket_leaves anywhere src -> socket_leaves anywhere dst ->
  frames (W:=W) (S:=store) anywhere DANGLING (route fuel cfg src dst).
Proof.
  intros [Hr _] [_ Hw]. unfold route, route_round. frames_steps; (apply Hr || apply Hw).
Qed.

Lemma open_connection_wp L cfg urls w s :
  heap_ok s L -> st_listening s = None ->
  wp (open_connection cfg urls) (fun o _ ws => match o with
     | Done p => heap_ok ws.2 (p :: L)
     | Throw _ => heap_ok ws.2 L
     | Undefined u => u <> DANGLING
     | NoFuel => True
     end) (w, s).
Proof.
  intros Hok Hl. pose proof (kind_ok_none (is_group urls) s Hl) as Hk.
  pose proof (create_connection_safe L urls w s Hok Hk) as Hc. unfold open_connection.
  destruct (close_listener cfg); [apply wp_finally|]; (eapply wp_mono; [exact Hc|]);
    intros o t [w1 s1] Ho; destruct o as [p|e|u|]; try done; try apply Ho;
    destruct Ho as [Hok1 _];
    (eapply reset_listening_wp; [done|]); by intros t' w' s' Hok' _.
Qed.

Lemma reset_local L w s :
  heap_ok s L -> wp reset_listening (fun o _ ws => o = Done tt /\ heap_ok ws.2 L /\ st_listening ws.2 = None) (w, s).
Proof. intros Hok. eapply reset_listening_wp; [done|]. by intros t w' s' Hok' Hl'. Qed.

Lemma route_both_frames fuel cfg src dst s d w st n m :
  st_heap st !! src = Some (Live s n) -> st_heap st !! dst = Some (Live d m) ->
  wp (route_both fuel cfg src dst) (leaving (fun st' => st' = st)) (w, st).
Proof.
  intros Hs Hd. unfold route_both. apply wp_bind. eapply deref_wp; [exact Hs|]. wp_simpl.
  apply wp_bind. eapply deref_wp; [exact Hd|]. wp_simpl.
  assert (frames (W:=W) anywhere DANGLING (route fuel cfg (as_isocket s) (as_isocket d))) as Hroute
    by (apply frames_route; apply as_isocket_leaves; tc_solve).
  eapply (wp_mono _ (leaving (fun st' => st' = st))); [|done].
  destruct (bidir cfg); apply leaving_frames; try done.
  - frames_steps; done.
  - frames_apply frames_bind; [done|]. intros _. by frames_apply frames_undefined.
Qed.

Lemma heap_ok_perm s L L' : L ≡ₚ L' -> heap_ok s L -> heap_ok s L'.
Proof.
  intros HL Hok p. specialize (Hok p).
  assert (refs s L ≡ₚ refs s L') as Hr by (unfold refs; by rewrite HL).
  by rewrite (count_perm p _ _ Hr) in Hok.
Qed.

(** What is done with the two connections. *)
Lemma connected_body fuel cfg (stats : bool) src dst L w s :
  heap_ok s (src :: L) -> dst ∈ L ->
  wp (do! (if stats then
             let! s := deref src in let! d := deref dst in
             do! invoke (stats_writer_add (sock_id (as_isocket (W:=W * store) s))) in
             do! invoke (stats_writer_add (sock_id (as_isocket (W:=W * store) d))) in ret tt
           else ret tt) in
      route_both fuel cfg src dst) (leaving (fun s' => s' = s)) (w, s).
Proof.
  intros Hok Hdst. destruct (heap_ok_live s src L Hok) as (so & n & Hs).
  destruct (elem_of_Permutation L dst) as [[L' HL] _]; [done|].
  destruct (heap_ok_live s dst (src :: L')) as (do_ & m & Hd).
  { eapply heap_ok_perm; [|exact Hok]. rewrite HL. apply Permutation_swap. }
  apply wp_bind. destruct stats.
  - apply wp_bind. eapply deref_wp; [exact Hs|]. wp_simpl.
    apply wp_bind. eapply deref_wp; [exact Hd|]. wp_simpl.
    apply wp_bind, wp_invoke. intros r [w1 s1] [_ E1]%prod_answer. cbn in E1. subst s1. wp_simpl.
    apply wp_bind, wp_invoke. intros r1 [w2 s2] [_ E2]%prod_answer. cbn in E2. subst s2. wp_simpl.
    apply wp_ret. wp_simpl. eapply wp_mono; [eapply route_both_frames; done|]. done.
  - apply wp_ret. wp_simpl. eapply wp_mono; [eapply route_both_frames; done|]. done.
Qed.

(** The scopes of the source connection, the destination connection, and the two
    listening sockets. *)
Lemma route_sockets_safe fuel cfg src_urls dst_urls stats w s :
  heap_ok s [] -> st_listening s = None ->
  wp (route_sockets fuel cfg src_urls dst_urls stats)
    (leaving (fun s' => heap_ok s' [] /\ st_listening s' = None)) (w, s).
Proof.
  intros Hok Hl. unfold route_sockets.
  apply (leaving_finally (fun s => heap_ok s [])); [|intros w' s' Hx; exact (reset_local _ _ _ Hx)].
  apply wp_bind. eapply wp_mono; [by apply open_connection_wp|].
  intros o t [w1 s1] Hd. destruct o as [dst|e|u|]; wp_simpl; try done.
  unfold take_listening. apply wp_bind, wp_bind, wp_get. wp_simpl. apply wp_bind, wp_put. wp_simpl.
  apply wp_ret. wp_simpl. cbn [fst snd]. set (lsa := st_listening s1). set (s2 := set_listening None s1).
  assert (heap_ok s2 (dst :: option_list lsa)) as Hok2.
  { intros p. specialize (Hd p).
    assert (refs s2 (dst :: option_list lsa) ≡ₚ refs s1 [dst]) as Hp by (unfold refs; cbn; by rewrite Permutation_app_comm).
    rewrite (count_perm p _ _ Hp). exact Hd. }
  eapply wp_mono; [eapply (leaving_finally (fun s => heap_ok s (option_list lsa) /\ st_listening s = None)
    (fun s => heap_ok s []))|].
  - eapply (leaving_finally (fun s => heap_ok s (option_list lsa))); [|intros w' s' Hx; exact (reset_local _ _ _ Hx)].
    eapply (leaving_finally (fun s => heap_ok s (dst :: option_list lsa))); [|intros w' s' Hx; exact (release_local _ _ _ _ Hx)].
    apply wp_bind. eapply wp_mono; [by apply open_connection_wp|].
    intros o t2 [w3 s3] Hs. destruct o as [src|e|u|]; wp_simpl; try done.
    eapply wp_mono; [eapply (leaving_finally (fun s => heap_ok s (src :: dst :: option_list lsa))
      (fun s => heap_ok s (dst :: option_list lsa))); [|intros w' s' Hx; exact (release_local _ _ _ _ Hx)]|by intros [] ? ?].
    eapply wp_mono; [apply (connected_body fuel cfg stats src dst (dst :: option_list lsa)); [done|by left]|].
    intros [] ? [w4 s4]; cbn; (done || by intros ->).
  - intros w3 s3 [Hok3 Hl3]. unfold release. destruct lsa as [p|]; [exact (release_local _ _ _ _ Hok3)|by apply wp_ret].
  - by intros [] ? ?.
Qed.

(** The route command, end to end: no use of a destroyed or null socket object,
    no socket::exception out of it, and every socket object that was created, for
    the two connections and for the two listening sockets, has been destroyed,
    although the references to them move between local variables and are released
    in several scopes. *)
Lemma route_released fuel src_urls dst_urls cfg (w : W) :
  wp (run fuel src_urls dst_urls cfg) released (w, mk_store [] None).
Proof.
  unfold run. apply wp_bind, parse_urls_wp; [|done]. intros us. wp_simpl.
  apply wp_bind, parse_urls_wp; [|done]. intros ds. wp_simpl.
  apply wp_catch, wp_bind, open_stats_wp. intros [stats|] t w1; wp_simpl; [|apply wp_throw; wp_simpl; apply wp_ret; by split].
  eapply wp_mono; [eapply (leaving_finally (fun s => heap_ok s [] /\ st_listening s = None)
    (fun s => heap_ok s [] /\ st_listening s = None)); [by apply route_sockets_safe|]|].
  - intros w2 s2 [Hok2 Hl2]. destruct stats; [|by apply wp_ret].
    apply wp_bind, (wp_invoke stats_writer_close). intros r [w3 s3] [_ E]%prod_answer. cbn in E. subst s3.
    wp_simpl. by apply wp_ret.
  - assert (forall s, heap_ok s [] /\ st_listening s = None -> Forall (eq Dead) (st_heap s) /\ st_listening s = None)
      as Hdead by (intros s [Hok2 Hl2]; split; [by apply heap_ok_dead|done]).
    intros o t2 [w2 s2] Ho. destruct o as [[]|e|u|]; cbn in *; try done; [by apply Hdead|].
    destruct e; wp_simpl; try (apply wp_ret); by apply Hdead.
Qed.
End safety.
End Route.
