(* ===== verification/FileSend.v ===== *)
(** * Sending files (file-send.cpp, file-send.hpp)

    Every file goes out as a sequence of messages: one byte of flags (1: first
    message of a file, 2: end of file), in the first message the name of the
    file and a NUL, then data. The buffer the code builds messages in is modelled
    byte by byte. *)

From Stdlib Require Import ZArith Lia Ascii String.
From stdpp Require Import prelude strings list.
From S2P Require Import Prelude Sys Logic Socket Stats Uri SockOpts SrtSocket Misc.

(** ** Bytes of the file transfer protocol *)
Module FileProtocol.
Local Open Scope list_scope.
Local Open Scope Z_scope.

(** The byte of flags: 1 for the first message of a file, 2 at its end. *)
Definition flags (isEof isStart : bool) : char :=
  ascii_of_N (N.lor (if isEof then 2 else 0) (if isStart then 1 else 0)).
Definition is_first (c : char) : bool := N.testbit (N_of_ascii c) 0.
Definition is_eof (c : char) : bool := N.testbit (N_of_ascii c) 1.

Lemma flags_bits e s : is_first (flags e s) = s /\ is_eof (flags e s) = e.
Proof. by destruct e, s. Qed.

(** Writing [data] into a buffer at position [pos]. *)
Definition splice (pos : nat) (data buf : list char) : list char :=
  take pos buf ++ data ++ drop (pos + length data) buf.

Lemma length_splice pos data buf :
  (pos + length data <= length buf)%nat -> length (splice pos data buf) = length buf.
Proof. intros. unfold splice. rewrite !length_app, length_take, length_drop. lia. Qed.
Lemma take_splice pos data buf :
  (pos + length data <= length buf)%nat ->
  take (pos + length data) (splice pos data buf) = take pos buf ++ data.
Proof.
  intros. unfold splice. rewrite app_assoc, take_app_le, take_ge; rewrite ?length_app, ?length_take; lia || done.
Qed.

(** The messages for a file, from what was read of it: each read with the data
    and whether it met the end of the file. A read without data sends nothing,
    and only the first message carries the name. *)
Definition header (name : list char) (first : bool) : list char :=
  if first then name ++ [zero] else [].
Fixpoint encode (name : list char) (first : bool) (reads : list (list char * bool)) : list (list char) :=
  match reads with
  | [] => []
  | ([], _) :: reads' => encode name first reads'
  | (data, eof) :: reads' =>
      (flags eof first :: header name first ++ data) :: encode name false reads'
  end.

Lemma splice_at_0 c buf : splice 0 [c] buf = c :: drop 1 buf.
Proof. done. Qed.

(** The bytes of a message: the flags over the first byte, the header that was in
    the buffer, and the data behind it. *)
Lemma message_bytes buf hdr b0 h data c :
  take hdr buf = b0 :: h -> (hdr + length data <= length buf)%nat ->
  take (hdr + length data) (splice 0 [c] (splice hdr data buf)) = c :: h ++ data.
Proof.
  intros Hh Hlen. destruct hdr as [|hdr]; [done|]. rewrite splice_at_0. cbn [Nat.add firstn].
  f_equal.
  pose proof (take_splice (S hdr) data buf Hlen) as Ht. rewrite Hh in Ht.
  destruct (splice (S hdr) data buf) as [|x l]; [done|]. injection Ht as _ Ht. rewrite <- Ht.
  by destruct l.
Qed.

(** A header that stays in the buffer when nothing was read. *)
Lemma header_stays buf hdr b0 h c :
  take hdr buf = b0 :: h -> (hdr <= length buf)%nat ->
  take hdr (splice 0 [c] (splice hdr [] buf)) = c :: h.
Proof.
  intros Hh Hlen. pose proof (message_bytes buf hdr b0 h [] c Hh) as Hm. cbn [length] in Hm.
  rewrite Nat.add_0_r, app_nil_r in Hm. by apply Hm.
Qed.

Definition no_data (r : list char * bool) : bool := match r.1 with [] => true | _ => false end.
Lemma encode_app name f r1 r2 :
  encode name f (r1 ++ r2) = encode name f r1 ++ encode name (f && forallb no_data r1) r2.
Proof.
  revert f. induction r1 as [|[[|c d] e] r1 IH]; intros f; cbn [app encode forallb].
  - by rewrite andb_true_r.
  - apply IH.
  - cbn. rewrite IH. by destruct f.
Qed.
End FileProtocol.

Module FileSend.
Local Open Scope string_scope.
Local Open Scope list_scope.
Local Open Scope Z_scope.
Import Socket FileProtocol.

Record config := mk_config {
  src_path : string; segment_size : Z; only_print : bool;
  stats_freq_ms : Z; stats_file : string; stats_format : string }.

Definition OVERRUN : string := "buffer overrun".
Definition DIVISION : string := "division by zero".

(** The variables of the sending loop. *)
Record upload := mk_upload { up_buf : list char; up_hdrSize : Z; up_fileSize : Z }.

Section send.
Context {W : Type} `{Env W}.

(** The inner loop: the write is repeated while it takes nothing. *)
Definition write_retry (fuel : nat) (dst : isocket W) (data : list char) : io W Z :=
  loop fuel (fun _ => let! st := sock_write dst data (-1) in
                      ret (if st =? 0 then inl tt else inr st)) tt.

(** One round of the loop over the file: [inl] to go on, [inr None] for an
    error, [inr (Some _)] when the file is done or the user interrupts. *)
Definition send_round (fuel : nat) (dst : isocket W) (u : upload) : io W (upload + option upload) :=
  let! forceBreak := invoke load_break in
  if forceBreak : bool then ret (inr (Some u)) else
  let size := Z.of_nat (length (up_buf u)) in
  let! '(data, isEof, good) := invoke (file_read (size - up_hdrSize u)) in
  let n := CInt.to_int (Z.of_nat (length data)) in
  let isStart := 1 <? up_hdrSize u in
  let buf := splice 0 [flags isEof isStart] (splice (Z.to_nat (up_hdrSize u)) data (up_buf u)) in
  let! sent :=
    (if 0 <? n then
       let! st := write_retry fuel dst (take (Z.to_nat (n + up_hdrSize u)) buf) in
       if st =? SRT_ERROR then do! invoke srt_getlasterror_str in ret None else
       if negb (st =? n + up_hdrSize u) then ret None else
       ret (Some (mk_upload buf 1 (CInt.to_size (up_fileSize u + n))))
     else ret (Some (mk_upload buf (up_hdrSize u) (up_fileSize u)))) in
  match sent with
  | None => ret (inr None)
  | Some u' =>
      if isEof : bool then ret (inr (Some u'))
      else if (good : bool) then ret (inl u') else ret (inr None)
  end.

(** sendFile: the result, and the buffer, which the caller uses again after a
    success only. *)
Definition sendFile (fuel : nat) (filename uploadName : string) (dst : isocket W) (buf : list char)
  : io W (bool * list char) :=
  let! ok := invoke (file_open_in filename) in
  if negb ok then ret (false, buf) else
  finally
    (let! timeStart := invoke steady_now in
     let name := chars (CStr.c_str uploadName) in
     if decide (length name + 2 <= length buf)%nat then
       let hdrSize := Z.of_nat (length name) + 2 in
       let! r := loop fuel (send_round fuel dst)
                   (mk_upload (splice 1 (name ++ [zero]) buf) hdrSize 0) in
       match r with
       | None => ret (false, buf)
       | Some u =>
           let! timeEnd := invoke steady_now in
           let deltaUs := Z.quot (timeEnd - timeStart) 1000 in
           if deltaUs =? 0 then undefined DIVISION else ret (true, up_buf u)
       end
     else undefined OVERRUN)
    (do! invoke file_close in ret tt).

(** The files below a path, the directories in the order they are met. *)
Fixpoint read_entries (entries : list (string * bool)) : list string * list string :=
  match entries with
  | [] => ([], [])
  | (path, is_dir) :: entries' =>
      let '(subdirs, files) := read_entries entries' in
      if is_dir then (path :: subdirs, files) else (subdirs, path :: files)
  end.
Definition read_directory_round (s : list string * list string)
  : io W (list string * list string + list string) :=
  let '(subdirs, filenames) := s in
  match subdirs with
  | [] => ret (inr filenames)
  | p :: subdirs' =>
      let! d := invoke (is_directory p) in
      match d with
      | inr e => throw e
      | inl false => ret (inl (subdirs', filenames ++ [p]))
      | inl true =>
          let! l := invoke (list_directory p) in
          match l with
          | inr e => throw e
          | inl entries =>
              let '(dirs, files) := read_entries entries in
              ret (inl (subdirs' ++ dirs, filenames ++ files))
          end
      end
  end.
Definition readDirectory (fuel : nat) (path : string) : io W (list string) :=
  loop fuel read_directory_round ([path], []).
End send.

(** *** fs::path, in its generic format *)
Definition slash : char := "/"%char.

(** The elements of a relative path: repeated separators count once, and a
    separator at the end adds an empty element. *)
Fixpoint elements (l : list char) (cur : list char) : list (list char) :=
  match l with
  | [] => match cur with [] => [] | _ => [rev cur] end
  | c :: l' =>
      if bool_decide (c = slash) then
        match cur with
        | [] => elements l' []
        | _ => rev cur :: if forallb (fun c => bool_decide (c = slash)) l' then [[]] else elements l' []
        end
      else elements l' (c :: cur)
  end.
Definition is_absolute (p : string) : bool :=
  match chars p with c :: _ => bool_decide (c = slash) | [] => false end.
Definition path_equal (p q : string) : bool :=
  Bool.eqb (is_absolute p) (is_absolute q) && bool_decide (elements (chars p) [] = elements (chars q) []).

(** [path.filename()]. *)
Definition path_filename (p : string) : string :=
  match CStr.rfind_char slash p with
  | Some i => of_chars (drop (S i) (chars p))
  | None => p
  end.

Definition relativePath (filepath dirpath : string) : string :=
  if path_equal dirpath filepath then path_filename filepath else
  if String.eqb dirpath "" then filepath else
  match CStr.find dirpath 0 filepath with
  | Some 0%nat => of_chars (drop (CStr.size dirpath) (chars filepath))
  | _ => ""
  end.

(** *** The command *)
Definition LOCAL_BREAK : string := "localBreak".
Definition STATS : string := "statsFunc".

Section command.
Context `{Build} {W : Type} `{Env W}.

Fixpoint send_files (fuel : nat) (cfg : config) (dst : isocket W) (filenames : list string)
    (buf : list char) : io W unit :=
  match filenames with
  | [] => ret tt
  | fname :: filenames' =>
      let! '(transmitRes, buf') := sendFile fuel fname (relativePath fname (src_path cfg)) dst buf in
      if negb transmitRes then ret tt else
      let! forceBreak := invoke load_break in
      if forceBreak : bool then ret tt else send_files fuel cfg dst filenames' buf'
  end.

(** Waiting until the library has sent what it buffers. *)
Definition drain_round (sock : Z) (_ : unit) : io W (unit + unit) :=
  let! '(res, blocks, bytes) := invoke (srt_getsndbuffer sock) in
  if SRT_ERROR =? res then ret (inr tt) else
  if negb (blocks =? 0) then do! invoke (sleep_for 5) in ret (inl tt) else ret (inr tt).

(** The thread that logs the statistics of the connection, as files are sent and
    received; its state is printHeader. localBreak is a local variable of the thread
    that starts it. [render] is the text of a report on a C++ stream. *)
Section stats_thread.
Variable render : Stats.report -> list char.

Definition stats_round (sock : SrtSocket.srt) (freq_ms : Z) (format : string) (printHeader : bool)
  : io W (bool + unit) :=
  let! forceBreak := invoke load_break in
  if forceBreak : bool then ret (inr tt) else
  let! localBreak := invoke (load_flag LOCAL_BREAK) in
  if localBreak : bool then ret (inr tt) else
  do! invoke (sleep_for freq_ms) in
  let! r := SrtSocket.get_statistics sock format printHeader in
  do! invoke (file_write (render r)) in ret (inl false).

Definition statsFunc (fuel : nat) (freq_ms : Z) (file format : string) (sock : SrtSocket.srt) : io W unit :=
  if freq_ms =? 0 then ret tt else
  if String.eqb file "" then ret tt else
  let! ok := invoke (file_open_out (CStr.c_str file)) in
  if negb ok then ret tt else
  finally (loop fuel (stats_round sock freq_ms format) true) (do! invoke file_close in ret tt).
End stats_thread.

(** [vector<char> buf(cfg.segmentSize)]: lengths above PTRDIFF_MAX are refused. *)
Definition new_buffer (segmentSize : Z) : io W (list char) :=
  if CInt.LONG_MAX <? segmentSize then throw (StdLengthError "cannot create std::vector")
  else ret (repeat zero (Z.to_nat segmentSize)).

(** startFileSender, given the connection. [dstSock] is a copy of the object, with
    the same handles, whose destructor runs at the end of the scope; then the
    future's destructor waits for the thread that logs the statistics. *)
Definition startFileSender (fuel : nat) (sock : SrtSocket.srt) (cfg : config)
    (filenames : list string) : io W unit :=
  do! invoke (async_start STATS) in
  finally
    (let dstSock := sock in
     finally
       (let! buf := new_buffer (segment_size cfg) in
        do! send_files fuel cfg (SrtSocket.srt_socket dstSock) filenames buf in
        do! loop fuel (drain_round (SrtSocket.id dstSock)) tt in
        do! invoke (store_flag LOCAL_BREAK true) in
        do! invoke (async_wait STATS) in ret tt)
       (SrtSocket.destroy dstSock))
    (do! invoke (async_wait STATS) in ret tt).

(** The URI of the connection, with the options of file transmission. *)
Definition send_uri (ut : Uri.UriParser) (cfg : config) : Uri.UriParser :=
  let ut := Uri.set_param "transtype" "file" ut in
  let ut := Uri.set_param "messageapi" "true" ut in
  let ut := Uri.set_param "blocking" "true" ut in
  if Uri.param_exists "sndbuf" ut then ut
  else Uri.set_param "sndbuf" (CNum.to_string (CInt.to_size (segment_size cfg * 10))) ut.

End command.

Section shared_connection.
Context `{Build} {W : Type} `{Env W}.

(** The connection of a transfer, sending and receiving alike: [socket] and the
    connection that the future holds are shared_ptr's, the latter to a new object
    for a listener and to the same one for a caller. *)
Definition transfer (ut : Uri.UriParser) (start : SrtSocket.srt -> io (W * Misc.store) unit)
  : io (W * Misc.store) unit :=
  let! s := SrtSocket.srt_of_uri ut in
  let! socket := Misc.alloc (Misc.OSrt s) in
  let accept := bool_decide (SrtSocket.mode s = SockOpts.LISTENER) in
  finally
    (catch_socket
       (let! '(connection, c) :=
          (if accept then
             let! c := SrtSocket.async_accept s in
             let! connection := Misc.alloc (Misc.OSrt c) in ret (connection, c)
           else
             let! c := SrtSocket.async_connect s in
             do! Misc.incref socket in ret (socket, c)) in
        finally (start c) (Misc.decref connection))
       (fun _ => ret tt))
    (Misc.decref socket).

Definition run (fuel : nat) (dstUrl : string) (cfg : config) : io (W * Misc.store) unit :=
  let! filenames := readDirectory fuel (src_path cfg) in
  match filenames with
  | [] => ret tt
  | _ =>
      if only_print cfg then ret tt else
      let! ut := SrtSocket.parse_uri dstUrl in
      transfer (send_uri ut cfg) (fun c => startFileSender fuel c cfg filenames)
  end.
End shared_connection.

(** ** What is sent *)
Definition read_of (e : event) : option (list char * bool) :=
  match e with Ev (file_read _) (d, eof, _) => Some (d, eof) | _ => None end.
Definition reads (t : list event) : list (list char * bool) := omap read_of t.
Lemma reads_app t1 t2 : reads (t1 ++ t2) = reads t1 ++ reads t2.
Proof. apply omap_app. Qed.
Lemma reads_traffic t : forallb traffic_call (calls t) = true -> reads t = [].
Proof. apply omap_only. by intros [[] r]. Qed.

(** Whether the user asked to stop. *)
Definition break_of (e : event) : bool := match e with Ev load_break b => b | _ => false end.
Definition interrupted (t : list event) : bool := existsb break_of t.
Lemma interrupted_traffic t : forallb traffic_call (calls t) = true -> interrupted t = false.
Proof.
  induction t as [|[c r] t IH]; [done|]. intros [Hc Ht]%andb_prop.
  change (break_of (Ev c r) || interrupted t = false). rewrite IH by done. by destruct c.
Qed.
Lemma interrupted_app t1 t2 : interrupted (t1 ++ t2) = interrupted t1 || interrupted t2.
Proof. apply existsb_app. Qed.

(** A stream yields at most what was asked for. *)
Class FileOk (W : Type) `{Env W} : Prop :=
  file_read_ok : forall n w d eof good w', 0 <= n ->
    answer (file_read n) w = ((d, eof, good), w') -> Z.of_nat (length d) <= n.

Lemma encode_whole name f r : forwarded (encode name f r) (encode name f r).
Proof.
  revert f. induction r as [|[[|c d] e] r IH]; intros f; cbn [encode]; [constructor|apply IH|].
  pose proof (fwd_sent (flags e f :: header name f ++ c :: d)
                (length (flags e f :: header name f ++ c :: d)) _ _ ltac:(cbn; lia) (IH false)) as Hf.
  by rewrite firstn_all in Hf.
Qed.

Section spec.
Context {W : Type} `{Env W} `{!FileOk W} (dst : isocket W) `{!IsocketOk dst} (name : list char) (N : nat).
Hypothesis HN : Z.of_nat N <= CInt.INT_MAX.

(** The inner loop takes a message at least in part, or fails. *)
Lemma write_retry_wp fuel data w :
  (length data <= N)%nat ->
  wp (write_retry fuel dst data) (fun o t _ =>
    forallb traffic_call (calls t) = true /\ received t = [] /\
    match o with
    | Done st => 0 < st <= Z.of_nat (length data) /\ sent t = [(sock_ep dst, take (Z.to_nat st) data)]
    | Throw e => socket_exn e /\ sent t = []
    | Undefined _ => False
    | NoFuel => sent t = []
    end) w.
Proof.
  intros Hlen. unfold write_retry.
  apply (wp_loop (fun _ t _ => forallb traffic_call (calls t) = true /\ received t = [] /\ sent t = []));
    [done|by intros ? ? ? (?&?&?)|].
  intros [] t w1 (Ht & Hr & Hs). apply wp_bind, (write_wp dst); [lia|].
  intros o t2 w2 Ht2 [Hr2 Hw].
  assert (forallb traffic_call (calls (t ++ t2)) = true) as Htt
    by by rewrite calls_app, forallb_app, Ht, Ht2.
  destruct o as [n|[]|u|]; try done; cbn [outcome_bind];
    [|unfold round; by rewrite received_app, sent_app, Hr, Hr2, Hs, Hw].
  destruct Hw as [Hn Hw]. apply wp_ret. unfold after, round. rewrite app_nil_r.
  destruct (Z.eqb_spec n 0) as [->|Hn0].
  - cbn in Hw. by rewrite received_app, sent_app, Hr, Hr2, Hs, Hw.
  - rewrite received_app, sent_app, Hr, Hr2, Hs, Hw. destruct (Z.ltb_spec 0 n); [|lia].
    split_and!; try done; lia.
Qed.

Definition base (t : list event) : Prop :=
  received t = [] /\ Forall (fun m => m.1 = sock_ep dst) (sent t) /\
  forwarded (encode name true (reads t)) (sent t).*2.

(** Everything read so far has been sent. *)
Definition level (t : list event) : Prop :=
  received t = [] /\ Forall (fun m => m.1 = sock_ep dst) (sent t) /\
  (sent t).*2 = encode name true (reads t).

(** The front of the buffer holds the header of the next message. *)
Definition header_ok (u : upload) (rs : list (list char * bool)) : Prop :=
  let h := header name (forallb no_data rs) in
  length (up_buf u) = N /\ (exists b0, take (Z.to_nat (up_hdrSize u)) (up_buf u) = b0 :: h) /\
  up_hdrSize u = Z.of_nat (S (length h)) /\ up_hdrSize u <= Z.of_nat N.

Definition upload_ok (u : upload) (t : list event) : Prop :=
  level t /\ interrupted t = false /\ Forall (fun r => r.2 = false) (reads t) /\ header_ok u (reads t).

(** The whole file has been read, or the user interrupted. *)
Definition complete (t : list event) : Prop :=
  interrupted t = true \/
  exists r d, reads t = r ++ [(d, true)] /\ Forall (fun r => r.2 = false) r.

Lemma level_base t : level t -> base t.
Proof. intros (Hr & He & Hs). unfold base. rewrite Hs. split_and!; [done..|apply encode_whole]. Qed.

(** A piece of trace [t'] in which one read took place and what it read was sent
    as [s]. *)
Lemma level_step t t' d eof s :
  level t -> received t' = [] -> reads t' = [(d, eof)] ->
  sent t' = (fun m => (sock_ep dst, m)) <$> s ->
  let msgs := encode name (forallb no_data (reads t)) [(d, eof)] in
  (s = msgs -> level (t ++ t')) /\ (forwarded msgs s -> base (t ++ t')).
Proof.
  intros (Hr & He & Hs) Hr' Hd' Hs' msgs.
  assert (received (t ++ t') = []) as Hr2 by by rewrite received_app, Hr, Hr'.
  assert (Forall (fun m => m.1 = sock_ep dst) (sent (t ++ t'))) as He2.
  { rewrite sent_app, Forall_app. split; [done|]. rewrite Hs'. by apply Forall_fmap, Forall_true. }
  assert ((sent t').*2 = s) as Hs2 by (rewrite Hs', <- list_fmap_compose; apply list_fmap_id).
  split; intros Hm; (split; [done|]; split; [done|]);
    rewrite sent_app, fmap_app, reads_app, Hd', encode_app, Hs, Hs2.
  - by rewrite Hm.
  - apply forwarded_app; [apply encode_whole|done].
Qed.

Lemma header_length f : (1 <? Z.of_nat (S (length (header name f)))) = f.
Proof. destruct f; [|done]. unfold header. rewrite length_app. apply Z.ltb_lt. cbn. lia. Qed.

(** What a round does after the trace [t]. *)
Definition round_post (t : list event) : post (W:=W) (upload + option upload) := fun o t' _ =>
  match o with
  | Done (inl u') => upload_ok u' (t ++ t')
  | Done (inr (Some u')) => length (up_buf u') = N /\ level (t ++ t') /\ complete (t ++ t')
  | Done (inr None) | NoFuel => base (t ++ t')
  | Throw e => socket_exn e /\ base (t ++ t')
  | Undefined _ => False
  end.

(** The end of a round, when what was read has been sent. *)
Lemma finish_round u t rs d eof (good : bool) w :
  level t -> interrupted t = false -> reads t = rs ++ [(d, eof)] ->
  Forall (fun r => r.2 = false) rs -> header_ok u (rs ++ [(d, eof)]) ->
  wp (if eof then ret (inr (Some u)) else if good then ret (inl u) else ret (inr None)) (round_post t) w.
Proof.
  intros Hl Hi Hr Hrs Hh. destruct eof; [|destruct good]; apply wp_ret; unfold round_post;
    rewrite app_nil_r.
  - split_and!; [apply Hh|done|right; by exists rs, d].
  - unfold upload_ok. rewrite Hr. split_and!; try done. apply Forall_app. by split; [|apply Forall_singleton].
  - by apply level_base.
Qed.

(** The message a round sends, and the header it leaves. *)
Lemma send_header u rs d eof buf :
  header_ok u rs -> up_hdrSize u + Z.of_nat (length d) <= Z.of_nat N ->
  buf = splice 0 [flags eof (1 <? up_hdrSize u)] (splice (Z.to_nat (up_hdrSize u)) d (up_buf u)) ->
  take (Z.to_nat (Z.of_nat (length d) + up_hdrSize u)) buf =
    flags eof (forallb no_data rs) :: header name (forallb no_data rs) ++ d /\
  (d = [] -> header_ok (mk_upload buf (up_hdrSize u) (up_fileSize u)) (rs ++ [(d, eof)])) /\
  (d <> [] -> forall fs, header_ok (mk_upload buf 1 fs) (rs ++ [(d, eof)])).
Proof.
  destruct u as [b hdr fs0]. intros (HN' & (b0 & Hb0) & Hhdr & Hle). cbn [up_buf up_hdrSize] in *.
  subst hdr. rewrite header_length. set (first := forallb no_data rs) in *.
  set (h := header name first) in *. rewrite Nat2Z.id in Hb0 |- *. intros Hd Hbuf0.
  assert (length buf = N) as Hbuf.
  { subst buf. rewrite length_splice; rewrite length_splice; cbn; lia. }
  split_and!.
  - subst buf. replace (Z.to_nat _) with (S (length h) + length d)%nat by lia.
    apply (message_bytes _ _ b0); [done|lia].
  - intros ->. unfold header_ok. rewrite forallb_app. cbn [forallb no_data fst andb]. rewrite andb_true_r.
    fold first h. cbn [up_buf up_hdrSize]. rewrite Nat2Z.id. split_and!; try done.
    exists (flags eof first). subst buf. apply (header_stays _ _ b0); [done|lia].
  - intros Hne fs. unfold header_ok. rewrite forallb_app. destruct d as [|c d]; [done|].
    cbn [forallb no_data fst andb]. rewrite andb_false_r. cbn [up_buf up_hdrSize header length].
    split_and!; try done; [|cbn in Hd; lia]. exists (flags eof first). by subst buf.
Qed.

Lemma send_round_wp fuel u t w : upload_ok u t -> wp (send_round fuel dst u) (round_post t) w.
Proof.
  intros (Hlev & Hnb & Heofs & Hh). pose proof Hh as (HbufN & _ & Hhdr & Hle). unfold send_round.
  apply wp_bind, (wp_invoke load_break). intros brk w1 _. wp_simpl. destruct brk.
  { apply wp_ret. cbn [app]. split_and!; [done| |left; by rewrite interrupted_app, orb_true_r].
    destruct Hlev as (Hr & He & Hs). unfold level.
    rewrite received_app, sent_app, reads_app, Hr. cbn. by rewrite !app_nil_r. }
  apply wp_bind, (wp_invoke (file_read _)). intros [[d eof] good] w2 Hread. wp_simpl.
  rewrite HbufN in *. apply file_read_ok in Hread; [|lia].
  rewrite CInt.to_int_id by (unfold CInt.INT_MIN; lia).
  destruct (send_header u (reads t) d eof _ Hh ltac:(lia) eq_refl) as (Hmsg & Hempty & Hnext).
  set (buf := splice 0 _ _) in *.
  set (t1 := [Ev load_break false; Ev (file_read (Z.of_nat N - up_hdrSize u)) (d, eof, good)]).
  assert (forall t2, forallb traffic_call (calls t2) = true -> received t2 = [] ->
    interrupted (t ++ t1 ++ t2) = false /\ received (t1 ++ t2) = [] /\ reads (t1 ++ t2) = [(d, eof)] /\
    reads (t ++ t1 ++ t2) = reads t ++ [(d, eof)] /\ sent (t1 ++ t2) = sent t2) as Htr.
  { intros t2 Ht2 Hr2. rewrite !interrupted_app, Hnb, (interrupted_traffic t2 Ht2), !reads_app,
      (reads_traffic t2 Ht2), received_app, Hr2. done. }
  assert (forall t2 o t' (w' : W), round_post (t ++ t1 ++ t2) o t' w' -> round_post t o (t1 ++ t2 ++ t') w')
    as Hshift by (intros t2 o t' w'; unfold round_post; by rewrite <- !app_assoc).
  destruct (Z.ltb_spec 0 (Z.of_nat (length d))) as [Hpos|Hzero].
  2: { destruct d; [|cbn in Hzero; lia]. apply wp_bind, wp_ret. wp_simpl.
       destruct (Htr [] eq_refl eq_refl) as (Hi & Hr & Hrd & Hrd2 & Hs).
       eapply wp_mono; [apply (finish_round _ (t ++ t1 ++ []) (reads t) [] eof good)|apply (Hshift [])]; auto.
       by apply (level_step t (t1 ++ []) [] eof []). }
  assert (d <> []) as Hd by (intros ->; cbn in Hpos; lia). rewrite Hmsg.
  set (msg := flags eof (forallb no_data (reads t)) :: header name (forallb no_data (reads t)) ++ d) in *.
  assert (Z.of_nat (length msg) = Z.of_nat (length d) + up_hdrSize u) as Hlen.
  { rewrite Hhdr. unfold msg. cbn [length]. rewrite length_app. lia. }
  assert (encode name (forallb no_data (reads t)) [(d, eof)] = [msg]) as Henc by (by destruct d).
  apply wp_bind, wp_bind. eapply wp_mono; [apply write_retry_wp; lia|].
  intros o t2 w3 (Ht2 & Hr2 & Ho). destruct (Htr t2 Ht2 Hr2) as (Hi & Hr & Hrd & Hrd2 & Hs).
  pose proof (level_step t (t1 ++ t2) d eof) as Hstep. rewrite Henc, Hs in Hstep.
  assert (sent t2 = [] -> base (t ++ t1 ++ t2)) as Hlost.
  { intros Hs2. apply (Hstep []); [done..|]. apply fwd_lost. constructor. }
  destruct o as [st|e|u'|]; wp_simpl; try done; try (by rewrite app_nil_r; auto);
    [|destruct Ho; split; [done|by apply Hlost]|by apply Hlost].
  destruct Ho as [Hst Hs2]. destruct (Z.eqb_spec st SRT_ERROR) as [->|_]; [by destruct Hst|].
  destruct (Z.eqb_spec st (Z.of_nat (length d) + up_hdrSize u)) as [->|Hne]; cbn [negb].
  - apply wp_ret. wp_simpl. eapply wp_mono;
      [apply (finish_round _ (t ++ t1 ++ t2) (reads t) d eof good)
      |intros o' t' w'; rewrite app_nil_r; exact (Hshift t2 o' t' w')]; auto.
    apply (Hstep [msg]); [done..| |done]. rewrite Hs2, <- Hlen, Nat2Z.id, firstn_all. done.
  - apply wp_ret. wp_simpl. apply wp_ret. unfold round_post. rewrite !app_nil_r.
    apply (Hstep [take (Z.to_nat st) msg]); [done..|by rewrite Hs2|].
    apply fwd_sent; [lia|constructor].
Qed.

(** The calls around the loop. *)
Definition bookkeeping (c : call) : bool :=
  match c with steady_now | file_open_in _ | file_close => true | _ => false end.
Lemma bookkeeping_quiet t : forallb bookkeeping (calls t) = true ->
  received t = [] /\ sent t = [] /\ reads t = [] /\ interrupted t = false.
Proof.
  intros Ht. split_and!; [eapply omap_only; try done; by intros [[] r]..|].
  induction t as [|[c r] t IH]; [done|]. revert Ht. cbn. intros [Hc Ht]%andb_prop.
  change (break_of (Ev c r) || interrupted t = false). rewrite IH by done. by destruct c.
Qed.
Lemma pad t0 t t1 :
  forallb bookkeeping (calls t0) = true -> forallb bookkeeping (calls t1) = true ->
  (base t -> base (t0 ++ t ++ t1)) /\ (level t -> level (t0 ++ t ++ t1)) /\
  (complete t -> complete (t0 ++ t ++ t1)).
Proof.
  intros (R0 & S0 & D0 & I0)%bookkeeping_quiet (R1 & S1 & D1 & I1)%bookkeeping_quiet.
  unfold base, level, complete.
  rewrite !received_app, !sent_app, !reads_app, !interrupted_app, R0, R1, S0, S1, D0, D1, I0, I1.
  by rewrite !app_nil_r, orb_false_r.
Qed.

Lemma send_loop_wp fuel u w :
  upload_ok u [] ->
  wp (loop fuel (send_round fuel dst) u) (fun o t _ =>
    base t /\
    match o with
    | Done (Some u') => length (up_buf u') = N /\ level t /\ complete t
    | Throw e => socket_exn e
    | Undefined _ => False
    | _ => True
    end) w.
Proof.
  intros Hu. apply (wp_loop (fun u t _ => upload_ok u t)); [done| |].
  - intros a t w' (Hl & _). split; [by apply level_base|done].
  - intros a t w' Ha. eapply wp_mono; [by apply send_round_wp|].
    intros [[u'|[u'|]]|e|v|] t' w1 Hp; cbn in Hp |- *; try done; [|by destruct Hp].
    destruct Hp as (HN' & Hl & Hc). split_and!; try done. by apply level_base.
Qed.
End spec.

(** What sending a file promises; see [sendFile_spec]. *)
Definition file_sent {W} (dst : isocket W) (uploadName : string) (buf : list char)
  : post (W:=W) (bool * list char) := fun o t _ =>
  let name := chars (CStr.c_str uploadName) in
  base dst name t /\
  match o with
  | Done (true, buf') => length buf' = length buf /\ level dst name t /\ complete t
  | Done (false, _) => True
  | Throw e => socket_exn e
  | Undefined u => u = DIVISION \/ (u = OVERRUN /\ (length buf < length name + 2)%nat)
  | NoFuel => True
  end.

Lemma file_sent_pad {W} (dst : isocket W) uploadName buf o t0 t t1 (w w' : W) :
  file_sent dst uploadName buf o t w ->
  forallb bookkeeping (calls t0) = true -> forallb bookkeeping (calls t1) = true ->
  file_sent dst uploadName buf o (t0 ++ t ++ t1) w'.
Proof.
  intros [Hb Ho] Ht0 Ht1. set (name := chars (CStr.c_str uploadName)) in *.
  destruct (pad dst name t0 t t1) as (Pb & Pl & Pc); [done..|]. split; [by apply Pb|].
  destruct o as [[[] buf']|e|u|]; try done. destruct Ho as (Hl & Hlev & Hc). split_and!; auto.
Qed.

(** The state the loop starts in. *)
Lemma upload_start {W} (dst : isocket W) name buf :
  (length name + 2 <= length buf)%nat ->
  upload_ok dst name (length buf)
    (mk_upload (splice 1 (name ++ [zero]) buf) (Z.of_nat (length name) + 2) 0) [].
Proof.
  intros Hfit. split; [by split_and!|]. split; [done|]. split; [done|].
  unfold header_ok. cbn [up_buf up_hdrSize].
  change (forallb no_data (reads [])) with true. cbn [header].
  assert (length (name ++ [zero]) = length name + 1)%nat as Hl by (rewrite length_app; cbn; lia).
  rewrite length_splice, Hl by lia. split_and!; try lia. destruct buf as [|b0 buf]; [cbn in Hfit; lia|].
  exists b0. replace (Z.to_nat _) with (1 + length (name ++ [zero]))%nat by lia.
  rewrite take_splice by (cbn in *; lia). done.
Qed.

(** What sendFile does once the file is open. *)
Lemma open_file_wp {W} `{Env W} `{!FileOk W} (dst : isocket W) `{!IsocketOk dst} fuel uploadName buf w :
  Z.of_nat (length buf) <= CInt.INT_MAX ->
  let name := chars (CStr.c_str uploadName) in
  wp (let! timeStart := invoke steady_now in
      if decide (length name + 2 <= length buf)%nat then
        let! r := loop fuel (send_round fuel dst)
                    (mk_upload (splice 1 (name ++ [zero]) buf) (Z.of_nat (length name) + 2) 0) in
        match r with
        | None => ret (false, buf)
        | Some u =>
            let! timeEnd := invoke steady_now in
            if Z.quot (timeEnd - timeStart) 1000 =? 0 then undefined DIVISION else ret (true, up_buf u)
        end
      else undefined OVERRUN) (file_sent dst uploadName buf) w.
Proof.
  intros Hbuf name. apply wp_bind, (wp_invoke steady_now). intros ts w2 _. wp_simpl.
  assert (forall o tl t2 (w w' : W), file_sent dst uploadName buf o tl w ->
    forallb bookkeeping (calls t2) = true -> file_sent dst uploadName buf o ([Ev steady_now ts] ++ tl ++ t2) w')
    as Hpad by (intros; by eapply file_sent_pad).
  assert (base dst name []) as Hnil by (by split_and!; [| |constructor]).
  destruct (decide _) as [Hfit|Hfit].
  2: { apply wp_undefined. apply (Hpad (Undefined OVERRUN) [] [] w2); [|done]. split; [done|]. right.
       split; [done|]. fold name. lia. }
  apply wp_bind. eapply wp_mono; [by apply (send_loop_wp dst name (length buf)), upload_start|].
  intros o tl w3 [Hb Ho]. destruct o as [[u'|]|e|v|]; wp_simpl; try done.
  - destruct Ho as (HN & Hl & Hc). apply wp_bind, (wp_invoke steady_now). intros te w4 _. wp_simpl.
    destruct (_ =? 0); [apply wp_undefined|apply wp_ret]; apply (Hpad _ tl [Ev steady_now te] w3);
      try done; by split; [|left].
  - apply wp_ret. by apply (Hpad (Done (false, buf)) tl [] w3).
Qed.

(** What sendFile sends: the messages are those of the protocol for the data
    read from the file, in order, each at most once and possibly cut when the
    write is; nothing is received. When it returns true, every message went out
    whole, and the file was read to its end unless the user interrupted. No
    exception but a socket's leaves it. The undefined behaviours are a name
    that does not fit the buffer and a transfer that takes no microsecond. *)
Lemma sendFile_spec {W} `{Env W} `{!FileOk W} (dst : isocket W) `{!IsocketOk dst}
    fuel filename uploadName buf w :
  Z.of_nat (length buf) <= CInt.INT_MAX ->
  wp (sendFile fuel filename uploadName dst buf) (file_sent dst uploadName buf) w.
Proof.
  intros Hbuf. unfold sendFile.
  apply wp_bind, (wp_invoke (file_open_in filename)). intros ok w1 _. wp_simpl.
  destruct ok; cbn [negb].
  2: { apply wp_ret. split; [|done]. by split_and!; [| |constructor]. }
  apply wp_finally. eapply wp_mono; [by apply open_file_wp|]. intros o t w2 Ho. unfold after.
  assert (forall t3 (w' : W), forallb bookkeeping (calls t3) = true ->
    file_sent dst uploadName buf o ([Ev (file_open_in filename) true] ++ t ++ t3) w') as Hpad
    by (intros; by eapply file_sent_pad).
  destruct o as [[]|e|u|];
    try (apply wp_bind, (wp_invoke file_close); intros closed w3 _; wp_simpl; apply wp_ret;
         by apply (Hpad [Ev file_close closed]));
    rewrite <- (app_nil_r t); by apply (Hpad []).
Qed.

(** ** Examples *)

(** A file system with one file of eight bytes, read in pieces of at most [k]
    bytes; a socket that takes every message; a clock that advances. *)
Record fs_state := mk_fs { fs_left : list char; fs_time : Z }.
#[export] Instance fs_env : Env fs_state := fun c s =>
  match c as c0 return resp c0 * fs_state with
  | file_open_in _ => (true, mk_fs (chars "abcdefgh") (fs_time s))
  | file_read n =>
      let k := Z.to_nat n in
      ((take k (fs_left s), Z.of_nat (length (fs_left s)) <? n, true), mk_fs (drop k (fs_left s)) (fs_time s))
  | steady_now => (fs_time s, mk_fs (fs_left s) (fs_time s + 5000))
  | srt_sendmsg2 _ _ len => (if 0 <=? len then len else SRT_ERROR, s)
  | srt_recvmsg2 _ _ => ((SRT_ERROR, []), s)
  | c => (default_resp c, s)
  end.
Definition fs0 : fs_state := mk_fs [] 0.
Definition sock7 : isocket fs_state := SrtSocket.srt_socket SrtSocket.example_object.

(** The name "f" and two bytes in the first message of five, then four each; the
    last message is the end of the file. *)
Example sendFile_pieces :
  (let '(o, t, _) := sendFile 9 "dir/f" "f" sock7 (repeat zero 5) fs0 in
   match o with Done (r, _) => Some (r, (sent t).*2) | _ => None end) =
  Some (true, [flags false true :: "f"%char :: zero :: chars "ab";
               flags false false :: chars "cdef"; flags true false :: chars "gh"]).
Proof. vm_compute. reflexivity. Qed.

(** An empty file sends nothing at all, and a file that fills its last message
    never sends the mark of the end. *)
Example sendFile_no_end :
  (let '(o, t, _) := sendFile 9 "dir/f" "f" sock7 (repeat zero 7) fs0 in
   match o with Done (r, _) => Some (r, (sent t).*2) | _ => None end) =
  Some (true, [flags false true :: "f"%char :: zero :: chars "abcd";
               flags true false :: chars "efgh"]) /\
  (let '(o, t, _) := sendFile 9 "dir/f" "f" sock7 (repeat zero 11) fs0 in
   match o with Done (r, _) => Some (r, (sent t).*2) | _ => None end) =
  Some (true, [flags false true :: "f"%char :: zero :: chars "abcdefgh"]).
Proof. split; vm_compute; reflexivity. Qed.

(** Both the object and its copy close the socket. *)
Example closed_twice :
  (let '(o, t, _) := (do! startFileSender (H0 := SrtSocket.example_srt_env) 9 SrtSocket.example_object
                             (mk_config "dir" 100 false 0 "" "csv") ["dir/f"] in
                      SrtSocket.destroy (H0 := SrtSocket.example_srt_env) SrtSocket.example_object) tt in
   (o, SrtSocket.ledger t)) =
  (Done tt, [SrtSocket.ReleaseEpoll 3; SrtSocket.ReleaseEpoll 4; SrtSocket.CloseSock 7;
             SrtSocket.ReleaseEpoll 3; SrtSocket.ReleaseEpoll 4; SrtSocket.CloseSock 7]).
Proof. vm_compute. reflexivity. Qed.

Lemma fs_file_ok : FileOk fs_state.
Proof.
  intros n w d eof good w' Hn [= <- _ _ _]. rewrite length_take. lia.
Qed.
Lemma fs_srt_ok : SrtOk fs_state.
Proof.
  split.
  - intros s cap w r d w' [= <- _ _]. by left.
  - intros s data len w r w' Ha. cbn in Ha. revert Ha.
    destruct (Z.leb_spec 0 len); intros [= <- _]; [right|by left]. lia.
Qed.
Lemma sendFile_spec_witness :
  wp (sendFile 9 "dir/f" "f" sock7 (repeat zero 5)) (file_sent sock7 "f" (repeat zero 5)) fs0.
Proof.
  pose proof fs_file_ok. pose proof fs_srt_ok. apply (sendFile_spec sock7). by vm_compute.
Defined.
(** ** The sockets of a transfer are released *)
Section released.
Context `{Build} {W : Type} `{Env W}.
Import Misc.
Abbreviation leaves m := (frames (W:=W) (S:=store) anywhere DANGLING m).

(** No local reference is left. *)
Definition holds (locals : list nat) (s : store) : Prop := heap_ok s locals /\ st_listening s = None.
Definition gone (s : store) : Prop := Forall (eq Dead) (st_heap s) /\ st_listening s = None.

Lemma holds_empty : holds [] (mk_store [] None).
Proof. by split. Qed.
Lemma holds_gone s : holds [] s -> gone s.
Proof. intros [Hok Hl]. split; [by apply heap_ok_dead|done]. Qed.
Lemma holds_alloc o l w s (Q : post (W:=W * store) nat) :
  holds l s -> (forall p s', holds (p :: l) s' -> Q (Done p) [] (w, s')) -> wp (alloc o) Q (w, s).
Proof. intros [Hok Hl] HQ. eapply alloc_wp; [done|]. intros s' Hok' Hl' _ _. apply HQ. split; [done|by rewrite Hl']. Qed.
Lemma holds_incref p l w s (Q : post (W:=W * store) unit) :
  holds (p :: l) s -> (forall s', holds (p :: p :: l) s' -> Q (Done tt) [] (w, s')) -> wp (incref p) Q (w, s).
Proof.
  intros [Hok Hl] HQ. destruct (heap_ok_live s p l Hok) as (o & n & Hp).
  eapply incref_wp; [done|done|]. intros s' Hok' Hl' _. apply HQ. split; [done|by rewrite Hl'].
Qed.
Lemma holds_decref p l w s :
  holds (p :: l) s -> wp (decref p) (fun o _ ws => o = Done tt /\ holds l ws.2) (w, s).
Proof. intros [Hok Hl]. eapply decref_wp; [done|]. intros t w' s' Hok' Hl' _ _. split; [done|]. split; [done|]. cbn. by rewrite Hl'. Qed.

(** Code with an exception handler that does nothing. *)
Lemma leaving_caught {A} (P : store -> Prop) (m : io (W * store) A) (a : A) ws :
  wp m (leaving P) ws -> wp (catch_socket m (fun _ => ret a)) (leaving P) ws.
Proof.
  intros Hm. apply wp_catch. eapply wp_mono; [exact Hm|].
  by intros [x|[]|u|] t w1 Ho.
Qed.
Lemma leaving_bind {A B} (P P' : store -> Prop) (m : io (W * store) A) (k : A -> io (W * store) B) w s :
  frames anywhere DANGLING m -> P s -> (forall s, P s -> P' s) ->
  (forall a w s, P s -> wp (k a) (leaving P') (w, s)) -> wp (bind m k) (leaving P') (w, s).
Proof.
  intros Hm Hs HP Hk. apply wp_bind. eapply wp_mono; [by apply (leaving_frames P)|].
  intros o t [w' s'] Ho. destruct o as [x|e|u|]; wp_simpl; try done; [by apply Hk|by apply HP].
Qed.

(** Whatever the connection is used for, as long as the use leaves the heap alone. *)
Lemma transfer_leaving ut (start : SrtSocket.srt -> io (W * store) unit) w s :
  (forall c, leaves (start c)) -> holds [] s -> wp (transfer ut start) (leaving (holds [])) (w, s).
Proof.
  intros Hstart Hs. unfold transfer.
  apply (leaving_bind (holds [])); [frames_apply frames_srt_of_uri|done|done|]. clear w s Hs. intros c0 w s Hs.
  apply wp_bind, (holds_alloc _ []); [done|]. clear s Hs. intros p s Hs. wp_simpl.
  apply (leaving_finally (holds [p])); [|intros w' s'; apply holds_decref].
  apply leaving_caught.
  assert (Huse : forall q c w s, holds [q; p] s -> wp (finally (start c) (decref q)) (leaving (holds [p])) (w, s)).
  { intros q c w' s' Hs'. apply (leaving_finally (holds [q; p])); [by apply leaving_frames|].
    intros w2 s2. apply holds_decref. }
  apply wp_bind. destruct (bool_decide _).
  - apply wp_bind. eapply wp_mono; [apply (leaving_frames (holds [p])); [|done]|].
    { unfold SrtSocket.async_accept. frames_apply frames_bind; [|intros ?]; [frames_apply frames_listen|frames_apply frames_accept]. }
    intros o t [w' s'] Ho. destruct o as [c|e|u|]; wp_simpl; try done.
    apply wp_bind, (holds_alloc _ [p]); [done|]. intros q s2 Hs2. wp_simpl. apply wp_ret. wp_simpl. by apply Huse.
  - apply wp_bind. eapply wp_mono; [apply (leaving_frames (holds [p])); [|done]|].
    { unfold SrtSocket.async_connect. frames_apply frames_bind; [|intros ?]; [frames_apply frames_connect|frames_apply frames_ret]. }
    intros o t [w' s'] Ho. destruct o as [c|e|u|]; wp_simpl; try done.
    apply wp_bind, (holds_incref p []); [done|]. intros s2 Hs2. wp_simpl. apply wp_ret. wp_simpl. by apply Huse.
Qed.

Lemma frames_send_files fuel cfg d filenames buf :
  leaves (send_files fuel cfg (SrtSocket.srt_socket d) filenames buf).
Proof.
  revert buf. induction filenames as [|f fs IH]; intros buf; cbn [send_files]; [frames_steps|].
  unfold sendFile, send_round, write_retry. frames_steps; try apply IH. all: frames_apply frames_srt_write.
Qed.
Lemma frames_sender fuel c cfg filenames : leaves (startFileSender fuel c cfg filenames).
Proof.
  unfold startFileSender, new_buffer, drain_round.
  frames_steps; apply frames_send_files || frames_apply frames_destroy.
Qed.
Lemma frames_read_directory fuel path : leaves (readDirectory fuel path).
Proof. unfold readDirectory, read_directory_round. frames_steps. Qed.
Lemma parse_uri_leaving {A} (P : store -> Prop) uri (k : Uri.UriParser -> io (W * store) A) w s :
  (forall ut, wp (k ut) (leaving P) (w, s)) -> wp (let! ut := SrtSocket.parse_uri uri in k ut) (leaving P) (w, s).
Proof.
  intros Hk. apply wp_bind. unfold SrtSocket.parse_uri. destruct (Uri.Parse _ _); [|done].
  apply wp_ret. wp_simpl. apply Hk.
Qed.

(** file send leaves no socket object behind, however it ends. *)
Lemma send_released fuel dstUrl cfg (w : W) :
  wp (run fuel dstUrl cfg) (leaving gone) (w, mk_store [] None).
Proof.
  pose proof holds_empty as Hs.
  apply (wp_mono _ (leaving (holds []))); [|intros [] ? [? ?]; cbn; try done; apply holds_gone]. unfold run.
  apply (leaving_bind (holds [])); [apply frames_read_directory|done|done|]. clear w. intros filenames w s Hs'.
  destruct filenames as [|f fs]; [by apply wp_ret|]. destruct (only_print cfg); [by apply wp_ret|].
  apply parse_uri_leaving. intros ut. apply transfer_leaving; [|done]. intros c. apply frames_sender.
Qed.
End released.
End FileSend.
