(* ===== verification/FileReceive.v ===== *)
(** * Receiving files (file-receive.cpp, file-receive.hpp)

    The messages of FileSend.v are taken apart in a buffer that keeps the bytes
    of earlier messages, and written to files below the destination path. *)

From Stdlib Require Import ZArith Lia Ascii String.
From stdpp Require Import prelude strings list.
From S2P Require Import Prelude Sys Logic Socket Uri SockOpts SrtSocket Misc FileSend.

Module FileReceive.
Local Open Scope string_scope.
Local Open Scope list_scope.
Local Open Scope Z_scope.
Import Socket FileProtocol.

Record config := mk_config {
  dst_path : string; segment_size : Z; stats_freq_ms : Z;
  stats_file : string; stats_format : string }.

Definition is_nul (c : char) : bool := bool_decide (c = zero).
Definition OVERREAD : string := "read past the end of a buffer".

(** ** std::ofstream: whether a file is open, and the fail and bad bits *)
Record ofstream := mk_ofstream { is_open : bool; failed : bool }.

Section stream.
Context {W : Type} `{Env W}.

(** [close()] fails when no file is open. *)
Definition of_close (f : ofstream) : io W ofstream :=
  if is_open f then
    let! ok := invoke file_close in ret (mk_ofstream false (failed f || negb ok))
  else ret (mk_ofstream false true).

(** [open()] on a stream without a file clears the error bits when it succeeds. *)
Definition of_open (path : string) (f : ofstream) : io W ofstream :=
  if is_open f then ret (mk_ofstream true true) else
  let! ok := invoke (file_open_out path) in
  ret (if ok : bool then mk_ofstream true false else mk_ofstream false true).

(** [write()] does nothing on a failed stream, and fails without a file. *)
Definition of_write (data : list char) (f : ofstream) : io W ofstream :=
  if failed f then ret f else
  if is_open f then
    let! ok := invoke (file_write data) in ret (mk_ofstream true (negb ok))
  else ret (mk_ofstream false true).

(** ** Directories *)
Definition createFolder (path : string) : io W bool :=
  let! '(created, ec) := invoke (create_directory path) in
  if created : bool then ret true else ret (negb ec).

(** Where the search for folders starts: after the first "./" or ".\". *)
Definition start_pos (path : string) : nat :=
  match CStr.find "./" 0 path with
  | Some found => found + 2
  | None => match CStr.find ".\" 0 path with Some found => found + 2 | None => 0 end
  end.

(** The loop from one delimiter to the next: [None] is npos. *)
Definition folder_round (path : string) (lastDelim : nat) (pos : option nat)
  : io W (option nat + bool) :=
  match pos with
  | None => ret (inr true)
  | Some p =>
      if decide (p = lastDelim) then ret (inr true) else
      let pos' := CStr.find_first_of "\/" (p + 1) path in
      let prefix := match pos' with
                    | Some q => of_chars (take q (chars path))
                    | None => path
                    end in
      let! ok := createFolder (CStr.c_str prefix) in
      ret (if ok : bool then inl pos' else inr false)
  end.

(** At most one round per character. *)
Definition createSubfolders (path : string) : io W bool :=
  let pos := start_pos path in
  match CStr.find_last_of "/\" path with
  | None => ret true
  | Some lastDelim =>
      if decide (lastDelim < pos)%nat then ret true
      else loop (S (CStr.size path)) (folder_round path lastDelim) (Some pos)
  end.
End stream.

(** ** The receiving loop *)
Record download := mk_download { dl_buf : list char; dl_file : ofstream; dl_progress : Z }.

Section receive.
Context {W : Type} `{Env W}.

(** A first message opens its file: [None] when the folders cannot be made. The
    result holds the length of the header. *)
Definition open_target (dstPath : string) (buf : list char) (f : ofstream)
  : io W (option (Z * ofstream)) :=
  let! f := of_close f in
  match CStr.index_where is_nul (drop 1 buf) with
  | None => undefined OVERREAD
  | Some len =>
      let filepath := dstPath +:+ of_chars (take len (drop 1 buf)) in
      let! ok := createSubfolders filepath in
      if negb ok then ret None else
      let! f := of_open (CStr.c_str filepath) f in
      ret (Some (1 + Z.of_nat len + 1, f))
  end.

(** The data behind the header goes to the file, which is closed at its end. *)
Definition store_data (c : char) (bytes hdrSize : Z) (buf : list char) (f : ofstream)
    (tNow progress : Z) : io W (download + bool) :=
  if bytes <? hdrSize then undefined OVERREAD else
  let! f := of_write (take (Z.to_nat (bytes - hdrSize)) (drop (Z.to_nat hdrSize) buf)) f in
  let! now := invoke steady_now in
  let progress := if progress + 1000000000 <=? now then tNow else progress in
  let! f := (if is_eof c then of_close f else ret f) in
  ret (inl (mk_download buf f progress)).

(** What is done with a message that was received. *)
Definition store_message (dstPath : string) (d : download) (bytes : Z) (data : list char)
  : io W (download + bool) :=
  let buf := splice 0 data (dl_buf d) in
  let c := default zero (head buf) in
  let! tNow := invoke steady_now in
  let! target :=
    (if is_first c then open_target dstPath buf (dl_file d) else ret (Some (1, dl_file d))) in
  match target with
  | None => ret (inr false)
  | Some (hdrSize, f) =>
      if is_first c && failed f then ret (inr true) else
      let progress := if is_first c then tNow else dl_progress d in
      if failed f then ret (inl (mk_download buf f progress)) else
      store_data c bytes hdrSize buf f tNow progress
  end.

(** The destructor of the stream closes a file that is open. *)
Definition of_destroy (f : ofstream) : io W unit :=
  if is_open f then do! invoke file_close in ret tt else ret tt.

(** One round of the loop: [inr] is the result of the function. Where it returns
    false, or true for a file that could not be opened, no file is open. *)
Definition receive_round (src : isocket W) (dstPath : string) (d : download) : io W (download + bool) :=
  let! forceBreak := invoke load_break in
  if forceBreak : bool then do! of_destroy (dl_file d) in ret (inr true) else
  let! '(bytes, data) :=
    on_throw (sock_read src (Z.of_nat (length (dl_buf d))) (-1)) (of_destroy (dl_file d)) in
  if bytes =? 0 then ret (inl d) else store_message dstPath d bytes data.

Definition receiveFiles (fuel : nat) (src : isocket W) (dstPath : string) (buf : list char)
  : io W bool :=
  loop fuel (receive_round src dstPath) (mk_download buf (mk_ofstream false false) 0).
End receive.

(** ** The command *)
Section command.
Context `{Build} {W : Type} `{Env W}.

(** startFileReceiver, given the connection. *)
Definition startFileReceiver (fuel : nat) (sock : SrtSocket.srt) (cfg : config) : io W unit :=
  do! invoke (async_start FileSend.STATS) in
  finally
    (let! buf := FileSend.new_buffer (segment_size cfg) in
     do! receiveFiles fuel (SrtSocket.srt_socket sock) (dst_path cfg) buf in
     do! invoke (store_flag FileSend.LOCAL_BREAK true) in
     do! invoke (async_wait FileSend.STATS) in ret tt)
    (do! invoke (async_wait FileSend.STATS) in ret tt).

(** The URI of the connection, with the options of file transmission. *)
Definition receive_uri (ut : Uri.UriParser) (cfg : config) : Uri.UriParser :=
  let ut := Uri.set_param "transtype" "file" ut in
  let ut := Uri.set_param "messageapi" "true" ut in
  if Uri.param_exists "rcvbuf" ut then ut
  else Uri.set_param "rcvbuf" (CNum.to_string (CInt.to_size (segment_size cfg * 10))) ut.

End command.

Definition run `{Build} {W} `{Env W} (fuel : nat) (srcUrl : string) (cfg : config)
  : io (W * Misc.store) unit :=
  let! ut := SrtSocket.parse_uri srcUrl in
  FileSend.transfer (receive_uri ut cfg) (fun c => startFileReceiver fuel c cfg).

(** ** Folders *)
Definition is_delim (c : char) : bool := bool_decide (c ∈ chars "\/").

Definition delim_at (path : string) (q : nat) : bool :=
  match chars path !! q with Some c => is_delim c | None => false end.

(** The positions after [p] and up to [last] that hold a delimiter. *)
Definition delims (path : string) (p last : nat) : list nat :=
  filter (fun q => delim_at path q = true) (seq (S p) (last - p)).
Definition prefix_at (path : string) (q : nat) : string := of_chars (take q (chars path)).

(** Where a text occurs in another, and where first. *)
Definition occurs (p l : list char) (n : nat) : Prop := exists a b, l = a ++ p ++ b /\ length a = n.
Definition first_at (p l : list char) (n : nat) : Prop := occurs p l n /\ forall m, occurs p l m -> (n <= m)%nat.

(** The part of a path in which no folder is looked for: up to its first "./", else up
    to its first ".\", else none of it. *)
Definition skips (path : string) (n : nat) : Prop :=
  (exists k, first_at (chars "./") (chars path) k /\ n = (k + 2)%nat) \/
  (forall k, ~ occurs (chars "./") (chars path) k) /\
    ((exists k, first_at (chars ".\") (chars path) k /\ n = (k + 2)%nat) \/
     (forall k, ~ occurs (chars ".\") (chars path) k) /\ n = 0%nat).

(** What stands in front of each delimiter of a path, outermost first. *)
Fixpoint ancestors (seen l : list char) : list (list char) :=
  match l with
  | [] => []
  | c :: l' => (if is_delim c then [seen] else []) ++ ancestors (seen ++ [c]) l'
  end.
(** The folders of a path that reach beyond its first [n] characters. *)
Definition folders (path : string) (n : nat) : list string :=
  of_chars <$> filter (fun f => (n < length f)%nat) (ancestors [] (chars path)).

(** The same, by the positions that the loop visits. *)
Definition visited (path : string) : list string :=
  match CStr.find_last_of "/\" path with
  | None => []
  | Some last => prefix_at path <$> delims path (start_pos path) last
  end.

Lemma find_last_of_delim path last :
  CStr.find_last_of "/\" path = Some last -> delim_at path last = true /\ (last < CStr.size path)%nat.
Proof.
  unfold CStr.find_last_of. intros H. split; [|by apply CStr.last_index_where_lt in H].
  apply CStr.last_index_where_at in H as (c & Hc & Hin). unfold delim_at, is_delim. rewrite Hc.
  apply bool_decide_eq_true in Hin. apply bool_decide_eq_true. revert Hin. cbn. set_solver.
Qed.

Lemma filter_none {A} (P : A -> Prop) `{!forall x, Decision (P x)} (l : list A) :
  (forall x, x ∈ l -> ~ P x) -> filter P l = [].
Proof.
  intros Hn. induction l as [|x l IH]; [done|]. rewrite filter_cons_False; [|apply Hn; set_solver].
  apply IH. intros y Hy. apply Hn. set_solver.
Qed.

(** The next delimiter is the first of those that are left. *)
Lemma next_delim path p last :
  delim_at path last = true -> (p < last)%nat ->
  exists q, CStr.find_first_of "\/" (p + 1) path = Some q /\ (p < q <= last)%nat /\
            delims path p last = q :: delims path q last.
Proof.
  intros Hl Hlt. unfold CStr.find_first_of.
  destruct (CStr.index_where _ (drop (p + 1) (chars path))) as [i|] eqn:Hi.
  2: { exfalso. apply CStr.index_where_None in Hi. rewrite forallb_forall in Hi.
       unfold delim_at in Hl. destruct (chars path !! last) as [c|] eqn:Hc; [|done].
       specialize (Hi c). unfold is_delim in Hl. rewrite Hl in Hi. discriminate Hi.
       apply list_elem_of_In. apply list_elem_of_lookup. exists (last - (p + 1))%nat.
       rewrite lookup_drop. by replace (p + 1 + (last - (p + 1)))%nat with last by lia. }
  apply CStr.index_where_Some in Hi as (a & x & b & Heq & <- & Hx & Ha).
  set (q := (p + 1 + length a)%nat). exists q. cbn. split; [done|].
  assert (forall k, chars path !! (p + 1 + k)%nat = (a ++ x :: b) !! k) as Hat
    by (intros k; by rewrite <- Heq, lookup_drop).
  assert (forall k, (k < length a)%nat -> delim_at path (p + 1 + k) = false) as Hno.
  { intros k Hk. unfold delim_at. rewrite Hat, lookup_app_l by done.
    destruct (a !! k) as [y|] eqn:Hy; [|done]. rewrite forallb_forall in Ha.
    apply negb_true_iff. apply (Ha y), list_elem_of_In. by eapply list_elem_of_lookup_2. }
  assert (delim_at path q = true) as Hq.
  { unfold delim_at, q. rewrite Hat, lookup_app_r, Nat.sub_diag by done. exact Hx. }
  assert (q <= last)%nat as Hle.
  { destruct (decide (q <= last)%nat); [done|]. exfalso.
    specialize (Hno (last - (p + 1))%nat ltac:(lia)).
    replace (p + 1 + (last - (p + 1)))%nat with last in Hno by lia. congruence. }
  split; [unfold q in *; lia|]. unfold delims.
  replace (last - p)%nat with (length a + S (last - q))%nat by (unfold q in *; lia).
  rewrite seq_app, filter_app. replace (S p + length a)%nat with q by (unfold q; lia). cbn [seq].
  rewrite filter_cons_True by done.
  rewrite (filter_none _ (seq (S p) (length a))); [done|].
  intros k Hk%elem_of_seq. rewrite <- not_false_iff_true. intros Hn. apply Hn.
  replace k with (p + 1 + (k - (p + 1)))%nat by lia. apply Hno. lia.
Qed.

(** Whether an answer to create_directory is a failure. *)
Definition refused (e : event) : bool :=
  match e with Ev (create_directory _) (created, ec) => negb created && ec | _ => false end.
Lemma delims_end path last : delims path last last = [].
Proof. unfold delims. by rewrite Nat.sub_diag. Qed.

(** ** The folders that are visited are the folders of the path *)
Lemma is_prefix_spec (p l : list char) : CStr.is_prefix p l = true <-> exists b, l = p ++ b.
Proof.
  split; [|intros [b ->]; apply CStr.is_prefix_app]. revert l.
  induction p as [|x p IH]; intros l; [by exists l|]. destruct l as [|y l]; [done|]. cbn.
  intros [->%bool_decide_eq_true [b ->]%IH]%andb_true_iff. by exists b.
Qed.
Lemma index_of_first (p l : list char) :
  match CStr.index_of p l with Some n => first_at p l n | None => forall n, ~ occurs p l n end.
Proof.
  induction l as [|y l IH]; cbn [CStr.index_of]; destruct (CStr.is_prefix p _) eqn:E.
  1,3: apply is_prefix_spec in E as [b E]; split; [by exists [], b|intros; lia].
  - intros n (a & b & Heq & _). symmetry in Heq. apply app_eq_nil in Heq as [_ [-> ->]%app_eq_nil].
    by rewrite (proj2 (is_prefix_spec [] [])) in E by (by exists []).
  - assert (Hcons : forall n, occurs p (y :: l) n -> exists m, n = S m /\ occurs p l m).
    { intros n (a & b & Heq & <-). destruct a as [|c a].
      - by rewrite (proj2 (is_prefix_spec p (y :: l))) in E by (by exists b).
      - injection Heq as <- Heq. exists (length a). split; [done|]. by exists a, b. }
    destruct (CStr.index_of p l) as [n|]; cbn [fmap option_fmap option_map].
    + destruct IH as [(a & b & -> & <-) Hmin]. split; [by exists (y :: a), b|].
      intros m (k & -> & Hk)%Hcons. specialize (Hmin k Hk). cbn. lia.
    + intros n (m & _ & Hm)%Hcons. by apply (IH m).
Qed.
Lemma find_first p path :
  match CStr.find p 0 path with Some n => first_at (chars p) (chars path) n | None => forall n, ~ occurs (chars p) (chars path) n end.
Proof.
  unfold CStr.find. rewrite drop_0. pose proof (index_of_first (chars p) (chars path)) as H.
  destruct (CStr.index_of _ _); exact H.
Qed.
Lemma start_pos_skips path : skips path (start_pos path).
Proof.
  unfold skips, start_pos. pose proof (find_first "./" path) as H1. pose proof (find_first ".\" path) as H2.
  destruct (CStr.find "./" 0 path) as [k|]; [left; eauto|right; split; [done|]].
  destruct (CStr.find ".\" 0 path) as [k|]; [left; eauto|by right].
Qed.

Lemma last_index_where_after {A} (P : A -> bool) l i j x :
  CStr.last_index_where P l = Some i -> (i < j)%nat -> l !! j = Some x -> P x = false.
Proof.
  revert i j. induction l as [|y l IH]; intros i j; [done|]. cbn.
  destruct (CStr.last_index_where P l) as [k|] eqn:E.
  - intros [= <-] Hlt Hj. destruct j as [|j]; [lia|]. by apply (IH k j); [|lia|].
  - destruct (P y); [|done]. intros [= <-] Hlt Hj. destruct j as [|j]; [lia|]. cbn in Hj.
    clear -E Hj. revert j Hj. induction l as [|z l IH]; intros j Hj; [done|]. cbn in E.
    destruct (CStr.last_index_where P l); [done|]. destruct (P z) eqn:Hz; [done|].
    destruct j as [|j]; [by injection Hj as ->|by apply (IH eq_refl j)].
Qed.
Lemma no_last_index {A} (P : A -> bool) l x j : CStr.last_index_where P l = None -> l !! j = Some x -> P x = false.
Proof.
  revert j. induction l as [|y l IH]; intros j; [done|]. cbn. destruct (CStr.last_index_where P l); [done|].
  destruct (P y) eqn:Hy; [done|]. intros _ Hj. destruct j as [|j]; [by injection Hj as ->|by apply (IH j)].
Qed.
Lemma delim_either c : bool_decide (c ∈ chars "/\") = is_delim c.
Proof. unfold is_delim. apply bool_decide_ext. cbn. set_solver. Qed.
Lemma delim_after path last q : CStr.find_last_of "/\" path = Some last -> (last < q)%nat -> delim_at path q = false.
Proof.
  intros Hl Hq. unfold delim_at. destruct (chars path !! q) as [c|] eqn:Hc; [|done]. rewrite <- delim_either.
  exact (last_index_where_after _ _ _ _ _ Hl Hq Hc).
Qed.
Lemma delim_nowhere path q : CStr.find_last_of "/\" path = None -> delim_at path q = false.
Proof.
  intros Hl. unfold delim_at. destruct (chars path !! q) as [c|] eqn:Hc; [|done]. rewrite <- delim_either.
  exact (no_last_index _ _ _ _ Hl Hc).
Qed.

Lemma filter_ext_in {A} (P Q : A -> Prop) `{!forall x, Decision (P x), !forall x, Decision (Q x)} (l : list A) :
  (forall x, x ∈ l -> P x <-> Q x) -> filter P l = filter Q l.
Proof.
  induction l as [|x l IH]; intros Hpq; [done|]. rewrite !filter_cons.
  rewrite IH by (intros y Hy; apply Hpq; by right). assert (P x <-> Q x) by (apply Hpq; by left).
  destruct (decide (P x)), (decide (Q x)); tauto || done.
Qed.
Lemma filter_map {A B} (f : A -> B) (P : B -> Prop) `{!forall x, Decision (P x)} (l : list A) :
  filter P (f <$> l) = f <$> filter (fun x => P (f x)) l.
Proof.
  induction l as [|x l IH]; [done|]. cbn [fmap list_fmap]. rewrite !filter_cons, IH. by destruct (decide (P (f x))).
Qed.
Lemma ancestors_at seen l :
  ancestors seen l = (fun q => seen ++ take q l) <$>
    filter (fun q => match l !! q with Some c => is_delim c | None => false end = true) (seq 0 (length l)).
Proof.
  revert seen. induction l as [|c l IH]; intros seen; [done|]. cbn [ancestors length seq]. rewrite IH.
  rewrite <- (fmap_S_seq 0), filter_cons. cbn [lookup list_lookup].
  rewrite filter_map. cbn [lookup list_lookup].
  assert (forall qs : list nat, (fun q => (seen ++ [c]) ++ take q l) <$> qs = (fun q => seen ++ take q (c :: l)) <$> (S <$> qs)) as E.
  { intros qs. rewrite <- list_fmap_compose. apply list_fmap_ext. intros _ q _. cbn. by rewrite <- (assoc_L app). }
  rewrite E. case_decide as Hd; [rewrite Hd|rewrite (not_true_is_false _ Hd)]; cbn [fmap list_fmap app take]; by rewrite ?app_nil_r.
Qed.
Lemma folders_at path n :
  folders path n = prefix_at path <$> filter (fun q => (n < q)%nat) (filter (fun q => delim_at path q = true) (seq 0 (CStr.size path))).
Proof.
  unfold folders. rewrite ancestors_at. cbn [app]. change (length (chars path)) with (CStr.size path).
  rewrite filter_map, <- list_fmap_compose. unfold compose, prefix_at. f_equal.
  apply filter_ext_in. intros q [_ Hq%elem_of_seq]%list_elem_of_filter. unfold CStr.size in Hq. rewrite length_take. lia.
Qed.
Lemma visited_folders path : visited path = folders path (start_pos path).
Proof.
  unfold visited. rewrite folders_at. generalize (start_pos path). intros n.
  destruct (CStr.find_last_of "/\" path) as [last|] eqn:Hlast.
  2: { rewrite (filter_none (fun q => delim_at path q = true)); [done|]. intros q _. by rewrite delim_nowhere. }
  f_equal. unfold delims. pose proof (find_last_of_delim path last Hlast) as [_ Hlt].
  destruct (decide (last <= n)%nat) as [Hle|Hgt].
  { replace (last - n)%nat with 0%nat by lia. symmetry. apply filter_none.
    intros q [Hd _]%list_elem_of_filter Hq. rewrite (delim_after path last) in Hd by (done || lia). done. }
  replace (CStr.size path) with (S n + ((last - n) + (CStr.size path - S last)))%nat by lia.
  rewrite !seq_app, !filter_app. cbn [Nat.add].
  rewrite (filter_none (fun q => delim_at path q = true) (seq (S n + (last - n)) _)).
  2: { intros q Hq%elem_of_seq. rewrite (delim_after path last); [done..|lia]. }
  rewrite (filter_none (fun q => (n < q)%nat) (filter _ (seq 0 (S n)))).
  2: { intros q [_ Hq%elem_of_seq]%list_elem_of_filter. lia. }
  rewrite app_nil_r. cbn [app].
  set (l := filter _ (seq (S n) _)). transitivity (filter (fun _ : nat => True) l).
  { clear. by induction l as [|x l IH]; [|rewrite filter_cons_True, <- IH]. }
  apply filter_ext_in. intros q [_ Hq%elem_of_seq]%list_elem_of_filter. lia.
Qed.

Section folders.
Context {W : Type} `{Env W}.

Lemma createFolder_wp path w :
  wp (createFolder path) (fun o t _ => exists r, t = [Ev (create_directory path) r] /\
    o = Done (negb (existsb refused t))) w.
Proof.
  unfold createFolder. apply wp_bind, (wp_invoke (create_directory path)). intros [created ec] w1 _.
  wp_simpl. destruct created; apply wp_ret; [by exists (true, ec)|exists (false, ec)].
  split; [done|]. cbn. by rewrite orb_false_r.
Qed.

(** What createSubfolders promises: the folders of the list are asked for, up to the
    first that is refused. *)
Definition folders_made (wanted : list string) : post (W:=W) bool := fun o t _ =>
  exists n, calls t = (fun f => create_directory (CStr.c_str f)) <$> take n wanted /\
    ((o = Done true /\ n = length wanted /\ existsb refused t = false) \/
     (o = Done false /\ exists t' e, t = t' ++ [e] /\ existsb refused t' = false /\ refused e = true)).

Lemma createSubfolders_wp path w : wp (createSubfolders path) (folders_made (visited path)) w.
Proof.
  unfold createSubfolders, folders_made, visited.
  destruct (CStr.find_last_of "/\" path) as [last|] eqn:Hlast.
  2: { apply wp_ret. exists 0%nat. split; [done|]. by left. }
  apply find_last_of_delim in Hlast as [Hdelim Hsize].
  destruct (decide (last < start_pos path)%nat) as [Hlt|Hge].
  { apply wp_ret. exists 0%nat. split; [done|]. left. split; [done|]. unfold delims.
    replace (last - start_pos path)%nat with 0%nat by lia. done. }
  apply (wp_loop_bounded (fun n pos t _ => exists p dn, pos = Some p /\ (p <= last)%nat /\
    n = (last - p)%nat /\ delims path (start_pos path) last = dn ++ delims path p last /\
    calls t = (fun q => create_directory (CStr.c_str (prefix_at path q))) <$> dn /\
    existsb refused t = false) _ _ _ (last - start_pos path)).
  { lia. }
  { exists (start_pos path), []. split_and!; done || lia. }
  intros n pos t w' (p & dn & -> & Hp & -> & Hd & Hc & Hno). unfold folder_round.
  destruct (decide (p = last)) as [->|Hne].
  { apply wp_ret. unfold round. rewrite app_nil_r. exists (length dn).
    rewrite Hd, delims_end, app_nil_r, length_fmap, <- fmap_take, firstn_all, <- list_fmap_compose.
    split; [done|]. by left. }
  destruct (next_delim path p last Hdelim ltac:(lia)) as (q & Hq & Hle & Hrest). rewrite Hq.
  apply wp_bind. eapply wp_mono; [apply createFolder_wp|]. intros o t2 w2 (r & -> & ->).
  fold (prefix_at path q). wp_simpl. apply wp_ret. unfold round.
  set (e := Ev (create_directory (CStr.c_str (prefix_at path q))) r).
  assert (calls (t ++ [e]) =
    (fun q => create_directory (CStr.c_str (prefix_at path q))) <$> (dn ++ [q])) as Hc2
    by (by rewrite calls_app, Hc, fmap_app).
  cbn [existsb]. rewrite orb_false_r. destruct (refused e) eqn:He; cbn [negb].
  - exists (S (length dn)). split.
    + rewrite Hc2, Hd, Hrest, <- fmap_take, <- list_fmap_compose.
      rewrite (cons_middle q dn (delims path q last)), (assoc_L app), take_app_length'; [done|].
      rewrite length_app. cbn. lia.
    + right. split; [done|]. by exists t, e.
  - exists (last - q)%nat. split; [lia|]. exists q, (dn ++ [q]). rewrite existsb_app, Hno. cbn [existsb].
    rewrite He, orb_false_r.
    split_and!; try done; [lia|]. by rewrite Hd, Hrest, <- (assoc_L app).
Qed.

(** C13: createSubfolders always returns. It asks for folders of the path, the prefixes
    that end before a delimiter, from the outermost to the last, once each; it returns
    true when none was refused, and stops with false at the first that is. The folders
    are those that reach beyond the first "./" of the path, or beyond its first ".\"
    when there is no "./": in a path that starts with one of them the dot is left
    out, but where one stands further inside, behind the name of a folder that ends
    with a dot, the folders around it are never asked for. *)
Theorem createSubfolders_spec path w :
  exists n, skips path n /\
  wp (createSubfolders path) (fun o t _ =>
    exists k, calls t = (fun f => create_directory (CStr.c_str f)) <$> take k (folders path n) /\
      ((o = Done true /\ k = length (folders path n) /\ existsb refused t = false) \/
       (o = Done false /\ exists t' e, t = t' ++ [e] /\ existsb refused t' = false /\ refused e = true))) w.
Proof.
  exists (start_pos path). split; [apply start_pos_skips|]. rewrite <- visited_folders. apply createSubfolders_wp.
Qed.
(** The folder of a file is found; the folders around one whose name ends with a dot
    are not. *)
Example folders_of_paths :
  folders "./a/b/f" (start_pos "./a/b/f") = ["./a"; "./a/b"] /\ folders "a/b/f" (start_pos "a/b/f") = ["a"; "a/b"] /\
  start_pos "a/b./c/f" = 5%nat /\ folders "a/b./c/f" 5 = ["a/b./c"] /\ folders "a/b./c/f" 0 = ["a"; "a/b."; "a/b./c"].
Proof. vm_compute. done. Qed.
End folders.

(** ** What is written to files *)
Inductive fop := FOpen (path : string) | FWrite (data : list char) | FClose.
Definition op_of (e : event) : option fop :=
  match e with
  | Ev (file_open_out path) _ => Some (FOpen path)
  | Ev (file_write data) _ => Some (FWrite data)
  | Ev file_close _ => Some FClose
  | _ => None
  end.
Definition ops (t : list event) : list fop := omap op_of t.

(** The file system does what it is asked. *)
Definition accepted_event (e : event) : bool :=
  match e with
  | Ev (file_open_out _) ok | Ev (file_write _) ok | Ev file_close ok => ok
  | e => negb (refused e)
  end.
Definition accepted (t : list event) : bool := forallb accepted_event t.

(** The meaning of a message: the file operations it asks for, when a file is
    open and when none is. *)
Definition split_name (rest : list char) : option (list char * list char) :=
  n ← CStr.index_where is_nul rest; Some (take n rest, drop (S n) rest).
Definition closing (c : char) : list fop := if is_eof c then [FClose] else [].
Definition decode_step (dst : string) (opened : bool) (m : list char) : list fop * bool :=
  match m with
  | [] => ([], opened)
  | c :: rest =>
      if is_first c then
        match split_name rest with
        | None => ([], opened)
        | Some (name, body) =>
            ((if opened then [FClose] else []) ++
             FOpen (CStr.c_str (dst +:+ of_chars name)) :: FWrite body :: closing c, negb (is_eof c))
        end
      else if opened then (FWrite rest :: closing c, negb (is_eof c)) else ([], false)
  end.
Fixpoint decode (dst : string) (opened : bool) (msgs : list (list char)) : list fop * bool :=
  match msgs with
  | [] => ([], opened)
  | m :: msgs' =>
      let '(o1, opened1) := decode_step dst opened m in
      let '(o2, opened2) := decode dst opened1 msgs' in (o1 ++ o2, opened2)
  end.
(** A message of the protocol: a first message holds a whole name. *)
Definition well_formed (m : list char) : Prop :=
  match m with
  | [] => False
  | c :: rest => is_first c = true -> zero ∈ rest
  end.

Lemma ops_app t1 t2 : ops (t1 ++ t2) = ops t1 ++ ops t2.
Proof. apply omap_app. Qed.
Lemma accepted_app t1 t2 : accepted (t1 ++ t2) = accepted t1 && accepted t2.
Proof. apply forallb_app. Qed.
Lemma decode_app dst opened m1 m2 :
  decode dst opened (m1 ++ m2) =
  let '(o1, opened1) := decode dst opened m1 in
  let '(o2, opened2) := decode dst opened1 m2 in (o1 ++ o2, opened2).
Proof.
  revert opened. induction m1 as [|m m1 IH]; intros opened; cbn [app decode].
  - by destruct (decode dst opened m2).
  - destruct (decode_step dst opened m) as [o1 b1]. rewrite IH.
    destruct (decode dst b1 m1) as [o2 b2]. destruct (decode dst b2 m2) as [o3 b3].
    by rewrite (assoc_L app).
Qed.
Lemma traffic_ops t : forallb traffic_call (calls t) = true -> ops t = [] /\ accepted t = true.
Proof.
  intros Ht. split; [eapply omap_only; try done; by intros [[] r]|].
  induction t as [|[c r] t IH]; [done|]. revert Ht. cbn. intros [Hc Ht]%andb_prop.
  change (accepted_event (Ev c r) && accepted t = true). rewrite IH by done. by destruct c.
Qed.

(** A name found in a buffer whose front holds the message. *)
Lemma name_in_buffer rest old n :
  zero ∈ rest -> CStr.index_where is_nul (rest ++ old) = Some n ->
  (n < length rest)%nat /\ take n (rest ++ old) = take n rest /\
  CStr.index_where is_nul rest = Some n.
Proof.
  intros Hin Hn. destruct (CStr.index_where is_nul rest) as [k|] eqn:Hk.
  - apply CStr.index_where_Some in Hk as (a & x & b & -> & <- & Hx & Ha).
    assert (CStr.index_where is_nul ((a ++ x :: b) ++ old) = Some (length a)) as Hk.
    { apply CStr.index_where_Some. exists a, x, (b ++ old). by rewrite <- app_assoc. }
    rewrite Hn in Hk. injection Hk as ->. rewrite length_app. cbn [length].
    split; [lia|]. split; [|done]. rewrite <- app_assoc. by rewrite !take_app_length.
  - exfalso. apply CStr.index_where_None in Hk. rewrite forallb_forall in Hk.
    specialize (Hk zero ltac:(by apply list_elem_of_In)). by unfold is_nul in Hk; rewrite bool_decide_eq_true_2 in Hk.
Qed.

Section rounds.
Context {W : Type} `{Env W}.

Lemma of_close_wp f w :
  wp (of_close f) (fun o t _ => received t = [] /\ ops t = (if is_open f then [FClose] else []) /\
    exists f', o = Done f' /\ is_open f' = false) w.
Proof.
  unfold of_close. destruct (is_open f).
  - apply wp_bind, (wp_invoke file_close). intros ok w1 _. wp_simpl. apply wp_ret.
    split_and!; [done..|]. by eexists.
  - apply wp_ret. split_and!; [done..|]. by eexists.
Qed.
Lemma of_open_wp path f w :
  is_open f = false ->
  wp (of_open path f) (fun o t _ => received t = [] /\ ops t = [FOpen path] /\
    exists f', o = Done f' /\ failed f' = negb (accepted t) /\ is_open f' = accepted t) w.
Proof.
  intros Hf. unfold of_open. rewrite Hf. apply wp_bind, (wp_invoke (file_open_out path)).
  intros ok w1 _. wp_simpl. apply wp_ret. split_and!; [done..|]. destruct ok; by eexists.
Qed.
Lemma of_write_wp data f w :
  wp (of_write data f) (fun o t _ => received t = [] /\
    ops t = (if negb (failed f) && is_open f then [FWrite data] else []) /\
    exists f', o = Done f' /\ is_open f' = is_open f /\
      (failed f = false -> is_open f = true -> failed f' = negb (accepted t))) w.
Proof.
  unfold of_write. destruct (failed f); cbn [negb andb].
  { apply wp_ret. split_and!; [done..|]. by exists f. }
  destruct (is_open f) eqn:Hf.
  - apply wp_bind, (wp_invoke (file_write data)). intros ok w1 _. wp_simpl. apply wp_ret.
    split_and!; [done..|]. eexists. split_and!; [done..|]. intros _ _. cbn. by rewrite andb_true_r.
  - apply wp_ret. split_and!; [done..|]. by eexists.
Qed.

Lemma folders_quiet wanted (o : outcome bool) t (w : W) :
  folders_made wanted o t w ->
  received t = [] /\ ops t = [] /\ o = Done (accepted t).
Proof.
  intros (n & Hc & Ho).
  set (P := fun c => match c with create_directory _ => true | _ => false end).
  assert (forallb P (calls t) = true) as HP.
  { rewrite Hc. apply forallb_forall. intros c (f & -> & _)%list_elem_of_In%list_elem_of_fmap. done. }
  split_and!; [eapply (omap_only P); try done; by intros [[] r]..|].
  assert (forall t, forallb P (calls t) = true -> accepted t = negb (existsb refused t)) as Hacc.
  { clear. intros t. induction t as [|[c r] t IH]; [done|]. cbn. intros [Hc Ht]%andb_prop.
    destruct c; try done. rewrite negb_orb. f_equal. by apply IH. }
  rewrite Hacc by done. destruct Ho as [(-> & _ & ->)|(-> & t' & e & -> & H1 & H2)]; [done|].
  rewrite existsb_app, H1. cbn [existsb]. by rewrite H2.
Qed.

(** Opening the target of a first message whose name is in the buffer. *)
Lemma open_target_wp dstPath c rest old f n w :
  zero ∈ rest -> CStr.index_where is_nul rest = Some n ->
  wp (open_target dstPath (c :: rest ++ old) f) (fun o t _ => received t = [] /\
    match o with
    | Done None => accepted t = false
    | Done (Some (hdr, f')) => hdr = Z.of_nat n + 2 /\ is_open f' = negb (failed f') /\
        (accepted t = true -> failed f' = false /\
          ops t = (if is_open f then [FClose] else []) ++
                  [FOpen (CStr.c_str (dstPath +:+ of_chars (take n rest)))])
    | _ => False
    end) w.
Proof.
  intros Hin Hn. unfold open_target. apply wp_bind. eapply wp_mono; [apply of_close_wp|].
  intros o t1 w1 (Hr1 & Ho1 & f1 & -> & Hf1). wp_simpl. change (drop 1 (c :: rest ++ old)) with (rest ++ old).
  destruct (CStr.index_where is_nul (rest ++ old)) as [m|] eqn:Hm.
  2: { exfalso. apply CStr.index_where_None in Hm. rewrite forallb_forall in Hm.
       specialize (Hm zero ltac:(apply list_elem_of_In; set_solver)).
       unfold is_nul in Hm. by rewrite bool_decide_eq_true_2 in Hm. }
  destruct (name_in_buffer rest old m Hin Hm) as (Hlt & Htake & Hn').
  rewrite Hn in Hn'. injection Hn' as <-. rewrite Htake.
  apply wp_bind. eapply wp_mono; [apply createSubfolders_wp|].
  intros o t2 w2 (Hr2 & Ho2 & ->)%folders_quiet. wp_simpl.
  destruct (accepted t2) eqn:Ha2; cbn [negb].
  2: { apply wp_ret. rewrite app_nil_r, received_app, accepted_app, Hr1, Ha2. by rewrite andb_false_r. }
  apply wp_bind. eapply wp_mono; [by apply of_open_wp|].
  intros o t3 w3 (Hr3 & Ho3 & f3 & -> & Hf3 & Hop3). wp_simpl. apply wp_ret.
  rewrite app_nil_r, !received_app, !accepted_app, !ops_app, Hr1, Hr2, Hr3, Ho1, Ho2, Ho3.
  split; [done|]. split; [lia|]. rewrite Hf3, Hop3. split; [by destruct (accepted t3)|].
  intros [_ [_ ->]%andb_prop]%andb_prop. done.
Qed.
End rounds.

Definition payloads (t : list event) : list (list char) := (received t).*2.
Lemma payloads_app t1 t2 : payloads (t1 ++ t2) = payloads t1 ++ payloads t2.
Proof. unfold payloads. by rewrite received_app, fmap_app. Qed.

Section spec.
Context {W : Type} `{Env W} (src : isocket W) `{!IsocketOk src} (dstPath : string) (N : nat).
Hypothesis HN : Z.of_nat N <= CInt.INT_MAX.

(** A stream with a file has not failed. *)
Definition sound (f : ofstream) : Prop := is_open f = true -> failed f = false.

(** A piece of trace that turned the stream [f] into [f']. *)
Definition decoded (f : ofstream) (t : list event) (f' : ofstream) : Prop :=
  accepted t = true -> sound f ->
  decode dstPath (is_open f) (payloads t) = (ops t, is_open f') /\ sound f'.

(** What the rest of a round makes of the message [m], from the stream [f]. *)
Definition stored (f : ofstream) (m : list char) : post (W:=W) (download + bool) := fun o t _ =>
  received t = [] /\
  match o with
  | Done (inl d') => length (dl_buf d') = N /\ (accepted t = true -> sound f ->
      decode_step dstPath (is_open f) m = (ops t, is_open (dl_file d')) /\ sound (dl_file d'))
  | Done (inr _) => accepted t = false
  | _ => False
  end.

(** The stream at the end of a message. *)
Lemma close_wp c f w :
  wp (if is_eof c then of_close f else ret f) (fun o t _ => received t = [] /\ exists f2, o = Done f2 /\
    (is_open f = true -> ops t = closing c /\ is_open f2 = negb (is_eof c)) /\
    (is_open f = false -> ops t = [] /\ is_open f2 = false) /\ (is_eof c = false -> f2 = f)) w.
Proof.
  unfold closing. destruct (is_eof c).
  - eapply wp_mono; [apply of_close_wp|]. intros o t w3 (Hr & Ho & f2 & -> & Hf2).
    split; [done|]. exists f2. rewrite Ho, Hf2. split_and!; [done|by intros ->|by intros ->|done].
  - apply wp_ret. split; [done|]. exists f. split_and!; try done; by intros ->.
Qed.

(** The data goes to the file; [f0] is the stream before the message, of which
    [pre] is what has been done. *)
Lemma store_data_wp c bytes hdr buf f tNow progress w data pre f0 msg :
  length buf = N -> failed f = false -> hdr <= bytes ->
  take (Z.to_nat (bytes - hdr)) (drop (Z.to_nat hdr) buf) = data ->
  decode_step dstPath (is_open f0) msg =
    (if is_open f then (pre ++ FWrite data :: closing c, negb (is_eof c)) else (pre, false)) ->
  wp (store_data c bytes hdr buf f tNow progress)
    (fun o t _ => received t = [] /\ exists d', o = Done (inl d') /\ length (dl_buf d') = N /\
       (accepted t = true -> decode_step dstPath (is_open f0) msg = (pre ++ ops t, is_open (dl_file d')) /\
                             sound (dl_file d'))) w.
Proof.
  intros Hbuf Hf Hle Hdata Hstep. unfold store_data. destruct (Z.ltb_spec bytes hdr); [lia|].
  rewrite Hdata. apply wp_bind. eapply wp_mono; [apply of_write_wp|].
  intros o t1 w1 (Hr1 & Ho1 & f1 & -> & Hop1 & Hf1). wp_simpl.
  apply wp_bind, (wp_invoke steady_now). intros now w2 _. wp_simpl. apply wp_bind.
  eapply wp_mono; [apply close_wp|].
  intros o t2 w3 (Hr2 & f2 & -> & Hyes & Hno & Hsame). wp_simpl. apply wp_ret.
  rewrite app_nil_r. split.
  { rewrite received_app, Hr1. change (received (_ :: t2)) with (received t2). by rewrite Hr2. }
  eexists. split; [done|]. cbn [dl_buf dl_file]. split; [done|].
  rewrite accepted_app, ops_app, Ho1, Hf, Hstep. cbn [negb andb].
  intros [Ha1 _]%andb_prop. change (ops (_ :: t2)) with (ops t2).
  destruct (is_open f) eqn:Hopen; rewrite Hop1 in Hyes, Hno.
  - destruct (Hyes eq_refl) as [-> Hf2]. rewrite Hf2. split; [done|]. intros Hso.
    rewrite Hso in Hf2. destruct (is_eof c); [done|]. rewrite (Hsame eq_refl), Hf1 by done.
    by rewrite Ha1.
  - destruct (Hno eq_refl) as [-> Hf2]. rewrite Hf2, app_nil_r. split; [done|]. intros Hso. congruence.
Qed.

Lemma nul_found rest : zero ∈ rest ->
  exists n, CStr.index_where is_nul rest = Some n /\ (n < length rest)%nat.
Proof.
  intros Hin. destruct (CStr.index_where is_nul rest) as [n|] eqn:Hn.
  - exists n. split; [done|]. apply CStr.index_where_Some in Hn as (a & x & b & -> & <- & _).
    rewrite length_app. cbn. lia.
  - exfalso. apply CStr.index_where_None in Hn. rewrite forallb_forall in Hn.
    specialize (Hn zero ltac:(by apply list_elem_of_In)). unfold is_nul in Hn.
    by rewrite bool_decide_eq_true_2 in Hn.
Qed.

(** After the target of a first message was opened. *)
Lemma first_message_wp c rest old f0 f n tNow t1 w :
  let m := c :: rest in
  is_first c = true -> CStr.index_where is_nul rest = Some n -> (n < length rest)%nat ->
  length (m ++ old) = N -> failed f = false -> is_open f = true -> received t1 = [] ->
  (accepted t1 = true -> ops t1 = (if is_open f0 then [FClose] else []) ++
     [FOpen (CStr.c_str (dstPath +:+ of_chars (take n rest)))]) ->
  wp (store_data c (Z.of_nat (length m)) (Z.of_nat n + 2) (m ++ old) f tNow tNow)
    (fun o t2 w2 => stored f0 m o (t1 ++ t2) w2) w.
Proof.
  intros m Hfirst Hn Hlt Hlen Hf Hopen Hr1 Ho1.
  eapply wp_mono.
  { eapply (store_data_wp c _ _ _ f tNow tNow w (drop (S n) rest)
      ((if is_open f0 then [FClose] else []) ++ [FOpen (CStr.c_str (dstPath +:+ of_chars (take n rest)))])
      f0 m); [exact Hlen|done|cbn; lia| |].
    - replace (Z.to_nat (Z.of_nat n + 2)) with (S (S n)) by lia. cbn [m app drop].
      rewrite drop_app_le by lia. apply take_app_length'. rewrite length_drop. cbn. lia.
    - rewrite Hopen. unfold m, decode_step, split_name. rewrite Hfirst, Hn. cbn.
      by rewrite <- app_assoc. }
  intros o t2 w3 (Hr2 & d' & -> & Hd' & Hdec). split; [by rewrite received_app, Hr1, Hr2|].
  split; [done|]. rewrite accepted_app, ops_app. intros [Ha1 Ha2]%andb_prop Hso.
  rewrite (Ho1 Ha1). by apply Hdec.
Qed.

Lemma message_wp d c rest w :
  let m := c :: rest in
  length (dl_buf d) = N -> (length m <= N)%nat -> well_formed m ->
  wp (store_message dstPath d (Z.of_nat (length m)) m) (stored (dl_file d) m) w.
Proof.
  intros m HbN Hm Hwf. unfold store_message. set (f0 := dl_file d).
  set (old := drop (length m) (dl_buf d)).
  change (splice 0 m (dl_buf d)) with (m ++ old). cbn [m app head default from_option id].
  assert (length (m ++ old) = N) as Hlen.
  { rewrite length_app. unfold old. rewrite length_drop, HbN. lia. }
  apply wp_bind, (wp_invoke steady_now). intros tNow w1 _. wp_simpl.
  destruct (is_first c) eqn:Hfirst; cbn [andb].
  - specialize (Hwf Hfirst). destruct (nul_found rest Hwf) as (n & Hn & Hlt).
    apply wp_bind. eapply wp_mono; [by apply open_target_wp|].
    intros o t1 w2 [Hr1 Ho1]. destruct o as [[[hdr f]|]|e|u|]; wp_simpl; try done.
    2: { apply wp_ret. rewrite app_nil_r. split; [exact Hr1|exact Ho1]. }
    destruct Ho1 as (-> & Hopen & Ho1). cbn [andb].
    destruct (failed f) eqn:Hf.
    { apply wp_ret. rewrite app_nil_r. split; [exact Hr1|]. change (accepted t1 = false).
      destruct (accepted t1); [by destruct (Ho1 eq_refl)|done]. }
    apply (first_message_wp c rest old f0 f n tNow (Ev steady_now tNow :: t1)); try done.
    intros Ha. by destruct (Ho1 Ha).
  - apply wp_bind, wp_ret. wp_simpl. cbn [andb].
    assert (is_open f0 = true -> failed f0 = true -> ~ sound f0) as Hunsound
      by (intros Hop Hf Hso; specialize (Hso Hop); congruence).
    destruct (failed f0) eqn:Hf.
    { apply wp_ret. split; [done|]. split; [done|]. intros _ Hso. cbn [dl_file]. split; [|done].
      unfold m, decode_step. rewrite Hfirst. destruct (is_open f0) eqn:Hop; [|done].
      by destruct (Hunsound eq_refl eq_refl). }
    eapply wp_mono.
    { eapply (store_data_wp c _ _ _ f0 tNow _ _ rest [] f0 m); [exact Hlen|done|cbn; lia| |].
      - change (drop (Z.to_nat 1) (m ++ old)) with (rest ++ old). apply take_app_length'. cbn. lia.
      - unfold m, decode_step. rewrite Hfirst. by destruct (is_open f0). }
    intros o t2 w3 (Hr2 & d' & -> & Hd' & Hdec). split; [exact Hr2|]. split; [done|].
    intros Ha _. by apply Hdec.
Qed.

(** The peer speaks the protocol. *)
Hypothesis Hpeer : forall cap timeout w, wp (sock_read src cap timeout)
  (fun o _ _ => match o with Done (n, m) => 0 < n -> well_formed m | _ => True end) w.

Definition state_ok (d : download) (t : list event) : Prop :=
  length (dl_buf d) = N /\
  (accepted t = true -> decode dstPath false (payloads t) = (ops t, is_open (dl_file d)) /\ sound (dl_file d)).

(** What the destructor of the stream adds when the function is left. *)
Definition at_exit {A} (o : outcome A) (opened : bool) : list fop :=
  match o with Done _ | Throw _ => if opened then [FClose] else [] | _ => [] end.

(** The function's contract; see [receiveFiles_spec]. *)
Definition files_received : post (W:=W) bool := fun o t _ =>
  match o with Undefined _ => False | Throw e => socket_exn e | _ => True end /\
  (accepted t = true ->
     ops t = (decode dstPath false (payloads t)).1 ++ at_exit o (decode dstPath false (payloads t)).2 /\
     forall b, o = Done b -> b = true).

Lemma state_running d t w : state_ok d t -> files_received NoFuel t w.
Proof. intros [_ Hd]. split; [done|]. intros Ha. destruct (Hd Ha) as [-> _]. cbn. by rewrite app_nil_r. Qed.

(** Leaving the function through the destructor. *)
Lemma state_left d t o w (Q : post unit) : state_ok d t -> (forall b, o = Done b -> b = true) ->
  match o with Done _ => True | Throw e => socket_exn e | _ => False end ->
  (forall t' w', files_received o (t ++ t') w' -> Q (Done tt) t' w') ->
  wp (of_destroy (dl_file d)) Q w.
Proof.
  intros [_ Hd] Hb Ho HQ. unfold of_destroy.
  assert (forall t' w', received t' = [] -> accepted t' = true \/ accepted t' = false ->
    ops t' = (if is_open (dl_file d) then [FClose] else []) -> files_received o (t ++ t') w') as Hpost.
  { intros t' w' Hr _ Hops. split; [by destruct o|]. rewrite accepted_app. intros [Ha _]%andb_prop.
    destruct (Hd Ha) as [Hdec _]. rewrite payloads_app. unfold payloads at 2 4. rewrite Hr, app_nil_r, ops_app, Hdec, Hops.
    by destruct o. }
  destruct (is_open (dl_file d)).
  - apply wp_bind, (wp_invoke file_close). intros r w1 _. wp_simpl. apply wp_ret, HQ, Hpost; [done| |done].
    by destruct r; [left|right].
  - apply wp_ret, HQ, Hpost; [done|by left|done].
Qed.

Lemma state_quiet d t t' : state_ok d t -> received t' = [] -> ops t' = [] -> state_ok d (t ++ t').
Proof.
  intros [Hl Hd] Hr Ho. split; [done|]. rewrite accepted_app, payloads_app, ops_app, Ho.
  unfold payloads at 2. rewrite Hr, !app_nil_r. intros [Ha _]%andb_prop. by apply Hd.
Qed.

Lemma receive_round_wp d t w :
  state_ok d t -> wp (receive_round src dstPath d) (round (fun d t _ => state_ok d t) t files_received) w.
Proof.
  intros Hst. pose proof Hst as [HbN Hdec]. unfold receive_round.
  apply wp_bind, (wp_invoke load_break). intros brk w1 _. wp_simpl. destruct brk.
  { apply wp_bind, (state_left d (t ++ [Ev load_break true]) (Done true)); [by apply state_quiet|by intros ? [= <-]|done|].
    intros t' w2 Hf. wp_simpl. apply wp_ret. unfold round. by rewrite app_nil_r, <- app_assoc in *. }
  apply wp_bind, wp_on_throw. eapply wp_mono.
  { apply wp_and; [apply (read_calls (s := src))|apply wp_and;
      [apply (read_ok (s := src) (Z.of_nat (length (dl_buf d))) (-1) w1); lia|apply Hpeer]]. }
  intros o t1 w2 [Ht1 [[Hs1 Hr1] Hwf]]. apply traffic_ops in Ht1 as [Ho1 Ha1].
  destruct o as [[n m]|[]|u|]; wp_simpl; try done.
  2: { apply (state_left d (t ++ Ev load_break false :: t1) (Throw (SocketException msg))); [by apply state_quiet|done|done|].
       intros t' w3 Hf. unfold round. wp_simpl. by rewrite <- app_assoc in Hf. }
  destruct Hr1 as (Hn & Hcap & Hr1). destruct (Z.eqb_spec n 0) as [Hz|Hz].
  { apply wp_ret. unfold round. rewrite app_nil_r. apply state_quiet; [done| |done].
    rewrite Hz in Hr1. exact Hr1. }
  destruct (Z.ltb_spec 0 n) as [Hpos|]; [|lia]. destruct m as [|c rest]; [cbn in Hn; lia|].
  assert (length (c :: rest) <= N)%nat as Hm by lia.
  eapply wp_mono. { rewrite Hn. apply (message_wp d c rest w2 HbN Hm (Hwf Hpos)). }
  intros o t2 w3 (Hr2 & Ho). cbn [app].
  assert (payloads (Ev load_break false :: t1 ++ t2) = [c :: rest]) as Hp.
  { unfold payloads. change (received (_ :: t1 ++ t2)) with (received (t1 ++ t2)).
    by rewrite received_app, Hr1, Hr2. }
  assert (ops (Ev load_break false :: t1 ++ t2) = ops t2 /\
          accepted (Ev load_break false :: t1 ++ t2) = accepted t2) as [Hops Hacc].
  { change (ops (_ :: t1 ++ t2)) with (ops (t1 ++ t2)).
    change (accepted (_ :: t1 ++ t2)) with (accepted (t1 ++ t2)). by rewrite ops_app, accepted_app, Ho1, Ha1. }
  unfold round. destruct o as [[d'|b]|e|u|]; try done.
  - destruct Ho as [Hl Hstep]. split; [done|]. rewrite accepted_app, Hacc, payloads_app, Hp, ops_app, Hops.
    intros [Ha Ha2]%andb_prop. destruct (Hdec Ha) as [Hd Hso]. destruct (Hstep Ha2 Hso) as [Hs2 Hso2].
    split; [|done]. rewrite decode_app, Hd. cbn [decode]. by rewrite Hs2, app_nil_r.
  - split; [done|]. rewrite accepted_app, Hacc, Ho. by rewrite andb_false_r.
Qed.

(** What receiveFiles does with the messages of a peer that speaks the
    protocol: as long as the file system does what it is asked, the operations
    on files are exactly those the messages mean, message by message: open the
    named file below the destination, write the data behind the header, close
    at the end of the file; nothing is written from the bytes of earlier
    messages in the buffer, and the function returns true. Whatever the file
    system does, there is no undefined behaviour and no exception but a
    socket's. *)
Lemma receiveFiles_spec fuel buf w :
  length buf = N -> wp (receiveFiles fuel src dstPath buf) files_received w.
Proof.
  intros Hbuf. unfold receiveFiles. apply (wp_loop (fun d t _ => state_ok d t)).
  - by split.
  - intros d t w' Hst. by apply (state_running d).
  - intros d t w' Hst. by apply receive_round_wp.
Qed.
End spec.

(** ** From the file sent to the file written *)

(** The reads that send something. *)
Definition pieces (rs : list (list char * bool)) : list (list char) :=
  filter (fun d => d <> []) rs.*1.

Lemma concat_pieces rs : concat (pieces rs) = concat rs.*1.
Proof.
  induction rs as [|[d e] rs IH]; [done|]. unfold pieces in *. rewrite fmap_cons, filter_cons.
  cbn [fst concat]. case_decide as Hd; [cbn [concat]; by rewrite IH|].
  by subst d.
Qed.

Lemma decode_piece dst name first (opened : bool) d e msgs :
  zero ∉ name -> (first = true -> opened = false) -> (first = false -> opened = true) ->
  decode dst opened ((flags e first :: header name first ++ d) :: msgs) =
  let '(o, b) := decode dst (negb e) msgs in
  ((if first then [FOpen (CStr.c_str (dst +:+ of_chars name))] else []) ++
   FWrite d :: (if e then [FClose] else []) ++ o, b).
Proof.
  intros Hz Hf Ho. destruct (flags_bits e first) as [Hb1 Hb2]. cbn [decode].
  unfold decode_step, closing. rewrite Hb1, Hb2. destruct first; cbn [header].
  - rewrite (Hf eq_refl). unfold split_name.
    assert (CStr.index_where is_nul ((name ++ [zero]) ++ d) = Some (length name)) as ->.
    { apply CStr.index_where_Some. exists name, zero, d. rewrite <- app_assoc. split_and!; try done.
      apply forallb_forall. intros c Hc%list_elem_of_In. unfold is_nul.
      rewrite bool_decide_eq_false_2; [done|]. intros ->. done. }
    cbn [mbind option_bind]. rewrite <- app_assoc, take_app_length. cbn [app].
    rewrite (cons_middle zero name d), (assoc_L app), drop_app_length' by (rewrite length_app; cbn; lia).
    by destruct (decode dst (negb e) msgs).
  - rewrite (Ho eq_refl). cbn [app]. by destruct (decode dst (negb e) msgs).
Qed.

(** Decoding what was encoded: the file is opened once, the pieces are written in
    order, and it is closed when the mark of the end came with data. *)
Lemma decode_encode dst name first rs d e :
  zero ∉ name -> Forall (fun r => r.2 = false) rs ->
  decode dst (negb first) (encode name first (rs ++ [(d, e)])) =
  match pieces (rs ++ [(d, e)]) with
  | [] => ([], negb first)
  | ps => ((if first then [FOpen (CStr.c_str (dst +:+ of_chars name))] else []) ++ (FWrite <$> ps) ++
           (if e && negb (no_data (d, e)) then [FClose] else []), negb (e && negb (no_data (d, e))))
  end.
Proof.
  intros Hz Hrs. revert first. induction Hrs as [|[d0 e0] rs He Hrs IH]; intros first; cbn [app].
  - destruct d as [|c d]; [done|]. cbn [encode no_data fst negb].
    rewrite (decode_piece dst name first) by (by destruct first). cbn. rewrite andb_true_r.
    destruct e; cbn; by rewrite ?app_nil_r.
  - cbn in He. subst e0. destruct d0 as [|c0 d0]; [apply IH|]. cbn [encode].
    rewrite (decode_piece dst name first) by (by destruct first). rewrite (IH false).
    unfold pieces at 2. rewrite fmap_cons, filter_cons_True by done. cbn [fst].
    fold (pieces (rs ++ [(d, e)])).
    destruct (pieces (rs ++ [(d, e)])) as [|p ps] eqn:Hp.
    + assert (no_data (d, e) = true) as ->; [|by rewrite andb_false_r].
      unfold pieces in Hp. rewrite fmap_app, filter_app in Hp. apply app_nil in Hp as [_ Hp].
      rewrite fmap_cons, filter_cons in Hp. cbn [fst] in Hp. destruct d; [done|].
      by case_decide.
    + cbn. done.
Qed.

(** C1: a file sent and received is the file written: if the sender reads the
    file to its end and returns true, and the receiver, whose socket delivers
    the sender's messages and whose file system does what it is asked, has
    received them all, then the receiver opens the file of that name below the
    destination, writes exactly the bytes the sender read, in order, and
    nothing else, and closes it once, at the latest when it ends; for an empty
    file, though, it does nothing at all. *)
Theorem file_transfer {W1 W2} `{Env W1} `{Env W2} `{!FileSend.FileOk W1}
    (dst : isocket W1) (src : isocket W2) `{!IsocketOk dst} `{!IsocketOk src}
    fuel1 fuel2 filename uploadName dstPath buf1 buf2 (w1 w1' : W1) (w2 w2' : W2) buf1' t1 o t2 :
  Z.of_nat (length buf1) <= CInt.INT_MAX -> Z.of_nat (length buf2) <= CInt.INT_MAX ->
  (forall cap timeout w, wp (sock_read src cap timeout)
     (fun o _ _ => match o with Done (n, m) => 0 < n -> well_formed m | _ => True end) w) ->
  FileSend.sendFile fuel1 filename uploadName dst buf1 w1 = (Done (true, buf1'), t1, w1') ->
  FileSend.interrupted t1 = false ->
  receiveFiles fuel2 src dstPath buf2 w2 = (o, t2, w2') ->
  payloads t2 = (sent t1).*2 -> accepted t2 = true ->
  let content := concat (FileSend.reads t1).*1 in
  (content = [] -> ops t2 = []) /\
  (content <> [] -> exists ps closed,
     ops t2 = FOpen (CStr.c_str (dstPath +:+ CStr.c_str uploadName)) :: (FWrite <$> ps) ++ closed /\
     concat ps = content /\ (closed = [FClose] \/ o = NoFuel /\ closed = [])).
Proof.
  intros Hb1 Hb2 Hpeer E1 Hint E2 Hpay Hacc content.
  pose proof (wp_run _ _ _ _ _ _ (FileSend.sendFile_spec dst fuel1 filename uploadName buf1 w1 Hb1) E1)
    as [_ (_ & (_ & _ & Hsent) & [Hc|(rs & d & Hrs & Heof)])]; [congruence|].
  pose proof (wp_run _ _ _ _ _ _ (receiveFiles_spec src dstPath _ Hb2 Hpeer fuel2 buf2 w2 eq_refl) E2)
    as [Ho Hops]. destruct (Hops Hacc) as [Hdec _]. rewrite Hpay, Hsent, Hrs in Hdec.
  assert (zero ∉ chars (CStr.c_str uploadName)) as Hz by apply CStr.c_str_no_nul.
  pose proof (decode_encode dstPath _ true rs d true Hz Heof) as Hde. cbn [negb] in Hde.
  rewrite Hde, CStr.of_chars_chars, <- Hrs in Hdec. clear Hde.
  subst content. rewrite <- (concat_pieces (FileSend.reads t1)).
  destruct (pieces (FileSend.reads t1)) as [|p ps] eqn:Hp; cbn [fst] in Hdec.
  - split; [intros _; by destruct o|]. intros []. done.
  - assert (p <> []) as Hne.
    { assert (p ∈ pieces (FileSend.reads t1)) as Hin by (rewrite Hp; set_solver).
      unfold pieces in Hin. by apply list_elem_of_filter in Hin as [? _]. }
    split; [intros Hnil; by destruct p|]. intros _. rewrite Hdec.
    exists (p :: ps), ((if true && negb (no_data (d, true)) then [FClose] else []) ++
                       at_exit o (negb (true && negb (no_data (d, true))))).
    split_and!; [cbn [fst snd app]; by rewrite <- app_assoc|done|].
    destruct (negb (no_data _)), o; try done; [by left..|by right].
Qed.

(** ** Examples *)

(** A network that delivers the given messages, and nothing that is not of the
    protocol; a file system that does what it is asked. *)
Definition well_formed_b (m : list char) : bool :=
  match m with [] => false | c :: rest => negb (is_first c) || existsb is_nul rest end.
#[local] Instance inbox_env : Env (list (list char)) := fun c s =>
  match c as c0 return resp c0 * list (list char) with
  | srt_recvmsg2 _ cap =>
      match s with
      | m :: s' => if well_formed_b m && (Z.of_nat (length m) <=? cap)
                   then ((Z.of_nat (length m), m), s') else ((SRT_ERROR, []), s')
      | [] => ((SRT_ERROR, []), [])
      end
  | srt_sendmsg2 _ _ _ => (SRT_ERROR, s)
  | file_open_out _ => (true, s)
  | c => (default_resp c, s)
  end.
Definition inbox_sock : isocket (list (list char)) := SrtSocket.srt_socket SrtSocket.example_object.

Lemma inbox_srt_ok : SrtOk (list (list char)).
Proof.
  split.
  - intros s cap [|m l] r d w'; cbn.
    + intros [= <- _ _]. by left.
    + destruct (well_formed_b m && _) eqn:Hm; intros [= <- <- _]; [right|by left].
      apply andb_prop in Hm as [_ Hm%Z.leb_le]. lia.
  - intros s data len w r w' [= <- _]. by left.
Qed.
Lemma well_formed_b_ok m : well_formed_b m = true -> well_formed m.
Proof.
  destruct m as [|c rest]; [done|]. cbn. intros [H|H]%orb_true_iff Hf.
  - by rewrite Hf in H.
  - apply existsb_exists in H as (x & Hin & Hx). unfold is_nul in Hx.
    apply bool_decide_eq_true in Hx as ->. by apply list_elem_of_In.
Qed.
Lemma inbox_peer cap timeout w : wp (sock_read inbox_sock cap timeout)
  (fun o _ _ => match o with Done (n, m) => 0 < n -> well_formed m | _ => True end) w.
Proof.
  cbn [inbox_sock SrtSocket.srt_socket sock_read]. unfold SrtSocket.read.
  apply wp_bind. eapply wp_mono; [apply wp_true|]. intros [ready|e|u|] t w1 _; wp_simpl; try done.
  destruct ready; cbn [negb]; [|by apply wp_ret].
  apply wp_bind, (wp_invoke (srt_recvmsg2 _ _)). intros [r m] w2 Ha. wp_simpl.
  destruct (Z.eqb_spec SRT_ERROR r) as [Hr|Hr].
  { apply wp_bind. eapply wp_mono; [apply wp_true|]. intros [e|e|u|] t2 w3 _; wp_simpl; try done.
    unfold SrtSocket.raise_exception. destruct (negb _); wp_steps; done. }
  apply wp_ret. intros _. revert Ha. cbn -[well_formed_b]. destruct w1 as [|m' l].
  - intros [= <- _ _]. done.
  - destruct (well_formed_b m' && _) eqn:Hm; intros [= <- <- _]; [|done].
    apply well_formed_b_ok. by apply andb_prop in Hm as [? _].
Qed.

#[local] Existing Instance FileSend.fs_env.

(** The eight bytes of the file "f" reach "out/f". *)
Lemma file_transfer_witness :
  exists t1 t2 ps closed,
    (let '(o, t, _) := FileSend.sendFile 9 "dir/f" "f" FileSend.sock7 (repeat zero 5) FileSend.fs0 in t) = t1 /\
    (let '(o, t, _) := receiveFiles 9 inbox_sock "out/" (repeat zero 9) (sent t1).*2 in t) = t2 /\
    ops t2 = FOpen (CStr.c_str ("out/" +:+ CStr.c_str "f")) :: (FWrite <$> ps) ++ closed /\
    concat ps = chars "abcdefgh".
Proof.
  pose proof FileSend.fs_file_ok. pose proof FileSend.fs_srt_ok. pose proof inbox_srt_ok.
  destruct (FileSend.sendFile 9 "dir/f" "f" FileSend.sock7 (repeat zero 5) FileSend.fs0)
    as [[o1 t1] w1] eqn:E1.
  destruct (receiveFiles 9 inbox_sock "out/" (repeat zero 9) (sent t1).*2) as [[o2 t2] w2] eqn:E2.
  pose proof (f_equal (fun x => x.1.1) E1) as Ho1. pose proof (f_equal (fun x => x.1.2) E1) as Ht1.
  vm_compute in Ho1. cbn in Ho1. subst o1.
  pose proof (file_transfer FileSend.sock7 inbox_sock 9 9 "dir/f" "f" "out/" (repeat zero 5) (repeat zero 9)
    FileSend.fs0 w1 (sent t1).*2 w2 _ t1 o2 t2 ltac:(by vm_compute) ltac:(by vm_compute) inbox_peer E1) as Hft.
  vm_compute in E1. injection E1 as <- <-. vm_compute in E2. injection E2 as <- <- <-.
  destruct (Hft eq_refl eq_refl eq_refl eq_refl) as [_ (ps & closed & Hops & Hps & _)]; [discriminate|].
  eexists _, _, ps, closed. split; [reflexivity|]. split; [reflexivity|]. by split.
Defined.
(** ** The sockets of a transfer are released *)
Section released.
Context `{Build} {W : Type} `{Env W}.
Import Misc.

Lemma frames_receiver fuel c cfg :
  frames (W:=W) (S:=store) anywhere DANGLING (startFileReceiver fuel c cfg).
Proof.
  unfold startFileReceiver, FileSend.new_buffer, receiveFiles, receive_round, store_message, open_target,
    store_data, createSubfolders, folder_round, createFolder, of_close, of_open, of_write, of_destroy.
  frames_steps. frames_apply frames_srt_read.
Qed.

(** file receive leaves no socket object behind, however it ends. *)
Lemma receive_file_released fuel srcUrl cfg (w : W) :
  wp (run fuel srcUrl cfg) (leaving FileSend.gone) (w, mk_store [] None).
Proof.
  pose proof FileSend.holds_empty as Hs.
  apply (wp_mono _ (leaving (FileSend.holds []))); [|intros [] ? [? ?]; cbn; try done; apply FileSend.holds_gone]. unfold run.
  apply FileSend.parse_uri_leaving. intros ut. apply FileSend.transfer_leaving; [|done]. intros c. apply frames_receiver.
Qed.
End released.
End FileReceive.
