(* ===== verification/FileStats.v ===== *)
(** * The statistics thread of file transmission (file-send.cpp, file-receive.cpp)

    Sending and receiving files start a thread that logs the statistics of the
    connection and that is told to stop by localBreak. FileSend and FileReceive
    model what each thread does; here they run together. *)

From Stdlib Require Import ZArith Lia Ascii String.
From stdpp Require Import prelude strings list.
From S2P Require Import Prelude Sys Logic Threads Socket Stats SrtSocket FileSend FileReceive.

Module FileStats.
Local Open Scope string_scope.
Local Open Scope list_scope.
Local Open Scope Z_scope.
Import FileSend.

(** A report of the statistics thread asks the library for the statistics. *)
Definition stats_report (e : event) : bool := match ev_call e with srt_bstats _ => true | _ => false end.

(** The other thread makes no reports; it sets flags only, and looks at none. *)
Definition transfer_call (c : call) : bool :=
  match c with load_flag _ | srt_bstats _ => false | store_flag _ v => v | _ => true end.

Definition quiet_call (c : call) : bool :=
  match c with load_flag _ | srt_bstats _ | store_flag _ _ => false | _ => true end.

Lemma quiet_trace t : forallb quiet_call (calls t) = true ->
  Threads.stores LOCAL_BREAK t = [] /\ Threads.loads LOCAL_BREAK t = [] /\ Threads.reports stats_report t = 0%nat.
Proof.
  unfold Threads.stores, Threads.loads, Threads.reports.
  induction t as [|[c r] t IH]; [done|]. cbn [calls fmap list_fmap forallb ev_call].
  intros [Hc Ht]%andb_true_iff. destruct (IH Ht) as (Hs & Hl & Hr). by destruct c.
Qed.
Lemma transfer_trace t : forallb transfer_call (calls t) = true ->
  Forall (eq true) (Threads.stores LOCAL_BREAK t) /\ Threads.loads LOCAL_BREAK t = [] /\
  Threads.reports stats_report t = 0%nat.
Proof.
  unfold Threads.stores, Threads.loads, Threads.reports.
  induction t as [|[c r] t IH]; [by repeat constructor|]. cbn [calls fmap list_fmap forallb ev_call].
  intros [Hc Ht]%andb_true_iff. destruct (IH Ht) as (Hs & Hl & Hr).
  destruct c; cbn in Hc |- *; try done. destruct v; [|done].
  destruct (String.eqb flag LOCAL_BREAK); split_and!; auto.
Qed.

Section threads.
Context {W : Type} `{Env W}.

Lemma destroy_calls d : only transfer_call (SrtSocket.destroy (W:=W) d).
Proof. unfold SrtSocket.destroy. only_steps. Qed.
Lemma write_calls d data tmo : only transfer_call (SrtSocket.write (W:=W) d data tmo).
Proof. unfold SrtSocket.write, SrtSocket.raise_exception, SrtSocket.raise_exception_reason. only_steps. Qed.
Lemma read_calls d n tmo : only transfer_call (SrtSocket.read (W:=W) d n tmo).
Proof. unfold SrtSocket.read, SrtSocket.raise_exception, SrtSocket.raise_exception_reason. only_steps. Qed.
Lemma send_files_calls fuel cfg d filenames buf :
  only transfer_call (send_files (W:=W) fuel cfg (SrtSocket.srt_socket d) filenames buf).
Proof.
  revert buf. induction filenames as [|f fs IH]; intros buf; cbn [send_files]; [only_steps|].
  unfold sendFile, send_round, write_retry. only_steps; try apply IH; apply write_calls.
Qed.
Lemma sender_calls fuel sock cfg filenames :
  only transfer_call (startFileSender (W:=W) fuel sock cfg filenames).
Proof.
  unfold startFileSender, new_buffer, drain_round.
  only_steps; apply send_files_calls || apply destroy_calls.
Qed.
Lemma receiver_calls fuel sock cfg :
  only transfer_call (FileReceive.startFileReceiver (W:=W) fuel sock cfg).
Proof.
  unfold FileReceive.startFileReceiver, new_buffer, FileReceive.receiveFiles, FileReceive.receive_round,
    FileReceive.store_message, FileReceive.open_target, FileReceive.store_data, FileReceive.createSubfolders,
    FileReceive.folder_round, FileReceive.createFolder, FileReceive.of_close, FileReceive.of_open,
    FileReceive.of_write, FileReceive.of_destroy.
  only_steps; apply read_calls.
Qed.

(** ** The thread that logs *)
Variable render : Stats.report -> list char.

Lemma statistics_calls sock format header w :
  wp (SrtSocket.get_statistics (W:=W) sock format header) (fun o t _ =>
    Threads.stores LOCAL_BREAK t = [] /\ Threads.loads LOCAL_BREAK t = [] /\
    Threads.reports stats_report t = 1%nat /\ o <> NoFuel) w.
Proof.
  unfold SrtSocket.get_statistics. apply wp_bind, wp_invoke. intros [res st] w1 _. wp_simpl.
  unfold SrtSocket.raise_exception, Stats.stats_to_csv. wp_steps; by split_and!.
Qed.

Lemma stats_round_going sock freq format header w :
  wp (stats_round render sock freq format header) (Threads.going LOCAL_BREAK stats_report) w.
Proof.
  unfold stats_round. apply wp_bind, (wp_invoke load_break). intros brk w1 _. wp_simpl. destruct brk.
  { apply wp_ret. split; [done|]. by apply Threads.helper_end; [|constructor]. }
  apply wp_bind, (wp_invoke (load_flag LOCAL_BREAK)). intros stop w2 _. wp_simpl. destruct stop.
  { apply wp_ret. split; [done|]. apply Threads.helper_end; [done|by constructor]. }
  apply wp_bind, (wp_invoke (sleep_for _)). intros [] w3 _. wp_simpl. apply wp_bind.
  eapply wp_mono; [apply statistics_calls|]. intros o t w4 (Hs & Hl & Hr & Ho).
  set (q := [Ev load_break false; Ev (load_flag LOCAL_BREAK) false; Ev (sleep_for freq) tt]).
  assert (Threads.going_round LOCAL_BREAK stats_report (q ++ t)) as Hq.
  { split; rewrite ?Threads.loads_app, ?Threads.reports_app, ?Hl, ?Hr; done || lia. }
  destruct o as [r|e|u|]; wp_simpl; [|split; [done|by apply Threads.helper_one]..|done].
  apply wp_bind, (wp_invoke (file_write _)). intros ok w5 _. wp_simpl. apply wp_ret. wp_simpl.
  change (Threads.going LOCAL_BREAK stats_report (Done (inl false)) (q ++ t ++ [Ev (file_write (render r)) ok]) w5).
  split; [by rewrite !Threads.stores_app, Hs|].
  split; [by rewrite !Threads.loads_app, Hl|]. rewrite !Threads.reports_app, Hr. cbn. lia.
Qed.

Lemma statsFunc_helper fuel freq file format sock w :
  wp (statsFunc render fuel freq file format sock) (fun o t _ =>
    Threads.stores LOCAL_BREAK t = [] /\ Threads.helper LOCAL_BREAK stats_report t /\
    (o = NoFuel -> Threads.loads LOCAL_BREAK t = repeat false fuel)) w.
Proof.
  assert (forall o, o <> NoFuel -> forall w, Threads.stores LOCAL_BREAK [] = [] /\
    Threads.helper LOCAL_BREAK stats_report [] /\ (o = @NoFuel unit -> w)) as Hnone.
  { intros o Ho P. split; [done|]. split; [by apply Threads.helper_end; [|constructor]|done]. }
  unfold statsFunc. destruct (freq =? 0); [apply wp_ret; by apply Hnone|].
  destruct (String.eqb file ""); [apply wp_ret; by apply Hnone|].
  apply wp_bind, wp_invoke. intros ok w1 _. wp_simpl. destruct ok.
  2: { apply wp_ret. split; [done|]. split; [by apply Threads.helper_end; [|constructor]|done]. }
  apply wp_finally. eapply wp_mono; [apply (Threads.helper_loop LOCAL_BREAK stats_report), stats_round_going|].
  intros o t w2 (Hs & Hh & Hl). unfold after.
  assert (Threads.helper LOCAL_BREAK stats_report ([Ev (file_open_out (CStr.c_str file)) true] ++ t)) as Hh2
    by by apply Threads.helper_quiet.
  destruct o as [r|e|u|]; [| |by split_and!..].
  all: apply wp_bind, (wp_invoke file_close); intros closed w3 _; wp_simpl; apply wp_ret; wp_simpl.
  all: split; [change (Threads.stores LOCAL_BREAK (t ++ [Ev file_close closed]) = []); by rewrite Threads.stores_app, Hs|split; [|done]].
  all: by apply (Threads.helper_then_quiet LOCAL_BREAK stats_report (_ :: t) [_]).
Qed.
End threads.

(** ** Both threads *)

(** A transfer: the sender or the receiver of files. *)
Definition transfers (fuel : nat) (sock : SrtSocket.srt) (o : outcome unit) (t : list event) : Prop :=
  (exists cfg filenames, Threads.runs_as (fun _ _ => True) (fun W E => startFileSender fuel sock cfg filenames) o t) \/
  (exists cfg, Threads.runs_as (fun _ _ => True) (fun W E => FileReceive.startFileReceiver fuel sock cfg) o t).

Lemma transfers_calls fuel sock o t :
  transfers fuel sock o t -> forallb transfer_call (calls t) = true.
Proof.
  intros [(cfg & filenames & W & E & w & w' & _ & Hrun)|(cfg & W & E & w & w' & _ & Hrun)].
  - exact (wp_run _ _ _ _ _ _ (sender_calls fuel sock cfg filenames w) Hrun).
  - exact (wp_run _ _ _ _ _ _ (receiver_calls fuel sock cfg w) Hrun).
Qed.

(** C17: a transfer of files with the thread that logs its statistics, under every
    interleaving of their calls and whatever the files and the network do. Once
    the transfer has set localBreak the thread makes at most one more report, and
    it ends: it has not ended only if it ran no more rounds than it looked at the
    flag before. *)
Theorem statistics_stop render fuel1 fuel2 sock freq file format o1 o2 t1 t2 t a b :
  transfers fuel1 sock o1 t1 ->
  Threads.runs_as (fun _ _ => True) (fun W E => statsFunc render fuel2 freq file format sock) o2 t2 ->
  Threads.merge t1 t2 t -> Threads.coherent LOCAL_BREAK false t = true ->
  t = a ++ Ev (store_flag LOCAL_BREAK true) tt :: b ->
  (Threads.reports stats_report b <= 1)%nat /\
  (o2 = NoFuel -> (fuel2 <= length (Threads.loads LOCAL_BREAK a))%nat).
Proof.
  intros Ht1%transfers_calls%transfer_trace (W & E & w & w' & _ & Hrun) Hm Hc Ht.
  destruct Ht1 as (Hs1 & Hl1 & Hr1).
  destruct (wp_run _ _ _ _ _ _ (statsFunc_helper render fuel2 freq file format sock w) Hrun) as (Hst & Hh & Hlast).
  destruct (Threads.told_to_stop LOCAL_BREAK stats_report t1 t2 t a b) as [Hrep Hlen]; [done..|].
  split; [done|]. intros Ho2. rewrite (Hlast Ho2), Threads.length_unset in Hlen. exact Hlen.
Qed.

(** A program that is left alone: files can be opened, nothing is interrupted. *)
Definition idle_env : Env unit := fun c w =>
  (match c as c0 return resp c0 with
   | file_open_out _ => true
   | file_write _ => true
   | c => default_resp c
   end, w).

Lemma idle_round render sock freq format header : exists t,
  stats_round (H0 := idle_env) render sock freq format header tt = (Done (inl false), t, tt).
Proof.
  unfold stats_round, SrtSocket.get_statistics, Stats.stats_to_csv.
  destruct (String.eqb format "json"), header; eexists; reflexivity.
Qed.

(** Nothing but the flag and the interruption of the program stops the thread. *)
Lemma statistics_go_on render sock freq file format fuel :
  freq <> 0 -> file <> "" -> exists t,
  statsFunc (H0 := idle_env) render fuel freq file format sock tt = (NoFuel, t, tt).
Proof.
  intros Hfreq Hfile. unfold statsFunc. rewrite (proj2 (Z.eqb_neq _ _)), (proj2 (String.eqb_neq _ _)) by done.
  assert (exists t, loop fuel (stats_round (H0 := idle_env) render sock freq format) true tt = (NoFuel, t, tt))
    as [t Ht].
  { generalize true. induction fuel as [|n IH]; intros header; [by eexists|]. cbn [loop]. unfold bind.
    destruct (idle_round render sock freq format header) as [t ->]. cbn [outcome_bind].
    destruct (IH false) as [t2 ->]. by eexists. }
  unfold bind, finally. cbn [invoke]. eexists. unfold invoke. cbn. rewrite Ht. reflexivity.
Qed.

(** A transfer that throws does not set the flag, and then waits for the thread; as
    it does for a segment of 2^64-1 bytes, which is what --segment -1 asks for. *)
Example segment_hangs :
  (let '(o, t, _) := startFileSender (H0 := idle_env) 5 SrtSocket.example_object
       (FileSend.mk_config "dir" (2 ^ 64 - 1) false 1000 "stats.csv" "csv") ["dir/f"] tt in
   (o, Threads.stores LOCAL_BREAK t, last (calls t))) =
  (Throw (StdLengthError "cannot create std::vector"), [], Some (async_wait STATS)).
Proof. vm_compute. reflexivity. Qed.

(** Nothing is sent; the thread makes one report and then finds the flag set. *)
Definition flags_env : Env (list bool) := fun c l =>
  match c as c0 return resp c0 * list bool with
  | load_flag _ => (default true (head l), tail l)
  | file_open_out _ => (true, l)
  | c => (default_resp c, l)
  end.
Definition send_trace : list event :=
  let '(_, t, _) := startFileSender (H0 := idle_env) 5 SrtSocket.example_object
    (FileSend.mk_config "dir" 100 false 1000 "stats.csv" "csv") [] tt in t.
Definition no_text (_ : Stats.report) : list char := [].
Definition stats_trace : list event :=
  let '(_, t, _) := statsFunc (H0 := flags_env) no_text 5 1000 "stats.csv" "csv" SrtSocket.example_object [false] in t.
Definition both_traces : list event :=
  ((Threads.until_stop send_trace).1 ++ (Threads.until_stop stats_trace).1) ++
  ((Threads.until_stop send_trace).2 ++ (Threads.until_stop stats_trace).2).
Lemma statistics_stop_witness :
  exists a b, both_traces = a ++ Ev (store_flag LOCAL_BREAK true) tt :: b /\
    Threads.reports stats_report a = 1%nat /\ (Threads.reports stats_report b <= 1)%nat.
Proof.
  exists ((Threads.until_stop send_trace).1 ++ (Threads.until_stop stats_trace).1),
    (tail (Threads.until_stop send_trace).2 ++ (Threads.until_stop stats_trace).2).
  split; [vm_compute; reflexivity|]. split; [vm_compute; reflexivity|].
  destruct (statistics_stop no_text 5 5 SrtSocket.example_object 1000 "stats.csv" "csv" (Done tt) (Done tt)
    send_trace stats_trace both_traces
    ((Threads.until_stop send_trace).1 ++ (Threads.until_stop stats_trace).1)
    (tail (Threads.until_stop send_trace).2 ++ (Threads.until_stop stats_trace).2)) as [Hb _]; [..|exact Hb].
  - left. exists (FileSend.mk_config "dir" 100 false 1000 "stats.csv" "csv"), [], unit, idle_env, tt, tt. split; [done|]. vm_compute. reflexivity.
  - exists (list bool), flags_env, [false], []. split; [done|]. vm_compute. reflexivity.
  - apply Threads.until_stop_merge.
  - vm_compute. reflexivity.
  - vm_compute. reflexivity.
Defined.
End FileStats.
