(* ===== verification/SrtNode.v ===== *)
(** * SRT nodes (srt_node.cpp, srt_node.hpp)

    A node owns a bound or connected socket, the sockets it accepted, and two
    polling objects. Threads share nodes: the operations run on a node kept as
    program state, and an attempt to receive, which the code makes under a
    mutex, is one definition. *)

From Stdlib Require Import ZArith Lia Ascii String.
From stdpp Require Import prelude strings list gmap sets.
From S2P Require Import Prelude NetAddr Sys Logic Socket Uri SockOpts CreateAddr SrtSocket.

Module SrtNode.
Local Open Scope string_scope.
Local Open Scope list_scope.
Local Open Scope Z_scope.
Import Socket.

Record SrtNode := mk_node {
  m_accepted_sockets : gset Z;
  m_bindsock : Z; m_epoll_accept : Z; m_epoll_receive : Z;
  m_stop_accept : bool;
  m_host : string; m_port : Z; m_options : SockOpts.options_t }.

Definition set_bindsock (s : Z) (n : SrtNode) : SrtNode :=
  mk_node (m_accepted_sockets n) s (m_epoll_accept n) (m_epoll_receive n) (m_stop_accept n)
    (m_host n) (m_port n) (m_options n).
Definition set_accepted (x : gset Z) (n : SrtNode) : SrtNode :=
  mk_node x (m_bindsock n) (m_epoll_accept n) (m_epoll_receive n) (m_stop_accept n)
    (m_host n) (m_port n) (m_options n).
Definition set_stop (n : SrtNode) : SrtNode :=
  mk_node (m_accepted_sockets n) (m_bindsock n) (m_epoll_accept n) (m_epoll_receive n) true
    (m_host n) (m_port n) (m_options n).

Definition ASSERTION : string := "assertion failed".

(** The constructor. *)
Definition node_of_uri `{Build} {W} `{Env W} (src_uri : Uri.UriParser) : io W SrtNode :=
  do! invoke srt_startup in
  let! accept := invoke srt_epoll_create in
  if accept =? -1 then throw (StdRuntimeError "Can't create epoll in nonblocking mode") else
  let! receive := invoke srt_epoll_create in
  if receive =? -1 then throw (StdRuntimeError "Can't create epoll in nonblocking mode") else
  ret (mk_node ∅ SRT_INVALID_SOCK accept receive false (Uri.host src_uri) (Uri.portno src_uri)
         (Uri.parameters src_uri)).

Section node.
Context `{Build} {W : Type} `{Env W}.
Abbreviation node_io := (io (W * SrtNode)).

(** The destructor; the accepting thread is never started. *)
Definition destroy : node_io unit :=
  let! n := get in
  do! put (set_stop n) in
  do! invoke (srt_close (m_bindsock n)) in ret tt.

Definition Close : node_io unit := let! n := get in put (set_stop n).
Definition GetBindSocket : node_io Z := let! n := get in ret (m_bindsock n).

Definition ConfigureAcceptedSocket (sock : Z) : node_io Z :=
  let! n := get in
  let! result := invoke (srt_setsockopt sock SRTO_RCVSYN (OBool false)) in
  if result =? -1 then ret result else
  let! result := invoke (srt_setsockopt sock SRTO_SNDSYN (OInt 1)) in
  if result =? -1 then ret result else
  do! SockOpts.SrtConfigurePost sock (m_options n) in ret 0.

Definition ConfigurePre (sock : Z) : node_io Z :=
  let! n := get in
  let! result := invoke (srt_setsockopt sock SRTO_TSBPDMODE (OInt 0)) in
  if result =? -1 then ret result else
  let! result := invoke (srt_setsockopt sock SRTO_RCVSYN (OInt 0)) in
  if result =? -1 then ret result else
  let! result := invoke (srt_setsockopt sock SRTO_SNDSYN (OInt 1)) in
  if result =? -1 then ret result else
  let! '(conmode, failures) := SockOpts.SrtConfigurePre sock "" (m_options n) in
  ret (if bool_decide (conmode = SockOpts.FAILURE) then SRT_ERROR else 0).

Definition AcceptNewClient : node_io Z :=
  let! n := get in
  let! socket := invoke (srt_accept (m_bindsock n)) in
  if socket =? SRT_INVALID_SOCK then ret socket else
  do! ConfigureAcceptedSocket socket in ret socket.

(** One round of the loop of AcceptingThread. Its state is rnum, the room in
    read_fds: the library sets it to the number of sockets it put there. *)
Definition accept_round (rnum : Z) : node_io (Z + Z) :=
  let! force_break := invoke load_break in
  if force_break : bool then ret (inr SRT_ERROR) else
  let! n := get in
  let! er := invoke (srt_epoll_wait (m_epoll_accept n) rnum 0 500) in
  if 0 <? ep_res er then
    let! sock := AcceptNewClient in
    if negb (sock =? SRT_INVALID_SOCK) then
      let! n := get in
      do! put (set_accepted ({[sock]} ∪ m_accepted_sockets n) n) in
      do! invoke (srt_epoll_add_usock (m_epoll_receive n) sock (Z.lor SRT_EPOLL_IN SRT_EPOLL_ERR)) in
      ret (inr sock)
    else ret (inl (Z.of_nat (length (ep_read er))))
  else ret (inl rnum).
Definition AcceptingThread (fuel : nat) : node_io Z := loop fuel accept_round 2.

(** The object netaddr_any, of 32 bytes, is passed as the address. *)
Definition connect_caller (sa : NetAddr.netaddr_any) : node_io Z :=
  let! n := get in
  let sock := m_bindsock n in
  let! result := invoke (srt_setsockopt sock SRTO_RCVSYN (OInt 1)) in
  if result =? -1 then ret result else
  let! stat := invoke (srt_connect sock (NetAddr.storage sa) NetAddr.sizeof_netaddr_any) in
  if stat =? SRT_ERROR then do! invoke (srt_close sock) in ret SRT_ERROR else
  let! result := invoke (srt_setsockopt sock SRTO_RCVSYN (OInt 0)) in
  if result =? -1 then ret result else
  do! invoke (srt_epoll_add_usock (m_epoll_receive n) sock (Z.lor SRT_EPOLL_IN SRT_EPOLL_ERR)) in
  ret 0.
Definition bind_listener (sa : NetAddr.netaddr_any) (max_conn : Z) : node_io Z :=
  let! n := get in
  let sock := m_bindsock n in
  let! stat := invoke (srt_bind sock (NetAddr.storage sa) NetAddr.sizeof_netaddr_any) in
  if stat =? SRT_ERROR then do! invoke (srt_close sock) in ret SRT_ERROR else
  let! stat := invoke (srt_listen sock max_conn) in
  if stat =? SRT_ERROR then do! invoke (srt_close sock) in ret SRT_ERROR else
  ret 0.
Definition EstablishConnection (caller : bool) (max_conn : Z) : node_io Z :=
  let! sock := invoke srt_create_socket in
  let! n := get in
  do! put (set_bindsock sock n) in
  if sock =? SRT_INVALID_SOCK then ret SRT_ERROR else
  let! stat := ConfigurePre sock in
  if stat =? SRT_ERROR then ret SRT_ERROR else
  do! invoke (srt_epoll_add_usock (m_epoll_accept n) sock SRT_EPOLL_IN) in
  let! sa := CreateAddr.create_addr (m_host n) (CInt.to_u16 (m_port n)) NetAddr.AF_UNSPEC in
  if caller then connect_caller sa else bind_listener sa max_conn.

Definition Listen (max_conn : Z) : node_io Z := EstablishConnection false max_conn.
Definition Connect : node_io Z := EstablishConnection true 1.

(** The result of Receive: the return value, the socket id when it is set, and
    the bytes at the front of the buffer. *)
Record received_msg := mk_received { rc_res : Z; rc_id : option Z; rc_data : list char }.

Definition forget (sock : Z) : node_io unit :=
  let! n := get in put (set_accepted (m_accepted_sockets n ∖ {[sock]}) n).

(** One round of the loop of Receive, under its mutex. *)
Definition receive_attempt (buffer_len : Z) (_ : unit) : node_io (unit + received_msg) :=
  let! n := get in
  if m_stop_accept n then ret (inr (mk_received 0 None [])) else
  let! er := invoke (srt_epoll_wait (m_epoll_receive n) 2 2 3000) in
  if ep_res er <=? 0 then ret (inl tt) else
  match ep_read er with
  | [] => undefined ASSERTION
  | sock :: _ =>
      if (length (ep_read er) <? length (ep_write er))%nat then undefined ASSERTION else
      let! '(recv_res, data) := invoke (srt_recvmsg2 sock (CInt.to_int buffer_len)) in
      if 0 <? recv_res then ret (inr (mk_received recv_res (Some sock) data)) else
      let! srt_err := invoke srt_getlasterror in
      if srt_err =? SRT_ECONNLOST then
        do! invoke (srt_close sock) in
        do! forget sock in ret (inr (mk_received 0 None []))
      else if srt_err =? SRT_EINVSOCK then
        do! invoke (srt_getsockstate sock) in
        do! invoke (srt_epoll_remove_usock (m_epoll_receive n) sock) in
        do! forget sock in ret (inr (mk_received 0 None []))
      else ret (inr (mk_received recv_res (Some sock) []))
  end.
Definition Receive (fuel : nat) (buffer_len : Z) : node_io received_msg :=
  loop fuel (receive_attempt buffer_len) tt.

(** WaitUndelivered; the state of its loop is ms_passed. *)
Definition undelivered_round (sock wait_ms ms_passed : Z) : node_io (Z + Z) :=
  let! '(res, blocks, bytes) := invoke (srt_getsndbuffer sock) in
  if SRT_ERROR =? res then ret (inr SRT_ERROR) else
  if wait_ms =? 0 then ret (inr (CInt.to_int bytes)) else
  if negb (wait_ms =? -1) && (wait_ms <=? ms_passed) then ret (inr (CInt.to_int bytes)) else
  do! (if negb (blocks =? 0) then do! invoke (sleep_for 1) in ret tt else ret tt) in
  if ms_passed <? CInt.INT_MAX then
    ret (if negb (blocks =? 0) then inl (ms_passed + 1) else inr (CInt.to_int bytes))
  else undefined "signed integer overflow".
Definition WaitUndelivered (fuel : nat) (wait_ms : Z) : node_io Z :=
  let! sock := GetBindSocket in
  let! status := invoke (srt_getsockstate sock) in
  if negb (status =? SRTS_CONNECTED) && negb (status =? SRTS_CLOSING) then ret 0 else
  loop fuel (undelivered_round sock wait_ms) 0.

(** Send to a socket, and to the node's own. *)
Definition Send_to (data : list char) (srt_socket_id : Z) : node_io Z :=
  invoke (srt_sendmsg srt_socket_id data (-1) true).
Definition Send (data : list char) : node_io Z :=
  let! n := get in invoke (srt_sendmsg (m_bindsock n) data (-1) true).
End node.

(** ** Receiving *)

(** A polling object whose sockets are watched for reading and for errors only:
    an error is reported with the sockets to read from as well. *)
Definition read_poll {W} `{Env W} (eid : Z) : Prop :=
  forall rcap wcap timeout_ms w er w',
    answer (srt_epoll_wait eid rcap wcap timeout_ms) w = (er, w') -> 0 < ep_res er ->
    ep_read er <> [] /\ (length (ep_write er) <= length (ep_read er))%nat.

(** Changes that Receive and Close make to a node. *)
Definition same_but_accepted (n n' : SrtNode) : Prop :=
  m_bindsock n' = m_bindsock n /\ m_epoll_accept n' = m_epoll_accept n /\
  m_epoll_receive n' = m_epoll_receive n /\ m_stop_accept n' = m_stop_accept n.

Section receive.
Context `{Build} {W : Type} `{!Env W} `{!SrtOk W}.

Definition received_one (buffer_len : Z) (m : received_msg) (t : list event) : Prop :=
  exists sock data, (0 < length data)%nat /\ Z.of_nat (length data) <= buffer_len /\
    m = mk_received (Z.of_nat (length data)) (Some sock) data /\ received t = [(SrtEp sock, data)].

Lemma wp_forget sock (ws : W * SrtNode) (Q : post unit) :
  Q (Done tt) [] (ws.1, set_accepted (m_accepted_sockets ws.2 ∖ {[sock]}) ws.2) ->
  wp (forget sock) Q ws.
Proof. by destruct ws. Qed.

(** An attempt receives nothing and tries again, receives one message whole, or
    reports that there is none to come; a stopped node does not try. *)
Lemma receive_attempt_wp buffer_len w n (Q : post (unit + received_msg)) :
  0 <= buffer_len <= CInt.INT_MAX -> read_poll (m_epoll_receive n) ->
  (forall r t ws', same_but_accepted n ws'.2 -> sent t = [] ->
     match r with
     | inl _ => m_stop_accept n = false /\ received t = []
     | inr m => (m_stop_accept n = false /\ received_one buffer_len m t) \/
                (rc_res m <= 0 /\ received t = [])
     end -> Q (Done r) t ws') ->
  wp (receive_attempt buffer_len tt) Q (w, n).
Proof.
  intros Hlen Hpoll HQ. unfold receive_attempt. apply wp_bind, wp_get. wp_simpl. cbn [snd].
  destruct (m_stop_accept n) eqn:Hs.
  { apply wp_ret; apply HQ; [done..|]. right. by split. }
  apply wp_bind, (wp_invoke (srt_epoll_wait _ _ _ _)). intros er w1 [Ha Hn1]%prod_answer. wp_simpl.
  destruct (Z.leb_spec (ep_res er) 0) as [Hr|Hr].
  { apply wp_ret; apply HQ; [by rewrite Hn1|done|by split]. }
  destruct (Hpoll _ _ _ _ _ _ Ha Hr) as [Hne Hle]. clear Ha.
  destruct (ep_read er) as [|sock l]; [done|].
  destruct (Nat.ltb_spec (length (sock :: l)) (length (ep_write er))); [lia|].
  rewrite (CInt.to_int_id buffer_len) by (unfold CInt.INT_MIN, CInt.INT_MAX in *; lia).
  apply wp_bind, (wp_invoke (srt_recvmsg2 _ _)). intros [res data] w2 Ha. wp_simpl.
  pose proof Ha as [_ Hn2]%prod_answer.
  apply srt_recv_ok in Ha.
  destruct (Z.ltb_spec 0 res) as [Hpos|Hneg].
  { destruct Ha as [->|[Hb Hd]]; [unfold SRT_ERROR in *; lia|]. apply wp_ret; apply HQ.
    - by rewrite Hn2, Hn1.
    - done.
    - left. split; [done|]. exists sock, data. split_and!; [lia|lia|by rewrite Hd|].
      cbn. by rewrite (proj2 (Z.ltb_lt 0 res)). }
  assert (forall t, received (Ev (srt_epoll_wait (m_epoll_receive n) 2 2 3000) er ::
                              Ev (srt_recvmsg2 sock buffer_len) (res, data) :: t) = received t) as Hnone.
  { intros t. cbn. by rewrite (proj2 (Z.ltb_ge 0 res)). }
  assert (same_but_accepted n w2.2) as Hsame by (by rewrite Hn2, Hn1).
  apply wp_bind, (wp_invoke srt_getlasterror). intros e w3 [_ Hn3]%prod_answer. wp_simpl.
  rewrite <- Hn3 in Hsame. clear Hn3.
  destruct (e =? SRT_ECONNLOST).
  { apply wp_bind, (wp_invoke (srt_close _)). intros c w4 [_ Hn4]%prod_answer. wp_simpl.
    apply wp_bind, wp_forget. wp_simpl. apply wp_ret; apply HQ; [by rewrite Hn4|done|right].
    split; [done|]. cbn [app]. by rewrite Hnone. }
  destruct (e =? SRT_EINVSOCK).
  { apply wp_bind, (wp_invoke (srt_getsockstate _)). intros c w4 [_ Hn4]%prod_answer. wp_simpl.
    apply wp_bind, (wp_invoke (srt_epoll_remove_usock _ _)). intros c' w5 [_ Hn5]%prod_answer. wp_simpl.
    apply wp_bind, wp_forget. wp_simpl. apply wp_ret; apply HQ; [by rewrite Hn5, Hn4|done|right].
    split; [done|]. cbn [app]. by rewrite Hnone. }
  apply wp_ret; apply HQ; [done|done|right]. split; [done|].
  cbn [app]. by rewrite Hnone.
Qed.
End receive.

(** ** Waiting for undelivered data *)

(** The reports of the send buffer in a trace, and the sleeps. *)
Definition report_of (e : event) : option (Z * Z * Z) :=
  match e with Ev (srt_getsndbuffer _) r => Some r | _ => None end.
Definition sleep_of (e : event) : option Z :=
  match e with Ev (sleep_for d) _ => Some d | _ => None end.

(** What WaitUndelivered answers after these reports. *)
Definition undelivered (reports : list (Z * Z * Z)) : Z :=
  match last reports with
  | None => 0
  | Some (res, _, bytes) => if SRT_ERROR =? res then SRT_ERROR else CInt.to_int bytes
  end.
(** A report after which it goes on waiting. *)
Definition pending (r : Z * Z * Z) : Prop := r.1.1 <> SRT_ERROR /\ r.1.2 <> 0.

Section wait.
Context `{Build} {W : Type} `{!Env W}.

Definition wait_inv (sock wait_ms : Z) (ws0 : W * SrtNode) (k : nat) (ms : Z) (t : list event) (ws : W * SrtNode) :=
  ws.2 = ws0.2 /\ exists reports, omap report_of t = reports /\ Forall pending reports /\
    ms = Z.of_nat (length reports) /\ omap sleep_of t = repeat 1 (length reports) /\
    Z.of_nat k = wait_ms - ms.

Definition wait_post (wait_ms : Z) (n : SrtNode) : post (W:=W * SrtNode) Z := fun o t ws' =>
  ws'.2 = n /\ exists reports, omap report_of t = reports /\ o = Done (undelivered reports) /\
  Z.of_nat (length reports) <= wait_ms + 1 /\ Forall pending (removelast reports) /\
  omap sleep_of t = repeat 1 (pred (length reports)) /\
  (forall r, last reports = Some r -> pending r -> Z.of_nat (length reports) = wait_ms + 1).

Lemma wait_finish sock wait_ms w n k ms t t' (ws ws' : W * SrtNode) r v :
  wait_inv sock wait_ms (w, n) k ms t ws -> ws'.2 = ws.2 ->
  omap report_of t' = [r] -> omap sleep_of t' = [] -> v = undelivered [r] ->
  (pending r -> ms = wait_ms) -> wait_post wait_ms n (Done v) (t ++ t') ws'.
Proof.
  intros (Hn & reports & Hr & Hp & -> & Hs & Hk) Hn' Hr' Hs' -> Hpend. cbn in Hn.
  split; [congruence|]. exists (reports ++ [r]). unfold undelivered.
  rewrite !omap_app, Hr, Hr', Hs, Hs', last_snoc, length_app, app_nil_r, removelast_last. cbn.
  split_and!; [done|done|lia|done|f_equal; lia|]. intros r' [= <-] Hpr. specialize (Hpend Hpr). lia.
Qed.

Lemma undelivered_round_wp sock wait_ms w n k ms t (ws : W * SrtNode) :
  0 <= wait_ms <= CInt.INT_MAX -> wait_inv sock wait_ms (w, n) k ms t ws ->
  wp (undelivered_round sock wait_ms ms)
     (round (fun ms' t' ws' => exists k', (k' < k)%nat /\ wait_inv sock wait_ms (w, n) k' ms' t' ws') t
        (wait_post wait_ms n)) ws.
Proof.
  intros Hwait Hinv. pose proof Hinv as (Hn & reports & Hr & Hp & Hms & Hs & Hk). unfold undelivered_round.
  apply wp_bind, (wp_invoke (srt_getsndbuffer _)). intros [[res blocks] bytes] w1 [_ Hn1]%prod_answer.
  wp_simpl. unfold round.
  destruct (Z.eqb_spec SRT_ERROR res) as [<-|Hres].
  { apply wp_ret. eapply wait_finish; [done|done|reflexivity|done|done|]. by intros [[] _]. }
  assert (undelivered [(res, blocks, bytes)] = CInt.to_int bytes) as Hv.
  { unfold undelivered. cbn -[SRT_ERROR]. by rewrite (proj2 (Z.eqb_neq SRT_ERROR res)). }
  destruct (Z.eqb_spec wait_ms 0) as [H0|H0].
  { apply wp_ret. eapply wait_finish; [done|done|reflexivity|done|done|]. intros _. lia. }
  destruct (Z.eqb_spec wait_ms (-1)); [lia|]. cbn [negb andb].
  destruct (Z.leb_spec wait_ms ms) as [Hle|Hlt].
  { apply wp_ret. eapply wait_finish; [done|done|reflexivity|done|done|]. intros _. lia. }
  destruct (Z.eqb_spec blocks 0) as [->|Hb]; cbn [negb].
  { apply wp_bind, wp_ret. wp_simpl. rewrite (proj2 (Z.ltb_lt _ _)) by lia. apply wp_ret.
    eapply wait_finish; [done|done|reflexivity|done|done|]. by intros [_ []]. }
  apply wp_bind, wp_bind, (wp_invoke (sleep_for 1)). intros u w2 [_ Hn2]%prod_answer. wp_simpl.
  apply wp_ret. wp_simpl. rewrite (proj2 (Z.ltb_lt _ _)) by lia. apply wp_ret.
  exists (pred k). split; [lia|]. split; [congruence|]. exists (reports ++ [(res, blocks, bytes)]).
  rewrite !omap_app, Hr, Hs, length_app. cbn. rewrite Forall_app. split_and!; [done|..].
  - done.
  - constructor; [|done]. by split.
  - lia.
  - by rewrite repeat_app.
  - lia.
Qed.

(** C6: for a waiting time of 0 or more WaitUndelivered always returns, after at
    most as many sleeps of a millisecond as it was told to wait; it goes on only
    while blocks are unsent, answers SRT_ERROR when the library fails and the
    bytes of the last report otherwise, and gives up on unsent blocks only after
    the whole time. *)
Theorem WaitUndelivered_spec wait_ms fuel w n :
  0 <= wait_ms <= CInt.INT_MAX -> (Z.to_nat wait_ms < fuel)%nat ->
  wp (WaitUndelivered fuel wait_ms) (fun o t ws' =>
    ws'.2 = n /\ exists reports, omap report_of t = reports /\ o = Done (undelivered reports) /\
    Z.of_nat (length reports) <= wait_ms + 1 /\ Forall pending (removelast reports) /\
    omap sleep_of t = repeat 1 (pred (length reports)) /\
    (forall r, last reports = Some r -> pending r -> Z.of_nat (length reports) = wait_ms + 1)) (w, n).
Proof.
  intros Hwait Hfuel. unfold WaitUndelivered. apply wp_bind, wp_bind, wp_get. wp_simpl. apply wp_ret. wp_simpl.
  apply wp_bind, (wp_invoke (srt_getsockstate _)). intros status w1 [_ Hn1]%prod_answer. wp_simpl.
  destruct (negb _ && negb _).
  { apply wp_ret. split; [by rewrite Hn1|]. exists []. split_and!; [done..| |done|done|done]. cbn. lia. }
  eapply wp_mono; [eapply (wp_loop_bounded (wait_inv (m_bindsock n) wait_ms w1) _
                     (wait_post wait_ms n) fuel (Z.to_nat wait_ms)); [done| |]|].
  - split; [done|]. exists []. split_and!; try done; cbn; lia.
  - intros k ms t ws Hinv. destruct w1 as [w1 n1]. cbn in Hn1. subst n1. by apply undelivered_round_wp.
  - by intros o t ws'.
Qed.
End wait.

(** A buffer that keeps two blocks, then none. *)
#[local] Instance draining_env : Env Z := fun c s =>
  match c as c0 return resp c0 * Z with
  | srt_getsockstate _ => (SRTS_CONNECTED, s)
  | srt_getsndbuffer _ => ((0, s, 1456 * s), Z.max 0 (s - 1))
  | c => (default_resp c, s)
  end.
Definition example_node : SrtNode := mk_node ∅ 7 8 9 true "" 4200 [].

Lemma WaitUndelivered_spec_witness :
  exists t s, @WaitUndelivered Z draining_env 6 5 (2, example_node) = (Done 0, t, (s, example_node)) /\
    omap report_of t = [(0, 2, 2912); (0, 1, 1456); (0, 0, 0)] /\ omap sleep_of t = [1; 1].
Proof.
  pose proof (WaitUndelivered_spec 5 6 2 example_node ltac:(vm_compute; split; discriminate) ltac:(lia)) as Hw.
  unfold wp in Hw. destruct (WaitUndelivered 6 5 (2, example_node)) as [[o t] [s n]] eqn:E.
  vm_compute in E. injection E as <- <- <- <-. destruct Hw as (_ & reports & Hr & Ho & _).
  vm_compute in Hr. subst reports. rewrite Ho. eexists _, 0. split; [reflexivity|]. by split.
Defined.

(** ** Connecting and listening *)

(** What happens to the sockets of a node: they are created, watched by a
    polling object, connected, bound, made to listen (with success or not), and
    closed. *)
Inductive sock_op :=
| OCreate (s : Z) | OPoll (eid s : Z) | OConnect (s : Z) (ok : bool)
| OBind (s : Z) (ok : bool) | OListen (s : Z) (ok : bool) | OClose (s : Z).
#[global] Instance sock_op_eq_dec : EqDecision sock_op.
Proof. solve_decision. Defined.
Definition op_of (e : event) : option sock_op :=
  match e with
  | Ev srt_create_socket s => Some (OCreate s)
  | Ev (srt_epoll_add_usock eid s _) _ => Some (OPoll eid s)
  | Ev (srt_connect s _ _) r => Some (OConnect s (negb (r =? SRT_ERROR)))
  | Ev (srt_bind s _ _) r => Some (OBind s (negb (r =? SRT_ERROR)))
  | Ev (srt_listen s _) r => Some (OListen s (negb (r =? SRT_ERROR)))
  | Ev (srt_close s) _ => Some (OClose s)
  | _ => None
  end.
Definition sock_ops (t : list event) : list sock_op := omap op_of t.
Definition plain (c : call) : bool :=
  match c with
  | srt_create_socket | srt_epoll_add_usock _ _ _ | srt_connect _ _ _ | srt_bind _ _ _
  | srt_listen _ _ | srt_close _ => false
  | _ => true
  end.

(** The socket [s] of node [n] is ready; or it is not, and what was done with it. *)
Definition established (caller : bool) (n : SrtNode) (s : Z) : list sock_op :=
  [OCreate s; OPoll (m_epoll_accept n) s] ++
  if caller then [OConnect s true; OPoll (m_epoll_receive n) s] else [OBind s true; OListen s true].
Definition attempted (caller : bool) (n : SrtNode) (s : Z) (l : list sock_op) : Prop :=
  l = [OCreate s] \/ exists l', l = OCreate s :: OPoll (m_epoll_accept n) s :: l' /\
  l' ∈ [] :: if caller then [[OConnect s false; OClose s]; [OConnect s true]]
             else [[OBind s false; OClose s]; [OBind s true; OListen s false; OClose s]].

Section plain_calls.
Context `{Build} {W : Type} `{!Env W}.

Lemma sock_ops_plain t : forallb plain (calls t) = true -> sock_ops t = [].
Proof. apply omap_only. by intros [[] r]. Qed.
Lemma sock_ops_app t1 t2 : sock_ops (t1 ++ t2) = sock_ops t1 ++ sock_ops t2.
Proof. apply omap_app. Qed.

Lemma plain_configure_pre sock host options : only plain (SockOpts.SrtConfigurePre (W:=W) sock host options).
Proof.
  assert (forall b table, only plain (SockOpts.apply_options (W:=W) b sock options table)) as Ha.
  { intros b table. induction table as [|o table IH]; cbn [SockOpts.apply_options]; unfold SockOpts.apply; only_steps; done. }
  unfold SockOpts.SrtConfigurePre, SockOpts.set_linger. only_steps; done.
Qed.
Lemma plain_create_addr name port pref : only plain (CreateAddr.create_addr (W:=W) name port pref).
Proof.
  unfold CreateAddr.create_addr.
  assert (forall l, only plain (CreateAddr.try_families (W:=W) name port l)) as Ht.
  { induction l as [|f l IH]; cbn [CreateAddr.try_families]; unfold CreateAddr.pton; only_steps; done. }
  unfold CreateAddr.from_addrinfo. only_steps; done.
Qed.

End plain_calls.

Section establish.
Context `{Build} {W : Type} `{!Env W}.
Abbreviation leaves m := (frames (W:=W) (S:=SrtNode) anywhere EmptyString m).

Lemma frames_get : leaves get.
Proof. by intros ws. Qed.
Hint Resolve only_get plain_configure_pre plain_create_addr : only.
Hint Resolve frames_get : frames.

Lemma node_configure_pre sock : only plain (ConfigurePre sock) /\ leaves (ConfigurePre sock).
Proof.
  unfold ConfigurePre. split; [|frames_steps].
  only_steps; apply plain_configure_pre.
Qed.
Lemma node_create_addr name port : only plain (CreateAddr.create_addr (W:=W * SrtNode) name port NetAddr.AF_UNSPEC) /\
  leaves (CreateAddr.create_addr name port NetAddr.AF_UNSPEC).
Proof. split; [apply plain_create_addr|]. apply CreateAddr.frames_create_addr; [tc_solve|by split]. Qed.

(** A step that does nothing to sockets and to the node. *)
Lemma wp_plain {A B} (m : io (W * SrtNode) A) (k : A -> io (W * SrtNode) B) (Q : post B) ws :
  only plain m /\ leaves m ->
  (forall o t ws', sock_ops t = [] -> ws'.2 = ws.2 ->
     outcome_bind o (fun a => wp (k a) (after t Q) ws') (fun o' => Q o' t ws')) ->
  wp (bind m k) Q ws.
Proof.
  intros [Ho Hf] HQ. apply wp_bind. eapply wp_mono; [apply wp_and; [apply Ho|apply Hf]|].
  intros o t ws' (Ht & _ & Hs & _). apply HQ; [by apply sock_ops_plain|done].
Qed.
Lemma plain_call c : plain c = true -> only plain (invoke (W:=W * SrtNode) c) /\ leaves (invoke c).
Proof. intros Hc. split; [by apply (only_invoke _ c)|]. frames_steps. Qed.

Definition establish_post (caller : bool) (n : SrtNode) : post (W:=W * SrtNode) Z := fun o t ws' =>
  exists s, ws'.2 = set_bindsock s n /\
  match o with
  | Done r => (r = 0 /\ s <> SRT_INVALID_SOCK /\ sock_ops t = established caller n s) \/
              (r = SRT_ERROR /\ attempted caller n s (sock_ops t))
  | _ => sock_ops t = [OCreate s] \/ sock_ops t = [OCreate s; OPoll (m_epoll_accept n) s]
  end.

(** Ends with [r] after the further calls [t']. *)
Lemma established_now caller n s t t' l r (ws : W * SrtNode) :
  ws.2 = set_bindsock s n -> sock_ops t = l -> sock_ops (t ++ t') = l ++ sock_ops t' ->
  (r = 0 /\ s <> SRT_INVALID_SOCK /\ l ++ sock_ops t' = established caller n s) \/
  (r = SRT_ERROR /\ attempted caller n s (l ++ sock_ops t')) ->
  establish_post caller n (Done r) (t ++ t') ws.
Proof. intros Hn _ Ht Hr. exists s. rewrite Ht. by split. Qed.

Ltac node_call c := apply wp_bind, (wp_invoke c); let H := fresh "Hn" in
  intros ? ? [_ H]%prod_answer; wp_simpl.
Ltac node_done s Ht :=
  apply wp_ret; eapply (established_now _ _ s); [congruence|exact Ht|by rewrite sock_ops_app, Ht|];
  cbn -[SRT_ERROR Z.eqb SRT_INVALID_SOCK].

Lemma connect_caller_wp sa t n s (ws : W * SrtNode) :
  ws.2 = set_bindsock s n -> s <> SRT_INVALID_SOCK ->
  sock_ops t = [OCreate s; OPoll (m_epoll_accept n) s] ->
  wp (connect_caller sa) (after t (establish_post true n)) ws.
Proof.
  intros Hws Hs Ht. unfold connect_caller. apply wp_bind, wp_get. wp_simpl. rewrite Hws. cbn [m_bindsock set_bindsock].
  node_call (srt_setsockopt s SRTO_RCVSYN (OInt 1)). destruct (Z.eqb_spec r (-1)) as [->|].
  { node_done s Ht. right. split; [done|]. right. eexists. split; [done|]. by left. }
  node_call (srt_connect s (NetAddr.storage sa) NetAddr.sizeof_netaddr_any). destruct (r0 =? SRT_ERROR) eqn:E.
  { node_call (srt_close s). node_done s Ht. rewrite E. right. split; [done|]. right. eexists. split; [done|].
    right. by left. }
  node_call (srt_setsockopt s SRTO_RCVSYN (OInt 0)). destruct (Z.eqb_spec r1 (-1)) as [->|].
  { node_done s Ht. rewrite E. right. split; [done|]. right. eexists. split; [done|]. right. right. by left. }
  node_call (srt_epoll_add_usock (m_epoll_receive n) s (Z.lor SRT_EPOLL_IN SRT_EPOLL_ERR)).
  node_done s Ht. rewrite E. by left.
Qed.

Lemma bind_listener_wp sa max_conn t n s (ws : W * SrtNode) :
  ws.2 = set_bindsock s n -> s <> SRT_INVALID_SOCK ->
  sock_ops t = [OCreate s; OPoll (m_epoll_accept n) s] ->
  wp (bind_listener sa max_conn) (after t (establish_post false n)) ws.
Proof.
  intros Hws Hs Ht. unfold bind_listener. apply wp_bind, wp_get. wp_simpl. rewrite Hws. cbn [m_bindsock set_bindsock].
  node_call (srt_bind s (NetAddr.storage sa) NetAddr.sizeof_netaddr_any). destruct (r =? SRT_ERROR) eqn:E.
  { node_call (srt_close s). node_done s Ht. rewrite E. right. split; [done|]. right. eexists. split; [done|].
    right. by left. }
  node_call (srt_listen s max_conn). destruct (r0 =? SRT_ERROR) eqn:E2.
  { node_call (srt_close s). node_done s Ht. rewrite E, E2. right. split; [done|]. right. eexists. split; [done|].
    right. right. by left. }
  node_done s Ht. rewrite E, E2. by left.
Qed.

(** C5: Connect and Listen return 0 exactly when the node's new socket went
    through every step: created, watched for connections, and connected and
    watched for data, or bound and made to listen. On SRT_ERROR the steps before
    the failure were made and no others, and the socket is closed when
    connecting, binding or listening was what failed. Only the node's socket
    changes. *)
Theorem EstablishConnection_spec caller max_conn w n :
  wp (EstablishConnection caller max_conn) (fun o t ws' =>
    exists s, ws'.2 = set_bindsock s n /\
    match o with
    | Done r => (r = 0 /\ s <> SRT_INVALID_SOCK /\ sock_ops t = established caller n s) \/
                (r = SRT_ERROR /\ attempted caller n s (sock_ops t))
    | _ => sock_ops t = [OCreate s] \/ sock_ops t = [OCreate s; OPoll (m_epoll_accept n) s]
    end) (w, n).
Proof.
  change (wp (EstablishConnection caller max_conn) (establish_post caller n) (w, n)).
  unfold EstablishConnection. apply wp_bind, (wp_invoke srt_create_socket). intros s ws1 [_ Hn1]%prod_answer.
  wp_simpl. apply wp_bind, wp_get. wp_simpl. apply wp_bind, wp_put. wp_simpl. rewrite Hn1. cbn [fst snd].
  destruct (Z.eqb_spec s SRT_INVALID_SOCK) as [->|Hs].
  { apply wp_ret. exists SRT_INVALID_SOCK. split; [done|]. right. split; [done|]. by left. }
  apply wp_plain; [apply node_configure_pre|]. intros o t1 ws2 Ht1 Hn2. cbn [snd] in Hn2.
  assert (sock_ops (Ev srt_create_socket s :: t1) = [OCreate s]) as Ht
    by (change (sock_ops ([Ev srt_create_socket s] ++ t1) = [OCreate s]); by rewrite sock_ops_app, Ht1).
  destruct o as [stat|e|u|]; cbn [outcome_bind]; try (exists s; split; [done|by left]).
  destruct (Z.eqb_spec stat SRT_ERROR) as [->|].
  { apply wp_ret. unfold after. rewrite app_nil_r. exists s. split; [done|]. right. split; [done|]. by left. }
  apply wp_bind, (wp_invoke (srt_epoll_add_usock _ _ _)). intros r ws3 [_ Hn3]%prod_answer. wp_simpl.
  apply wp_plain; [apply node_create_addr|]. intros o t2 ws4 Ht2 Hn4.
  set (t := Ev srt_create_socket s :: t1 ++ Ev (srt_epoll_add_usock (m_epoll_accept n) s SRT_EPOLL_IN) r :: t2) in *.
  assert (sock_ops t = [OCreate s; OPoll (m_epoll_accept n) s]) as Ht'.
  { change t with ([Ev srt_create_socket s] ++ t1 ++
      [Ev (srt_epoll_add_usock (m_epoll_accept n) s SRT_EPOLL_IN) r] ++ t2).
    by rewrite !sock_ops_app, Ht1, Ht2. }
  assert (ws4.2 = set_bindsock s n) as Hn by congruence.
  destruct o as [sa|e|u|]; cbn [outcome_bind]; try (exists s; split; [done|by right]).
  assert (wp (if caller then connect_caller sa else bind_listener sa max_conn)
             (after t (establish_post caller n)) ws4) as Hw.
  { destruct caller; [by apply (connect_caller_wp sa t n s)|by apply (bind_listener_wp sa max_conn t n s)]. }
  eapply wp_mono; [exact Hw|]. intros o t3 ws5. unfold after, t. cbn [app]. by rewrite <- app_assoc.
Qed.
End establish.

(** When connecting fails the socket is closed, and destroying the node closes
    it again; its two polling objects are never released. *)
#[local] Instance unreachable_env : Env unit := fun_env (fun c =>
  match c as c0 return resp c0 with
  | srt_create_socket => 77
  | srt_connect _ _ _ => SRT_ERROR
  | c => default_resp c
  end).
Example failed_connect_closes_twice :
  let '(o, t, _) := (do! Connect (H := mk_build false false false false) in destroy) (tt, example_node) in
  o = Done tt /\ filter (fun c => c = OClose 77) (sock_ops t) = [OClose 77; OClose 77].
Proof. by vm_compute. Qed.
End SrtNode.
