(* ===== verification/Forward.v ===== *)
(** * Forwarding between two nodes (file-forward.cpp, forward.h)

    Two threads forward messages between a caller and a listener node, one in
    each direction, and each stops both nodes when it ends. Their states are
    explicit, so that every interleaving of their steps can be looked at. *)

From Stdlib Require Import ZArith Lia Ascii String.
From stdpp Require Import prelude strings list gmap sets relations.
From S2P Require Import Prelude Sys Logic Socket Uri SockOpts SrtSocket SrtNode.

Module Forward.
Local Open Scope string_scope.
Local Open Scope list_scope.
Local Open Scope Z_scope.
Import Socket.

Record config := mk_config { message_size : Z; planck : bool; one_way : bool }.

Definition OVERFLOW : string := "signed integer overflow".

(** [3 * (cfg.message_size * 1472 / 1456 + 1472)], in int. *)
Definition planck_buffer (size : Z) : option Z :=
  let v := 3 * (Z.quot (size * 1472) 1456 + 1472) in
  if CInt.in_int (size * 1472) && CInt.in_int v then Some v else None.

Definition set_default (key : string) (val : Z) (u : Uri.UriParser) : Uri.UriParser :=
  if Uri.param_exists key u then u else Uri.set_param key (CNum.to_string val) u.

Definition createNode `{Build} {W} `{Env W} (cfg : config) (uri : string) (isCaller : bool)
  : io W SrtNode.SrtNode :=
  let! urlParser := SrtSocket.parse_uri uri in
  let urlParser := Uri.set_param "mode" (if isCaller then "caller" else "listener") urlParser in
  if planck cfg then
    let urlParser := Uri.set_param "transtype" "file" urlParser in
    let urlParser := Uri.set_param "messageapi" "true" urlParser in
    match planck_buffer (message_size cfg) with
    | None => undefined OVERFLOW
    | Some v => SrtNode.node_of_uri (set_default "rcvbuf" v (set_default "sndbuf" v urlParser))
    end
  else SrtNode.node_of_uri urlParser.

(** ** The two threads *)

(** Where a thread of forwardMessage is: at the loop condition, in Receive, about
    to send a message, behind the loop, or at its end. *)
Inductive tstate := TCheck | TReceive | TSend (data : list char) | TStop | TEnd.

Definition nodes : Type := SrtNode.SrtNode * SrtNode.SrtNode.

Section forward.
Context `{Build} {W : Type} `{Env W}.

(** An operation on the first or the second of two nodes. *)
Definition on (first : bool) {A} (m : io (W * SrtNode.SrtNode) A) : io (W * nodes) A :=
  fun '(w, (n1, n2)) =>
  if first then let '(o, t, (w', n')) := m (w, n1) in (o, t, (w', (n', n2)))
  else let '(o, t, (w', n')) := m (w, n2) in (o, t, (w', (n1, n'))).

(** One step of forwardMessage from node [src] (the first node iff [src]) to the
    other, sending on [dstSock]. An attempt to receive is atomic, as it is under
    the mutex of the node. *)
Definition thread_step (cfg : config) (src : bool) (dstSock : Z) (st : tstate) : io (W * nodes) tstate :=
  match st with
  | TCheck =>
      let! forceBreak := invoke load_break in ret (if forceBreak : bool then TStop else TReceive)
  | TReceive =>
      let! r := on src (SrtNode.receive_attempt (message_size cfg) tt) in
      match r with
      | inl _ => ret TReceive
      | inr m =>
          if SrtNode.rc_res m <=? 0 then
            do! (if (SrtNode.rc_res m =? 0) && (default 0 (SrtNode.rc_id m) =? 0) then ret tt
                 else do! invoke srt_getlasterror_str in ret tt) in
            ret TStop
          else if message_size cfg <? SrtNode.rc_res m then ret TStop
          else ret (TSend (take (Z.to_nat (SrtNode.rc_res m)) (SrtNode.rc_data m)))
      end
  | TSend data =>
      let! sendRes := on (negb src) (SrtNode.Send_to data dstSock) in
      if sendRes <=? 0 then do! invoke srt_getlasterror_str in ret TStop else ret TCheck
  | TStop =>
      do! invoke load_break in
      do! on src SrtNode.Close in
      do! on (negb src) SrtNode.Close in ret TEnd
  | TEnd => ret TEnd
  end.

(** forwardMessage, when nothing else runs. *)
Definition forwardMessage (fuel : nat) (cfg : config) (src : bool) (dstSock : Z) : io (W * nodes) unit :=
  if message_size cfg <? 0 then throw (StdLengthError "cannot create std::vector") else
  loop fuel (fun st => let! st' := thread_step cfg src dstSock st in
                       ret (match st' with TEnd => inr tt | _ => inl st' end)) TCheck.

(** Both threads, by a schedule: the first node is the source of the first
    thread. *)
Fixpoint run_threads (cfg : config) (sockDst sockSrc : Z) (schedule : list bool) (a b : tstate)
  : io (W * nodes) (tstate * tstate) :=
  match schedule with
  | [] => ret (a, b)
  | true :: schedule' =>
      let! a' := thread_step cfg true sockDst a in run_threads cfg sockDst sockSrc schedule' a' b
  | false :: schedule' =>
      let! b' := thread_step cfg false sockSrc b in run_threads cfg sockDst sockSrc schedule' a b'
  end.

(** The part of startForwarding that uses the nodes, source first, with the
    schedule of its two threads; joining a thread that has not ended takes more
    schedule. *)
Definition forward_nodes (fuel : nat) (cfg : config) (schedule : list bool) : io (W * nodes) Z :=
  let! sockDst := on false SrtNode.Connect in
  if sockDst =? SRT_INVALID_SOCK then ret 1 else
  let! listening := on true (SrtNode.Listen 1) in
  if negb (listening =? 0) then do! invoke srt_getlasterror_str in ret 1 else
  let! sockSrc := on true (SrtNode.AcceptingThread fuel) in
  if sockSrc =? SRT_ERROR then ret 0 else
  let! bindDst := on false SrtNode.GetBindSocket in
  let! ends := run_threads cfg bindDst sockSrc schedule TCheck TCheck in
  match ends with
  | (TEnd, TEnd) =>
      do! on true (SrtNode.WaitUndelivered fuel 3000) in
      do! on false (SrtNode.WaitUndelivered fuel 3000) in ret 0
  | _ => fun ws => (NoFuel, [], ws)
  end.

(** Code on state that is local to a scope. *)
Definition with_local {S A} (s : S) (m : io (W * S) A) : io W A :=
  fun w => let '(o, t, (w', _)) := m (w, s) in (o, t, w').

(** startForwarding. The nodes are destroyed at the end, the source first; the
    destination alone when there is no source. *)
Definition startForwarding (fuel : nat) (cfg : config) (srcUri dstUri : string) (schedule : list bool)
  : io W Z :=
  let! dst := createNode cfg dstUri true in
  let! src := on_throw (createNode cfg srcUri false) (with_local dst SrtNode.destroy) in
  with_local (src, dst)
    (finally (forward_nodes fuel cfg schedule)
       (do! on true SrtNode.destroy in on false SrtNode.destroy)).

(** forward::run: connects again and again until the program is told to stop. *)
Definition run_step (fuel : nat) (cfg : config) (src dst : string) (schedules : list (list bool))
  : io W (list (list bool) + unit) :=
  let! forceBreak := invoke load_break in
  if forceBreak : bool then ret (inr tt) else
  do! startForwarding fuel cfg src dst (default [] (head schedules)) in ret (inl (tail schedules)).
Definition run (fuel : nat) (src dst : string) (cfg : config) (schedules : list (list bool)) : io W unit :=
  loop fuel (run_step fuel cfg src dst) schedules.
End forward.

(** ** The two threads as a system *)

(** The environment and the nodes, and of each thread where it is and the
    calls it made. *)
Record sys (W : Type) := mk_sys {
  s_ws : W * nodes; s_a : tstate; s_b : tstate; s_ta : list event; s_tb : list event }.
Arguments mk_sys {W}.
Arguments s_ws {W}.
Arguments s_a {W}.
Arguments s_b {W}.
Arguments s_ta {W}.
Arguments s_tb {W}.

Section system.
Context {W : Type} `{!Env W}.
Variables (cfg : config) (sockDst sockSrc : Z).

(** A thread that has not ended takes a step. *)
Inductive sys_step : sys W -> sys W -> Prop :=
| step_a ws a b ta tb a' t ws' :
    a <> TEnd -> thread_step cfg true sockDst a ws = (Done a', t, ws') ->
    sys_step (mk_sys ws a b ta tb) (mk_sys ws' a' b (ta ++ t) tb)
| step_b ws a b ta tb b' t ws' :
    b <> TEnd -> thread_step cfg false sockSrc b ws = (Done b', t, ws') ->
    sys_step (mk_sys ws a b ta tb) (mk_sys ws' a b' ta (tb ++ t)).

Definition start (ws : W * nodes) : sys W := mk_sys ws TCheck TCheck [] [].

Lemma step_a_ended ws a b ta tb a' t ws' :
  thread_step cfg true sockDst a ws = (Done a', t, ws') ->
  rtc sys_step (mk_sys ws a b ta tb) (mk_sys ws' a' b (ta ++ t) tb).
Proof.
  intros Hs. destruct a; [eapply rtc_once, step_a; [discriminate|exact Hs]..|].
  injection Hs as <- <- <-. rewrite app_nil_r. apply rtc_refl.
Qed.
Lemma step_b_ended ws a b ta tb b' t ws' :
  thread_step cfg false sockSrc b ws = (Done b', t, ws') ->
  rtc sys_step (mk_sys ws a b ta tb) (mk_sys ws' a b' ta (tb ++ t)).
Proof.
  intros Hs. destruct b; [eapply rtc_once, step_b; [discriminate|exact Hs]..|].
  injection Hs as <- <- <-. rewrite app_nil_r. apply rtc_refl.
Qed.

(** What the threads do by a schedule is a run of the system. *)
Lemma run_threads_steps schedule a b a' b' ws t ws' ta tb :
  run_threads cfg sockDst sockSrc schedule a b ws = (Done (a', b'), t, ws') ->
  exists ta' tb', rtc sys_step (mk_sys ws a b ta tb) (mk_sys ws' a' b' ta' tb').
Proof.
  revert a b ws t ta tb. induction schedule as [|[] schedule IH]; intros a b ws t ta tb; cbn [run_threads].
  - intros [= <- <- _ <-]. exists ta, tb. apply rtc_refl.
  - unfold bind. destruct (thread_step cfg true sockDst a ws) as [[[a1|e|u|] t1] ws1] eqn:E; try discriminate.
    cbn [outcome_bind]. destruct (run_threads _ _ _ _ _ _ _) as [[o t2] ws2] eqn:E2.
    intros [= -> _ ->]. destruct (IH _ _ _ _ (ta ++ t1) tb E2) as (ta' & tb' & Hr).
    exists ta', tb'. etrans; [by eapply step_a_ended|done].
  - unfold bind. destruct (thread_step cfg false sockSrc b ws) as [[[b1|e|u|] t1] ws1] eqn:E; try discriminate.
    cbn [outcome_bind]. destruct (run_threads _ _ _ _ _ _ _) as [[o t2] ws2] eqn:E2.
    intros [= -> _ ->]. destruct (IH _ _ _ _ ta (tb ++ t1) E2) as (ta' & tb' & Hr).
    exists ta', tb'. etrans; [by eapply step_b_ended|done].
Qed.
End system.

(** ** What a step of a thread keeps and achieves *)

(** srt_sendmsg in message mode sends the whole message or fails. *)
Class SendmsgOk (W : Type) `{Env W} : Prop :=
  sendmsg_ok s data ttl inorder w r w' :
    answer (srt_sendmsg s data ttl inorder) w = (r, w') ->
    r = SRT_ERROR \/ r = Z.of_nat (length data).
#[global] Instance sendmsg_ok_prod {W S} `{SendmsgOk W} : SendmsgOk (W * S).
Proof. intros s data ttl inorder w r w' [Ha _]%prod_answer. by eapply sendmsg_ok. Qed.

Definition payloads (l : list (endpoint * list char)) : list (list char) := snd <$> l.

(** What a thread that sends on [dstSock] and is at [st] has done: it sent on
    [dstSock] only, and what it sent is what it received, in the same order and
    whole, except for at most one message: the one it is about to send, or the
    one whose sending failed before it ended. *)
Definition relayed (dstSock : Z) (st : tstate) (t : list event) : Prop :=
  Forall (fun p => p.1 = SrtEp dstSock) (sent t) /\
  exists unsent, payloads (received t) = payloads (sent t) ++ unsent /\
    match st with
    | TCheck | TReceive => unsent = []
    | TSend data => unsent = [data] /\ (0 < length data)%nat
    | TStop | TEnd => (length unsent <= 1)%nat
    end.

(** How many steps a thread still makes when its source is stopped. *)
Definition rank (st : tstate) : nat :=
  match st with TSend _ => 4 | TCheck => 3 | TReceive => 2 | TStop => 1 | TEnd => 0 end.

Definition node_at (first : bool) (ns : nodes) : SrtNode.SrtNode := if first then ns.1 else ns.2.
Definition set_node (first : bool) (n : SrtNode.SrtNode) (ns : nodes) : nodes :=
  if first then (n, ns.2) else (ns.1, n).

(** Nodes stay stopped and keep their polling objects. *)
Definition evolves (ns ns' : nodes) : Prop :=
  forall first, SrtNode.m_epoll_receive (node_at first ns') = SrtNode.m_epoll_receive (node_at first ns) /\
    (SrtNode.m_stop_accept (node_at first ns) = true -> SrtNode.m_stop_accept (node_at first ns') = true).
Definition stopped (ns : nodes) : Prop := forall first, SrtNode.m_stop_accept (node_at first ns) = true.

#[global] Instance evolves_preorder : PreOrder evolves.
Proof.
  split; [by split|]. intros ns1 ns2 ns3 H1 H2 first.
  destruct (H1 first) as [He1 Hs1], (H2 first) as [He2 Hs2]. split; [congruence|auto].
Qed.
Lemma stopped_evolves ns ns' : stopped ns -> evolves ns ns' -> stopped ns'.
Proof. intros Hs He first. by apply (He first). Qed.
Lemma same_evolves first n' ns :
  SrtNode.same_but_accepted (node_at first ns) n' -> evolves ns (set_node first n' ns).
Proof. intros (_ & _ & He & Hs). by intros []; destruct first, ns; cbn in *; rewrite ?He, ?Hs. Qed.

Section steps.
Context {W : Type} `{!Env W} `{!SrtOk W} `{!SendmsgOk W}.
Variables (cfg : config).
Hypothesis Hsize : 0 <= message_size cfg <= CInt.INT_MAX.

Lemma wp_on first {A} (m : io (W * SrtNode.SrtNode) A) (Q : post A) ws :
  wp m (fun o t ws' => Q o t (ws'.1, set_node first ws'.2 ws.2)) (ws.1, node_at first ws.2) ->
  wp (on first m) Q ws.
Proof.
  unfold wp, on. destruct ws as [w [n1 n2]], first; cbn; by destruct (m _) as [[o t] [w' n']].
Qed.

Lemma wp_close first (ws : W * nodes) (Q : post unit) :
  Q (Done tt) [] (ws.1, set_node first (SrtNode.set_stop (node_at first ws.2)) ws.2) ->
  wp (on first SrtNode.Close) Q ws.
Proof. intros HQ. by apply wp_on. Qed.

(** A step always succeeds, keeps [relayed], and brings the thread nearer to its
    end when its source is stopped; when it ends both nodes are stopped. *)
Definition step_post (src : bool) (dstSock : Z) (st : tstate) (tr : list event) (ns : nodes)
  : post (W:=W * nodes) tstate := fun o t ws' =>
  exists st', o = Done st' /\ relayed dstSock st' (tr ++ t) /\ evolves ns ws'.2 /\
    (st' = TEnd -> st <> TEnd -> stopped ws'.2) /\
    (SrtNode.m_stop_accept (node_at src ns) = true -> st <> TEnd -> (rank st' < rank st)%nat).

Lemma relayed_quiet dstSock st st' tr t :
  relayed dstSock st tr -> received t = [] -> sent t = [] ->
  (st' = st \/ (st = TCheck /\ st' = TReceive) \/ st' = TStop \/ (st = TStop /\ st' = TEnd)) ->
  relayed dstSock st' (tr ++ t).
Proof.
  intros [Hs (u & Hu & Hm)] Hr Ht Hst. split; [by rewrite sent_app, Ht, app_nil_r|].
  exists u. rewrite received_app, sent_app, Hr, Ht, !app_nil_r. split; [done|].
  destruct Hst as [->|[[-> ->]|[->|[-> ->]]]]; try done.
  destruct st as [| |data| |]; [subst; cbn; lia|subst; cbn; lia|destruct Hm as [-> _]; cbn; lia|done|done].
Qed.

Lemma check_step src dstSock tr ws :
  relayed dstSock TCheck tr -> wp (thread_step cfg src dstSock TCheck) (step_post src dstSock TCheck tr ws.2) ws.
Proof.
  intros Hrel. unfold thread_step. apply wp_bind, (wp_invoke load_break). intros r ws1 [_ Hn]%prod_answer.
  wp_simpl. apply wp_ret. eexists. split; [reflexivity|]. rewrite Hn.
  split_and!; [eapply relayed_quiet; [done..|destruct r; auto]|done| |]; destruct r; cbn; intros; (done || lia).
Qed.

Lemma stop_step src dstSock tr ws :
  relayed dstSock TStop tr -> wp (thread_step cfg src dstSock TStop) (step_post src dstSock TStop tr ws.2) ws.
Proof.
  intros Hrel. unfold thread_step. apply wp_bind, (wp_invoke load_break). intros r ws1 [_ Hn]%prod_answer.
  wp_simpl. apply wp_bind, wp_close. wp_simpl. apply wp_bind, wp_close. wp_simpl. apply wp_ret.
  eexists. split; [reflexivity|]. cbn [fst snd]. rewrite Hn. destruct ws as [w [n1 n2]]. cbn [snd].
  split_and!; [eapply relayed_quiet; [done..|auto]|by destruct src; intros []|by destruct src; intros _ _ []|].
  cbn. lia.
Qed.

Lemma send_step src dstSock data tr ws :
  relayed dstSock (TSend data) tr ->
  wp (thread_step cfg src dstSock (TSend data)) (step_post src dstSock (TSend data) tr ws.2) ws.
Proof.
  intros Hrel. pose proof Hrel as [Hs (u & Hu & -> & Hlen)].
  unfold thread_step. apply wp_bind, wp_on. unfold SrtNode.Send_to.
  apply (wp_invoke (srt_sendmsg _ _ _ _)). intros r ws1 Ha. pose proof Ha as [_ Hn]%prod_answer. wp_simpl.
  assert (set_node (negb src) ws1.2 ws.2 = ws.2) as ->.
  { rewrite Hn. by destruct ws as [w [n1 n2]], src. }
  apply sendmsg_ok in Ha as [->| ->].
  - change (SRT_ERROR <=? 0) with true. cbv iota. apply wp_bind, (wp_invoke srt_getlasterror_str). intros e ws2 [_ Hn2]%prod_answer.
    wp_simpl. apply wp_ret. eexists. split; [reflexivity|]. cbn in Hn2. rewrite Hn2.
    split_and!; [eapply relayed_quiet; [done..|auto]|done|done|]. cbn. lia.
  - rewrite (proj2 (Z.leb_gt _ _)) by lia. apply wp_ret. eexists. split; [reflexivity|].
    split_and!; [|done|done|cbn; lia].
    assert (sent [Ev (srt_sendmsg dstSock data (-1) true) (Z.of_nat (length data))] = [(SrtEp dstSock, data)]) as Hsent.
    { cbn. rewrite (proj2 (Z.ltb_lt _ _)) by lia. by rewrite Nat2Z.id, firstn_all. }
    unfold relayed, payloads in *. rewrite sent_app, received_app, Hsent.
    rewrite Forall_app, Forall_singleton, !fmap_app, Hu. split; [done|]. exists [].
    split; [|done]. cbn. by rewrite !app_nil_r.
Qed.

Lemma receive_step src dstSock tr ws :
  relayed dstSock TReceive tr -> SrtNode.read_poll (SrtNode.m_epoll_receive (node_at src ws.2)) ->
  wp (thread_step cfg src dstSock TReceive) (step_post src dstSock TReceive tr ws.2) ws.
Proof.
  intros Hrel Hpoll. unfold thread_step. apply wp_bind, wp_on, SrtNode.receive_attempt_wp; [exact Hsize|exact Hpoll|].
  intros r t ws1 Hsame Ht Hr. wp_simpl. apply (same_evolves src) in Hsame as Hev.
  destruct r as [[]|m].
  { destruct Hr as [Hstop Hr]. apply wp_ret. eexists. split; [reflexivity|]. rewrite app_nil_r.
    split_and!; [eapply relayed_quiet; [done..|auto]|done|done|]. by rewrite Hstop. }
  destruct Hr as [(Hstop & sock & data & Hd & Hb & -> & Hr)|[Hm Hr]]; cbn [SrtNode.rc_res SrtNode.rc_id].
  - rewrite (proj2 (Z.leb_gt _ _)), (proj2 (Z.ltb_ge _ _)) by lia. cbv iota. apply wp_ret.
    eexists. split; [reflexivity|]. rewrite app_nil_r, Nat2Z.id, firstn_all.
    split_and!; [|done|done|by rewrite Hstop]. destruct Hrel as [Hs (u & Hu & ->)].
    split; [by rewrite sent_app, Ht, app_nil_r|]. exists [data]. split; [|done].
    unfold payloads in *. by rewrite received_app, sent_app, Hr, Ht, app_nil_r, fmap_app, Hu, app_nil_r.
  - rewrite (proj2 (Z.leb_le _ _)) by done.
    destruct ((SrtNode.rc_res m =? 0) && _).
    + apply wp_bind, wp_ret. wp_simpl. apply wp_ret. eexists. split; [reflexivity|]. rewrite ?app_nil_r.
      split_and!; [eapply relayed_quiet; [done..|auto]|done|done|cbn; lia].
    + apply wp_bind, wp_bind, (wp_invoke srt_getlasterror_str). intros e ws2 [_ Hn2]%prod_answer.
      wp_simpl. apply wp_ret. wp_simpl. apply wp_ret. cbn in Hn2. eexists. split; [reflexivity|]. rewrite Hn2.
      split_and!; [|done|done|cbn; lia].
      eapply relayed_quiet; [done|by rewrite received_app, Hr|by rewrite sent_app, Ht|auto].
Qed.

(** A step of a thread, wherever it is. *)
Lemma thread_step_wp src dstSock st tr ws :
  relayed dstSock st tr -> SrtNode.read_poll (SrtNode.m_epoll_receive (node_at src ws.2)) ->
  wp (thread_step cfg src dstSock st) (step_post src dstSock st tr ws.2) ws.
Proof.
  destruct st; intros; [by apply check_step|by apply receive_step|by apply send_step|by apply stop_step|].
  apply wp_ret. exists TEnd. by rewrite app_nil_r.
Qed.

(** *** The invariant of the system *)
Variables (sockDst sockSrc : Z) (ns0 : nodes).
Hypothesis Hpolls : forall first, SrtNode.read_poll (SrtNode.m_epoll_receive (node_at first ns0)).

Definition sys_inv (s : sys W) : Prop :=
  relayed sockDst (s_a s) (s_ta s) /\ relayed sockSrc (s_b s) (s_tb s) /\
  evolves ns0 (s_ws s).2 /\ (s_a s = TEnd \/ s_b s = TEnd -> stopped (s_ws s).2).

Lemma start_inv w : sys_inv (start (w, ns0)).
Proof.
  split_and!; [split; [constructor|by exists []]..|done|]. by intros [|].
Qed.
Lemma evolves_poll ns first :
  evolves ns0 ns -> SrtNode.read_poll (SrtNode.m_epoll_receive (node_at first ns)).
Proof. intros He. rewrite (proj1 (He first)). apply Hpolls. Qed.
Lemma system_step s s' : sys_step cfg sockDst sockSrc s s' -> sys_inv s -> sys_inv s'.
Proof.
  intros [ws a b ta tb a' t ws' Ha Hrun|ws a b ta tb b' t ws' Hb Hrun] (HA & HB & He & Hst); cbn in *.
  - pose proof (thread_step_wp true sockDst a ta ws HA (evolves_poll _ true He)) as Hw.
    destruct (wp_run _ _ _ _ _ _ Hw Hrun) as (st' & [= <-] & HA' & He' & Hend & _).
    split_and!; [done|done|by etrans|]. cbn. intros [->|Hb]; [by apply Hend|].
    eapply stopped_evolves; [|done]. auto.
  - pose proof (thread_step_wp false sockSrc b tb ws HB (evolves_poll _ false He)) as Hw.
    destruct (wp_run _ _ _ _ _ _ Hw Hrun) as (st' & [= <-] & HB' & He' & Hend & _).
    split_and!; [done|done|by etrans|]. cbn. intros [Ha| ->]; [|by apply Hend].
    eapply stopped_evolves; [|done]. auto.
Qed.
Lemma system_reachable s s' : rtc (sys_step cfg sockDst sockSrc) s s' -> sys_inv s -> sys_inv s'.
Proof. induction 1; eauto using system_step. Qed.

(** C3: under every interleaving of the two threads each direction of the
    forwarding is faithful: a thread sends on the socket of the other node only,
    and the messages it sent are those it received, whole and in the same order,
    except for at most one, which it is about to send or could not send before
    it ended. *)
Theorem forward_faithful w s :
  rtc (sys_step cfg sockDst sockSrc) (start (w, ns0)) s ->
  relayed sockDst (s_a s) (s_ta s) /\ relayed sockSrc (s_b s) (s_tb s).
Proof. intros Hr. destruct (system_reachable _ _ Hr (start_inv w)) as (HA & HB & _). by split. Qed.

Definition sys_rank (s : sys W) : nat := rank (s_a s) + rank (s_b s).

Lemma stopped_step s s' :
  sys_inv s -> stopped (s_ws s).2 -> sys_step cfg sockDst sockSrc s s' ->
  stopped (s_ws s').2 /\ (sys_rank s' < sys_rank s)%nat.
Proof.
  intros (HA & HB & He & _) Hst Hs. unfold sys_rank.
  destruct Hs as [ws a b ta tb a' t ws' Ha Hrun|ws a b ta tb b' t ws' Hb Hrun]; cbn in *.
  - pose proof (thread_step_wp true sockDst a ta ws HA (evolves_poll _ true He)) as Hw.
    destruct (wp_run _ _ _ _ _ _ Hw Hrun) as (st' & [= <-] & _ & He' & _ & Hrank).
    split; [by eapply stopped_evolves|]. specialize (Hrank (Hst true) Ha). lia.
  - pose proof (thread_step_wp false sockSrc b tb ws HB (evolves_poll _ false He)) as Hw.
    destruct (wp_run _ _ _ _ _ _ Hw Hrun) as (st' & [= <-] & _ & He' & _ & Hrank).
    split; [by eapply stopped_evolves|]. specialize (Hrank (Hst false) Hb). lia.
Qed.

Lemma sys_progress s :
  sys_inv s -> (s_a s = TEnd /\ s_b s = TEnd) \/ exists s', sys_step cfg sockDst sockSrc s s'.
Proof.
  intros (HA & HB & He & _). destruct s as [ws a b ta tb]; cbn in *.
  assert (a = TEnd \/ a <> TEnd) as [->|Ha] by (destruct a; auto; right; discriminate).
  - assert (b = TEnd \/ b <> TEnd) as [->|Hb] by (destruct b; auto; right; discriminate); [by left|right].
    pose proof (thread_step_wp false sockSrc b tb ws HB (evolves_poll _ false He)) as Hw. unfold wp in Hw.
    destruct (thread_step cfg false sockSrc b ws) as [[o t] ws'] eqn:E. destruct Hw as (st' & -> & _).
    eexists. by eapply step_b.
  - right. pose proof (thread_step_wp true sockDst a ta ws HA (evolves_poll _ true He)) as Hw. unfold wp in Hw.
    destruct (thread_step cfg true sockDst a ws) as [[o t] ws'] eqn:E. destruct Hw as (st' & -> & _).
    eexists. by eapply step_a.
Qed.

Lemma stopped_nsteps n s s' :
  nsteps (sys_step cfg sockDst sockSrc) n s s' -> sys_inv s -> stopped (s_ws s).2 -> (n + sys_rank s' <= sys_rank s)%nat.
Proof.
  induction 1 as [s|n s1 s2 s3 Hs Hn IH]; [lia|]. intros Hinv Hst.
  destruct (stopped_step _ _ Hinv Hst Hs) as [Hst2 Hlt]. specialize (IH (system_step _ _ Hs Hinv) Hst2). lia.
Qed.

(** C4: when one of the threads has ended the other one ends too: both nodes
    are stopped, every further run of the system is at most four steps long, and
    a run that cannot go on has both threads at their end. *)
Theorem forward_shutdown w s n s' :
  rtc (sys_step cfg sockDst sockSrc) (start (w, ns0)) s -> s_a s = TEnd \/ s_b s = TEnd ->
  nsteps (sys_step cfg sockDst sockSrc) n s s' ->
  stopped (s_ws s).2 /\ (n <= 4)%nat /\
  ((s_a s' = TEnd /\ s_b s' = TEnd) \/ exists s'', sys_step cfg sockDst sockSrc s' s'').
Proof.
  intros Hr Hend Hn. pose proof (system_reachable _ _ Hr (start_inv w)) as Hinv.
  pose proof Hinv as (_ & _ & _ & Hst). specialize (Hst Hend). split_and!; [done| |].
  - pose proof (stopped_nsteps _ _ _ Hn Hinv Hst) as Hle. unfold sys_rank in Hle.
    destruct Hend as [He|He]; rewrite He in Hle; cbn [rank] in Hle; [destruct (s_b s)|destruct (s_a s)]; cbn in Hle; lia.
  - apply sys_progress. eapply system_reachable; [|done]. by eapply rtc_nsteps_2.
Qed.
End steps.

(** ** An example: one message comes in, then the connection is lost *)
#[local] Instance example_env : Env nat := fun c k =>
  match c as c0 return resp c0 * nat with
  | srt_epoll_wait _ _ _ _ => (mk_epoll 1 [5] [], k)
  | srt_recvmsg2 _ cap =>
      match k with
      | S k' => if 2 <=? cap then ((2, chars "hi"), k') else ((SRT_ERROR, []), k)
      | O => ((SRT_ERROR, []), O)
      end
  | srt_sendmsg _ data _ _ => (Z.of_nat (length data), k)
  | srt_sendmsg2 _ _ _ => (SRT_ERROR, k)
  | srt_getlasterror => (SRT_ECONNLOST, k)
  | c => (default_resp c, k)
  end.
Lemma forward_srt_ok : SrtOk nat.
Proof.
  split.
  - intros s cap [|k] r d w'; cbn.
    + intros [= <- <- _]. by left.
    + destruct (Z.leb_spec 2 cap); intros [= <- <- _]; [right|by left]. cbn. lia.
  - intros s data len w r w'. cbn. intros [= <- <-]. by left.
Qed.
Lemma example_sendmsg_ok : SendmsgOk nat.
Proof. intros s data ttl inorder w r w'. cbn. intros [= <- _]. by right. Qed.
Lemma example_poll eid : SrtNode.read_poll eid.
Proof. intros rc wc tmo w er w'. cbn. intros [= <- _] _. cbn. split; [done|lia]. Qed.

Definition example_cfg : config := mk_config 1456 false false.
Definition example_nodes : nodes :=
  (SrtNode.mk_node {[5]} 4 1 2 false "" 4200 [], SrtNode.mk_node ∅ 6 3 4 false "host" 4200 []).

Ltac one_step L := eapply rtc_l; [eapply L; [discriminate|vm_compute; reflexivity]|].
Ltac one_nstep L := eapply nsteps_l; [eapply L; [discriminate|vm_compute; reflexivity]|].
Lemma example_run : exists s s',
  rtc (sys_step example_cfg 6 5) (start (1%nat, example_nodes)) s /\
  nsteps (sys_step example_cfg 6 5) 2 s s' /\
  s_a s = TEnd /\ s_b s = TReceive /\ sent (s_ta s) = [(SrtEp 6, chars "hi")] /\ s_b s' = TEnd.
Proof.
  eexists _, _. split; [|split].
  - unfold start. one_step @step_a. one_step @step_a. one_step @step_b. one_step @step_a. one_step @step_a.
    one_step @step_a. one_step @step_a. apply rtc_refl.
  - one_nstep @step_b. one_nstep @step_b. constructor.
  - by split_and!.
Qed.

Lemma example_size : 0 <= message_size example_cfg <= CInt.INT_MAX.
Proof. by split. Qed.

Lemma forward_faithful_witness : exists s,
  rtc (sys_step example_cfg 6 5) (start (1%nat, example_nodes)) s /\ s_a s = TEnd /\
  sent (s_ta s) = [(SrtEp 6, chars "hi")] /\ relayed 6 (s_a s) (s_ta s).
Proof.
  destruct example_run as (s & s' & Hr & _ & Ha & _ & Hs & _). exists s. split_and!; [done..|].
  pose proof forward_srt_ok. pose proof example_sendmsg_ok.
  apply (forward_faithful example_cfg example_size 6 5 example_nodes (fun _ => example_poll _) 1%nat s Hr).
Defined.

(** The second thread was waiting for a message when the first one ended. *)
Lemma forward_shutdown_witness : exists s s',
  rtc (sys_step example_cfg 6 5) (start (1%nat, example_nodes)) s /\ s_a s = TEnd /\ s_b s = TReceive /\
  stopped (s_ws s).2 /\ nsteps (sys_step example_cfg 6 5) 2 s s' /\ s_b s' = TEnd.
Proof.
  destruct example_run as (s & s' & Hr & Hn & Ha & Hb & _ & Hb'). exists s, s'.
  pose proof forward_srt_ok. pose proof example_sendmsg_ok.
  destruct (forward_shutdown example_cfg example_size 6 5 example_nodes (fun _ => example_poll _)
    1%nat s 2 s' Hr (or_introl Ha) Hn) as (Hst & _).
  by split_and!.
Defined.
End Forward.
