(* ===== verification/Options.v ===== *)
(** * The command-line options of the commands (the add_subcommand functions)

    The options of every subcommand with the variables they assign, the defaults
    of these variables, and how the callbacks of what was matched are run. *)

From Stdlib Require Import ZArith Lia Ascii String SpecFloat.
From stdpp Require Import prelude strings list.
From S2P Require Import Prelude Sys Misc Cli Generate Receive Route FileSend FileReceive Forward.

Module Options.
Local Open Scope string_scope.
Local Open Scope list_scope.
Local Open Scope Z_scope.
Import Cli.

(** ** The variables of main and the defaults of the configurations *)
Record settings := mk_settings {
  src_urls : list string; dst_urls : list string; src : string; dst : string;
  cfg_generate : Generate.config; cfg_receive : Receive.config; cfg_route : Route.config;
  cfg_file_send : FileSend.config; cfg_file_recv : FileReceive.config; cfg_forward : Forward.config }.

Definition default_stats : Misc.stats_config := Misc.mk_stats_config 0 "" "csv".
Definition default_generate : Generate.config :=
  Generate.mk_config default_stats 0 (-1) 0 1316 false false false false false "" (S754_zero false).
Definition default_receive : Receive.config :=
  Receive.mk_config default_stats false false false false false 1000 "" 1 1316.
Definition default_route : Route.config := Route.mk_config 1456 false false default_stats.
Definition default_file_send : FileSend.config := FileSend.mk_config "" (1456 * 1000) false 0 "" "csv".
Definition default_file_receive : FileReceive.config := FileReceive.mk_config "" (1456 * 1000) 0 "" "csv".
Definition default_forward : Forward.config := Forward.mk_config 1456 false false.
Definition default_settings : settings :=
  mk_settings [] [] "" "" default_generate default_receive default_route default_file_send
    default_file_receive default_forward.

Definition set_src_urls (l : list string) (s : settings) : settings :=
  mk_settings l (dst_urls s) (src s) (dst s) (cfg_generate s) (cfg_receive s) (cfg_route s)
    (cfg_file_send s) (cfg_file_recv s) (cfg_forward s).
Definition set_dst_urls (l : list string) (s : settings) : settings :=
  mk_settings (src_urls s) l (src s) (dst s) (cfg_generate s) (cfg_receive s) (cfg_route s)
    (cfg_file_send s) (cfg_file_recv s) (cfg_forward s).
Definition set_src (u : string) (s : settings) : settings :=
  mk_settings (src_urls s) (dst_urls s) u (dst s) (cfg_generate s) (cfg_receive s) (cfg_route s)
    (cfg_file_send s) (cfg_file_recv s) (cfg_forward s).
Definition set_dst (u : string) (s : settings) : settings :=
  mk_settings (src_urls s) (dst_urls s) (src s) u (cfg_generate s) (cfg_receive s) (cfg_route s)
    (cfg_file_send s) (cfg_file_recv s) (cfg_forward s).
Definition set_generate (c : Generate.config) (s : settings) : settings :=
  mk_settings (src_urls s) (dst_urls s) (src s) (dst s) c (cfg_receive s) (cfg_route s)
    (cfg_file_send s) (cfg_file_recv s) (cfg_forward s).
Definition set_receive (c : Receive.config) (s : settings) : settings :=
  mk_settings (src_urls s) (dst_urls s) (src s) (dst s) (cfg_generate s) c (cfg_route s)
    (cfg_file_send s) (cfg_file_recv s) (cfg_forward s).
Definition set_route (c : Route.config) (s : settings) : settings :=
  mk_settings (src_urls s) (dst_urls s) (src s) (dst s) (cfg_generate s) (cfg_receive s) c
    (cfg_file_send s) (cfg_file_recv s) (cfg_forward s).
Definition set_file_send (c : FileSend.config) (s : settings) : settings :=
  mk_settings (src_urls s) (dst_urls s) (src s) (dst s) (cfg_generate s) (cfg_receive s) (cfg_route s)
    c (cfg_file_recv s) (cfg_forward s).
Definition set_file_receive (c : FileReceive.config) (s : settings) : settings :=
  mk_settings (src_urls s) (dst_urls s) (src s) (dst s) (cfg_generate s) (cfg_receive s) (cfg_route s)
    (cfg_file_send s) c (cfg_forward s).
Definition set_forward (c : Forward.config) (s : settings) : settings :=
  mk_settings (src_urls s) (dst_urls s) (src s) (dst s) (cfg_generate s) (cfg_receive s) (cfg_route s)
    (cfg_file_send s) (cfg_file_recv s) c.

Definition to_bps : list (string * Z) := Cli.to_bps.
Definition to_ms : list (string * Z) := SMap.of_list [("s", 1000); ("ms", 1)].
Definition to_sec : list (string * Z) := SMap.of_list [("s", 1); ("min", 60); ("mins", 60)].

(** ** generate *)
Definition gen (f : Generate.config -> Generate.config) (s : settings) : settings :=
  set_generate (f (cfg_generate s)) s.
Definition gen_with (size rate num dur : option Z) (c : Generate.config) : Generate.config :=
  Generate.mk_config (Generate.stats_cfg c) (default (Generate.sendrate c) rate)
    (default (Generate.num_messages c) num) (default (Generate.duration c) dur)
    (default (Generate.message_size c) size) (Generate.two_way c) (Generate.reconnect c)
    (Generate.close_listener c) (Generate.enable_metrics c) (Generate.spin_wait c)
    (Generate.playback_csv c) (Generate.lossRate c).
Definition gen_flags (two rec close : option bool) (loss : option spec_float) (c : Generate.config)
  : Generate.config :=
  Generate.mk_config (Generate.stats_cfg c) (Generate.sendrate c) (Generate.num_messages c)
    (Generate.duration c) (Generate.message_size c) (default (Generate.two_way c) two)
    (default (Generate.reconnect c) rec) (default (Generate.close_listener c) close)
    (Generate.enable_metrics c) (Generate.spin_wait c) (Generate.playback_csv c)
    (default (Generate.lossRate c) loss).

Definition generate_options : list (option_ settings) :=
  [strings_option "-o,--output,dst" set_dst_urls;
   int_option "--msgsize" (fun v => gen (gen_with (Some v) None None None));
   unit_option "--sendrate" to_bps (fun v => gen (gen_with None (Some v) None None));
   int_option "--num" (fun v => gen (gen_with None None (Some v) None));
   unit_option "--duration" to_sec (fun v => gen (gen_with None None None (Some v)));
   flag_option "--twoway" (fun b => gen (gen_flags (Some b) None None None));
   flag_option "--reconnect,!--no-reconnect" (fun b => gen (gen_flags None (Some b) None None));
   flag_option "--close-listener,!--no-close-listener" (fun b => gen (gen_flags None None (Some b) None));
   double_option "--lossrate" (fun x => gen (gen_flags None None None (Some x)))].

(** ** receive *)
Definition rcv (f : Receive.config -> Receive.config) (s : settings) : settings :=
  set_receive (f (cfg_receive s)) s.
Definition stats_with (freq : option Z) (file format : option string) (c : Misc.stats_config)
  : Misc.stats_config :=
  Misc.mk_stats_config (default (Misc.stats_freq_ms c) freq) (default (Misc.stats_file c) file)
    (default (Misc.stats_format c) format).
Definition rcv_with (stats : Misc.stats_config -> Misc.stats_config) (size freq : option Z)
    (file : option string) (c : Receive.config) : Receive.config :=
  Receive.mk_config (stats (Receive.stats_cfg c)) (Receive.print_notifications c) (Receive.send_reply c)
    (Receive.reconnect c) (Receive.close_listener c) (Receive.enable_metrics c)
    (default (Receive.metrics_freq_ms c) freq) (default (Receive.metrics_file c) file)
    (Receive.max_connections c) (default (Receive.message_size c) size).
Definition rcv_flags (print reply rec close metrics : option bool) (c : Receive.config) : Receive.config :=
  Receive.mk_config (Receive.stats_cfg c) (default (Receive.print_notifications c) print)
    (default (Receive.send_reply c) reply) (default (Receive.reconnect c) rec)
    (default (Receive.close_listener c) close) (default (Receive.enable_metrics c) metrics)
    (Receive.metrics_freq_ms c) (Receive.metrics_file c) (Receive.max_connections c)
    (Receive.message_size c).

Definition receive_options : list (option_ settings) :=
  [strings_option "-i,--input,src" set_src_urls;
   int_option "--msgsize" (fun v => rcv (rcv_with id (Some v) None None));
   string_option "--statsfile" (fun t => rcv (rcv_with (stats_with None (Some t) None) None None None));
   string_option "--statsformat" (fun t => rcv (rcv_with (stats_with None None (Some t)) None None None));
   unit_option "--statsfreq" to_ms (fun v => rcv (rcv_with (stats_with (Some v) None None) None None None));
   flag_option "--printmsg" (fun b => rcv (rcv_flags (Some b) None None None None));
   flag_option "--reconnect,!--no-reconnect" (fun b => rcv (rcv_flags None None (Some b) None None));
   flag_option "--close-listener,!--no-close-listener" (fun b => rcv (rcv_flags None None None (Some b) None));
   flag_option "--enable-metrics" (fun b => rcv (rcv_flags None None None None (Some b)));
   string_option "--metricsfile" (fun t => rcv (rcv_with id None None (Some t)));
   unsigned_unit_option "--metricsfreq" to_ms (fun v => rcv (rcv_with id None (Some v) None));
   flag_option "--twoway" (fun b => rcv (rcv_flags None (Some b) None None None))].

(** ** route *)
Definition rte (size : option Z) (bi close : option bool) (stats : Misc.stats_config -> Misc.stats_config)
    (s : settings) : settings :=
  let c := cfg_route s in
  set_route (Route.mk_config (default (Route.message_size c) size) (default (Route.bidir c) bi)
               (default (Route.close_listener c) close) (stats (Route.stats_cfg c))) s.

Definition route_options : list (option_ settings) :=
  [strings_option "-i,--input" set_src_urls;
   strings_option "-o,--output" set_dst_urls;
   int_option "--msgsize" (fun v => rte (Some v) None None id);
   flag_option "--bidir" (fun b => rte None (Some b) None id);
   flag_option "--close-listener,!--no-close-listener" (fun b => rte None None (Some b) id);
   string_option "--statsfile" (fun t => rte None None None (stats_with None (Some t) None));
   string_option "--statsformat" (fun t => rte None None None (stats_with None None (Some t)));
   unit_option "--statsfreq" to_ms (fun v => rte None None None (stats_with (Some v) None None))].

(** ** file send, file receive, file forward *)
Definition snd_with (path : option string) (print : option bool) (size freq : option Z)
    (file format : option string) (s : settings) : settings :=
  let c := cfg_file_send s in
  set_file_send (FileSend.mk_config (default (FileSend.src_path c) path) (default (FileSend.segment_size c) size)
    (default (FileSend.only_print c) print) (default (FileSend.stats_freq_ms c) freq)
    (default (FileSend.stats_file c) file) (default (FileSend.stats_format c) format)) s.

Definition file_send_options : list (option_ settings) :=
  [string_option "src" (fun t => snd_with (Some t) None None None None None);
   string_option "dst" set_dst;
   flag_option "--printout" (fun b => snd_with None (Some b) None None None None);
   size_option "--segment" (fun v => snd_with None None (Some v) None None None);
   string_option "--statsfile" (fun t => snd_with None None None None (Some t) None);
   string_option "--statsformat" (fun t => snd_with None None None None None (Some t));
   unit_option "--statsfreq" to_ms (fun v => snd_with None None None (Some v) None None)].

Definition frcv_with (path : option string) (size freq : option Z) (file format : option string)
    (s : settings) : settings :=
  let c := cfg_file_recv s in
  set_file_receive (FileReceive.mk_config (default (FileReceive.dst_path c) path)
    (default (FileReceive.segment_size c) size) (default (FileReceive.stats_freq_ms c) freq)
    (default (FileReceive.stats_file c) file) (default (FileReceive.stats_format c) format)) s.

Definition file_receive_options : list (option_ settings) :=
  [string_option "src" set_src;
   string_option "dst" (fun t => frcv_with (Some t) None None None None);
   size_option "--segment" (fun v => frcv_with None (Some v) None None None);
   string_option "--statsfile" (fun t => frcv_with None None None (Some t) None);
   string_option "--statsformat" (fun t => frcv_with None None None None (Some t));
   unit_option "--statsfreq" to_ms (fun v => frcv_with None None (Some v) None None)].

Definition fwd_with (pl one : option bool) (s : settings) : settings :=
  let c := cfg_forward s in
  set_forward (Forward.mk_config (Forward.message_size c) (default (Forward.planck c) pl)
    (default (Forward.one_way c) one)) s.

Definition forward_options : list (option_ settings) :=
  [string_option "src" set_src;
   string_option "dst" set_dst;
   flag_option "--oneway" (fun b => fwd_with None (Some b));
   flag_option "--planck" (fun b => fwd_with (Some b) None)].

(** ** The command line as a whole *)
Inductive command := CmdGenerate | CmdReceive | CmdRoute | CmdFileSend | CmdFileReceive | CmdForward.
#[global] Instance command_eq_dec : EqDecision command.
Proof. solve_decision. Defined.

Definition options_of (c : command) : list (option_ settings) :=
  match c with
  | CmdGenerate => generate_options
  | CmdReceive => receive_options
  | CmdRoute => route_options
  | CmdFileSend => file_send_options
  | CmdFileReceive => file_receive_options
  | CmdForward => forward_options
  end.

(** The subcommands, in the order in which main declares them. *)
Definition commands (ENABLE_FILE_TRANSFER : bool) : list command :=
  [CmdGenerate; CmdReceive; CmdRoute] ++
  if ENABLE_FILE_TRANSFER then [CmdFileSend; CmdFileReceive; CmdForward] else [].

(** Why the splitting of the command line stops before the callbacks run: an exit
    status, an exception of std::stoll, an overflow. *)
Inductive failure := Status (status : Z) | OutOfRange | Overflow.

(** What Tokenizer makes of the command line: the texts matched by each option of the
    program and of each subcommand; the callbacks that run while a configuration
    file is read, in their order ([None]: of the application), and why CLI11 stops
    after them; the subcommands that were named; and the exit status when CLI11
    ends the program once all callbacks have run (--help, a missing subcommand,
    arguments left over). *)
Record matches := mk_matches {
  m_app : string -> list string; m_sub : command -> string -> list string;
  m_ran : list (option command * string); m_stop : option failure;
  m_parsed : command -> bool; m_refused : option Z }.

(** The texts whose callback is still to run. *)
Definition has_run (m : matches) (c : option command) (key : string) : bool := bool_decide ((c, key) ∈ m_ran m).
Definition sub_left (m : matches) (c : command) (key : string) : list string :=
  if has_run m (Some c) key then [] else m_sub m c key.
Definition app_left (m : matches) (key : string) : list string :=
  if has_run m None key then [] else m_app m key.

(** The callback of one option of a command. *)
Definition run_one (m : matches) (c : command) (key : string) (s : settings) : error + settings :=
  match List.find (fun o => String.eqb (opt_name o) key) (options_of c) with
  | Some o => opt_run o (m_sub m c key) s
  | None => inr s
  end.

Fixpoint process_commands (cs : list command) (m : matches) (s : settings) : error + settings :=
  match cs with
  | [] => inr s
  | c :: cs' =>
      match process_callbacks (options_of c) (sub_left m c) s with
      | inl e => inl e
      | inr s' => process_commands cs' m s'
      end
  end.
End Options.
