(* ===== verification/Tokenizer.v ===== *)
(** * How the command line is split into options and texts (App.hpp, Option.hpp, Split.hpp)

    CLI11 walks over the arguments from left to right. A subcommand hands over to
    its own parser and gets control back when that parser meets something it
    cannot take; options and texts a subcommand does not know fall through to its
    parents. The items of a configuration file come after that. Only what the
    program switches on is modelled: no option groups, aliases, environment names,
    required or prefix options. *)

From Stdlib Require Import ZArith Lia Ascii String.
From stdpp Require Import prelude strings list.
From S2P Require Import Prelude Cli ConfigFile Options.

Module Tokenizer.
Local Open Scope string_scope.
Local Open Scope list_scope.
Local Open Scope Z_scope.
Import Cli ConfigFile Options.

(** ** The names of an option, out of the string that declares it *)
Definition valid_first_char (c : char) : bool :=
  negb (bool_decide (c ∈ ["-"; "!"; " "; ascii_of_nat 10]%char)).
Definition valid_later_char (c : char) : bool :=
  negb (bool_decide (c ∈ ["="; ":"; "{"; " "; ascii_of_nat 10]%char)).
Definition valid_name_string (str : string) : bool :=
  match chars str with
  | [] => false
  | c :: l => valid_first_char c && forallb valid_later_char l
  end.

Definition split_names (current : string) : list string :=
  (fun f => of_chars (trim f)) <$> fields ","%char (chars current).

(** [name{default}], or a name behind an exclamation mark, whose default is false. *)
Definition has_brace_default (name : string) : bool :=
  match CStr.find_first_of "{" 0 name with
  | Some _ => bool_decide (last (chars name) = Some "}"%char)
  | None => false
  end.
Definition default_flag_value (flag : string) : string * string :=
  let '(flag, defval) :=
    match CStr.find_first_of "{" 0 flag with
    | Some def_start =>
        if has_brace_default flag
        then (take def_start (chars flag), of_chars (removelast (drop (S def_start) (chars flag))))
        else (chars flag, "false")
    | None => (chars flag, "false")
    end in
  (of_chars (drop (default 0%nat
     (CStr.index_where (fun c => negb (bool_decide (c ∈ chars "-!"))) flag)) flag), defval).
Definition get_default_flag_values (str : string) : list (string * string) :=
  default_flag_value <$> filter (fun name => has_brace_default name \/ head (chars name) = Some "!"%char)
    (split_names str).

Definition has_default_flag_values (flags : string) : bool :=
  match CStr.find_first_of "{!" 0 flags with Some _ => true | None => false end.
(** The loop that cuts the defaults in braces out of the names, then the marks. *)
Fixpoint cut_braces (fuel : nat) (flags : string) (loc : option nat) : string :=
  match loc, fuel with
  | Some l, S fuel' =>
      let flags' :=
        match CStr.find_first_of "}," (S l) flags with
        | Some finish => if bool_decide (chars flags !! finish = Some "}"%char)
                         then of_chars (take l (chars flags) ++ drop (S finish) (chars flags)) else flags
        | None => flags
        end in
      cut_braces fuel' flags' (CStr.find_first_of "{" (S l) flags')
  | _, _ => flags
  end.
Definition remove_default_flag_values (flags : string) : string :=
  of_chars (filter (fun c => c <> "!"%char)
    (chars (cut_braces (CStr.size flags) flags (CStr.find_first_of "{" 2 flags)))).

(** Short names, long names and the name of a positional option; [None] where a
    BadNameString is thrown. *)
Definition get_name (name : string) (acc : list string * list string * string)
    : option (list string * list string * string) :=
  let '(shorts, longs, pos) := acc in
  match chars name with
  | [] => Some acc
  | "-"%char :: c :: l =>
      if bool_decide (c <> "-"%char) then
        if bool_decide (l = []) && valid_first_char c then Some (shorts ++ [of_chars [c]], longs, pos) else None
      else if bool_decide (l = []) then None
      else if valid_name_string (of_chars l) then Some (shorts, longs ++ [of_chars l], pos) else None
  | ["-"%char] => None
  | _ => if String.eqb pos "" then Some (shorts, longs, name) else None
  end.
Definition get_names (input : list string) : option (list string * list string * string) :=
  foldl (fun acc name => acc ≫= get_name name) (Some ([], [], "")) input.

(** An option of CLI11, and how many texts it takes. *)
Record declared := mk_declared {
  d_key : string; d_kind : kind; d_short : list string; d_long : list string; d_pos : string;
  d_flags : list (string * string) }.
Definition expected_max_vector_size : Z := 2 ^ 29.
Definition items_min (o : declared) : Z := match d_kind o with Flag => 0 | _ => 1 end.
Definition items_max (o : declared) : Z :=
  match d_kind o with Flag => 0 | Single => 1 | Many => expected_max_vector_size end.
Definition allow_extra_args (o : declared) : bool := match d_kind o with Many => true | _ => false end.

(** [add_option] and [_add_flag_internal]. *)
Definition declare (spec : string * kind) : option declared :=
  let '(key, k) := spec in
  let flags := match k with Flag => has_default_flag_values key | _ => false end in
  '(shorts, longs, pos) ← get_names (split_names (if flags then remove_default_flag_values key else key));
  Some (mk_declared key k shorts longs pos (if flags then get_default_flag_values key else [])).

(** ** The parsers: the application, the file command and the commands of Options *)
Inductive node := Root | File | Cmd (c : command).
#[export] Instance node_eq_dec : EqDecision node.
Proof. solve_decision. Defined.

Definition node_name (n : node) : string :=
  match n with
  | Root => ""
  | File => "file"
  | Cmd CmdGenerate => "generate"
  | Cmd CmdReceive | Cmd CmdFileReceive => "receive"
  | Cmd CmdRoute => "route"
  | Cmd CmdFileSend => "send"
  | Cmd CmdForward => "forward"
  end.
(** A parser and its parents, from the inside out. All but the application have
    fallthrough set, forward inherits it from file. *)
Definition ancestors (n : node) : list node :=
  match n with
  | Root => [Root]
  | File => [File; Root]
  | Cmd c => match c with
             | CmdGenerate | CmdReceive | CmdRoute => [Cmd c; Root]
             | CmdFileSend | CmdFileReceive | CmdForward => [Cmd c; File; Root]
             end
  end.
Definition has_parent (n : node) : bool := negb (bool_decide (n = Root)).
Definition fallthrough (n : node) : bool := negb (bool_decide (n = Root)).
Definition require_subcommand_max (n : node) : nat := if decide (n = Root) then 1 else 0.
Definition require_subcommand_min (n : node) : nat := if decide (n = Root) then 1 else 0.

Definition help : string * kind := ("-h,--help", Flag).
Definition help_all : string * kind := ("--help-all", Flag).
Definition specs (n : node) : list (string * kind) :=
  match n with
  | Root => [help; ("--config", Single); help_all; ("--version", Flag); ("--verbose,-v", Flag);
             ("--handle-sigint", Flag); ("--loglevel", Single); ("--logfa", Single)]
  | File => [help; help_all]
  | Cmd c => [help; help_all] ++ ((fun o => (opt_name o, opt_kind o)) <$> options_of c)
  end.
Definition options_at (n : node) : list declared := default [] (mapM declare (specs n)).

Inductive classifier := NONE | POSITIONAL_MARK | SHORT | LONG | WINDOWS_STYLE | SUBCOMMAND | SUBCOMMAND_TERMINATOR.
#[export] Instance classifier_eq_dec : EqDecision classifier.
Proof. solve_decision. Defined.

(** What the parsers have found so far. *)
Record pstate := mk_pstate {
  results : node -> string -> list string;
  missing : node -> list (classifier * string);
  parsed_subcommands : node -> list node;
  parsed : node -> nat }.
Definition pstate0 : pstate := mk_pstate (fun _ _ => []) (fun _ => []) (fun _ => []) (fun _ => 0%nat).

Definition add_results (n : node) (key : string) (texts : list string) (st : pstate) : pstate :=
  mk_pstate (fun n' key' => if bool_decide (n' = n) && String.eqb key' key
                            then results st n' key' ++ texts else results st n' key')
    (missing st) (parsed_subcommands st) (parsed st).
Definition move_to_missing (n : node) (val_type : classifier) (val : string) (st : pstate) : pstate :=
  mk_pstate (results st) (fun n' => if bool_decide (n' = n) then missing st n' ++ [(val_type, val)] else missing st n')
    (parsed_subcommands st) (parsed st).
Definition push_subcommand (n com : node) (st : pstate) : pstate :=
  mk_pstate (results st) (missing st)
    (fun n' => if bool_decide (n' = n) then parsed_subcommands st n' ++ [com] else parsed_subcommands st n')
    (parsed st).
Definition increment_parsed (n : node) (st : pstate) : pstate :=
  mk_pstate (results st) (missing st) (parsed_subcommands st)
    (fun n' => if bool_decide (n' = n) then S (parsed st n') else parsed st n').
Definition count (st : pstate) (n : node) (o : declared) : nat := length (results st n (d_key o)).

(** The texts that are missing, and an error of the parser itself. *)
Definition TypedAtLeast : failure := Status 114.
Definition HorribleError : failure := Status 112.

(** ** The texts of one option *)

(** [_add_result]: a text in brackets is a list of texts for an option that takes
    many; every nesting takes two characters off. *)
Fixpoint add_result_fuel (fuel : nat) (many : bool) (result : string) : list string :=
  match fuel, chars result with
  | S fuel', "["%char :: l =>
      if many && bool_decide (last ("["%char :: l) = Some "]"%char)
      then var ← split (of_chars (removelast l)) ","%char;
           if String.eqb var "" then [] else add_result_fuel fuel' many var
      else [result]
  | _, _ => [result]
  end.
Definition add_result (o : declared) (result : string) : list string :=
  add_result_fuel (CStr.size result) (allow_extra_args o) result.

(** [get_flag_value], of a flag. *)
Definition get_flag_value (o : declared) (name input_value : string) : failure + string :=
  match snd <$> List.find (fun d => String.eqb d.1 name) (d_flags o) with
  | None => inr (if String.eqb input_value "" || String.eqb input_value "{}" then "true" else input_value)
  | Some defval =>
      if String.eqb input_value "" || String.eqb input_value "{}" then inr defval
      else if String.eqb defval "false" then
        match to_flag_value input_value with
        | CNum.StoOk val =>
            if val =? 1 then inr "false" else if val =? -1 then inr "true"
            else if - val <=? CInt.LONG_MAX then inr (CNum.to_string (- val)) else inl Overflow
        | CNum.StoInvalid => inr input_value
        | CNum.StoRange => inl OutOfRange
        end
      else inr input_value
  end.

(** ** What an argument is *)
Definition split_short (current : string) : option (string * string) :=
  match chars current with
  | "-"%char :: c :: l => if valid_first_char c then Some (of_chars [c], of_chars l) else None
  | _ => None
  end.
Definition split_long (current : string) : option (string * string) :=
  match chars current with
  | "-"%char :: "-"%char :: c :: l =>
      if valid_first_char c then
        match CStr.find_first_of "=" 0 current with
        | Some loc => Some (of_chars (take (loc - 2) (c :: l)), of_chars (drop (S loc) (chars current)))
        | None => Some (of_chars (c :: l), "")
        end
      else None
  | _ => None
  end.
Definition check_sname (name : string) (o : declared) : bool := existsb (String.eqb name) (d_short o).
Definition check_lname (name : string) (o : declared) : bool := existsb (String.eqb name) (d_long o).

Section walk.
Variable ENABLE_FILE_TRANSFER : bool.

Definition subcommands (n : node) : list node :=
  match n with
  | Root => [Cmd CmdGenerate; Cmd CmdReceive; Cmd CmdRoute] ++ if ENABLE_FILE_TRANSFER then [File] else []
  | File => if ENABLE_FILE_TRANSFER then [Cmd CmdFileSend; Cmd CmdFileReceive; Cmd CmdForward] else []
  | Cmd _ => []
  end.

Definition find_subcommand (n : node) (st : pstate) (subc_name : string) (ignore_used : bool) : option node :=
  List.find (fun com => String.eqb (node_name com) subc_name &&
                        (bool_decide (parsed st com = 0%nat) || negb ignore_used)) (subcommands n).
(** Whether the number of subcommands of [n] is still below its bound. *)
Definition has_room (n : node) (st : pstate) : bool :=
  bool_decide (require_subcommand_max n = 0%nat) ||
  bool_decide (length (parsed_subcommands st n) < require_subcommand_max n)%nat.

Fixpoint valid_subcommand (chain : list node) (st : pstate) (current : string) (ignore_used : bool) : bool :=
  match chain with
  | [] => false
  | n :: up =>
      if negb (has_room n st) then valid_subcommand up st current ignore_used
      else match find_subcommand n st current ignore_used with
           | Some _ => true
           | None => valid_subcommand up st current ignore_used
           end
  end.

Definition recognize (n : node) (st : pstate) (current : string) (ignore_used : bool) : classifier :=
  if String.eqb current "--" then POSITIONAL_MARK
  else if valid_subcommand (ancestors n) st current ignore_used then SUBCOMMAND
  else match split_long current with
  | Some _ => LONG
  | None =>
      match split_short current with
      | Some (name, _) =>
          if forallb CStr.isdigit (chars name) && negb (existsb (check_sname name) (options_at n))
          then NONE else SHORT
      | None => if String.eqb current "++" && has_parent n then SUBCOMMAND_TERMINATOR else NONE
      end
  end.

(** ** An option and the texts behind it *)

(** The texts an option has to have, then the ones it may have: texts, the number
    collected, and the arguments that are left. *)
Fixpoint gather_minimum (o : declared) (collected : Z) (texts args : list string) : Z * list string * list string :=
  match args with
  | current :: args' =>
      if collected <? items_min o
      then gather_minimum o (collected + Z.of_nat (length (add_result o current))) (texts ++ add_result o current) args'
      else (collected, texts, args)
  | [] => (collected, texts, [])
  end.
Fixpoint gather_more (n : node) (st : pstate) (o : declared) (collected : Z) (texts args : list string)
    : list string * list string :=
  match args with
  | current :: args' =>
      if ((collected <? items_max o) || allow_extra_args o) &&
         bool_decide (recognize n st current false = NONE)
      then gather_more n st o (collected + Z.of_nat (length (add_result o current))) (texts ++ add_result o current) args'
      else (texts, args)
  | [] => (texts, [])
  end.
Definition eat_mark (args : list string) : list string :=
  match args with
  | current :: args' => if String.eqb current "--" then args' else args
  | [] => []
  end.

Definition take_option (n : node) (st : pstate) (o : declared) (arg_name value rest : string) (args : list string)
    : failure + (pstate * list string) :=
  let first :=
    if items_max o =? 0 then
      match get_flag_value o arg_name value with
      | inl e => inl e
      | inr res => inr (0, add_result o res, rest)
      end
    else if negb (String.eqb value "") then inr (Z.of_nat (length (add_result o value)), add_result o value, rest)
    else if negb (String.eqb rest "") then inr (Z.of_nat (length (add_result o rest)), add_result o rest, "")
    else inr (0, [], rest) in
  match first with
  | inl e => inl e
  | inr (collected, texts, rest) =>
      let '(collected, texts, args) := gather_minimum o collected texts args in
      if collected <? items_min o then inl TypedAtLeast else
      let '(texts, args) :=
        if (collected <? items_max o) || allow_extra_args o
        then let '(texts, args) := gather_more n st o collected texts args in (texts, eat_mark args)
        else (texts, args) in
      inr (add_results n (d_key o) texts st, if String.eqb rest "" then args else ("-" +:+ rest) :: args)
  end.

Fixpoint parse_arg (chain : list node) (st : pstate) (current_type : classifier) (current : string)
    (args : list string) : failure + (pstate * list string) :=
  match chain with
  | [] => inl HorribleError
  | n :: up =>
      let '(arg_name, value, rest) :=
        match current_type with
        | LONG => match split_long current with Some (name, value) => (name, value, "") | None => ("", "", "") end
        | _ => match split_short current with Some (name, rest) => (name, "", rest) | None => ("", "", "") end
        end in
      match List.find (match current_type with LONG => check_lname arg_name | _ => check_sname arg_name end)
              (options_at n) with
      | None =>
          if has_parent n && fallthrough n then parse_arg up st current_type current args
          else inr (move_to_missing n current_type current st, args)
      | Some o => take_option n st o arg_name value rest args
      end
  end.

(** ** Positional texts and subcommands *)

(** What follows an argument: the same parser goes on, a subcommand takes over, or
    the parent does. *)
Inductive turn :=
| Next (st : pstate) (args : list string)
| Enter (com : node) (st : pstate) (args : list string)
| Back (st : pstate) (args : list string).

Definition is_positional (o : declared) : bool := negb (String.eqb (d_pos o) "").
Definition has_remaining_positionals (n : node) (st : pstate) : bool :=
  existsb (fun o => is_positional o && (Z.of_nat (count st n o) <? items_min o)) (options_at n).

(** A subcommand of [n] that may be entered, used before or not. *)
Definition repeated_subcommand (n : node) (st : pstate) (name : string) : option node :=
  match find_subcommand n st name false with
  | Some com => if has_room n st then Some com else None
  | None => None
  end.

Fixpoint parse_positional (chain : list node) (st : pstate) (positional : string) (args : list string) : turn :=
  match chain with
  | [] => Back st (positional :: args)
  | n :: up =>
      match List.find (fun o => is_positional o &&
              ((Z.of_nat (count st n o) <? items_min o) || allow_extra_args o)) (options_at n) with
      | Some o => Next (add_results n (d_key o) (add_result o positional) st) args
      | None =>
          if has_parent n && fallthrough n then parse_positional up st positional args
          else
            match repeated_subcommand n st positional, repeated_subcommand (default n (head up)) st positional with
            | Some com, _ => Enter com st args
            | None, Some _ => Back st (positional :: args)
            | None, None => Next (move_to_missing n NONE positional st) args
            end
      end
  end.

Definition parse_subcommand (n : node) (st : pstate) (current : string) (args : list string) : failure + turn :=
  match find_subcommand n st current true with
  | Some com => inr (Enter com (push_subcommand n com st) args)
  | None => if has_parent n then inr (Back st (current :: args)) else inl HorribleError
  end.

(** One argument; the flag is positional_only, which the mark -- sets. *)
Definition parse_single (n : node) (st : pstate) (current : string) (args : list string) (positional_only : bool)
    : failure + turn * bool :=
  match (if positional_only then NONE else recognize n st current true) with
  | POSITIONAL_MARK =>
      inr (if negb (has_remaining_positionals n st) && has_parent n then Back st args
           else Next (move_to_missing n POSITIONAL_MARK "--" st) args, true)
  | SUBCOMMAND_TERMINATOR => inr (Back st args, positional_only)
  | SUBCOMMAND =>
      match parse_subcommand n st current args with
      | inl e => inl e
      | inr s => inr (s, positional_only)
      end
  | NONE => inr (parse_positional (ancestors n) st current args, positional_only)
  | current_type =>
      match parse_arg (ancestors n) st current_type current args with
      | inl e => inl e
      | inr (st', args') => inr (Next st' args', positional_only)
      end
  end.

(** [_parse]: the application goes on where a subcommand would give up. *)
Fixpoint parse_loop (fuel : nat) (n : node) (st : pstate) (args : list string) (positional_only : bool)
    : option (failure + pstate * list string) :=
  match args, fuel with
  | [], _ => Some (inr (st, []))
  | _ :: _, O => None
  | current :: args', S fuel' =>
      match parse_single n st current args' positional_only with
      | inl e => Some (inl e)
      | inr (Next st' args'', pos') => parse_loop fuel' n st' args'' pos'
      | inr (Enter com st' args'', pos') =>
          match parse_loop fuel' com (increment_parsed com st') args'' false with
          | Some (inr (st'', rest)) => parse_loop fuel' n st'' rest pos'
          | r => r
          end
      | inr (Back st' args'', pos') =>
          if has_parent n then Some (inr (st', args'')) else parse_loop fuel' n st' args'' pos'
      end
  end.

(** A bound on the steps: an argument is taken, or a bundle of short flags loses one. *)
Definition measure (args : list string) : nat := sum_list_with (fun a => S (CStr.size a)) args.
Definition walk (argv : list string) : option (failure + pstate * list string) :=
  parse_loop (S (measure argv)) Root (increment_parsed Root pstate0) argv false.

(** ** What is left to check *)

Definition help_asked (st : pstate) (n : node) : bool :=
  negb (bool_decide (results st n help.1 = [])) || negb (bool_decide (results st n help_all.1 = [])).
(** --help or --help-all somewhere between the application and the last parser that
    was named. *)
Fixpoint process_help_flags (depth : nat) (n : node) (st : pstate) (trigger : bool) : bool :=
  let trigger := trigger || help_asked st n in
  match parsed_subcommands st n, depth with
  | [], _ => trigger
  | subs, S depth' => existsb (fun sub => process_help_flags depth' sub st trigger) subs
  | _, O => false
  end.
(** The subcommands the application requires; no other parser requires any. *)
Definition process_requirements (n : node) (st : pstate) : bool :=
  bool_decide (require_subcommand_min n <= length (parsed_subcommands st n))%nat.

Definition remaining_size (st : pstate) (n : node) : nat :=
  length (filter (fun val => val.1 <> POSITIONAL_MARK) (missing st n)).
Fixpoint process_extras (depth : nat) (n : node) (st : pstate) : bool :=
  bool_decide (0 < remaining_size st n)%nat ||
  match depth with
  | S depth' => existsb (fun sub => bool_decide (0 < parsed st sub)%nat && process_extras depth' sub st) (subcommands n)
  | O => false
  end.

(** The depth of the tree of parsers. *)
Definition depth : nat := 2.
Definition RequiredError : Z := 106.
Definition ExtrasError : Z := 109.
Definition refusal (config_error : option Z) (st : pstate) : option Z :=
  if process_help_flags depth Root st false then Some 0 else
  match config_error with
  | Some status => Some status
  | None =>
      if negb (process_requirements Root st) then Some RequiredError
      else if process_extras depth Root st then Some ExtrasError
      else None
  end.

(** --version, whose callback ends the program. *)
Definition version_status (st : pstate) : option Z :=
  match last (results st Root "--version") with
  | None => None
  | Some r => match flag_cast r with
              | None => Some (exit_code ConversionError)
              | Some true => Some 0
              | Some false => None
              end
  end.

(** ** The items of a configuration file *)
Definition check_name (name : string) (o : declared) : bool :=
  match chars name with
  | "-"%char :: "-"%char :: c :: l => check_lname (of_chars (c :: l)) o
  | "-"%char :: c :: l => check_sname (of_chars (c :: l)) o
  | _ => is_positional o && String.eqb name (d_pos o)
  end.
Definition get_option_no_throw (n : node) (option_name : string) : option declared :=
  List.find (check_name option_name) (options_at n).
Definition item_option (n : node) (name : string) : option declared :=
  match get_option_no_throw n ("--" +:+ name) with
  | Some o => Some o
  | None =>
      match (if bool_decide (CStr.size name = 1%nat) then get_option_no_throw n ("-" +:+ name) else None) with
      | Some o => Some o
      | None => get_option_no_throw n name
      end
  end.
Definition configurable (o : declared) : bool :=
  negb (bool_decide (d_key o ∈ [help.1; help_all.1; "--config"; "--version"])).

Fixpoint get_subcommand (n : node) (st : pstate) (ps : list string) : option node :=
  match ps with
  | [] => Some n
  | p :: ps' => com ← find_subcommand n st p false; get_subcommand com st ps'
  end.

Definition owner (n : node) : option command := match n with Cmd c => Some c | _ => None end.
Definition ConfigError : failure := Status 110.

(** One item: a flag gets its text, another option its texts and runs its callback at
    once. What the command line has set already is left alone. *)
Definition parse_single_config (item : config_item) (st : pstate) (ran : list (option command * string))
    : failure + pstate * list (option command * string) :=
  match get_subcommand Root st (parents item) with
  | None => inl ConfigError
  | Some n =>
      let name := item_name item in
      if String.eqb name "++" || String.eqb name "--" then inr (st, ran) else
      match item_option n name with
      | None => inl ConfigError
      | Some o =>
          if negb (configurable o) then inl ConfigError
          else if bool_decide (0 < count st n o)%nat then inr (st, ran)
          else if items_min o =? 0 then
            match inputs item with
            | [res] =>
                match get_flag_value o name res with
                | inl e => inl e
                | inr res => inr (add_results n (d_key o) (add_result o res) st, ran)
                end
            | _ => inl (Status (exit_code ConversionError))
            end
          else inr (add_results n (d_key o) (s ← inputs item; add_result o s) st, ran ++ [(owner n, d_key o)])
      end
  end.
Fixpoint parse_config (items : list config_item) (st : pstate) (ran : list (option command * string))
    : pstate * list (option command * string) * option failure :=
  match items with
  | [] => (st, ran, None)
  | item :: items' =>
      match parse_single_config item st ran with
      | inl e => (st, ran, Some e)
      | inr (st', ran') => parse_config items' st' ran'
      end
  end.

(** ** The command line as a whole *)

(** The files that can be read, with their texts. *)
Variable files : string -> option string.
Definition FileError : Z := 103.

(** The results with what the file adds, the callbacks it runs, why it stops, and the
    status of an error about the file itself, which comes after the callbacks. *)
Definition process_config_file (st : pstate)
    : option (pstate * list (option command * string) * option failure * option Z) :=
  match results st Root "--config" with
  | [] => Some (st, [], None, None)
  | [config_file] =>
      if String.eqb config_file "" then Some (st, [], None, None) else
      match files config_file with
      | None => Some (st, [], None, Some FileError)
      | Some text => items ← from_config text; Some (parse_config items st [], None)
      end
  | _ => Some (st, [], Some (Status (exit_code ArgumentMismatch)), None)
  end.

Definition matches_of (st : pstate) (ran : list (option command * string)) (stop : option failure)
    (refused : option Z) : matches :=
  mk_matches (results st Root) (fun c => results st (Cmd c)) ran
    (match stop with Some f => Some f | None => Status <$> version_status st end)
    (fun c => bool_decide (0 < parsed st (Cmd c))%nat) refused.

Definition tokenize (argv : list string) : option (failure + matches) :=
  match walk argv with
  | None => None
  | Some (inl e) => Some (inl e)
  | Some (inr (st, _)) =>
      '(st, ran, stop, config_error) ← process_config_file st;
      Some (inr (matches_of st ran stop (refusal config_error st)))
  end.
End walk.

(** ** Examples *)
Definition no_files (_ : string) : option string := None.
Definition texts (argv : list string) (n : node) (key : string) : list string :=
  match walk true argv with Some (inr (st, _)) => results st n key | _ => [] end.
Definition status_of (argv : list string) : option Z :=
  match tokenize true no_files argv with
  | Some (inl (Status status)) => Some status
  | Some (inr m) => match m_stop m with Some (Status status) => Some status | _ => m_refused m end
  | _ => None
  end.

(** Options fall through to the application, texts to the positional option. *)
Example mixed_line :
  let argv := ["-v"; "generate"; "srt://a:1"; "--num=5"; "--loglevel"; "debug"; "--twoway"; "srt://b:2"] in
  texts argv (Cmd CmdGenerate) "-o,--output,dst" = ["srt://a:1"; "srt://b:2"] /\
  texts argv (Cmd CmdGenerate) "--num" = ["5"] /\ texts argv (Cmd CmdGenerate) "--twoway" = ["true"] /\
  texts argv Root "--loglevel" = ["debug"] /\ texts argv Root "--verbose,-v" = ["true"] /\ status_of argv = None.
Proof. vm_compute. repeat split. Qed.
(** A bundle of short flags, and a text in brackets. *)
Example bundle : texts ["-vvh"] Root "--verbose,-v" = ["true"; "true"] /\ status_of ["-vvh"] = Some 0.
Proof. vm_compute. by split. Qed.
Example brackets : texts ["route"; "-i[a,[b,,c]]"; "d"; "-o"; "e"; "--"; "f"] (Cmd CmdRoute) "-i,--input" = ["a"; "[b"; "c]"; "d"].
Proof. vm_compute. reflexivity. Qed.
(** A flag with a mark stores the opposite of its text. *)
Example negated_flag :
  texts ["receive"; "--no-reconnect"; "--no-reconnect=off"; "--reconnect=off"; "--no-reconnect=3"]
    (Cmd CmdReceive) "--reconnect,!--no-reconnect" = ["false"; "true"; "off"; "-3"].
Proof. vm_compute. reflexivity. Qed.
Example negated_minimum :
  walk true ["receive"; "--no-reconnect=-9223372036854775808"] = Some (inl Overflow) /\
  walk true ["receive"; "--no-reconnect=9223372036854775808"] = Some (inl OutOfRange).
Proof. vm_compute. by split. Qed.
(** No command, an unknown word, a missing text, two files. *)
Example refusals :
  status_of [] = Some 106 /\ status_of ["transmit"] = Some 106 /\ status_of ["generate"; "--bidir"] = Some 109 /\
  status_of ["generate"; "--num"] = Some 114 /\ status_of ["--config=a"; "route"; "--config=b"] = Some 114 /\
  status_of ["--"; "generate"] = Some 106 /\ status_of ["route"; "route"] = Some 109 /\
  status_of ["--config=a"; "route"] = Some 103 /\ status_of ["file"; "--help"; "--version=no"] = Some 0.
Proof. vm_compute. repeat split. Qed.
(** Two file commands on one line are both accepted. *)
Example two_file_commands :
  let argv := ["file"; "send"; "a"; "srt://b:1"; "receive"; "srt://c:2"; "d"] in
  texts argv (Cmd CmdFileSend) "dst" = ["srt://b:1"] /\ texts argv (Cmd CmdFileReceive) "dst" = ["d"] /\
  status_of argv = None.
Proof. vm_compute. repeat split. Qed.
(** ** Every step takes something *)
Lemma measure_cons a args : measure (a :: args) = (S (CStr.size a) + measure args)%nat.
Proof. done. Qed.

Lemma gather_minimum_measure o args : forall collected texts,
  (measure (gather_minimum o collected texts args).2 <= measure args)%nat.
Proof.
  induction args as [|a args IH]; intros collected texts; cbn [gather_minimum]; [done|].
  destruct (_ <? _); [|done]. rewrite measure_cons. etransitivity; [apply IH|]. lia.
Qed.
Lemma gather_more_measure en n st o args : forall collected texts,
  (measure (gather_more en n st o collected texts args).2 <= measure args)%nat.
Proof.
  induction args as [|a args IH]; intros collected texts; cbn [gather_more]; [done|].
  destruct (_ && _); [|done]. rewrite measure_cons. etransitivity; [apply IH|]. lia.
Qed.
Lemma eat_mark_measure args : (measure (eat_mark args) <= measure args)%nat.
Proof. destruct args as [|a args]; cbn [eat_mark]; [done|]. destruct (String.eqb a "--"); rewrite measure_cons; lia. Qed.

(** What may be put back: the rest of a bundle. *)
Definition put_back (rest : string) : nat := if String.eqb rest "" then 0 else S (S (CStr.size rest)).
Lemma take_option_measure en n st o name value rest args st' args' :
  take_option en n st o name value rest args = inr (st', args') ->
  (measure args' <= put_back rest + measure args)%nat.
Proof.
  unfold take_option.
  match goal with |- (match ?f with _ => _ end) = _ -> _ => set (first := f) end.
  assert (Hrest : match first with inr (_, _, r) => r = rest \/ r = "" | inl _ => True end).
  { subst first. destruct (items_max o =? 0); [destruct (get_flag_value _ _ _); auto|].
    destruct (negb _); [auto|]. destruct (negb _); auto. }
  destruct first as [e|[[collected texts] r]]; [done|].
  pose proof (gather_minimum_measure o args collected texts) as Hmin.
  destruct (gather_minimum _ _ _ _) as [[c t] a]. destruct (c <? items_min o); [done|].
  pose proof (gather_more_measure en n st o a c t) as Hmore. pose proof (eat_mark_measure (gather_more en n st o c t a).2) as Heat.
  cbn [snd] in *.
  assert (Hput : forall a0, (measure a0 <= measure args)%nat ->
    (measure (if String.eqb r "" then a0 else ("-" +:+ r) :: a0) <= put_back rest + measure args)%nat).
  { intros a0 Ha0. destruct Hrest as [->| ->]; [|cbn [String.eqb]; lia]. unfold put_back. destruct (String.eqb rest ""); [lia|].
    rewrite measure_cons, CStr.size_app. unfold CStr.size at 1. cbn. lia. }
  destruct (_ || _); [destruct (gather_more _ _ _ _ _ _ _) as [t2 a2]|]; intros [= _ <-]; apply Hput; cbn [snd] in *; lia.
Qed.

Lemma split_short_put_back current name rest :
  split_short current = Some (name, rest) -> (put_back rest < S (CStr.size current))%nat.
Proof.
  unfold split_short, put_back. unfold CStr.size at 2.
  destruct (chars current) as [|[[] [] [] [] [] [] [] []] [|c l]]; try done.
  destruct (valid_first_char c); [|done]. intros [= _ <-]. cbn [length].
  destruct (String.eqb _ _); [lia|]. rewrite CStr.size_of_chars. lia.
Qed.

Lemma parse_arg_measure en chain st current_type current args st' args' :
  parse_arg en chain st current_type current args = inr (st', args') ->
  (measure args' < measure (current :: args))%nat.
Proof.
  rewrite measure_cons. induction chain as [|n up IH]; cbn [parse_arg]; [done|].
  match goal with |- (let '(_, _) := ?p in _) = _ -> _ => assert (Hp : (put_back p.2 < S (CStr.size current))%nat) end.
  { destruct current_type; cbn [snd]; try (destruct (split_short current) as [[name rest]|] eqn:E;
      [by apply split_short_put_back in E|unfold put_back; cbn; lia]).
    destruct (split_long current) as [[]|]; unfold put_back; cbn; lia. }
  destruct (match current_type with LONG => _ | _ => _ end) as [[name value] rest]. cbn [snd] in Hp.
  destruct (List.find _ _) as [o|].
  - intros H%take_option_measure. lia.
  - destruct (_ && _); [exact IH|]. intros [= _ <-]. lia.
Qed.

(** The arguments a step leaves, and the ones it may leave. *)
Definition turn_bound (bound : nat) (s : turn) : Prop :=
  match s with
  | Next _ args | Enter _ _ args => (measure args < bound)%nat
  | Back _ args => (measure args <= bound)%nat
  end.
Lemma parse_positional_bound en chain st current args :
  turn_bound (measure (current :: args)) (parse_positional en chain st current args).
Proof.
  rewrite measure_cons. induction chain as [|n up IH]; cbn [parse_positional].
  - cbn [turn_bound]. by rewrite measure_cons.
  - destruct (List.find _ _); [cbn; lia|]. destruct (_ && _); [exact IH|].
    repeat case_match; cbn [turn_bound]; rewrite ?measure_cons; lia.
Qed.

(** The shapes of a step. *)
Lemma parse_single_inv en n st current args pos s pos' :
  parse_single en n st current args pos = inr (s, pos') ->
  s = parse_positional en (ancestors n) st current args \/
  (exists ty st' args', parse_arg en (ancestors n) st ty current args = inr (st', args') /\ s = Next st' args') \/
  (exists com st', s = Enter com st' args) \/ (exists st', s = Next st' args) \/
  (has_parent n = true /\ exists st' args', s = Back st' args' /\ (args' = args \/ args' = current :: args)).
Proof.
  assert (Harg : forall ty, match parse_arg en (ancestors n) st ty current args with
      inl e => inl e | inr (st', args') => inr (Next st' args', pos) end = inr (s, pos') ->
    exists ty st' args', parse_arg en (ancestors n) st ty current args = inr (st', args') /\ s = Next st' args').
  { intros ty. destruct (parse_arg _ _ _ ty _ _) as [|[]] eqn:E; [done|]. intros [= <- _]. eauto. }
  unfold parse_single. destruct pos; [intros [= <- _]; by left|].
  destruct (recognize en n st current true) eqn:Ec.
  - intros [= <- _]. by left.
  - destruct (_ && has_parent n) eqn:Eb; intros [= <- _]; [|eauto 8].
    apply andb_true_iff in Eb as [_ ?]. eauto 12.
  - intros H. right; left. by apply (Harg SHORT).
  - intros H. right; left. by apply (Harg LONG).
  - intros H. right; left. by apply (Harg WINDOWS_STYLE).
  - unfold parse_subcommand. destruct (find_subcommand _ _ _ _ _); [intros [= <- _]; eauto 8|].
    destruct (has_parent n) eqn:?; [|done]. intros [= <- _]. eauto 12.
  - intros [= <- _]. do 4 right. split; [|eauto]. revert Ec. unfold recognize. repeat case_match; try done.
    by destruct (has_parent n); [|rewrite andb_false_r in *].
Qed.

Lemma parse_single_bound en n st current args pos s pos' :
  parse_single en n st current args pos = inr (s, pos') -> turn_bound (measure (current :: args)) s.
Proof.
  pose proof (measure_cons current args) as Hm.
  intros [->|[(ty & st' & args' & H & ->)|[(com & st' & ->)|[(st' & ->)|(_ & st' & args' & -> & Ha)]]]]%parse_single_inv.
  - apply parse_positional_bound.
  - by apply parse_arg_measure in H.
  - cbn [turn_bound]. lia.
  - cbn [turn_bound]. lia.
  - cbn [turn_bound]. destruct Ha as [->| ->]; lia.
Qed.

(** The application never gives an argument back, and no parser fails for a reason
    of its own. *)
Lemma root_never_back en st current args pos s pos' :
  parse_single en Root st current args pos = inr (s, pos') -> match s with Back _ _ => False | _ => True end.
Proof.
  intros [->|[(ty & st' & args' & H & ->)|[(com & st' & ->)|[(st' & ->)|(? & _)]]]]%parse_single_inv; try done.
  cbn [ancestors parse_positional]. destruct (List.find (A:=declared) _ _); [done|]. cbn.
  by destruct (repeated_subcommand en Root st current).
Qed.

Definition allowed (f : failure) : Prop := f = TypedAtLeast \/ f = OutOfRange \/ f = Overflow.
Lemma parse_arg_allowed en n st current_type current args f :
  parse_arg en (ancestors n) st current_type current args = inl f -> allowed f.
Proof.
  assert (Hflag : forall o name v f, get_flag_value o name v = inl f -> allowed f).
  { intros o name v f'. unfold get_flag_value, allowed. repeat case_match; intros ?; simplify_eq; auto. }
  assert (Htake : forall n o name v rest args f, take_option en n st o name v rest args = inl f -> allowed f).
  { intros n' o name v rest args' f'. unfold take_option.
    destruct (items_max o =? 0); [destruct (get_flag_value _ _ _) eqn:E; [intros [= <-]; eauto|]|repeat case_match; try done].
    all: repeat case_match; intros ?; simplify_eq; by left. }
  assert (Hchain : exists up, ancestors n = up ++ [Root]).
  { destruct n as [| |[]]; [by exists []|by exists [File]|by exists [Cmd CmdGenerate]|by exists [Cmd CmdReceive]|
      by exists [Cmd CmdRoute]|by exists [Cmd CmdFileSend; File]|by exists [Cmd CmdFileReceive; File]|by exists [Cmd CmdForward; File]]. }
  destruct Hchain as [up ->]. induction up as [|n' up IH]; cbn [app parse_arg];
    destruct (match current_type with LONG => _ | _ => _ end) as [[name value] rest];
    (destruct (List.find (A:=declared) _ _) as [o|]; [apply Htake|]); [done|].
  destruct (has_parent n' && fallthrough n'); [exact IH|done].
Qed.
Lemma parse_single_allowed en n st current args pos f :
  parse_single en n st current args pos = inl f -> allowed f.
Proof.
  assert (Harg : forall ty, match parse_arg en (ancestors n) st ty current args with
      inl e => inl e | inr (st', args') => inr (Next st' args', pos) end = inl f -> allowed f).
  { intros ty. destruct (parse_arg _ _ _ ty _ _) as [e|[]] eqn:E; [|done]. intros [= <-]. by eapply parse_arg_allowed. }
  unfold parse_single. destruct pos; [done|].
  destruct (recognize en n st current true) eqn:Ec; [done|done|apply (Harg SHORT)|apply (Harg LONG)|apply (Harg WINDOWS_STYLE)| |done].
  unfold parse_subcommand. destruct (find_subcommand en n st current true) eqn:Ef; [done|].
  destruct (has_parent n) eqn:Ep; [done|]. exfalso. apply negb_false_iff, bool_decide_eq_true in Ep. subst n.
  revert Ec. unfold recognize. cbn [ancestors valid_subcommand]. rewrite Ef.
  destruct (negb _); repeat case_match; done.
Qed.

Lemma parse_loop_ends en fuel : forall n st args pos, (measure args < fuel)%nat ->
  match parse_loop en fuel n st args pos with
  | None => False
  | Some (inl f) => allowed f
  | Some (inr (_, rest)) => (measure rest <= measure args)%nat /\ (n = Root -> rest = [])
  end.
Proof.
  induction fuel as [|fuel IH]; intros n st args pos Hm; [lia|].
  destruct args as [|current args]; cbn [parse_loop]; [done|].
  destruct (parse_single en n st current args pos) as [f|[s pos']] eqn:E; [by eapply parse_single_allowed|].
  pose proof (root_never_back en st current args pos) as Hroot.
  pose proof (parse_single_bound _ _ _ _ _ _ _ _ E) as Hs. destruct s as [st' args'|com st' args'|st' args']; cbn [turn_bound] in Hs.
  - specialize (IH n st' args' pos' ltac:(lia)). destruct (parse_loop _ _ _ _ _ _) as [[|[? rest]]|]; [done| |done].
    split; [lia|apply IH].
  - pose proof (IH com (increment_parsed com st') args' false ltac:(lia)) as Hcom.
    destruct (parse_loop en fuel com _ _ _) as [[f|[st2 rest]]|]; [done| |done].
    specialize (IH n st2 rest pos' ltac:(lia)). destruct (parse_loop _ _ _ _ _ _) as [[|[? rest']]|]; [done| |done].
    split; [lia|apply IH].
  - destruct (has_parent n) eqn:Ep; [|apply negb_false_iff, bool_decide_eq_true in Ep; subst n].
    + split; [done|]. intros ->. done.
    + by apply Hroot in E.
Qed.

Lemma walk_total en argv :
  exists r, walk en argv = Some r /\
  match r with inr (_, rest) => rest = [] | inl f => allowed f end.
Proof.
  pose proof (parse_loop_ends en (S (measure argv)) Root (increment_parsed Root pstate0) argv false ltac:(lia)) as H.
  unfold walk. destruct (parse_loop _ _ _ _ _ _) as [[f|[st rest]]|]; [by eexists| |done].
  eexists. split; [done|]. by apply H.
Qed.
Lemma process_config_file_total en files st : is_Some (process_config_file en files st).
Proof.
  unfold process_config_file. destruct (results st Root "--config") as [|f [|? ?]]; [by eexists| |by eexists].
  destruct (String.eqb f ""); [by eexists|]. destruct (files f) as [text|]; [|by eexists].
  destruct (from_config_total text) as [items ->]. by eexists.
Qed.
Lemma tokenize_total en files argv : exists r, tokenize en files argv = Some r.
Proof.
  unfold tokenize. destruct (walk_total en argv) as (r & -> & _).
  destruct r as [f|[st rest]]; [by eexists|].
  destruct (process_config_file_total en files st) as [[[[st' ran] stop] e] ->]. by eexists.
Qed.

(** C10: splitting the command line always comes to an end, whatever is written on
    it: the application takes every argument, and the only ways to stop before are
    the refusal of an option that lacks its text, and a number no int64 holds
    behind a negated flag. No internal error of the parser is ever raised. *)
Theorem walk_ends en argv :
  exists r, walk en argv = Some r /\
  match r with inr (_, rest) => rest = [] | inl f => allowed f end.
Proof. apply walk_total. Qed.

(** ** Lines of [--name=text] *)
Lemma declared_tables n : match mapM declare (specs n) with Some _ => true | None => false end = true.
Proof. destruct n as [| |[]]; vm_compute; reflexivity. Qed.

Definition named (n : node) (long : string) : option declared := List.find (check_lname long) (options_at n).
Definition spell (e : string * string) : string := "--" +:+ e.1 +:+ "=" +:+ e.2.

(** An assignment that means what it says: the name is one of the parser's, the text
    is not empty, not a list in brackets where lists are read, and not turned into
    its opposite by the name of a flag. *)
Definition assigns (n : node) (e : string * string) : bool :=
  match named n e.1 with
  | None => false
  | Some o =>
      negb (String.eqb e.2 "") && bool_decide (d_key o <> help.1 /\ d_key o <> help_all.1) &&
      match d_kind o with
      | Flag => negb (String.eqb e.2 "{}") && forallb (fun d => negb (String.eqb d.1 e.1)) (d_flags o)
      | Single => true
      | Many => negb (bool_decide (head (chars e.2) = Some "["%char /\ last (chars e.2) = Some "]"%char))
      end
  end.

(** The texts that a line assigns to an option. *)
Definition texts_for (n : node) (key : string) (es : list (string * string)) : list string :=
  e ← es; match named n e.1 with Some o => if String.eqb key (d_key o) then [e.2] else [] | None => [] end.

(** The words that select a command. *)
Definition path (c : command) : list string :=
  match c with
  | CmdGenerate | CmdReceive | CmdRoute => [node_name (Cmd c)]
  | CmdFileSend | CmdFileReceive | CmdForward => [node_name File; node_name (Cmd c)]
  end.

Definition splits (long : string) : bool :=
  match chars long with
  | [] => false
  | c :: l => valid_first_char c && forallb (fun x => negb (bool_decide (x ∈ chars "="))) (c :: l)
  end.
Lemma named_splits n long o : named n long = Some o -> splits long = true.
Proof.
  assert (Hall : forallb (fun o => forallb splits (d_long o)) (options_at n) = true)
    by (destruct n as [| |[]]; vm_compute; reflexivity).
  intros [Hin Hname]%find_some. rewrite forallb_forall in Hall. specialize (Hall o Hin).
  unfold check_lname in Hname. apply existsb_exists in Hname as (x & Hx & E%String.eqb_eq). subst x.
  rewrite forallb_forall in Hall. by apply Hall.
Qed.

Lemma drop_after {A} (p : list A) x b : drop (S (length p)) (p ++ x :: b) = b.
Proof. by induction p. Qed.
Lemma split_long_spell e : splits e.1 = true -> split_long (spell e) = Some e.
Proof.
  destruct e as [long text]. unfold splits, split_long, spell. cbn [fst snd].
  destruct long as [|c l]; [done|]. change (chars (String c l)) with (c :: chars l).
  intros [Hc Hl]%andb_true_iff.
  assert (Hchars : chars ("--" +:+ String c l +:+ "=" +:+ text) = "-"%char :: "-"%char :: (c :: chars l) ++ "="%char :: chars text).
  { by rewrite !CStr.chars_app. }
  unfold CStr.find_first_of. rewrite Hchars. cbn [app]. rewrite Hc, drop_0.
  rewrite (index_where_app _ ("-"%char :: "-"%char :: c :: chars l) "="%char (chars text)).
  - cbn [fmap option_fmap option_map length Nat.add].
    change (S (S (S (length (chars l)))) - 2)%nat with (length (c :: chars l)).
    rewrite app_comm_cons, take_app_length.
    change (S (S (S (S (length (chars l)))))) with (S (length ("-"%char :: "-"%char :: c :: chars l))).
    change ("-"%char :: "-"%char :: (c :: chars l) ++ "="%char :: chars text)
      with (("-"%char :: "-"%char :: c :: chars l) ++ "="%char :: chars text).
    rewrite drop_after, CStr.of_chars_chars. cbn. by rewrite CStr.of_chars_chars.
  - do 2 (apply Forall_cons; split; [reflexivity|]). apply Forall_forall. intros x Hx.     rewrite forallb_forall in Hl. apply negb_true_iff, Hl. by apply list_elem_of_In.
  - done.
Qed.

Lemma spell_not_subcommand en n st e b : find_subcommand en n st (spell e) b = None.
Proof. unfold find_subcommand. destruct n, en; reflexivity. Qed.
Lemma spell_recognized en n st e b : splits e.1 = true -> recognize en n st (spell e) b = LONG.
Proof.
  intros He. unfold recognize. assert (String.eqb (spell e) "--" = false) as ->.
  { apply String.eqb_neq. intros Heq. destruct e as [[|c l] t]; [done|]. discriminate Heq. }
  assert (forall chain, valid_subcommand en chain st (spell e) b = false) as ->.
  { induction chain as [|n' up IH]; cbn; [done|]. rewrite spell_not_subcommand. by destruct (negb _). }
  by rewrite split_long_spell.
Qed.
Lemma add_result_plain o text :
  text <> "" -> (d_kind o = Many -> ~ (head (chars text) = Some "["%char /\ last (chars text) = Some "]"%char)) ->
  add_result o text = [text].
Proof.
  intros Ht Hm. unfold add_result, CStr.size, allow_extra_args. destruct text as [|a text]; [done|].
  cbn [chars list_ascii_of_string length add_result_fuel].
  destruct (d_kind o); [by repeat case_match..|]. specialize (Hm eq_refl).
  destruct (decide (a = "["%char)) as [->|Ha]; [|by destruct a as [[] [] [] [] [] [] [] []]].
  cbn [andb]. by rewrite bool_decide_eq_false_2 by (intros Hl; by apply Hm).
Qed.

Lemma gather_more_spelled en n st o collected texts es :
  Forall (fun e => splits e.1 = true) es ->
  gather_more en n st o collected texts (map spell es) = (texts, map spell es).
Proof.
  intros He. destruct He as [|e es He _]; [done|]. cbn [map gather_more].
  by rewrite spell_recognized, bool_decide_eq_false_2, andb_false_r by done.
Qed.
Lemma eat_mark_spelled es : Forall (fun e => splits e.1 = true) es -> eat_mark (map spell es) = map spell es.
Proof. intros He. destruct He as [|[[|c l] t] es He _]; done. Qed.

(** What an assignment to [o] amounts to. *)
Lemma assigns_spec n e o :
  named n e.1 = Some o -> assigns n e = true ->
  e.2 <> "" /\ d_key o <> help.1 /\ d_key o <> help_all.1 /\ add_result o e.2 = [e.2] /\
  (d_kind o = Flag -> get_flag_value o e.1 e.2 = inr e.2).
Proof.
  intros Ho He. unfold assigns in He. rewrite Ho in He.
  apply andb_true_iff in He as [[Ht%negb_true_iff [H1 H2]%bool_decide_eq_true]%andb_true_iff Hk].
  apply String.eqb_neq in Ht as Hne. repeat split; [done..| |].
  - apply add_result_plain; [done|]. intros E. rewrite E in Hk. by apply negb_true_iff, bool_decide_eq_false in Hk.
  - intros Ek. rewrite Ek in Hk. apply andb_true_iff in Hk as [Hb%negb_true_iff Hf]. unfold get_flag_value.
    assert (List.find (fun d => String.eqb d.1 e.1) (d_flags o) = None) as ->.
    { destruct (List.find _ _) as [d|] eqn:E; [|done]. apply find_some in E as [Hin Hd].
      rewrite forallb_forall in Hf. specialize (Hf d Hin). by rewrite Hd in Hf. }
    cbn [fmap option_fmap option_map]. by rewrite Ht, Hb.
Qed.

(** The option that an assignment names gets the text. *)
Lemma take_option_spelled en n st e o args :
  named n e.1 = Some o -> assigns n e = true ->
  (d_kind o = Many -> exists es, args = map spell es /\ Forall (fun e => splits e.1 = true) es) ->
  take_option en n st o e.1 e.2 "" args = inr (add_results n (d_key o) [e.2] st, args).
Proof.
  intros Ho He Hargs. destruct (assigns_spec n e o Ho He) as (Ht%String.eqb_neq & _ & _ & Hadd & Hflag).
  assert (Hmin : gather_minimum o (items_min o) [e.2] args = (items_min o, [e.2], args)).
  { destruct args; cbn [gather_minimum]; [done|]. by rewrite Z.ltb_irrefl. }
  unfold items_min in Hmin. unfold take_option, items_max. destruct (d_kind o) eqn:Ek; cbn [Z.eqb].
  - rewrite Hflag, Hadd, Hmin by done. unfold items_min, allow_extra_args. by rewrite Ek.
  - rewrite Ht. cbn [negb]. rewrite Hadd. change (Z.of_nat (length [e.2])) with 1. rewrite Hmin.
    unfold items_min, allow_extra_args. by rewrite Ek.
  - change (expected_max_vector_size =? 0) with false. cbn match.
    rewrite Ht. cbn [negb]. rewrite Hadd. change (Z.of_nat (length [e.2])) with 1. rewrite Hmin.
    unfold items_min, allow_extra_args. rewrite Ek. cbn match. change (1 <? 1) with false. cbn match. rewrite orb_true_r.
    destruct (Hargs eq_refl) as (es & -> & Hes). by rewrite gather_more_spelled, eat_mark_spelled.
Qed.

Definition assign (n : node) (st : pstate) (e : string * string) : pstate :=
  match named n e.1 with Some o => add_results n (d_key o) [e.2] st | None => st end.

Lemma ancestors_head n : exists up, ancestors n = n :: up.
Proof. destruct n as [| |[]]; by eexists. Qed.
Lemma parse_single_spelled en n st e args :
  assigns n e = true ->
  (forall o, named n e.1 = Some o -> d_kind o = Many -> exists es, args = map spell es /\ Forall (fun e => splits e.1 = true) es) ->
  parse_single en n st (spell e) args false = inr (Next (assign n st e) args, false).
Proof.
  intros He Hargs. unfold assign. destruct (named n e.1) as [o|] eqn:Ho; [|unfold assigns in He; by rewrite Ho in He].
  pose proof (named_splits _ _ _ Ho) as Hs. unfold parse_single. rewrite spell_recognized by done.
  destruct (ancestors_head n) as [up ->]. cbn [parse_arg]. rewrite split_long_spell by done.
  specialize (Hargs o eq_refl). destruct e as [long text]. cbn [fst snd] in *. unfold named in Ho. rewrite Ho.
  by rewrite (take_option_spelled en n st (long, text)).
Qed.

Lemma assigns_splits n es : Forall (fun e => assigns n e = true) es -> Forall (fun e => splits e.1 = true) es.
Proof.
  intros H. eapply Forall_impl; [exact H|]. intros e He. unfold assigns in He.
  destruct (named n e.1) eqn:E; [|done]. by eapply named_splits.
Qed.

Lemma parse_loop_spelled en n es : forall fuel st,
  Forall (fun e => assigns n e = true) es -> (length es <= fuel)%nat ->
  parse_loop en fuel n st (map spell es) false = Some (inr (foldl (assign n) st es, [])).
Proof.
  induction es as [|e es IH]; intros fuel st Hes Hf; [by destruct fuel|].
  destruct fuel as [|fuel]; cbn in Hf; [lia|]. cbn [map parse_loop].
  apply Forall_cons in Hes as [He Hes]. rewrite parse_single_spelled by eauto 6 using assigns_splits.
  apply IH; [done|lia].
Qed.

(** What the assignments leave in the state. *)
Lemma assigned n es st :
  (forall n' key, results (foldl (assign n) st es) n' key =
     results st n' key ++ (if bool_decide (n' = n) then texts_for n key es else [])) /\
  missing (foldl (assign n) st es) = missing st /\
  parsed_subcommands (foldl (assign n) st es) = parsed_subcommands st /\
  parsed (foldl (assign n) st es) = parsed st.
Proof.
  revert st. induction es as [|e es IH]; intros st; cbn [foldl].
  { split; [|done]. intros n' key. by destruct (bool_decide _); rewrite app_nil_r. }
  destruct (IH (assign n st e)) as (Hr & -> & -> & ->). split.
  - intros n' key. rewrite Hr. unfold assign, texts_for. cbn [mbind list_bind].
    destruct (named n e.1) as [o|]; [|done]. cbn [results add_results].
    destruct (bool_decide (n' = n)); cbn [andb]; [|done]. destruct (String.eqb key (d_key o)); [by rewrite <- (assoc_L app)|done].
  - unfold assign. by destruct (named n e.1).
Qed.
Lemma length_measure args : (length args <= measure args)%nat.
Proof. induction args as [|a args IH]; [done|]. rewrite measure_cons. cbn. lia. Qed.

(** The state in which the options of a command are read. *)
Definition entered_from (st : pstate) (c : command) : pstate :=
  match c with
  | CmdGenerate | CmdReceive | CmdRoute => increment_parsed (Cmd c) (push_subcommand Root (Cmd c) st)
  | CmdFileSend | CmdFileReceive | CmdForward =>
      increment_parsed (Cmd c) (push_subcommand File (Cmd c) (increment_parsed File (push_subcommand Root File st)))
  end.
Definition entered (c : command) : pstate := entered_from (increment_parsed Root pstate0) c.

Lemma parse_loop_nil en fuel n st pos : parse_loop en fuel n st [] pos = Some (inr (st, [])).
Proof. by destruct fuel. Qed.
Lemma enter_word en fuel n st word com args r :
  parse_single en n st word args false = inr (Enter com (push_subcommand n com st) args, false) ->
  parse_loop en fuel com (increment_parsed com (push_subcommand n com st)) args false = Some (inr (r, [])) ->
  parse_loop en (S fuel) n st (word :: args) false = Some (inr (r, [])).
Proof. intros H1 H2. cbn [parse_loop]. rewrite H1, H2. apply parse_loop_nil. Qed.

(** The words of a command, then assignments, in a state in which no parser but the
    application has been used. *)
Lemma path_spelled en c es fuel st :
  c ∈ commands en -> Forall (fun e => assigns (Cmd c) e = true) es -> (length es + 2 <= fuel)%nat ->
  parsed_subcommands st = (fun _ => []) -> parsed st = parsed (increment_parsed Root pstate0) ->
  parse_loop en fuel Root st (path c ++ map spell es) false =
  Some (inr (foldl (assign (Cmd c)) (entered_from st c) es, [])).
Proof.
  intros Hc Hes Hf Hp Hn. destruct st as [res mis sub par]. cbn in Hp, Hn. subst sub par.
  assert (Hfile : match c with CmdFileSend | CmdFileReceive | CmdForward => en = true | _ => True end).
  { destruct c, en; try done; set_solver. }
  destruct fuel as [|[|fuel]]; [lia..|].
  destruct c; try subst en; cbn [path app];
    (eapply enter_word; [reflexivity|]);
    try (eapply enter_word; [reflexivity|]);
    (apply parse_loop_spelled; [done|lia]).
Qed.

Lemma walk_spelled en c es :
  c ∈ commands en -> Forall (fun e => assigns (Cmd c) e = true) es ->
  walk en (path c ++ map spell es) = Some (inr (foldl (assign (Cmd c)) (entered c) es, [])).
Proof.
  intros Hc Hes. unfold walk. apply path_spelled; [done..| |done|done].
  pose proof (length_measure (map spell es)) as Hlen. rewrite length_map in Hlen.
  destruct c; cbn [path app]; rewrite !measure_cons; lia.
Qed.
(** The same behind an option that names a configuration file. *)
Lemma walk_config en c f es :
  c ∈ commands en -> Forall (fun e => assigns (Cmd c) e = true) es -> f <> "" ->
  walk en (spell ("config", f) :: path c ++ map spell es) =
  Some (inr (foldl (assign (Cmd c)) (entered_from (add_results Root "--config" [f] (increment_parsed Root pstate0)) c) es, [])).
Proof.
  intros Hc Hes Hf. unfold walk. cbn [parse_loop].
  assert (named Root "config" = Some (mk_declared "--config" Single [] ["config"] "" [])) as Hn by (vm_compute; reflexivity).
  rewrite parse_single_spelled.
  - unfold assign. cbn [fst snd]. rewrite Hn. cbn [d_key]. apply path_spelled; [done..| |done|done].
    pose proof (length_measure (map spell es)) as Hlen. rewrite length_map in Hlen.
    rewrite measure_cons. destruct c; cbn [path app]; rewrite !measure_cons; lia.
  - unfold assigns. cbn [fst snd]. rewrite Hn. cbn [d_key d_kind]. apply String.eqb_neq in Hf. rewrite Hf. reflexivity.
  - intros o. cbn [fst]. rewrite Hn. by intros [= <-].
Qed.

Lemma texts_for_help n es key :
  Forall (fun e => assigns n e = true) es -> key = help.1 \/ key = help_all.1 -> texts_for n key es = [].
Proof.
  intros Hes Hkey. induction Hes as [|e es He _ IH]; [done|]. unfold texts_for in *. cbn [mbind list_bind]. rewrite IH, app_nil_r.
  unfold assigns in He. destruct (named n e.1) as [o|]; [|done].
  apply andb_true_iff in He as [[_ [H1 H2]%bool_decide_eq_true]%andb_true_iff _].
  destruct (String.eqb_spec key (d_key o)) as [E|]; [|done]. exfalso. destruct Hkey; congruence.
Qed.

Lemma help_below st d n t sub subs : parsed_subcommands st n = sub :: subs ->
  process_help_flags (S d) n st t = existsb (fun sub => process_help_flags d sub st (t || help_asked st n)) (sub :: subs).
Proof. intros E. cbn [process_help_flags]. by rewrite E. Qed.
Lemma help_leaf st d n t : parsed_subcommands st n = [] -> process_help_flags d n st t = t || help_asked st n.
Proof. intros E. destruct d; cbn [process_help_flags]; by rewrite E. Qed.

Lemma refusal_none en c st :
  (forall n, n ∈ [Root; File; Cmd c] -> results st n help.1 = [] /\ results st n help_all.1 = []) ->
  missing st = missing (entered c) -> parsed_subcommands st = parsed_subcommands (entered c) ->
  refusal en None st = None.
Proof.
  intros Hh Hm Hp. assert (Hnode : forall n, n ∈ [Root; File; Cmd c] -> help_asked st n = false).
  { intros n Hn. unfold help_asked. by destruct (Hh n Hn) as [-> ->]. }
  assert (Hhelp : process_help_flags depth Root st false = false).
  { unfold depth. destruct c; repeat first
      [ erewrite help_below by (rewrite Hp; reflexivity) | rewrite help_leaf by (rewrite Hp; reflexivity)
      | rewrite Hnode by set_solver | progress cbn [existsb orb] ]; done. }
  assert (Hextra : forall d n, process_extras en d n st = false).
  { assert (forall n, remaining_size st n = 0%nat) as Hr by (intros n; unfold remaining_size; rewrite Hm; by destruct c).
    induction d as [|d IH]; intros n; cbn [process_extras]; rewrite Hr; cbn; [done|].
    induction (subcommands en n) as [|sub subs IHs]; cbn; [done|]. by rewrite IH, andb_false_r. }
  unfold refusal. rewrite Hhelp, Hextra. unfold process_requirements. rewrite Hp. by destruct c.
Qed.

Lemma tokenize_line en files c es :
  c ∈ commands en -> Forall (fun e => assigns (Cmd c) e = true) es ->
  exists m, tokenize en files (path c ++ map spell es) = Some (inr m) /\ m_ran m = [] /\ m_stop m = None /\ m_refused m = None /\
    (forall c', m_parsed m c' = bool_decide (c' = c)) /\ (forall key, m_app m key = []) /\
    forall c' key, m_sub m c' key = if bool_decide (c' = c) then texts_for (Cmd c) key es else [].
Proof.
  intros Hc Hes. unfold tokenize. rewrite walk_spelled by done.
  destruct (assigned (Cmd c) es (entered c)) as (Hr & Hm & Hp & Hn).
  set (st := foldl (assign (Cmd c)) (entered c) es) in *.
  assert (Hres : forall n key, results st n key = if bool_decide (n = Cmd c) then texts_for (Cmd c) key es else [])
    by (intros n key; rewrite Hr; by destruct c).
  assert (Hroot : forall key, results st Root key = []) by (intros key; by rewrite Hres).
  unfold process_config_file. rewrite Hroot. eexists. split; [reflexivity|].
  unfold matches_of, version_status. rewrite Hroot.
  cbn [m_ran m_stop m_refused m_parsed m_app m_sub last fmap option_fmap option_map]. repeat split.
  - apply (refusal_none en c); [|done..]. intros n _. rewrite !Hres.
    destruct (bool_decide _); [|done]. split; apply texts_for_help; auto.
  - intros c'. rewrite Hn. by destruct c, c'.
  - intros key. by rewrite Hres.
  - intros c' key. rewrite Hres. by destruct c, c'.
Qed.
(** ** Assignments in a configuration file *)
Definition key_of (n : node) (e : string * string) : string := from_option d_key "" (named n e.1).
(** The callbacks that reading the assignments runs: of the options that are no flags. *)
Definition runs (c : command) (es : list (string * string)) : list (option command * string) :=
  e ← es; match named (Cmd c) e.1 with
          | Some o => if items_min o =? 0 then [] else [(Some c, d_key o)]
          | None => []
          end.

Lemma find_ext {A} (f g : A -> bool) l : (forall x, f x = g x) -> List.find f l = List.find g l.
Proof. intros E. induction l as [|x l IH]; cbn; [done|]. by rewrite E, IH. Qed.
Lemma get_subcommand_path en c st : c ∈ commands en -> get_subcommand en Root st (path c) = Some (Cmd c).
Proof.
  intros Hc. assert (Hfind : forall n name, find_subcommand en n st name false =
    List.find (fun com => String.eqb (node_name com) name) (subcommands en n)).
  { intros n name. apply find_ext. intros com. cbn [negb]. by rewrite orb_true_r, andb_true_r. }
  assert (Hfile : match c with CmdFileSend | CmdFileReceive | CmdForward => en = true | _ => True end).
  { destruct c, en; try done; set_solver. }
  destruct c; cbn [path get_subcommand]; rewrite Hfind; try subst en; try done;
    cbn [mbind option_bind subcommands app List.find node_name String.eqb Ascii.eqb Bool.eqb]; rewrite Hfind; done.
Qed.
Lemma named_table c long o : named (Cmd c) long = Some o ->
  long <> "" /\ long <> "++" /\ long <> "--" /\ (d_key o <> help.1 -> d_key o <> help_all.1 -> configurable o = true).
Proof.
  intros Hn. pose proof (named_splits _ _ _ Hn) as Hs.
  assert (Hall : forallb (fun o => forallb (fun l => negb (String.eqb l "++") && negb (String.eqb l "--")) (d_long o) &&
    (configurable o || String.eqb (d_key o) help.1 || String.eqb (d_key o) help_all.1)) (options_at (Cmd c)) = true)
    by (destruct c; vm_compute; reflexivity).
  apply find_some in Hn as [Hin Hname]. rewrite forallb_forall in Hall. specialize (Hall o Hin).
  apply andb_true_iff in Hall as [Hl Hc]. apply existsb_exists in Hname as (x & Hx & E%String.eqb_eq). subst x.
  rewrite forallb_forall in Hl. specialize (Hl long Hx). apply andb_true_iff in Hl as [H1%negb_true_iff H2%negb_true_iff].
  repeat split; [by intros ->|by apply String.eqb_neq|by apply String.eqb_neq|].
  intros Hh1%String.eqb_neq Hh2%String.eqb_neq. rewrite Hh1, Hh2, !orb_false_r in Hc. done.
Qed.
Lemma item_option_named n name : name <> "" -> named n name <> None -> item_option n name = named n name.
Proof.
  intros Hne Hn. unfold item_option.
  assert (get_option_no_throw n ("--" +:+ name) = named n name) as ->.
  { apply find_ext. intros o. unfold check_name. destruct name as [|c name]; [done|].
    change (check_lname (of_chars (chars (String c name))) o = check_lname (String c name) o). by rewrite CStr.of_chars_chars. }
  by destruct (named n name).
Qed.

Lemma parse_single_config_spelled en c e st ran o :
  c ∈ commands en -> assigns (Cmd c) e = true -> named (Cmd c) e.1 = Some o -> results st (Cmd c) (d_key o) = [] ->
  parse_single_config en (item_of (path c) e) st ran =
  inr (assign (Cmd c) st e, ran ++ if items_min o =? 0 then [] else [(Some c, d_key o)]).
Proof.
  intros Hc He Ho Hst. destruct (assigns_spec _ _ _ Ho He) as (_ & Hh1 & Hh2 & Hadd & Hflag).
  destruct (named_table _ _ _ Ho) as (Hne & H1%String.eqb_neq & H2%String.eqb_neq & Hconf).
  unfold parse_single_config, assign. cbn [parents item_name inputs item_of].
  rewrite get_subcommand_path, H1, H2, item_option_named, Ho, Hconf by (done || by rewrite Ho). cbn [orb negb].
  unfold count. rewrite Hst, bool_decide_eq_false_2 by (cbn; lia).
  destruct (items_min o =? 0) eqn:Em.
  - rewrite Hflag, Hadd, app_nil_r; [done|]. by destruct (d_kind o) eqn:Ek; [|unfold items_min in Em; rewrite Ek in Em..].
  - cbn [mbind list_bind]. by rewrite Hadd, app_nil_r.
Qed.
Lemma parse_config_spelled en c es : forall rest st ran,
  c ∈ commands en -> Forall (fun e => assigns (Cmd c) e = true) es -> NoDup (key_of (Cmd c) <$> es) ->
  Forall (fun e => results st (Cmd c) (key_of (Cmd c) e) = []) es ->
  parse_config en ((item_of (path c) <$> es) ++ rest) st ran =
  parse_config en rest (foldl (assign (Cmd c)) st es) (ran ++ runs c es).
Proof.
  induction es as [|e es IH]; intros rest st ran Hc Hes Hnd Hst; [by rewrite app_nil_r|].
  apply Forall_cons in Hes as [He Hes]. apply Forall_cons in Hst as [He0 Hst]. cbn [fmap list_fmap] in Hnd.
  apply NoDup_cons in Hnd as [Hne Hnd]. destruct (named (Cmd c) e.1) as [o|] eqn:Ho; [|unfold assigns in He; by rewrite Ho in He].
  unfold key_of in He0 at 1. rewrite Ho in He0. cbn [from_option] in He0.
  cbn [fmap list_fmap app parse_config foldl]. rewrite (parse_single_config_spelled _ _ _ _ _ _ Hc He Ho He0).
  rewrite IH; [|done..|].
  - unfold runs. cbn [mbind list_bind]. rewrite Ho. by rewrite <- (assoc_L app).
  - rewrite Forall_forall in Hst |- *. intros e' He'. unfold assign. rewrite Ho. cbn [results add_results].
    destruct (String.eqb_spec (key_of (Cmd c) e') (d_key o)) as [E|]; [|by rewrite andb_false_r; apply Hst].
    exfalso. apply Hne. unfold key_of at 1. rewrite Ho. cbn [from_option]. rewrite <- E. by apply list_elem_of_fmap_2.
Qed.
(** Entering and leaving sections changes nothing. *)
Lemma parse_config_marker en ps name st ran rest :
  get_subcommand en Root st ps <> None -> name = "++" \/ name = "--" ->
  parse_config en (mk_config_item ps name [] :: rest) st ran = parse_config en rest st ran.
Proof.
  intros Hs Hn. cbn [parse_config]. unfold parse_single_config. cbn [parents item_name].
  destruct (get_subcommand en Root st ps); [|done]. by destruct Hn as [->| ->].
Qed.

(** The section of a command, and what stands around its items. *)
Definition section_of (c : command) : string :=
  match c with
  | CmdGenerate | CmdReceive | CmdRoute => node_name (Cmd c)
  | CmdFileSend | CmdFileReceive | CmdForward => "file." +:+ node_name (Cmd c)
  end.
Definition markers (c : command) (name : string) : list config_item :=
  match c with
  | CmdGenerate | CmdReceive | CmdRoute => [mk_config_item (path c) name []]
  | CmdFileSend | CmdFileReceive | CmdForward => [mk_config_item [node_name File] name []; mk_config_item (path c) name []]
  end.
Lemma keys_names n es : NoDup (key_of n <$> es) -> NoDup (es.*1).
Proof.
  intros H. apply (NoDup_fmap_1 (fun name => from_option d_key "" (named n name))).
  by rewrite <- list_fmap_compose.
Qed.
Lemma from_config_command c es :
  Forall (fun e => plain_assignment e = true) es -> Forall (fun e => assigns (Cmd c) e = true) es ->
  NoDup (key_of (Cmd c) <$> es) ->
  from_config (section_file (section_of c) es) =
  Some (markers c "++" ++ (item_of (path c) <$> es) ++ rev (markers c "--")).
Proof.
  intros Hp Hes Hnd%keys_names.
  assert (Hname : "++" ∉ es.*1).
  { intros (e & Heq & He)%list_elem_of_fmap. rewrite Forall_forall in Hes. specialize (Hes e He). unfold assigns in Hes.
    destruct (named (Cmd c) e.1) eqn:Ho; [|done]. destruct (named_table _ _ _ Ho) as (_ & Hn & _). congruence. }
  rewrite (from_config_section _ _ (rev (markers c "++")) (path c));
    try (destruct c; vm_compute; reflexivity || (intros [= <-]; exact Hname)); try done.
  - f_equal. assert (close_file (section_of c) (rev (item_of (path c) <$> es) ++ rev (markers c "++")) =
      markers c "--" ++ rev (item_of (path c) <$> es) ++ rev (markers c "++")) as -> by (destruct c; reflexivity).
    by rewrite !rev_app_distr, !rev_involutive, <- (assoc_L app).
  - destruct c; vm_compute; set_solver.
  - destruct c; vm_compute; lia.
  - intros back Hback. destruct c; injection Hback as <-; exact Hname.
Qed.

Lemma get_subcommand_prefix en st ps ps' : forall n,
  get_subcommand en n st (ps ++ ps') <> None -> get_subcommand en n st ps <> None.
Proof.
  induction ps as [|p ps IH]; intros n; cbn [app get_subcommand]; [done|].
  destruct (find_subcommand en n st p false) as [com|]; [apply IH|done].
Qed.
Lemma parse_config_markers en c name st ran rest :
  c ∈ commands en -> name = "++" \/ name = "--" ->
  parse_config en (markers c name ++ rest) st ran = parse_config en rest st ran /\
  parse_config en (rev (markers c name) ++ rest) st ran = parse_config en rest st ran.
Proof.
  intros Hc Hn. assert (Hpath : get_subcommand en Root st (path c) <> None) by (by rewrite get_subcommand_path).
  assert (Hfile : match c with CmdFileSend | CmdFileReceive | CmdForward => get_subcommand en Root st [node_name File] <> None | _ => True end).
  { destruct c; try done; exact (get_subcommand_prefix en st [node_name File] [_] Root Hpath). }
  destruct c; cbn [markers rev app]; split; by rewrite ?parse_config_marker.
Qed.

Lemma texts_for_app n key es1 es2 : texts_for n key (es1 ++ es2) = texts_for n key es1 ++ texts_for n key es2.
Proof. apply bind_app. Qed.
Lemma texts_for_absent n key es : Forall (fun e => assigns n e = true) es -> key ∉ key_of n <$> es -> texts_for n key es = [].
Proof.
  intros Hes Hk. induction Hes as [|e es He _ IH]; [done|]. cbn [fmap list_fmap] in Hk.
  apply not_elem_of_cons in Hk as [H1 H2]. change (e :: es) with ([e] ++ es). rewrite texts_for_app, IH, app_nil_r by done.
  unfold texts_for, key_of in *. cbn [mbind list_bind]. destruct (named n e.1) as [o|]; [|done]. cbn [from_option] in H1.
  by destruct (String.eqb_spec key (d_key o)).
Qed.

(** Assignments in a file that the command line names, beside ones on the line. *)
Lemma tokenize_config en files c f es0 es :
  c ∈ commands en -> f <> "" -> files f = Some (section_file (section_of c) es) ->
  Forall (fun e => assigns (Cmd c) e = true) es0 -> Forall (fun e => assigns (Cmd c) e = true) es ->
  Forall (fun e => plain_assignment e = true) es -> NoDup (key_of (Cmd c) <$> es) ->
  Forall (fun e => key_of (Cmd c) e ∉ key_of (Cmd c) <$> es0) es ->
  exists m, tokenize en files (spell ("config", f) :: path c ++ map spell es0) = Some (inr m) /\
    m_ran m = runs c es /\ m_stop m = None /\ m_refused m = None /\
    (forall c', m_parsed m c' = bool_decide (c' = c)) /\
    (forall key, m_app m key = if String.eqb key "--config" then [f] else []) /\
    forall c' key, m_sub m c' key = if bool_decide (c' = c) then texts_for (Cmd c) key (es0 ++ es) else [].
Proof.
  intros Hc Hf Hfile Hes0 Hes Hplain Hnd Hdis. unfold tokenize. rewrite walk_config by done.
  set (start := entered_from (add_results Root "--config" [f] (increment_parsed Root pstate0)) c).
  assert (Hstart : forall n key, results start n key = if bool_decide (n = Root) && String.eqb key "--config" then [f] else [])
    by (by destruct c).
  destruct (assigned (Cmd c) es0 start) as (Hr0 & Hm0 & Hp0 & Hn0).
  set (st0 := foldl (assign (Cmd c)) start es0) in *.
  destruct (assigned (Cmd c) es st0) as (Hr & Hm & Hp & Hn).
  set (st := foldl (assign (Cmd c)) st0 es) in *.
  assert (Hres : forall n key, results st n key =
    if bool_decide (n = Cmd c) then texts_for (Cmd c) key (es0 ++ es)
    else if bool_decide (n = Root) && String.eqb key "--config" then [f] else []).
  { intros n key. rewrite Hr, Hr0, Hstart, texts_for_app. destruct (decide (n = Cmd c)) as [->|Hne].
    - by rewrite (bool_decide_eq_true_2 (Cmd c = Cmd c)).
    - by rewrite (bool_decide_eq_false_2 (n = Cmd c)), !app_nil_r. }
  assert (Hconf : process_config_file en files st0 = Some (st, runs c es, None, None)).
  { assert (results st0 Root "--config" = [f]) as Hcf
      by (rewrite Hr0, Hstart, (bool_decide_eq_false_2 (Root = Cmd c)) by done; done).
    unfold process_config_file. apply String.eqb_neq in Hf as Hf'.
    rewrite Hcf, Hf', Hfile, from_config_command by done. cbn [mbind option_bind].
    rewrite (proj1 (parse_config_markers en c "++" st0 [] _ Hc (or_introl eq_refl))), parse_config_spelled; [|done..|].
    - pose proof (proj2 (parse_config_markers en c "--" st (runs c es) [] Hc (or_intror eq_refl))) as Hend.
      rewrite app_nil_r in Hend. cbn [app]. fold st. by rewrite Hend.
    - rewrite Forall_forall in Hdis |- *. intros e He. rewrite Hr0, Hstart, (bool_decide_eq_true_2 (Cmd c = Cmd c)) by done.
      rewrite (bool_decide_eq_false_2 (Cmd c = Root)) by done. cbn [andb app]. apply texts_for_absent; [done|by apply Hdis]. }
  rewrite Hconf. cbn [mbind option_bind]. eexists. split; [reflexivity|].
  assert (Hroot : forall key, results st Root key = if String.eqb key "--config" then [f] else [])
    by (intros key; by rewrite Hres).
  unfold matches_of, version_status. rewrite Hroot. cbn [m_ran m_stop m_refused m_parsed m_app m_sub last fmap option_fmap option_map String.eqb].
  repeat split.
  - apply (refusal_none en c); [|rewrite Hm, Hm0; by destruct c|rewrite Hp, Hp0; by destruct c]. intros n _. rewrite !Hres.
    destruct (bool_decide (n = Cmd c)); [|by rewrite !andb_false_r].
    split; apply texts_for_help; auto; by apply Forall_app.
  - intros c'. rewrite Hn, Hn0. by destruct c, c'.
  - intros key. by rewrite Hroot.
  - intros c' key. rewrite Hres. by destruct c, c'.
Qed.

(** C9: a line of assignments is split the way it reads. After the words that select
    a command come texts of the form [--name=text], in any number and order, the
    names being long names of the command's options, but for help and the names that
    negate a flag, and the texts neither empty nor, for a flag, empty braces, nor, for
    a list of texts, a list in brackets. Then exactly this command is named, nothing is
    refused, the options of the application and of the other commands get no text,
    and every option of the command gets the texts that were assigned to any of its
    names, in their order. *)
Theorem tokenize_spelled en files c es :
  c ∈ commands en -> Forall (fun e => assigns (Cmd c) e = true) es ->
  exists m, tokenize en files (path c ++ map spell es) = Some (inr m) /\ m_ran m = [] /\ m_stop m = None /\ m_refused m = None /\
    (forall c', m_parsed m c' = bool_decide (c' = c)) /\ (forall key, m_app m key = []) /\
    forall c' key, m_sub m c' key = if bool_decide (c' = c) then texts_for (Cmd c) key es else [].
Proof. apply tokenize_line. Qed.
Lemma tokenize_spelled_witness :
  let es := [("segment", "1316"); ("statsfile", "a=b"); ("segment", "188")] in
  exists m, tokenize true no_files (path CmdFileSend ++ map spell es) = Some (inr m) /\
    m_ran m = [] /\ m_stop m = None /\ m_refused m = None /\ (forall c', m_parsed m c' = bool_decide (c' = CmdFileSend)) /\ (forall key, m_app m key = []) /\
    forall c' key, m_sub m c' key = if bool_decide (c' = CmdFileSend) then texts_for (Cmd CmdFileSend) key es else [].
Proof.
  apply (tokenize_spelled true no_files CmdFileSend [("segment", "1316"); ("statsfile", "a=b"); ("segment", "188")]).
  - by do 3 constructor 2; constructor.
  - by repeat constructor.
Defined.
End Tokenizer.
