(* ===== verification/Demo.v ===== *)
(** * The example client and server (client/client.cpp, server/server.cpp)

    Two stand-alone programs: the client connects and sends one text a hundred
    times, the server accepts one connection and prints up to a hundred
    messages. *)

From Stdlib Require Import ZArith Lia Ascii String.
From stdpp Require Import prelude strings list.
From S2P Require Import Prelude NetAddr Sys Logic.

Module Demo.
Local Open Scope string_scope.
Local Open Scope list_scope.
Local Open Scope Z_scope.

(** A char array initialised by a string literal, with its NUL. *)
Definition message : list char := chars "This message should be sent to the other side" ++ [zero].

(** [atoi]: strtol to long, then to int. *)
Definition atoi (s : string) : Z := CInt.to_int (CNum.clamp_long (CNum.strtol_exact 10 s).1).

(** The sockaddr_in the programs fill in, over the previous content of the
    variable, which they do not clear. *)
Definition fill_sockaddr (raw : list char) (port : Z) (addr : list char) : list char :=
  NetAddr.store 4 addr (NetAddr.store 2 (NetAddr.be16 port) (NetAddr.store 0 (NetAddr.le16 NetAddr.AF_INET) raw)).

Section programs.
Context {W : Type} `{Env W}.

(** [fprintf(stderr, ..., srt_getlasterror_str()); return 1;] *)
Definition fail : io W Z := do! invoke srt_getlasterror_str in ret 1.

(** The loop of the client; the result tells whether it was left early. *)
Fixpoint send_loop (n : nat) (ss : Z) : io W bool :=
  match n with
  | O => ret true
  | S n' =>
      let! st := invoke (srt_sendmsg2 ss message (Z.of_nat (length message))) in
      if st =? SRT_ERROR then ret false else
      do! invoke (sleep_for 1) in send_loop n' ss
  end.

Definition client (raw : list char) (args : list string) : io W Z :=
  match args with
  | [host; port] =>
      do! invoke srt_startup in
      let! ss := invoke srt_create_socket in
      if ss =? SRT_ERROR then fail else
      let! a := invoke (inet_pton NetAddr.AF_INET host) in
      match a with
      | None => ret 1
      | Some addr =>
          let sa := fill_sockaddr raw (CInt.to_u16 (atoi port)) addr in
          let! st := invoke (srt_setsockflag ss SRTO_SENDER (OInt 1)) in
          if SRT_ERROR =? st then fail else
          let! st := invoke (srt_connect ss sa 16) in
          if st =? SRT_ERROR then fail else
          let! all := send_loop 100 ss in
          if negb all then fail else
          do! invoke (sleep_for 1000) in
          let! st := invoke (srt_close ss) in
          if st =? SRT_ERROR then fail else
          do! invoke srt_cleanup in ret 0
      end
  | _ => ret 1
  end.

(** [printf("%s", msg)], where only the received bytes of [msg] are set. *)
Definition print_message (data : list char) : io W unit :=
  if bool_decide (zero ∈ data) then ret tt else undefined "read past the received bytes".

Fixpoint recv_loop (n : nat) (their_fd : Z) : io W unit :=
  match n with
  | O => ret tt
  | S n' =>
      let! '(st, data) := invoke (srt_recvmsg their_fd 2048) in
      if st =? SRT_ERROR then do! invoke srt_getlasterror_str in ret tt else
      do! print_message data in recv_loop n' their_fd
  end.

Definition server (raw : list char) (args : list string) : io W Z :=
  match args with
  | [host; port] =>
      do! invoke srt_startup in
      let! ss := invoke srt_create_socket in
      if ss =? SRT_ERROR then fail else
      let! a := invoke (inet_pton NetAddr.AF_INET host) in
      match a with
      | None => ret 1
      | Some addr =>
          let sa := fill_sockaddr raw (CInt.to_u16 (atoi port)) addr in
          let! st := invoke (srt_setsockflag ss SRTO_RCVSYN (OInt 1)) in
          if SRT_ERROR =? st then fail else
          let! st := invoke (srt_bind ss sa 16) in
          if st =? SRT_ERROR then fail else
          let! st := invoke (srt_listen ss 2) in
          if st =? SRT_ERROR then fail else
          let! their_fd := invoke (srt_accept ss) in
          if their_fd =? SRT_INVALID_SOCK then fail else
          do! recv_loop 100 their_fd in
          let! st := invoke (srt_close ss) in
          if st =? SRT_ERROR then fail else
          do! invoke srt_cleanup in ret 0
      end
  | _ => ret 1
  end.

(** ** What the programs do *)

(** One round of sending, and a whole session of the client. *)
Definition round_calls (ss : Z) : list call :=
  [srt_sendmsg2 ss message (Z.of_nat (length message)); sleep_for 1].
Definition client_setup (ss : Z) (host : string) (sa : list char) : list call :=
  [srt_startup; srt_create_socket; inet_pton NetAddr.AF_INET host;
   srt_setsockflag ss SRTO_SENDER (OInt 1); srt_connect ss sa 16].
Definition client_session (ss : Z) (host : string) (sa : list char) : list call :=
  client_setup ss host sa ++ concat (replicate 100 (round_calls ss)) ++
  [sleep_for 1000; srt_close ss; srt_cleanup].

(** A call that failed. *)
Definition failed_event (e : event) : bool :=
  match e with
  | Ev srt_create_socket r => r =? SRT_ERROR
  | Ev (inet_pton _ _) r => bool_decide (r = None)
  | Ev (srt_setsockflag _ _ _) r => r =? SRT_ERROR
  | Ev (srt_connect _ _ _) r => r =? SRT_ERROR
  | Ev (srt_sendmsg2 _ _ _) r => r =? SRT_ERROR
  | Ev (srt_close _) r => r =? SRT_ERROR
  | _ => false
  end.
(** What the client asks before it reports a failure: nothing about an address. *)
Definition report_of (e : event) : list call :=
  match e with Ev (inet_pton _ _) _ => [] | _ => [srt_getlasterror_str] end.

(** [t] is the session [l], left at the first of its calls that failed. *)
Definition left_at (l : list call) (t : list event) : Prop :=
  exists t1 e t2 rest, t = t1 ++ e :: t2 /\ existsb failed_event t1 = false /\ failed_event e = true /\
    l = calls (t1 ++ [e]) ++ rest /\ calls t2 = report_of e.
(** The socket and the address are the ones that the calls gave. *)
Definition given (ss : Z) (addr : list char) (e : event) : Prop :=
  match e with
  | Ev srt_create_socket r => r = ss
  | Ev (inet_pton _ _) r => r = None \/ r = Some addr
  | _ => True
  end.

Lemma wp_fail l t e rest (Q : post Z) w :
  existsb failed_event t = false -> failed_event e = true -> report_of e = [srt_getlasterror_str] ->
  l = calls (t ++ [e]) ++ rest ->
  (forall r w', left_at l (t ++ e :: [Ev srt_getlasterror_str r]) -> Q (Done 1) [Ev srt_getlasterror_str r] w') -> wp fail Q w.
Proof.
  intros Ht He Hr Hl HQ. unfold fail. apply wp_bind, (wp_invoke srt_getlasterror_str). intros r w1 _. wp_simpl. apply wp_ret.
  apply HQ. by exists t, e, [Ev srt_getlasterror_str r], rest.
Qed.

Lemma client_loop_wp n ss w (Q : post bool) :
  (forall t w', calls t = concat (replicate n (round_calls ss)) -> existsb failed_event t = false ->
     (forall addr, Forall (given ss addr) t) -> Q (Done true) t w') ->
  (forall t e w' rest, concat (replicate n (round_calls ss)) = calls (t ++ [e]) ++ rest ->
     existsb failed_event t = false -> failed_event e = true -> report_of e = [srt_getlasterror_str] ->
     (forall addr, Forall (given ss addr) (t ++ [e])) -> Q (Done false) (t ++ [e]) w') ->
  wp (send_loop n ss) Q w.
Proof.
  revert w Q. induction n as [|n IH]; intros w Q Hall Hsome; cbn [send_loop]; [by apply wp_ret, Hall|].
  apply wp_bind, (wp_invoke (srt_sendmsg2 _ _ _)). intros st w1 _. wp_simpl. destruct (st =? SRT_ERROR) eqn:E.
  { apply wp_ret. eapply (Hsome [] _); [reflexivity|done|exact E|done|]. intros addr. by repeat constructor. }
  set (sent := Ev (srt_sendmsg2 ss message (Z.of_nat (length message))) st).
  assert (failed_event sent = false) as Hsent by exact E.
  apply wp_bind, (wp_invoke (sleep_for 1)). intros [] w2 _. wp_simpl. apply IH.
  - intros t w' Ht Hno Hg. apply Hall; [cbn [replicate concat]; by rewrite <- Ht| |].
    + cbn [existsb app]. by rewrite Hsent, Hno.
    + intros addr. constructor; [done|]. constructor; [done|]. apply Hg.
  - intros t e w' rest Hl Hno He Hr Hg. apply (Hsome (sent :: Ev (sleep_for 1) tt :: t) e w' rest); [| |done|done|].
    + cbn [replicate concat]. by rewrite Hl.
    + cbn [existsb app]. by rewrite Hsent, Hno.
    + intros addr. constructor; [done|]. constructor; [done|]. apply Hg.
Qed.
(** What the client's result says about its calls. *)
Definition client_post (host : string) (raw : list char) (port : string) : post (W:=W) Z := fun o t _ =>
  exists ss addr,
    let l := client_session ss host (fill_sockaddr raw (CInt.to_u16 (atoi port)) addr) in
    Forall (given ss addr) t /\
    ((o = Done 0 /\ calls t = l /\ existsb failed_event t = false) \/ (o = Done 1 /\ left_at l t)).

(** Nothing that failed comes before the call that ends the program, so it has closed
    nothing and released nothing. *)
Lemma left_at_open ss host sa t :
  left_at (client_session ss host sa) t ->
  (forall s r, Ev (srt_close s) r ∈ t -> r = SRT_ERROR) /\ srt_cleanup ∉ calls t.
Proof.
  intros (t1 & e & t2 & rest & -> & Hno & He & Hl & Ht2).
  set (L := client_setup ss host sa ++ concat (replicate 100 (round_calls ss)) ++ [sleep_for 1000]).
  assert (L ++ [srt_close ss; srt_cleanup] = calls t1 ++ ev_call e :: rest) as E.
  { transitivity (client_session ss host sa); [unfold L, client_session; by rewrite <- !app_assoc|].
    rewrite Hl, calls_app. by rewrite <- app_assoc. }
  assert (Hplain : Forall (fun c => match c with srt_close _ | srt_cleanup => false | _ => true end = true) L).
  { unfold L. rewrite !Forall_app. split; [by repeat constructor|]. split; [|by repeat constructor].
    apply Forall_concat, Forall_replicate. by repeat constructor. }
  assert (Hpre : calls t1 = take (length (calls t1)) L /\ (ev_call e <> srt_cleanup)).
  { split; [|destruct e as [c r]; intros [= ->]; done].
    destruct (decide (length (calls t1) <= length L)%nat) as [Hle|Hgt].
    - rewrite <- (take_app_le L [srt_close ss; srt_cleanup]) by done. by rewrite E, take_app_length.
    - exfalso. pose proof (f_equal length E) as Hlen. rewrite !length_app in Hlen. cbn [length] in Hlen.
      destruct rest; [|cbn [length] in Hlen; lia].
      pose proof (f_equal last E) as Hlast. rewrite last_snoc, last_app in Hlast. cbn [last] in Hlast.
      injection Hlast as Hlast. destruct e as [c r]. cbn in Hlast. by subst c. }
  destruct Hpre as [Hpre Hcl].
  assert (Hin : forall c, c ∈ calls t1 -> match c with srt_close _ | srt_cleanup => false | _ => true end = true).
  { intros c Hc. rewrite Hpre in Hc. rewrite Forall_forall in Hplain. apply Hplain. by eapply subseteq_take. }
  assert (Ht2' : forall c, c ∈ calls t2 -> c = srt_getlasterror_str).
  { intros c. rewrite Ht2. assert (report_of e = [] \/ report_of e = [srt_getlasterror_str]) as Hr
      by (destruct e as [[] r]; cbn; auto).
    destruct Hr as [-> | ->]; [by intros ?%elem_of_nil|by intros ->%list_elem_of_singleton]. }
  split.
  - intros s r [Hs|[Hs|Hs]%elem_of_cons]%elem_of_app.
    + apply (list_elem_of_fmap_2 ev_call) in Hs. by apply Hin in Hs.
    + subst e. by apply Z.eqb_eq in He.
    + apply (list_elem_of_fmap_2 ev_call) in Hs. by apply Ht2' in Hs.
  - rewrite calls_app. intros [Hs|[Hs|Hs]%elem_of_cons]%elem_of_app; [by apply Hin in Hs|by apply Hcl|by apply Ht2' in Hs].
Qed.

(** The part behind srt_connect. *)
Lemma client_tail_wp ss host sa addr t0 (Q : post Z) w :
  calls t0 = client_setup ss host sa -> existsb failed_event t0 = false -> Forall (given ss addr) t0 ->
  (forall t w', calls (t0 ++ t) = client_session ss host sa -> existsb failed_event (t0 ++ t) = false ->
     Forall (given ss addr) (t0 ++ t) -> Q (Done 0) t w') ->
  (forall t w', left_at (client_session ss host sa) (t0 ++ t) -> Forall (given ss addr) (t0 ++ t) -> Q (Done 1) t w') ->
  wp (let! all := send_loop 100 ss in
      if negb all then fail else
      do! invoke (sleep_for 1000) in
      let! st := invoke (srt_close ss) in
      if st =? SRT_ERROR then fail else
      do! invoke srt_cleanup in ret 0) Q w.
Proof.
  intros Ht0 Hno0 Hg0 Hok Hfail. apply wp_bind, client_loop_wp.
  - intros t w1 Ht Hno Hg. wp_simpl. apply wp_bind, (wp_invoke (sleep_for 1000)). intros [] w2 _. wp_simpl.
    apply wp_bind, (wp_invoke (srt_close ss)). intros st w3 _. wp_simpl. destruct (st =? SRT_ERROR) eqn:E.
    + eapply (wp_fail (client_session ss host sa) (t0 ++ t ++ [Ev (sleep_for 1000) tt]) (Ev (srt_close ss) st) [srt_cleanup]);
        [by rewrite !existsb_app, Hno0, Hno|exact E|done| |].
      * unfold client_session. by rewrite !calls_app, Ht0, Ht, <- !app_assoc.
      * intros r w' Hl. rewrite <- !app_assoc in Hl. cbn [app] in *. apply Hfail; [exact Hl|].
        rewrite !Forall_app. split; [done|]. split; [done|]. by repeat constructor.
    + apply wp_bind, (wp_invoke srt_cleanup). intros r w4 _. wp_simpl. apply wp_ret. apply Hok.
      * by rewrite !calls_app, Ht0, Ht.
      * rewrite !existsb_app, Hno0, Hno. cbn. by rewrite E.
      * rewrite !Forall_app. split; [done|]. split; [done|]. by repeat constructor.
  - intros t e w1 rest Hl Hno He Hr Hg. wp_simpl.
    eapply (wp_fail (client_session ss host sa) (t0 ++ t) e (rest ++ [sleep_for 1000; srt_close ss; srt_cleanup]));
      [by rewrite existsb_app, Hno0, Hno|done..| |].
    + unfold client_session. rewrite Hl, !calls_app, Ht0. by rewrite <- !app_assoc.
    + intros r w' Hle. rewrite <- !app_assoc in *. apply Hfail; [exact Hle|].
      specialize (Hg addr). rewrite Forall_app in Hg. rewrite !Forall_app. split; [done|]. split; [apply Hg|].
      constructor; [destruct Hg as [_ Hg]; by inversion Hg|]. by repeat constructor.
Qed.

Lemma client_wp raw host port w : wp (client raw [host; port]) (client_post host raw port) w.
Proof.
  set (sa0 := fill_sockaddr raw (CInt.to_u16 (atoi port)) []).
  unfold client. apply wp_bind, (wp_invoke srt_startup). intros r0 w0 _. wp_simpl.
  set (e0 := Ev srt_startup r0).
  apply wp_bind, (wp_invoke srt_create_socket). intros ss w1 _. wp_simpl. set (e1 := Ev srt_create_socket ss).
  destruct (ss =? SRT_ERROR) eqn:E1.
  { eapply (wp_fail (client_session ss host sa0) [e0] e1); [done|exact E1|done|reflexivity|].
    intros r w' Hl. exists ss, []. split; [by repeat constructor|]. right. by split. }
  apply wp_bind, (wp_invoke (inet_pton _ _)). intros a w2 _; wp_simpl. set (e2 := Ev (inet_pton NetAddr.AF_INET host) a).
  destruct a as [addr|].
  2:{ apply wp_ret. exists ss, []. split; [by repeat (apply Forall_cons; split; [cbn; auto|])|]. right. split; [done|].
      exists [e0; e1], e2, [], (drop 3 (client_session ss host sa0)).
      split; [done|]. split; [cbn [existsb failed_event e0 e1]; by rewrite E1|]. by split. }
  set (sa := fill_sockaddr _ _ _).
  apply wp_bind, (wp_invoke (srt_setsockflag _ _ _)). intros st w3 _. wp_simpl. rewrite Z.eqb_sym.
  set (e3 := Ev (srt_setsockflag ss SRTO_SENDER (OInt 1)) st). destruct (st =? SRT_ERROR) eqn:E3.
  { eapply (wp_fail (client_session ss host sa) [e0; e1; e2] e3);
      [cbn [existsb failed_event e0 e1 e2]; by rewrite E1|exact E3|done|reflexivity|].
    intros r w' Hl. exists ss, addr. split; [by repeat (apply Forall_cons; split; [cbn; auto|])|]. right. by split. }
  apply wp_bind, (wp_invoke (srt_connect _ _ _)). intros st' w4 _. wp_simpl.
  set (e4 := Ev (srt_connect ss sa 16) st'). destruct (st' =? SRT_ERROR) eqn:E4.
  { eapply (wp_fail (client_session ss host sa) [e0; e1; e2; e3] e4);
      [cbn [existsb failed_event e0 e1 e2 e3]; by rewrite E1, E3|exact E4|done|reflexivity|].
    intros r w' Hl. exists ss, addr. split; [by repeat (apply Forall_cons; split; [cbn; auto|])|]. right. by split. }
  apply (client_tail_wp ss host sa addr [e0; e1; e2; e3; e4]); [reflexivity| |by repeat (apply Forall_cons; split; [cbn; auto|])|..].
  { cbn [existsb failed_event e0 e1 e2 e3 e4]. by rewrite E1, E3, E4. }
  - intros t w' Ht Hno Hg. exists ss, addr. split; [done|]. by left.
  - intros t w' Ht Hg. exists ss, addr. split; [done|]. by right.
Qed.

(** C14: the client, on the socket and the address that the calls gave it. Result 0
    means that the whole session was made, a hundred messages on the connected socket
    included, in this order, and that no call failed. Otherwise the result is 1: the
    calls are those of the session up to the first that failed, all before it having
    succeeded, followed by asking for the error unless it was the address that was
    refused; the library is then not released, and the socket not closed, but for a
    srt_close that failed. There is no other outcome. *)
Theorem client_spec raw host port w :
  wp (client raw [host; port]) (fun o t _ => exists ss addr,
    let l := client_session ss host (fill_sockaddr raw (CInt.to_u16 (atoi port)) addr) in
    Forall (given ss addr) t /\
    ((o = Done 0 /\ calls t = l /\ existsb failed_event t = false) \/
     (o = Done 1 /\ left_at l t /\ (forall s r, Ev (srt_close s) r ∈ t -> r = SRT_ERROR) /\ srt_cleanup ∉ calls t))) w.
Proof.
  eapply wp_mono; [apply client_wp|]. intros o t w' (ss & addr & Hg & Ho). exists ss, addr. split; [done|].
  destruct Ho as [Ho|[-> Hl]]; [by left|right]. split; [done|]. split; [done|]. by eapply left_at_open.
Qed.

(** What the server does with a connection whose messages all hold a NUL: it
    prints them until one cannot be received, a hundred at most. *)
Definition terminated : Prop := forall s cap w r d w',
  answer (srt_recvmsg s cap) w = ((r, d), w') -> r = SRT_ERROR \/ zero ∈ d.

Lemma recv_loop_wp n fd w : terminated ->
  wp (recv_loop n fd) (fun o t _ => o = Done tt /\ exists k,
    (k = n /\ calls t = replicate k (srt_recvmsg fd 2048)) \/
    ((k < n)%nat /\ calls t = replicate (S k) (srt_recvmsg fd 2048) ++ [srt_getlasterror_str])) w.
Proof.
  intros Hpeer. revert w. induction n as [|n IH]; intros w; cbn [recv_loop].
  { apply wp_ret. split; [done|]. exists 0%nat. by left. }
  apply wp_bind, (wp_invoke (srt_recvmsg _ _)). intros [r d] w1 Ha. wp_simpl.
  destruct (Z.eqb_spec r SRT_ERROR) as [->|Hr].
  { wp_steps. split; [done|]. exists 0%nat. right. split; [lia|done]. }
  apply Hpeer in Ha as [->|Hd]; [done|]. unfold print_message. rewrite bool_decide_eq_true_2 by done.
  apply wp_bind, wp_ret. wp_simpl. eapply wp_mono; [apply IH|]. intros o t w2 [-> (k & [[-> Ht]|[Hk Ht]])].
  - split; [done|]. exists (S n). left. split; [done|]. cbn [replicate]. by rewrite <- Ht.
  - split; [done|]. exists (S k). right. split; [lia|]. cbn [replicate app] in *. by rewrite <- Ht.
Qed.

Lemma server_result raw host port w : terminated ->
  wp (server raw [host; port]) (fun o _ _ => o = Done 0 \/ o = Done 1) w.
Proof.
  intros Hpeer. unfold server, fail. cbv beta iota. wp_steps; try by right.
  match goal with |- wp (match ?a with _ => _ end) _ _ => destruct a end; [|apply wp_ret; by right].
  wp_steps; try by right.
  eapply wp_mono; [by apply recv_loop_wp|]. intros o t w' [-> _]. wp_steps; [by right|by left].
Qed.
End programs.

(** A message without a NUL makes the server print bytes it did not receive. *)
#[local] Instance unterminated_env : Env unit := fun_env (fun c =>
  match c as c0 return resp c0 with
  | inet_pton _ _ => Some (NetAddr.zeros 4)
  | srt_recvmsg _ _ => (2, chars "hi")
  | c => default_resp c
  end).
Example server_prints_garbage :
  (server (NetAddr.zeros 16) ["127.0.0.1"; "4200"] tt).1.1 = Undefined "read past the received bytes".
Proof. reflexivity. Qed.
End Demo.
