(* ===== verification/Lifecycle.v ===== *)
(** * The life cycle of the libraries

    main brings the network libraries up and releases them; between the two no
    command does, but for the nodes of forward, which start the SRT library once
    more for each node (srt_node.cpp). The calls of every operation a command makes
    are gone through here. *)

From Stdlib Require Import ZArith Lia Ascii String.
From stdpp Require Import prelude strings list.
From S2P Require Import Prelude NetAddr Sys Logic Socket Stats Uri SockOpts CreateAddr SrtSocket SrtGroup Misc Generate Receive Route FileSend FileReceive SrtNode Forward.

Module Lifecycle.
Local Open Scope string_scope.
Local Open Scope list_scope.
Local Open Scope Z_scope.
Import Socket SockOpts CreateAddr.

(** Bringing a library up and releasing it. *)
Definition lifecycle (c : call) : bool :=
  match c with
  | SysInitializeNetwork | srt_startup | SysCleanupNetwork | srt_cleanup => true
  | _ => false
  end.
Definition command_call (c : call) : bool := negb (lifecycle c).
(** What forward may call as well. *)
Definition node_call (c : call) : bool := match c with srt_startup => true | c => command_call c end.

Lemma plain_node c : command_call c = true -> node_call c = true.
Proof. by destruct c. Qed.

Section basics.
Context {W : Type} `{Env W}.
Lemma only_nofuel P {A} : only P (fun w : W => (@NoFuel A, [], w)).
Proof. by intros w. Qed.
End basics.
#[local] Hint Resolve only_for_each only_get only_put only_nofuel : only.
#[local] Hint Extern 1 (only _ (for_each _ _)) => apply only_for_each; intros ?; only_steps : only.

(** ** Sockets *)
Section sockets.
Context `{Build} {W : Type} `{Env W}.
Abbreviation plain m := (only (W:=W) command_call m).

Lemma plain_parse_uri u : plain (SrtSocket.parse_uri u).
Proof. unfold SrtSocket.parse_uri. only_steps. Qed.
Lemma plain_raise {A} place : plain (SrtSocket.raise_exception (A:=A) place).
Proof. unfold SrtSocket.raise_exception. only_steps. Qed.
Lemma plain_raise_reason {A} place reason : plain (SrtSocket.raise_exception_reason (A:=A) place reason).
Proof. unfold SrtSocket.raise_exception_reason. only_steps. Qed.
Lemma plain_lasterror {A} : plain (SrtSocket.throw_lasterror (A:=A)).
Proof. unfold SrtSocket.throw_lasterror. only_steps. Qed.
Hint Resolve plain_parse_uri plain_raise plain_raise_reason plain_lasterror : only.

Lemma plain_apply_options b sock options table : plain (apply_options b sock options table).
Proof. induction table as [|o table IH]; cbn [apply_options]; only_steps; try done. unfold apply. only_steps. Qed.
Hint Resolve plain_apply_options : only.
Lemma plain_pre sock host options : plain (SrtConfigurePre sock host options).
Proof. unfold SrtConfigurePre, set_linger. only_steps. Qed.
Lemma plain_post sock options : plain (SrtConfigurePost sock options).
Proof. unfold SrtConfigurePost. only_steps. Qed.
Lemma plain_resolve name port pref : plain (create_addr name port pref).
Proof.
  unfold create_addr.
  assert (forall l, plain (try_families name port l)) as Ht
    by (induction l as [|f l IH]; cbn [try_families]; unfold pton; only_steps; done).
  only_steps; unfold from_addrinfo; only_steps.
Qed.
Lemma plain_assert_options options extra : plain (SrtSocket.assert_options_valid options extra).
Proof. induction options as [|[k v] options IH]; cbn [SrtSocket.assert_options_valid]; only_steps; done. Qed.
Lemma plain_print_config sock : plain (SrtSocket.print_negotiated_config sock).
Proof. unfold SrtSocket.print_negotiated_config, SrtSocket.get_sock_value. only_steps. Qed.
Lemma plain_configure_post this sock : plain (SrtSocket.configure_post this sock).
Proof. unfold SrtSocket.configure_post. pose proof plain_post. only_steps. Qed.
Hint Resolve plain_pre plain_post plain_resolve plain_assert_options plain_print_config plain_configure_post : only.

Lemma plain_srt_of_uri uri : plain (SrtSocket.srt_of_uri uri).
Proof.
  unfold SrtSocket.srt_of_uri, SrtSocket.configure_pre, SrtSocket.create_epolls, SrtSocket.handle_hosts,
    SrtSocket.bind_me. only_steps.
Qed.
Lemma plain_listen this : plain (SrtSocket.listen this).
Proof. unfold SrtSocket.listen. only_steps. Qed.
Lemma plain_accept this : plain (SrtSocket.accept this).
Proof. unfold SrtSocket.accept, SrtSocket.srt_of_sock. only_steps. Qed.
Lemma plain_connect this : plain (SrtSocket.connect this).
Proof. unfold SrtSocket.connect. only_steps. Qed.
Lemma plain_destroy this : plain (SrtSocket.destroy this).
Proof. unfold SrtSocket.destroy. only_steps. Qed.
Lemma plain_read this cap timeout : plain (SrtSocket.read this cap timeout).
Proof. unfold SrtSocket.read. only_steps. Qed.
Lemma plain_write this data timeout : plain (SrtSocket.write this data timeout).
Proof. unfold SrtSocket.write. only_steps. Qed.
End sockets.
#[local] Hint Resolve plain_parse_uri plain_raise plain_raise_reason plain_lasterror plain_apply_options plain_pre
  plain_post plain_resolve plain_assert_options plain_print_config plain_configure_post plain_srt_of_uri
  plain_listen plain_accept plain_connect plain_destroy plain_read plain_write : only.

(** ** Groups *)
Section groups.
Context `{Build} {W : Type} `{Env W}.
Abbreviation plain m := (only (W:=W) command_call m).

Lemma plain_group_pre this sock li : plain (SrtGroup.configure_pre this sock li).
Proof. unfold SrtGroup.configure_pre, SrtGroup.configure_link. only_steps. Qed.
Lemma plain_group_post this sock li : plain (SrtGroup.configure_post this sock li).
Proof. unfold SrtGroup.configure_post. only_steps. Qed.
Lemma plain_check_success r : plain (SrtGroup.check_success r).
Proof. unfold SrtGroup.check_success, SrtGroup.throw_lasterror. only_steps. Qed.
Lemma plain_check_error r : plain (SrtGroup.check_error r).
Proof. unfold SrtGroup.check_error, SrtGroup.throw_lasterror. only_steps. Qed.
Hint Resolve plain_group_pre plain_group_post plain_check_success plain_check_error : only.
Lemma plain_create_listeners this i uris : plain (SrtGroup.create_listeners this i uris).
Proof.
  revert this i. induction uris as [|u uris IH]; intros this i; cbn [SrtGroup.create_listeners];
    unfold SrtGroup.create_listener, SrtGroup.throw_lasterror; only_steps; done.
Qed.
Lemma plain_create_targets this uris : plain (SrtGroup.create_targets this uris).
Proof.
  revert this. induction uris as [|u uris IH]; intros this; cbn [SrtGroup.create_targets];
    unfold SrtGroup.create_target, SrtGroup.try_bind, SrtGroup.detect_link_weight,
      SrtGroup.raise_exception_reason; only_steps; done.
Qed.
Hint Resolve plain_create_listeners plain_create_targets : only.
Lemma plain_group_of_uris uris : plain (SrtGroup.group_of_uris uris).
Proof.
  unfold SrtGroup.group_of_uris, SrtGroup.detect_group_type, SrtGroup.create_callers,
    SrtGroup.set_connect_callback, SrtGroup.throw_lasterror, SrtGroup.raise_exception. only_steps.
Qed.
Lemma plain_group_listen this : plain (SrtGroup.listen this).
Proof. unfold SrtGroup.listen, SrtGroup.set_listen_callback, SrtGroup.raise_exception_reason. only_steps. Qed.
Lemma plain_group_accept this : plain (SrtGroup.accept this).
Proof.
  unfold SrtGroup.accept, SrtGroup.group_of_accepted, SrtGroup.raise_exception,
    SrtGroup.raise_exception_reason, SrtGroup.throw_lasterror. only_steps.
Qed.
Lemma plain_group_connect this : plain (SrtGroup.connect this).
Proof. unfold SrtGroup.connect, SrtGroup.raise_exception. only_steps. Qed.
Lemma plain_group_destroy this : plain (SrtGroup.destroy this).
Proof. unfold SrtGroup.destroy, SrtGroup.release_targets, SrtGroup.release_listeners. only_steps. Qed.
Lemma plain_group_read this cap timeout : plain (SrtGroup.read this cap timeout).
Proof. rewrite SrtGroup.read_as_srt. apply plain_read. Qed.
Lemma plain_group_write this data timeout : plain (SrtGroup.write this data timeout).
Proof. unfold SrtGroup.write, SrtGroup.raise_exception, SrtGroup.raise_exception_reason. only_steps. Qed.
End groups.
#[local] Hint Resolve plain_group_of_uris plain_group_listen plain_group_accept plain_group_connect
  plain_group_destroy plain_group_read plain_group_write : only.

(** ** Connections and the runner *)
Section runner.
Context `{Build} {W : Type} `{Env W}.
Abbreviation plain m := (only (W:=W * Misc.store) command_call m).
Import Misc.

Lemma plain_alloc o : plain (alloc o).
Proof. unfold alloc. only_steps. Qed.
Lemma plain_deref p : plain (deref p).
Proof. unfold deref. only_steps. Qed.
Lemma plain_incref p : plain (incref p).
Proof. unfold incref. only_steps. Qed.
Lemma plain_decref p : plain (decref p).
Proof.
  unfold decref. only_steps. match goal with |- only _ (destroy_object ?o) => destruct o end;
    cbn [destroy_object]; unfold udp_dtor; only_steps.
Qed.
Hint Resolve plain_alloc plain_deref plain_incref plain_decref : only.
Lemma plain_reset : plain reset_listening.
Proof. unfold reset_listening. only_steps. Qed.
Hint Resolve plain_reset : only.
Lemma plain_create_connection urls : plain (create_connection urls).
Proof.
  unfold create_connection, create_srt_connection, create_group_connection, is_listening, listening_srt, listening_group,
    listening_object, assign_listening, udp_ctor. only_steps.
Qed.
Hint Resolve plain_create_connection : only.
Lemma plain_parse_urls urls : plain (parse_urls urls).
Proof. induction urls as [|u urls IH]; cbn [parse_urls]; only_steps; done. Qed.
Lemma plain_open_stats cfg : plain (open_stats cfg).
Proof. unfold open_stats. only_steps. Qed.
Hint Resolve plain_parse_urls plain_open_stats : only.

Lemma plain_socket_read o n timeout : plain (sock_read (as_isocket o) n timeout).
Proof. destruct o; cbn; only_steps. Qed.
Lemma plain_socket_write o data timeout : plain (sock_write (as_isocket o) data timeout).
Proof. destruct o; cbn; only_steps. Qed.
Hint Resolve plain_socket_read plain_socket_write : only.

(** The runner, for a processing function that is given a socket of the program. *)
Lemma plain_common_run fuel urls cfg reconnect closeListener f :
  (forall o, plain (f (as_isocket o))) -> plain (common_run fuel urls cfg reconnect closeListener f).
Proof.
  intros Hf. unfold common_run, run_round, use_connection, pace_step. only_steps; try apply Hf.
Qed.

(** ** The commands *)
Lemma plain_generate fuel pipe_fuel urls cfg : plain (Generate.run fuel pipe_fuel urls cfg).
Proof.
  apply plain_common_run. intros o.
  unfold Generate.run_pipe, Generate.make_pacer, Generate.pipe_round, Generate.send_message, Generate.report,
    Generate.next_round. only_steps.
Qed.
Lemma plain_receive fuel pipe_fuel urls cfg : plain (Receive.run fuel pipe_fuel urls cfg).
Proof.
  apply plain_common_run. intros o.
  unfold Receive.runPipe, Receive.start_metrics, Receive.read_round, Receive.process_message. only_steps.
Qed.
Lemma plain_route_pair fuel cfg a b : plain (Route.route fuel cfg (as_isocket a) (as_isocket b)).
Proof. unfold Route.route, Route.route_round. only_steps. Qed.
Hint Resolve plain_route_pair : only.
Lemma plain_route fuel srcs dsts cfg : plain (Route.run fuel srcs dsts cfg).
Proof.
  unfold Route.run, Route.route_sockets, Route.route_both, Route.open_connection, create_connection1,
    Route.take_listening, Route.release. only_steps.
Qed.

Lemma plain_send_files fuel cfg d filenames buf :
  plain (FileSend.send_files fuel cfg (SrtSocket.srt_socket d) filenames buf).
Proof.
  revert buf. induction filenames as [|f fs IH]; intros buf; cbn [FileSend.send_files]; [only_steps|].
  unfold FileSend.sendFile, FileSend.send_round, FileSend.write_retry. only_steps; try apply IH. all: apply plain_write.
Qed.
Lemma plain_transfer ut start : (forall c, plain (start c)) -> plain (FileSend.transfer ut start).
Proof.
  intros Hs. unfold FileSend.transfer, SrtSocket.async_accept, SrtSocket.async_connect. only_steps; apply Hs.
Qed.
Lemma plain_file_send fuel dst cfg : plain (FileSend.run fuel dst cfg).
Proof.
  unfold FileSend.run, FileSend.readDirectory, FileSend.read_directory_round. only_steps.
  apply plain_transfer. intros c. unfold FileSend.startFileSender, FileSend.new_buffer, FileSend.drain_round.
  only_steps; apply plain_send_files.
Qed.
Lemma plain_file_receive fuel src cfg : plain (FileReceive.run fuel src cfg).
Proof.
  unfold FileReceive.run. apply only_bind; [only_steps|]. intros ut. apply plain_transfer. intros c.
  unfold FileReceive.startFileReceiver, FileSend.new_buffer, FileReceive.receiveFiles, FileReceive.receive_round,
    FileReceive.store_message, FileReceive.open_target, FileReceive.store_data, FileReceive.createSubfolders,
    FileReceive.folder_round, FileReceive.createFolder, FileReceive.of_close, FileReceive.of_open,
    FileReceive.of_write, FileReceive.of_destroy.
  only_steps. apply plain_read.
Qed.
End runner.

(** ** The forward command *)
Section forward.
Context `{Build} {W : Type} `{Env W}.
Import SrtNode Forward.

Lemma only_with_local P {S A} (s : S) (m : io (W * S) A) : only P m -> only P (with_local s m).
Proof.
  intros Hm w. pose proof (Hm (w, s)) as Hw. unfold wp, with_local in *. by destruct (m (w, s)) as [[o t] [w' s']].
Qed.
Lemma only_on P first {A} (m : io (W * SrtNode) A) : only P m -> only P (on first m).
Proof.
  intros Hm [w [n1 n2]]. unfold wp, on. destruct first; [pose proof (Hm (w, n1)) as Hw|pose proof (Hm (w, n2)) as Hw];
    unfold wp in Hw; by destruct (m _) as [[o t] [w' n']].
Qed.
Lemma plain_attempt n : only (W:=W * SrtNode) command_call (receive_attempt n tt).
Proof. unfold receive_attempt, forget. only_steps. Qed.
Lemma plain_establish caller n : only (W:=W * SrtNode) command_call (EstablishConnection caller n).
Proof. unfold EstablishConnection, ConfigurePre, connect_caller, bind_listener. only_steps. Qed.
Lemma plain_accepting fuel : only (W:=W * SrtNode) command_call (AcceptingThread fuel).
Proof. unfold AcceptingThread, accept_round, AcceptNewClient, ConfigureAcceptedSocket. only_steps. Qed.
Lemma plain_wait fuel ms : only (W:=W * SrtNode) command_call (WaitUndelivered fuel ms).
Proof. unfold WaitUndelivered, GetBindSocket, undelivered_round. only_steps. Qed.
Lemma plain_node_destroy : only (W:=W * SrtNode) command_call destroy.
Proof. unfold destroy. only_steps. Qed.

Lemma plain_thread_step cfg src dstSock st : only (W:=W * nodes) command_call (thread_step cfg src dstSock st).
Proof.
  unfold thread_step, Close, Send_to. destruct st; only_steps; try apply only_on;
    try apply plain_attempt; only_steps.
Qed.
Lemma plain_threads cfg sockDst sockSrc schedule a b :
  only (W:=W * nodes) command_call (run_threads cfg sockDst sockSrc schedule a b).
Proof.
  revert a b. induction schedule as [|[] schedule IH]; intros a b; cbn [run_threads]; only_steps;
    (apply plain_thread_step || apply IH).
Qed.
Lemma plain_forward_nodes fuel cfg schedule : only (W:=W * nodes) command_call (forward_nodes fuel cfg schedule).
Proof.
  unfold forward_nodes, GetBindSocket, Connect, Listen. only_steps; try apply plain_threads; try apply only_on;
    try (apply plain_establish || apply plain_accepting || apply plain_wait); only_steps.
Qed.

Lemma node_create cfg uri isCaller : only (W:=W) node_call (createNode cfg uri isCaller).
Proof.
  unfold createNode, node_of_uri. only_steps; eapply only_weaken; try apply plain_node; only_steps.
Qed.
(** forward starts the library again for its nodes, and releases nothing. *)
Lemma node_forward fuel src dst cfg schedules : only (W:=W) node_call (Forward.run fuel src dst cfg schedules).
Proof.
  unfold Forward.run, run_step. apply only_loop. intros ss. apply only_bind; [by apply only_invoke|]. intros [].
  { only_steps. }
  apply only_bind; [|intros ?; only_steps]. unfold startForwarding. apply only_bind; [apply node_create|]. intros d.
  apply only_bind.
  - apply only_on_throw; [apply node_create|]. apply only_with_local. eapply only_weaken; [apply plain_node|].
    apply plain_node_destroy.
  - intros s. apply only_with_local. eapply only_weaken; [apply plain_node|]. apply only_finally; [apply plain_forward_nodes|].
    apply only_bind; [|intros ?]; apply only_on, plain_node_destroy.
Qed.
End forward.
End Lifecycle.
