(* ===== verification/App.v ===== *)
(** * The application (srtdatacontroller-app.cpp)

    main reads the command line, brings up the network libraries, runs the command
    that was named, and releases the libraries. Tokenizer splits the command line
    into options and texts. What the options do with the texts is modelled below for
    the ones of the application, with the parsers of LogSupport, and in Options for
    the ones of the commands. *)

From Stdlib Require Import ZArith Lia Ascii String.
From stdpp Require Import prelude strings list sorting.
From S2P Require Import Prelude Sys Logic Socket LogSupport Cli SrtSocket Misc Generate Receive Route FileSend FileReceive Forward Lifecycle ConfigFile Options Tokenizer.

Module App.
Local Open Scope string_scope.
Local Open Scope list_scope.
Local Open Scope Z_scope.

(** ** Descriptions and log levels *)

(** [SRT_MAKE_VERSION(major, minor, patch)]. *)
Definition srt_make_version (major minor patch : Z) : Z := patch + minor * 256 + major * 65536.

(** [revmap[key] = v] on a std::map with integer keys, which stays sorted. *)
Fixpoint ins {A} (key : Z) (v : A) (m : list (Z * A)) : list (Z * A) :=
  match m with
  | [] => [(key, v)]
  | (k, x) :: m' =>
      if key <? k then (key, v) :: m
      else if key =? k then (key, v) :: m'
      else (k, x) :: ins key v m'
  end.

Definition revmap : list (Z * string) := foldl (fun m e => ins e.2 e.1 m) [] LogSupport.SrtLogFAList.

Definition endl : string := of_chars [ascii_of_nat 10].

(** The areas, in the order of their numbers, a line for every ten. *)
Fixpoint fa_lines (en10 : Z) (entries : list (Z * string)) : string :=
  match entries with
  | [] => ""
  | (fa, name) :: entries' =>
      let ten := Z.quot fa 10 in
      " " +:+ name +:+ (if negb (ten =? en10) then endl else "") +:+
      fa_lines (if negb (ten =? en10) then ten else en10) entries'
  end.

(** [version] is SRT_VERSION_VALUE, which the build of the SRT library sets. *)
Definition create_srt_logfa_description (version : Z) : string :=
  if srt_make_version 1 4 2 <=? version then
    "SRT log functional areas: [" +:+ fa_lines 0 revmap +:+ " ]"
  else "[see SRT docs for SRT prior to v1.4.2]".

Section options.
Context {W : Type} `{Env W}.

Definition clock_names : list (Z * string) :=
  [(0, "CXX11_STEADY"); (1, "GETTIME_MONOTONIC"); (2, "WIN_QPC"); (3, "MACH_ABSTIME");
   (4, "POSIX_GETTIMEOFDAY")].
Definition srt_clock_type_str (version : Z) : io W string :=
  if srt_make_version 1 4 3 <=? version then
    let! clock_type := invoke srt_clock_type in
    ret (default "UNKNOWN VALUE" (snd <$> list_find (fun e => e.1 = clock_type) clock_names ≫= fun x => Some x.2))
  else ret "[n/a prior to v1.4.3]".

(** The levels of spdlog. *)
Inductive spdlog_level := trace | debug | info | warn | err | critical | off.

Definition level_of (lev : Z) : option spdlog_level :=
  if lev =? LogSupport.LOG_CRIT then Some critical
  else if lev =? LogSupport.LOG_ERR then Some err
  else if lev =? LogSupport.LOG_WARNING then Some warn
  else if lev =? LogSupport.LOG_NOTICE then Some info
  else if lev =? LogSupport.LOG_DEBUG then Some trace
  else None.

(** What the options of the application set: the level of spdlog and Verbose::on. *)
Record logging := mk_logging { log_level : spdlog_level; verbose_on : bool }.

Definition on_loglevel (val : list string) : io (W * logging) bool :=
  match val with
  | [] => undefined "val[0] of an empty vector"
  | v :: _ =>
      let lev := LogSupport.SrtParseLogLevel v in
      do! invoke (srt_setloglevel lev) in
      let! g := get in
      do! put (mk_logging (default (log_level g) (level_of lev)) (verbose_on g)) in ret true
  end.
Definition on_logfa (val : list string) : io (W * logging) bool :=
  match val with
  | [] => undefined "val[0] of an empty vector"
  | v :: _ =>
      match LogSupport.SrtParseLogFA v with
      | None => throw (StdOutOfRange "basic_string::substr")
      | Some (fas, _) =>
          do! invoke srt_resetlogfa in
          do! for_each (fun fa => do! invoke (srt_addlogfa fa) in ret tt) fas in ret true
      end
  end.

Definition OVERFLOW : string := "signed integer overflow".

(** A flag with a function: the function gets the sum of what the texts stand for.
    A text that stands for nothing leaves CLI11 as an exception of the library. *)
Fixpoint sum_flag_vector (flags : list string) (count : Z) : io (W * logging) Z :=
  match flags with
  | [] => ret count
  | flag :: flags' =>
      match Cli.to_flag_value flag with
      | CNum.StoOk v =>
          if (CInt.LONG_MIN <=? count + v) && (count + v <=? CInt.LONG_MAX)
          then sum_flag_vector flags' (count + v) else undefined OVERFLOW
      | CNum.StoInvalid => throw (StdInvalidArgument "stoll")
      | CNum.StoRange => throw (StdOutOfRange "stoll")
      end
  end.
Definition flag_function (function : Z -> io (W * logging) unit) (res : list string)
  : io (W * logging) bool :=
  let! flag_count := sum_flag_vector res 0 in do! function flag_count in ret true.

(** Neither function looks at the count. *)
Definition on_verbose (_ : Z) : io (W * logging) unit := put (mk_logging trace true).
Definition SIGINT : Z := 2.
Definition SIGTERM : Z := 15.
Definition on_handle_sigint (_ : Z) : io (W * logging) unit :=
  do! invoke (std_signal SIGINT) in do! invoke (std_signal SIGTERM) in ret tt.

(** An option of the application: the number of texts is checked, unless it takes
    all, then the callback runs. *)
Definition run_option (take_all : bool) (callback : list string -> io (W * logging) bool)
    (results : list string) : io (W * logging) (Cli.error + unit) :=
  if negb take_all && negb (bool_decide (length results = 1%nat)) then ret (inl Cli.ArgumentMismatch) else
  let! ok := callback results in ret (if ok : bool then inr tt else inl Cli.ConversionError).

Definition app_options : list (string * bool * (list string -> io (W * logging) bool)) :=
  [("--verbose,-v", true, flag_function on_verbose);
   ("--handle-sigint", true, flag_function on_handle_sigint);
   ("--loglevel", false, on_loglevel);
   ("--logfa", false, on_logfa)].

Fixpoint process_app (options : list (string * bool * (list string -> io (W * logging) bool)))
    (args : string -> list string) : io (W * logging) (Cli.error + unit) :=
  match options with
  | [] => ret (inr tt)
  | (name, take_all, callback) :: options' =>
      match args name with
      | [] => process_app options' args
      | results =>
          let! r := run_option take_all callback results in
          match r with
          | inl e => ret (inl e)
          | inr _ => process_app options' args
          end
      end
  end.

(** The callbacks that run while a configuration file is read. *)
Definition run_app (args : string -> list string) (key : string) : io (W * logging) (Cli.error + unit) :=
  match List.find (fun o => String.eqb o.1.1 key) app_options with
  | Some (_, take_all, callback) => run_option take_all callback (args key)
  | None => ret (inr tt)
  end.
Fixpoint run_ran (ran : list (option Options.command * string)) (m : Options.matches) (s : Options.settings)
    : io (W * logging) (Cli.error + Options.settings) :=
  match ran with
  | [] => ret (inr s)
  | (None, key) :: ran' =>
      let! r := run_app (Options.m_app m) key in
      match r with
      | inl e => ret (inl e)
      | inr _ => run_ran ran' m s
      end
  | (Some c, key) :: ran' =>
      match Options.run_one m c key s with
      | inl e => ret (inl e)
      | inr s' => run_ran ran' m s'
      end
  end.

(** The signal handler; the state is force_break. *)
Definition OnINT_ForceExit : io (W * bool) unit := do! put true in do! invoke srt_cleanup in ret tt.
End options.

(** ** main *)
Inductive subcommand :=
| CGenerate (dst_urls : list string) (cfg : Generate.config)
| CReceive (src_urls : list string) (cfg : Receive.config)
| CRoute (src_urls dst_urls : list string) (cfg : Route.config)
| CFileSend (dst : string) (cfg : FileSend.config)
| CFileReceive (src : string) (cfg : FileReceive.config)
| CForward (src dst : string) (cfg : Forward.config).


(** The command main runs: the first that was named, in the order of its tests. The
    file commands exist when ENABLE_FILE_TRANSFER is set. *)
Definition subcommand_of (s : Options.settings) (c : Options.command) : subcommand :=
  match c with
  | Options.CmdGenerate => CGenerate (Options.dst_urls s) (Options.cfg_generate s)
  | Options.CmdReceive => CReceive (Options.src_urls s) (Options.cfg_receive s)
  | Options.CmdRoute => CRoute (Options.src_urls s) (Options.dst_urls s) (Options.cfg_route s)
  | Options.CmdFileSend => CFileSend (Options.dst s) (Options.cfg_file_send s)
  | Options.CmdFileReceive => CFileReceive (Options.src s) (Options.cfg_file_recv s)
  | Options.CmdForward => CForward (Options.src s) (Options.dst s) (Options.cfg_forward s)
  end.
Definition chosen (ENABLE_FILE_TRANSFER : bool) (m : Options.matches) (s : Options.settings)
  : option subcommand :=
  subcommand_of s <$> List.find (Options.m_parsed m) (Options.commands ENABLE_FILE_TRANSFER).

Section main.
Context `{Build} {W : Type} `{Env W}.
Variables (fuel pipe_fuel : nat) (schedules : list (list bool)).

(** The heap of socket objects of the program stays as it is: forward keeps the
    sockets of its nodes in the nodes. *)
Definition beside_store {A} (m : io W A) : io (W * Misc.store) A := fun ws =>
  let '(o, t, w) := m ws.1 in (o, t, (w, ws.2)).

Definition run_command (c : subcommand) : io (W * Misc.store) unit :=
  match c with
  | CGenerate dst_urls cfg => Generate.run fuel pipe_fuel dst_urls cfg
  | CReceive src_urls cfg => Receive.run fuel pipe_fuel src_urls cfg
  | CRoute src_urls dst_urls cfg => Route.run fuel src_urls dst_urls cfg
  | CFileSend dst cfg => FileSend.run fuel dst cfg
  | CFileReceive src cfg => FileReceive.run fuel src cfg
  | CForward src dst cfg => beside_store (Forward.run fuel src dst cfg schedules)
  end.

Definition NetworkInit : io (W * Misc.store) unit :=
  let! ok := invoke SysInitializeNetwork in
  if negb ok then throw (StdRuntimeError "Can't initialize network!") else
  do! invoke srt_startup in ret tt.
Definition NetworkCleanup : io (W * Misc.store) unit :=
  do! invoke SysCleanupNetwork in do! invoke srt_cleanup in ret tt.

End main.

Section program.
Context `{Build} {W : Type} `{Env W}.

(** The files that can be read, with their texts: --config names one. *)
Variable files : string -> option string.

(** Why the command line is given up before the callbacks: the exceptions of
    std::stoll are no ParseErrors and leave main. *)
Definition stopped {A} (f : Options.failure) : io (W * logging) (Z + A) :=
  match f with
  | Options.Status status => ret (inl status)
  | Options.OutOfRange => throw (StdOutOfRange "stoll")
  | Options.Overflow => undefined OVERFLOW
  end.

(** CLI11_PARSE: the command line is split and the configuration file read, then
    come the options of the application, then the ones of the commands; the result
    is the exit status of a ParseError, or the command. *)
Definition parse (ENABLE_FILE_TRANSFER : bool) (argv : list string)
  : io (W * logging) (Z + option subcommand) :=
  match Tokenizer.tokenize ENABLE_FILE_TRANSFER files argv with
  | None => fun w => (NoFuel, [], w)
  | Some (inl f) => stopped f
  | Some (inr m) =>
      let! r := run_ran (Options.m_ran m) m Options.default_settings in
      match r, Options.m_stop m with
      | inl e, _ => ret (inl (Cli.exit_code e))
      | inr _, Some f => stopped f
      | inr s, None =>
          let! r := process_app app_options (Options.app_left m) in
          match r, Options.process_commands (Options.commands ENABLE_FILE_TRANSFER) m s with
          | inl e, _ | inr _, inl e => ret (inl (Cli.exit_code e))
          | inr _, inr s =>
              match Options.m_refused m with
              | Some status => ret (inl status)
              | None => ret (inr (chosen ENABLE_FILE_TRANSFER m s))
              end
          end
      end
  end.

(** main; the state is what the logging options set, and the heap of socket objects.
    [argv] leaves out the name of the program. An exception that leaves main ends
    the program; its destructors need not run. *)
Definition main (fuel pipe_fuel : nat) (schedules : list (list bool)) (version : Z)
    (ENABLE_FILE_TRANSFER : bool) (argv : list string) : io (W * logging * Misc.store) Z :=
  let! r := beside_store (do! srt_clock_type_str version in parse ENABLE_FILE_TRANSFER argv) in
  match r with
  | inl status => ret status
  | inr c =>
      do! NetworkInit in
      do! match c with
          | Some c => run_command fuel pipe_fuel schedules c
          | None => ret tt
          end in
      do! NetworkCleanup in ret 0
  end.
End program.

(** ** The options *)
Section options_proofs.
Context {W : Type} `{Env W}.


(** The help text of --loglevel offers info, which the switch has no case for. *)
Example info_keeps_level : level_of (LogSupport.SrtParseLogLevel "info") = None.
Proof. vm_compute. reflexivity. Qed.

Lemma on_logfa_calls v val (w : W * logging) :
  exists fas, StronglySorted Z.lt fas /\ (forall z, z ∈ fas <-> LogSupport.selects v z) /\
  wp (on_logfa (v :: val)) (fun o t _ =>
    o = Done true /\ map ev_call t = srt_resetlogfa :: map srt_addlogfa fas) w.
Proof.
  destruct (LogSupport.SrtParseLogFA_spec v) as (fas & E & Hs & Hz).
  exists fas. split; [done|]. split; [done|]. unfold on_logfa. rewrite E.
  apply wp_bind, wp_invoke. intros [] w1 _. wp_simpl. apply wp_bind.
  apply (wp_for_each _ _ (fun d t _ => map ev_call t = map srt_addlogfa d)); [done|..].
  - intros d t w2 Ht ->. wp_simpl. apply wp_ret. cbn. by rewrite app_nil_r, Ht.
  - intros d x l t w2 -> Ht. apply wp_bind, wp_invoke. intros [] w3 _. wp_simpl. apply wp_ret. wp_simpl.
    by rewrite !map_app, Ht.
Qed.

(** C7: --logfa cannot fail, whatever is written after it. It clears the areas of
    the library and then enables, once each and in ascending order, exactly the
    areas the text selects: for the word all every one but the general area, else
    those named by the non-empty fields between commas, letter case aside. *)
Theorem on_logfa_spec v val (w : W * logging) :
  exists fas, StronglySorted Z.lt fas /\ (forall z, z ∈ fas <-> LogSupport.selects v z) /\
  wp (on_logfa (v :: val)) (fun o t _ =>
    o = Done true /\ map ev_call t = srt_resetlogfa :: map srt_addlogfa fas) w.
Proof. apply on_logfa_calls. Qed.
End options_proofs.

(** --logfa all switches the general area off: the library's set is cleared
    first, and the parser leaves it out of the set. *)
Corollary logfa_all_drops_general {W} `{Env W} (w : W * logging) :
  wp (on_logfa ["all"]) (fun _ t _ =>
    srt_resetlogfa ∈ map ev_call t /\ srt_addlogfa 0 ∉ map ev_call t) w.
Proof.
  destruct (on_logfa_calls "all" [] w) as (fas & _ & Hz & Hwp). eapply wp_mono; [exact Hwp|].
  intros o t w1 [_ ->]. split; [by left|].
  intros [?|(z & [= <-] & Hin)%list_elem_of_fmap]%elem_of_cons; [done|].
  by apply LogSupport.all_skips_general, Hz.
Qed.

(** The line break of the description follows the first area of a new ten; the
    comment wants each ten on its own line. *)
Example description_lines :
  create_srt_logfa_description (srt_make_version 1 5 0) =
  "SRT log functional areas: [ general sockmgmt conn xtimer tsbpd rsrc haicrypt congest pfilter applog" +:+
  endl +:+ " api-ctrl que-ctrl epoll-upd api-recv" +:+ endl +:+
  " buf-recv que-recv chn-recv grp-recv api-send" +:+ endl +:+
  " buf-send que-send chn-send grp-send internal" +:+ endl +:+
  " que-mgmt chn-mgmt grp-mgmt epoll-api ]".
Proof. vm_compute. reflexivity. Qed.

(** ** The command line *)

(** What becomes of a command line: an exit status, or the command to run. *)
Definition single_texts : list string := ["--loglevel"; "--logfa"].
Definition app_error (key : string) (results : list string) : option Cli.error :=
  if bool_decide (key ∈ single_texts) && negb (bool_decide (length results = 1%nat))
  then Some Cli.ArgumentMismatch else None.
Definition app_verdict (args : string -> list string) : Cli.error + unit :=
  if bool_decide (length (args "--loglevel") <= 1 /\ length (args "--logfa") <= 1)%nat then inr tt
  else inl Cli.ArgumentMismatch.
Fixpoint ran_verdict (ran : list (option Options.command * string)) (m : Options.matches) (s : Options.settings)
    : Cli.error + Options.settings :=
  match ran with
  | [] => inr s
  | (None, key) :: ran' =>
      match app_error key (Options.m_app m key) with
      | Some e => inl e
      | None => ran_verdict ran' m s
      end
  | (Some c, key) :: ran' =>
      match Options.run_one m c key s with
      | inl e => inl e
      | inr s' => ran_verdict ran' m s'
      end
  end.
Definition stop_verdict {A} (f : Options.failure) : option (Z + A) :=
  match f with Options.Status status => Some (inl status) | _ => None end.
Definition line_verdict (enabled : bool) (m : Options.matches) : option (Z + option subcommand) :=
  match ran_verdict (Options.m_ran m) m Options.default_settings, Options.m_stop m with
  | inl e, _ => Some (inl (Cli.exit_code e))
  | inr _, Some f => stop_verdict f
  | inr s, None =>
      Some match app_verdict (Options.app_left m), Options.process_commands (Options.commands enabled) m s with
      | inl e, _ | inr _, inl e => inl (Cli.exit_code e)
      | inr _, inr s => from_option inl (inr (chosen enabled m s)) (Options.m_refused m)
      end
  end.
(** [None] where the line cannot be read to its end: a number that no int64 holds
    behind a negated flag. *)
Definition verdict (enabled : bool) (files : string -> option string) (argv : list string)
    : option (Z + option subcommand) :=
  match Tokenizer.tokenize enabled files argv with
  | Some (inl f) => stop_verdict f
  | Some (inr m) => line_verdict enabled m
  | None => None
  end.


Section setup.
Context {W : Type} `{Env W}.








End setup.

(** ** The program *)
Section session_proofs.
Context `{Build} {W : Type} `{Env W}.







End session_proofs.

Section main_proofs.
Context `{Build} {W : Type} `{Env W}.


End main_proofs.

(** ** A run of the program *)

(** The generate command against a listener that takes every message. *)
Definition example_state : unit * logging * Misc.store :=
  (tt, mk_logging info false, Misc.mk_store [] None).
Definition example_main (argv : list string) :=
  main (H := SrtSocket.example_build) (W := unit) (H0 := SrtSocket.example_srt_env) Tokenizer.no_files 4 4 []
    (srt_make_version 1 5 0) true argv example_state.
Example generate_main_run :
  let '(o, _, ws) := example_main ["--loglevel=error"; "generate"; "srt://example:4200"; "--num"; "2"] in
  o = Done 0 /\ ws.1.2 = mk_logging err false.
Proof. vm_compute. by split. Qed.

(** --verbose=false switches verbose output on, and --verbose=maybe leaves the
    program with an exception of the standard library. *)
Example verbose_false :
  let '(o, _, ws) := example_main ["generate"; "srt://example:4200"; "--num=2"; "--verbose=false"] in
  o = Done 0 /\ ws.1.2 = mk_logging trace true.
Proof. vm_compute. by split. Qed.
Example verbose_maybe :
  let '(o, t, _) := example_main ["--verbose=maybe"] in
  o = Throw (StdInvalidArgument "stoll") /\ calls t = [srt_clock_type].
Proof. vm_compute. by split. Qed.

(** A configuration file: its callbacks run first, it does not name the command, and
    an unknown name in it ends the program before --version is looked at. *)
Definition config_files (name : string) : option string :=
  if String.eqb name "ok" then Some (ConfigFile.file ["loglevel=error"; "[generate]"; "num=2"; "twoway=yes"])
  else if String.eqb name "bad" then Some (ConfigFile.file ["logfa=all"; "nothing=1"])
  else if String.eqb name "number" then Some (ConfigFile.file ["[generate]"; "num=[1,2]"; "nothing"])
  else None.
Example config_file_run :
  let main := main (H := SrtSocket.example_build) (W := unit) (H0 := SrtSocket.example_srt_env) config_files 4 4 []
    (srt_make_version 1 5 0) true in
  (let '(o, t, ws) := main ["generate"; "srt://example:4200"; "--config=ok"] example_state in
   o = Done 0 /\ ws.1.2 = mk_logging err false) /\
  (let '(o, t, ws) := main ["--config=bad"; "--version"] example_state in o = Done 110 /\ calls t !! 1%nat = Some srt_resetlogfa) /\
  verdict true config_files ["--config=number"; "generate"] = Some (inl 114) /\
  verdict true config_files ["--config=ok"] = Some (inl 106) /\
  verdict true config_files ["--config=missing"; "--help"] = Some (inl 0).
Proof.
  vm_compute. by repeat split.
Qed.

(** A value that does not fit ends with a status of CLI11. *)
Example number_refused : verdict true Tokenizer.no_files ["generate"; "--num=3000000000"] = Some (inl 104).
Proof. vm_compute. reflexivity. Qed.
(** Of two file commands on one line the first of main's tests is run. *)
Example one_file_command :
  verdict true Tokenizer.no_files ["file"; "receive"; "srt://c:2"; "d"; "send"; "a"; "srt://b:1"] =
  Some (inr (Some (CFileSend "srt://b:1" (FileSend.mk_config "a" (1456 * 1000) false 0 "" "csv")))).
Proof. vm_compute. reflexivity. Qed.
End App.
