(* ===== verification/CommandLine.v ===== *)
(** * Configurations written down and read back

    The command line, or the command line and the configuration file, that make the
    program run generate with a given configuration, and the proof that they do:
    from the arguments of main through the splitting of the command line, the
    reading of the file and the callbacks of the options to the command that is
    run. *)

From Stdlib Require Import ZArith Lia Ascii String SpecFloat.
From stdpp Require Import prelude strings list.
From S2P Require Import Prelude Cli ConfigFile Generate Options Tokenizer App.

Module CommandLine.
Local Open Scope string_scope.
Local Open Scope list_scope.
Local Open Scope Z_scope.

(** ** Loss rates *)

(** A text for the loss rate that a text stands for: without the blanks in front,
    and written out when it is empty. *)
Definition loss_text (loss : string) : string :=
  let l := Cli.ltrim (chars loss) in if bool_decide (l = []) then "0" else of_chars l.

Abbreviation texty := (Forall (fun c => ConfigFile.text_char c = true)).
Lemma digit_texty base ds : Forall (Cli.is_digit base) ds -> texty ds.
Proof.
  intros H. eapply Forall_impl; [exact H|]. intros c (d & Hd & _). clear -Hd. by destruct c as [[] [] [] [] [] [] [] []].
Qed.
Lemma lower_texty l : texty (CStr.tolower <$> l) -> texty l.
Proof.
  intros H%Forall_fmap. eapply Forall_impl; [exact H|]. intros c Hc. cbn in Hc. clear -Hc.
  by destruct c as [[] [] [] [] [] [] [] []].
Qed.
Lemma exponent_texty l e : Cli.exponent l = Some e -> texty l.
Proof.
  unfold Cli.exponent. destruct (CNum.sign_of l) as [neg sg] eqn:Hs.
  apply Cli.sign_of_split in Hs as (sign & l2 & -> & Hsign & <-). rewrite drop_app_length.
  destruct (CNum.digits 10 l2 0 0) as [v n] eqn:Hd. apply Cli.digits_worth in Hd as (ds & rest & -> & -> & Hds%digit_texty & _).
  rewrite Nat.add_0_r, <- drop_drop, drop_app_length. destruct (bool_decide (length ds <> 0%nat)); [|done]. case_bool_decide as E; [|done].
  rewrite drop_app_length in E. subst rest. intros _. rewrite app_nil_r. apply Forall_app. split; [|done].
  destruct Hsign as [->|[-> _]]; [destruct neg|]; by repeat constructor.
Qed.
Lemma literal_texty base letter l r :
  (forall c, CStr.tolower c = letter -> ConfigFile.text_char c = true) -> Cli.literal base letter l = Some r -> texty l.
Proof.
  intros Hletter. unfold Cli.literal. destruct (CNum.digits base l 0 0) as [v n] eqn:Hd.
  apply Cli.digits_worth in Hd as (ds & rest & -> & -> & Hds%digit_texty & _). rewrite Nat.add_0_r, drop_app_length.
  set (three := match rest with
    | "."%char :: r => let '(v2, m) := CNum.digits base r v 0 in (v2, m, drop m r)
    | _ => (v, 0%nat, rest)
    end).
  assert (exists v2 m front l2, three = (v2, m, l2) /\ rest = front ++ l2 /\ texty front) as (v2 & m & front & l2 & -> & -> & Hfront).
  { subst three. destruct (decide (head rest = Some "."%char)) as [Hdot|Hn].
    - destruct rest as [|c r']; [done|]. injection Hdot as ->.
      destruct (CNum.digits base r' v 0) as [v2 m] eqn:Hd. apply Cli.digits_worth in Hd as (ds' & rest & -> & -> & Hds'%digit_texty & _).
      rewrite Nat.add_0_r, drop_app_length. exists v2, (length ds'), ("."%char :: ds'), rest. repeat split. by constructor.
    - exists v, 0%nat, [], rest. split; [|done]. destruct rest as [|c rest]; [done|].
      destruct (decide (c = "."%char)) as [->|]; [by destruct Hn|]. by destruct c as [[] [] [] [] [] [] [] []]. }
  case_bool_decide; [done|]. intros E. rewrite !Forall_app. split; [done|]. split; [done|].
  destruct l2 as [|c l2]; [done|]. case_bool_decide as Hc; [|done]. destruct (Cli.exponent l2) as [e|] eqn:He; [|done].
  constructor; [by apply Hletter|by eapply exponent_texty].
Qed.
Lemma nan_texty l : Cli.is_nan l = true -> texty l.
Proof.
  unfold Cli.is_nan. intros [Ht%bool_decide_eq_true Hr]%andb_true_iff. rewrite <- (take_drop 3 l), Ht. apply Forall_app.
  split; [by repeat constructor|]. destruct (drop 3 l) as [|c r]; [done|].
  destruct (decide (c = "("%char)) as [->|Hc]; [|by destruct c as [[] [] [] [] [] [] [] []]]. constructor; [done|].
  rewrite <- (rev_involutive r). destruct (rev r) as [|c r']; [done|].
  destruct (decide (c = ")"%char)) as [->|Hc]; [|by destruct c as [[] [] [] [] [] [] [] []]]. apply Forall_rev. constructor; [done|].
  apply Forall_forall. intros c Hin%list_elem_of_In. rewrite forallb_forall in Hr. specialize (Hr c Hin). clear -Hr.
  by destruct c as [[] [] [] [] [] [] [] []].
Qed.
Lemma strtold_texty l x : Cli.strtold l = Some x -> texty (Cli.ltrim l).
Proof.
  unfold Cli.strtold. fold (Cli.ltrim l). destruct (CNum.sign_of (Cli.ltrim l)) as [neg sg] eqn:Hs.
  apply Cli.sign_of_split in Hs as (sign & l2 & -> & Hsign & <-). rewrite drop_app_length. intros E.
  apply Forall_app. split; [destruct Hsign as [->|[-> _]]; [destruct neg|]; by repeat constructor|]. apply lower_texty.
  revert E. generalize (CStr.tolower <$> l2) as l3. clear. intros l.
  case_bool_decide as Hi; [destruct Hi as [->| ->]; by repeat constructor|].
  destruct (Cli.is_nan l) eqn:Hn; [by intros _; apply nan_texty|].
  case_bool_decide as Hx.
  - destruct (Cli.literal 16 "p" (drop 2 l)) as [r|] eqn:E; [|done]. intros _. rewrite <- (take_drop 2 l), Hx. apply Forall_app.
    split; [by repeat constructor|]. eapply literal_texty; [|exact E]. intros c Hc. clear -Hc. by destruct c as [[] [] [] [] [] [] [] []].
  - destruct (Cli.literal 10 "e" l) as [r|] eqn:E; [|done]. intros _.
    eapply literal_texty; [|exact E]. intros c Hc. clear -Hc. by destruct c as [[] [] [] [] [] [] [] []].
Qed.
Lemma ltrim_ltrim l : Cli.ltrim (Cli.ltrim l) = Cli.ltrim l.
Proof.
  unfold Cli.ltrim. unfold CNum.spaces at 2 3 4. destruct (CStr.index_where _ l) as [i|] eqn:E; cbn [from_option id].
  - apply CStr.index_where_Some in E as (a & c & b & -> & <- & Hc & _). rewrite drop_app_length.
    unfold CNum.spaces. cbn [CStr.index_where]. by rewrite Hc.
  - by rewrite (drop_ge l (length l)) by done.
Qed.
Lemma no_nul s : CStr.size (CStr.c_str s) = CStr.size s -> zero ∉ chars s.
Proof.
  intros E. pose proof (CStr.c_str_no_nul s) as Hz. unfold CStr.size in E.
  assert (exists k, chars (CStr.c_str s) = take k (chars s)) as [k Hk]
    by (unfold CStr.c_str; rewrite CStr.chars_of_chars; eauto).
  rewrite Hk in E, Hz. rewrite length_take in E. by rewrite take_ge in Hz by lia.
Qed.
(** The text stands for the same value, and a configuration file can hold it. *)
Lemma loss_text_spec loss x : Cli.double_assign loss = Some x ->
  Cli.double_assign (loss_text loss) = Some x /\ ConfigFile.plain ConfigFile.text_char (loss_text loss) = true.
Proof.
  unfold Cli.double_assign, loss_text. destruct (String.eqb_spec loss "") as [->|Hne].
  { intros [= <-]. by vm_compute. }
  case_bool_decide as Hz; [|done]. destruct (Cli.strtold (chars loss)) as [y|] eqn:E; [|done]. intros [= <-].
  pose proof (strtold_texty _ _ E) as Ht. destruct (decide (Cli.ltrim (chars loss) = [])) as [Hb|Hb].
  { exfalso. unfold Cli.strtold in E. fold (Cli.ltrim (chars loss)) in E. rewrite Hb in E. by vm_compute in E. }
  rewrite bool_decide_eq_false_2 by done. set (s := of_chars _).
  assert (chars s = Cli.ltrim (chars loss)) as Hs by apply CStr.chars_of_chars.
  assert (String.eqb s "" = false) as Hs0.
  { apply String.eqb_neq. intros Es. apply Hb. by rewrite <- Hs, Es. }
  split.
  - rewrite Hs0, bool_decide_eq_true_2.
    + rewrite Hs. unfold Cli.strtold in E |- *. fold (Cli.ltrim (Cli.ltrim (chars loss))). fold (Cli.ltrim (chars loss)) in E.
      by rewrite ltrim_ltrim, E.
    + rewrite Cli.c_str_id; [done|]. rewrite Hs. intros Hin. apply (no_nul _ Hz). unfold Cli.ltrim in Hin.
      rewrite <- (take_drop (CNum.spaces (chars loss)) (chars loss)). apply elem_of_app. by right.
  - unfold ConfigFile.plain. rewrite Hs0, Hs. cbn [negb andb]. apply forallb_forall. intros c Hc%list_elem_of_In.
    rewrite Forall_forall in Ht. by apply Ht.
Qed.

Definition generate_values (size rate num dur : Z) (loss : string) (two rec close : bool) : list (string * string) :=
  [("msgsize", CNum.to_string size); ("sendrate", CNum.to_string rate); ("num", CNum.to_string num);
   ("duration", CNum.to_string dur); ("lossrate", loss_text loss); ("twoway", Cli.bool_text two); ("reconnect", Cli.bool_text rec);
   ("close-listener", Cli.bool_text close)].
Definition generate_line (urls : list string) (size rate num dur : Z) (loss : string) (two rec close : bool) : list string :=
  Tokenizer.path Options.CmdGenerate ++
  map Tokenizer.spell (((fun u => ("output", u)) <$> urls) ++ generate_values size rate num dur loss two rec close).
(** A destination that is one text: not empty, and not a list in brackets. *)
Definition plain_text (u : string) : bool :=
  negb (String.eqb u "") && negb (bool_decide (head (chars u) = Some "["%char /\ last (chars u) = Some "]"%char)).

Definition generate_texts (urls : list string) (es : list (string * string)) (key : string) : list string :=
  (if String.eqb key "-o,--output,dst" then urls else []) ++
  Tokenizer.texts_for (Tokenizer.Cmd Options.CmdGenerate) key es.
Lemma generate_texts_spec urls es key :
  Tokenizer.texts_for (Tokenizer.Cmd Options.CmdGenerate) key (((fun u => ("output", u)) <$> urls) ++ es) =
  generate_texts urls es key.
Proof.
  unfold generate_texts. assert (Happ : forall es', Tokenizer.texts_for (Tokenizer.Cmd Options.CmdGenerate) key (es' ++ es) =
    Tokenizer.texts_for (Tokenizer.Cmd Options.CmdGenerate) key es' ++ Tokenizer.texts_for (Tokenizer.Cmd Options.CmdGenerate) key es)
    by (intros es'; apply bind_app).
  rewrite Happ. f_equal. unfold Tokenizer.texts_for.
  assert (Tokenizer.named (Tokenizer.Cmd Options.CmdGenerate) "output" =
    Some (Tokenizer.mk_declared "-o,--output,dst" Cli.Many ["o"] ["output"] "dst" [])) as Hn by (vm_compute; reflexivity).
  induction urls as [|u urls IH]; cbn [fmap list_fmap mbind list_bind]; [by case_match|].
  cbn [fst snd]. rewrite Hn, IH. cbn [Tokenizer.d_key]. by destruct (String.eqb key _).
Qed.
Lemma generate_texts_values urls a b c d l e f g :
  let texts := generate_texts urls [("msgsize", a); ("sendrate", b); ("num", c); ("duration", d); ("lossrate", l); ("twoway", e);
                 ("reconnect", f); ("close-listener", g)] in
  Cli.opt_name <$> Options.generate_options =
    ["-o,--output,dst"; "--msgsize"; "--sendrate"; "--num"; "--duration"; "--twoway"; "--reconnect,!--no-reconnect";
     "--close-listener,!--no-close-listener"; "--lossrate"] /\
  texts "-o,--output,dst" = urls /\ texts "--msgsize" = [a] /\ texts "--sendrate" = [b] /\ texts "--num" = [c] /\
  texts "--duration" = [d] /\ texts "--twoway" = [e] /\ texts "--reconnect,!--no-reconnect" = [f] /\
  texts "--close-listener,!--no-close-listener" = [g] /\ texts "--lossrate" = [l].
Proof.
  cbv zeta. split; [reflexivity|]. split; [etransitivity; [|apply app_nil_r]; vm_compute; reflexivity|].
  repeat split; vm_compute; reflexivity.
Qed.

Definition generate_config (size rate num dur : Z) (lossrate : spec_float) (two rec close : bool) : Generate.config :=
  let c := Options.default_generate in
  Generate.mk_config (Generate.stats_cfg c) rate num dur size two rec close (Generate.enable_metrics c)
    (Generate.spin_wait c) (Generate.playback_csv c) lossrate.
Lemma run_loss {C} name (set : spec_float -> C -> C) loss x c :
  Cli.double_assign loss = Some x -> Cli.opt_run (Cli.double_option name set) [loss_text loss] c = inr (set x c).
Proof. intros [Hx _]%loss_text_spec. cbn. by rewrite Hx. Qed.

Lemma generate_callbacks texts urls size rate num dur loss x two rec close s :
  CInt.in_int size = true -> CInt.in_int rate = true -> CInt.in_int num = true -> CInt.in_int dur = true ->
  Cli.double_assign loss = Some x -> urls <> [] -> Z.of_nat (length urls) <= 2 ^ 29 ->
  texts = generate_texts urls (generate_values size rate num dur loss two rec close) ->
  Options.cfg_generate s = Options.default_generate ->
  Cli.process_callbacks Options.generate_options texts s =
  inr (Options.set_generate (generate_config size rate num dur x two rec close) (Options.set_dst_urls urls s)).
Proof.
  intros Hs Hr Hn Hd Hx Hu Hl -> Hc. unfold generate_values.
  destruct (generate_texts_values urls (CNum.to_string size) (CNum.to_string rate) (CNum.to_string num) (CNum.to_string dur)
    (loss_text loss) (Cli.bool_text two) (Cli.bool_text rec) (Cli.bool_text close)) as (_ & E1 & E2 & E3 & E4 & E5 & E6 & E7 & E8 & E9).
  unfold Options.generate_options. cbn [Cli.process_callbacks].
  cbn [Cli.opt_name Cli.strings_option Cli.int_option Cli.unit_option Cli.value Cli.flag_option Cli.double_option].
  rewrite E1, E2, E3, E4, E5, E6, E7, E8, E9. destruct urls as [|u urls]; [by destruct Hu|].
  rewrite Cli.run_strings by done. rewrite Cli.run_int by done. rewrite Cli.run_unit by done. rewrite Cli.run_int by done.
  rewrite Cli.run_unit by done. rewrite !Cli.run_flag, (run_loss _ _ _ x) by done. destruct s. cbn in Hc. subst. reflexivity.
Qed.

Ltac eval_named :=
  match goal with |- context [Tokenizer.named ?n ?name] =>
    let o := eval vm_compute in (Tokenizer.named n name) in change (Tokenizer.named n name) with o
  end.
Lemma output_assigns u : plain_text u = true -> Tokenizer.assigns (Tokenizer.Cmd Options.CmdGenerate) ("output", u) = true.
Proof.
  unfold plain_text, Tokenizer.assigns. cbn [fst snd]. eval_named. cbn [Tokenizer.d_key Tokenizer.d_kind].
  rewrite (bool_decide_eq_true_2 (_ <> _ /\ _)) by (split; discriminate). intros [-> ->]%andb_true_iff. done.
Qed.
Lemma generate_values_assign size rate num dur loss x two rec close :
  Cli.double_assign loss = Some x ->
  Forall (fun e => Tokenizer.assigns (Tokenizer.Cmd Options.CmdGenerate) e = true)
    (generate_values size rate num dur loss two rec close).
Proof.
  intros [_ [Hl%negb_true_iff _]%andb_true_iff]%loss_text_spec.
  assert (Ht : forall z, String.eqb (CNum.to_string z) "" = false)
    by (intros z; apply String.eqb_neq, Cli.to_string_nonempty).
  unfold generate_values. repeat (apply Forall_cons; split); [..|by constructor].
  1-5: unfold Tokenizer.assigns; cbn [fst snd]; eval_named; cbn [Tokenizer.d_key Tokenizer.d_kind];
    by rewrite ?Ht, ?Hl, (bool_decide_eq_true_2 (_ /\ _)) by (split; discriminate).
  - by destruct two.
  - by destruct rec.
  - by destruct close.
Qed.

(** The verdict, from what the splitting has to give: the texts, and the callbacks
    that a configuration file has run. *)
Definition numbers : list string := ["--msgsize"; "--sendrate"; "--num"; "--duration"; "--lossrate"].
Definition split_as (m : Options.matches) (ran : list string) (texts : string -> list string) : Prop :=
  Options.m_ran m = (fun key => (Some Options.CmdGenerate, key)) <$> ran /\ Options.m_stop m = None /\
  Options.m_refused m = None /\ (forall c, Options.m_parsed m c = bool_decide (c = Options.CmdGenerate)) /\
  App.app_verdict (Options.app_left m) = inr tt /\
  forall c key, Options.m_sub m c key = if bool_decide (c = Options.CmdGenerate) then texts key else [].

Lemma sub_left_as m ran texts c key : split_as m ran texts ->
  Options.sub_left m c key =
  if bool_decide (c = Options.CmdGenerate) then if existsb (String.eqb key) ran then [] else texts key else [].
Proof.
  intros (Hran & _ & _ & _ & _ & Hsub). unfold Options.sub_left, Options.has_run. rewrite Hran, Hsub.
  destruct (decide (c = Options.CmdGenerate)) as [->|Hc].
  - rewrite (bool_decide_eq_true_2 (Options.CmdGenerate = _)) by done.
    destruct (existsb (String.eqb key) ran) eqn:E.
    + apply existsb_exists in E as (x & Hx & <-%String.eqb_eq). rewrite bool_decide_eq_true_2; [done|].
      by apply list_elem_of_fmap_2, list_elem_of_In.
    + rewrite bool_decide_eq_false_2; [done|]. intros (x & [= <-] & Hx)%list_elem_of_fmap.
      assert (existsb (String.eqb key) ran = true) as E'; [|congruence].
      apply existsb_exists. exists key. by rewrite String.eqb_refl, <- list_elem_of_In.
  - rewrite (bool_decide_eq_false_2 (c = _)) by done. by destruct (bool_decide _).
Qed.

Lemma verdict_as en m ran texts s s' :
  split_as m ran texts -> App.ran_verdict (Options.m_ran m) m Options.default_settings = inr s ->
  Cli.process_callbacks Options.generate_options (fun key => if existsb (String.eqb key) ran then [] else texts key) s = inr s' ->
  App.line_verdict en m = Some (inr (Some (App.subcommand_of s' Options.CmdGenerate))).
Proof.
  intros Hm Hran Hcb. pose proof (fun c key => sub_left_as m ran texts c key Hm) as Hleft. destruct Hm as (Hr & Hstop & Href & Hparsed & Hargs & Hsub).
  unfold App.line_verdict. rewrite Hran, Hstop, Hargs, Href.
  assert (Hnone : forall c options s, c <> Options.CmdGenerate ->
    Cli.process_callbacks (C:=Options.settings) options (Options.sub_left m c) s = inr s).
  { intros c options s0 Hc. rewrite (Cli.process_callbacks_ext _ _ (fun _ => [])); [apply Cli.process_callbacks_none|].
    intros key. by rewrite Hleft, bool_decide_eq_false_2. }
  assert (Options.process_commands (Options.commands en) m s = inr s') as ->.
  { unfold Options.commands. cbn [app Options.process_commands Options.options_of].
    rewrite (Cli.process_callbacks_ext _ (Options.sub_left m Options.CmdGenerate) (fun key => if existsb (String.eqb key) ran then [] else texts key))
      by (intros key; by rewrite Hleft, bool_decide_eq_true_2).
    rewrite Hcb, !Hnone by done. destruct en; [|done]. cbn [Options.process_commands Options.options_of]. by rewrite !Hnone by done. }
  cbn [from_option]. unfold App.chosen, Options.commands. cbn [app List.find]. by rewrite Hparsed.
Qed.

(** Both ways to write the values down. *)
Definition generate_outputs (urls : list string) : list (string * string) := (fun u => ("output", u)) <$> urls.
Lemma outputs_assign urls : Forall (fun u => plain_text u = true) urls ->
  Forall (fun e => Tokenizer.assigns (Tokenizer.Cmd Options.CmdGenerate) e = true) (generate_outputs urls).
Proof. intros Hp. apply Forall_fmap. eapply Forall_impl; [exact Hp|]. apply output_assigns. Qed.

Lemma line_as en files urls size rate num dur loss x two rec close :
  Cli.double_assign loss = Some x -> Forall (fun u => plain_text u = true) urls ->
  exists m, Tokenizer.tokenize en files (generate_line urls size rate num dur loss two rec close) = Some (inr m) /\
    split_as m [] (generate_texts urls (generate_values size rate num dur loss two rec close)).
Proof.
  intros Hx Hp. destruct (Tokenizer.tokenize_line en files Options.CmdGenerate
    (generate_outputs urls ++ generate_values size rate num dur loss two rec close) ltac:(by left))
    as (m & Ht & Hran & Hstop & Href & Hparsed & Happ & Hsub).
  { apply Forall_app; split; [by apply outputs_assign|by eapply generate_values_assign]. }
  exists m. split; [exact Ht|]. repeat split; [done..| |].
  - unfold App.app_verdict, Options.app_left. rewrite !Happ. by repeat case_match.
  - intros c key. rewrite Hsub. by rewrite <- generate_texts_spec.
Qed.

(** The file holds the values, the command line the destinations. *)
Definition generate_file (size rate num dur : Z) (loss : string) (two rec close : bool) : string :=
  ConfigFile.section_file "generate" (generate_values size rate num dur loss two rec close).
Definition generate_with_file (f : string) (urls : list string) : list string :=
  Tokenizer.spell ("config", f) :: Tokenizer.path Options.CmdGenerate ++ map Tokenizer.spell (generate_outputs urls).

Lemma number_plain z : ConfigFile.plain ConfigFile.text_char (CNum.to_string z) = true.
Proof.
  unfold ConfigFile.plain. apply andb_true_iff. split.
  { apply negb_true_iff, String.eqb_neq, Cli.to_string_nonempty. }
  destruct (Cli.to_string_spec z) as (ds & -> & HF & _). rewrite forallb_app. apply andb_true_iff. split; [by destruct (z <? 0)|].
  apply forallb_forall. intros c Hc%list_elem_of_In. rewrite Forall_forall in HF. specialize (HF c Hc).
  clear -HF. by destruct c as [[] [] [] [] [] [] [] []].
Qed.
Lemma values_plain size rate num dur loss x two rec close :
  Cli.double_assign loss = Some x ->
  Forall (fun e => ConfigFile.plain_assignment e = true) (generate_values size rate num dur loss two rec close).
Proof.
  intros [_ Hl]%loss_text_spec.
  unfold generate_values. repeat (apply Forall_cons; split); [..|by constructor];
    unfold ConfigFile.plain_assignment; cbn [fst snd]; rewrite ?number_plain, ?Hl; [done..|by destruct two|by destruct rec|by destruct close].
Qed.
Lemma file_as en files f urls size rate num dur loss x two rec close :
  Cli.double_assign loss = Some x -> f <> "" -> files f = Some (generate_file size rate num dur loss two rec close) -> Forall (fun u => plain_text u = true) urls ->
  exists m, Tokenizer.tokenize en files (generate_with_file f urls) = Some (inr m) /\
    split_as m numbers (generate_texts urls (generate_values size rate num dur loss two rec close)).
Proof.
  intros Hx Hf Hfile Hp. destruct (Tokenizer.tokenize_config en files Options.CmdGenerate f (generate_outputs urls)
    (generate_values size rate num dur loss two rec close) ltac:(by left) Hf Hfile)
    as (m & Ht & Hran & Hstop & Href & Hparsed & Happ & Hsub);
    [by apply outputs_assign|by eapply generate_values_assign|by eapply values_plain| | |].
  - change (NoDup (numbers ++ ["--twoway"; "--reconnect,!--no-reconnect"; "--close-listener,!--no-close-listener"])).
    by apply (bool_decide_eq_true_1 _), eq_refl.
  - assert (Hout : forall key, key ∈ Tokenizer.key_of (Tokenizer.Cmd Options.CmdGenerate) <$> generate_outputs urls -> key = "-o,--output,dst").
    { unfold generate_outputs. rewrite <- list_fmap_compose. intros key (u & -> & _)%list_elem_of_fmap. by vm_compute. }
    unfold generate_values. repeat (apply Forall_cons; split; [by intros Hk%Hout|]). by constructor.
  - exists m. split; [exact Ht|]. repeat split; [by rewrite Hran|done..| |].
    + unfold App.app_verdict, Options.app_left. rewrite !Happ. by repeat case_match.
    + intros c key. rewrite Hsub. by rewrite <- generate_texts_spec.
Qed.

Definition with_numbers (size rate num dur : Z) (x : spec_float) : Options.settings :=
  Options.set_generate (generate_config size rate num dur x
    (Generate.two_way Options.default_generate) (Generate.reconnect Options.default_generate)
    (Generate.close_listener Options.default_generate)) Options.default_settings.
Lemma file_callbacks m urls size rate num dur loss x two rec close :
  CInt.in_int size = true -> CInt.in_int rate = true -> CInt.in_int num = true -> CInt.in_int dur = true ->
  Cli.double_assign loss = Some x ->
  split_as m numbers (generate_texts urls (generate_values size rate num dur loss two rec close)) ->
  App.ran_verdict (Options.m_ran m) m Options.default_settings = inr (with_numbers size rate num dur x).
Proof.
  intros Hs Hr Hn Hd Hx (Hran & _ & _ & _ & _ & Hsub). rewrite Hran. unfold generate_values in Hsub.
  destruct (generate_texts_values urls (CNum.to_string size) (CNum.to_string rate) (CNum.to_string num) (CNum.to_string dur)
    (loss_text loss) (Cli.bool_text two) (Cli.bool_text rec) (Cli.bool_text close)) as (_ & _ & E2 & E3 & E4 & E5 & _ & _ & _ & E9).
  assert (Hone : forall key text o s, generate_texts urls [("msgsize", CNum.to_string size); ("sendrate", CNum.to_string rate);
      ("num", CNum.to_string num); ("duration", CNum.to_string dur); ("lossrate", loss_text loss); ("twoway", Cli.bool_text two); ("reconnect", Cli.bool_text rec);
      ("close-listener", Cli.bool_text close)] key = [text] ->
    List.find (fun o => String.eqb (Cli.opt_name o) key) Options.generate_options = Some o ->
    Options.run_one m Options.CmdGenerate key s = Cli.opt_run o [text] s).
  { intros key text o s Ht Ho. unfold Options.run_one. cbn [Options.options_of]. rewrite Ho, Hsub, bool_decide_eq_true_2 by done.
    by rewrite Ht. }
  unfold numbers. cbn [fmap list_fmap App.ran_verdict].
  rewrite (Hone _ _ _ _ E2 eq_refl), Cli.run_int by done. rewrite (Hone _ _ _ _ E3 eq_refl), Cli.run_unit by done.
  rewrite (Hone _ _ _ _ E4 eq_refl), Cli.run_int by done. rewrite (Hone _ _ _ _ E5 eq_refl), Cli.run_unit by done.
  rewrite (Hone _ _ _ _ E9 eq_refl), (run_loss _ _ _ x) by done.
  reflexivity.
Qed.
Lemma left_callbacks urls size rate num dur loss x two rec close :
  urls <> [] -> Z.of_nat (length urls) <= 2 ^ 29 ->
  Cli.process_callbacks Options.generate_options
    (fun key => if existsb (String.eqb key) numbers then [] else
                generate_texts urls (generate_values size rate num dur loss two rec close) key) (with_numbers size rate num dur x) =
  inr (Options.set_generate (generate_config size rate num dur x two rec close) (Options.set_dst_urls urls Options.default_settings)).
Proof.
  intros Hu Hl. unfold generate_values.
  destruct (generate_texts_values urls (CNum.to_string size) (CNum.to_string rate) (CNum.to_string num) (CNum.to_string dur)
    (loss_text loss) (Cli.bool_text two) (Cli.bool_text rec) (Cli.bool_text close)) as (_ & E1 & _ & _ & _ & _ & E6 & E7 & E8 & _).
  unfold Options.generate_options.
  cbn [Cli.process_callbacks Cli.opt_name Cli.strings_option Cli.int_option Cli.unit_option Cli.value Cli.flag_option Cli.double_option
    numbers existsb String.eqb Ascii.eqb Bool.eqb orb].
  rewrite E1, E6, E7, E8. destruct urls as [|u urls]; [by destruct Hu|].
  rewrite Cli.run_strings by done. rewrite !Cli.run_flag. reflexivity.
Qed.

(** C8: configurations of generate can be written down and are read back exactly.
    Any four ints, any three switches and any loss rate that some text stands for can
    be given, with any number of destinations that are neither empty nor a list in
    brackets, which CLI11 takes apart. Printed on the command line, the words are
    generate, one destination after the other, and the values of the options; the
    program then runs generate with these destinations in this order and this
    configuration, the rest of it, for which there are no options, being the
    defaults. It runs the same when the values stand in the section of a
    configuration file that --config names. *)
Theorem generate_read_back en files f urls size rate num dur loss x two rec close :
  CInt.in_int size = true -> CInt.in_int rate = true -> CInt.in_int num = true -> CInt.in_int dur = true ->
  Cli.double_assign loss = Some x ->
  urls <> [] -> Z.of_nat (length urls) <= 2 ^ 29 -> Forall (fun u => plain_text u = true) urls ->
  f <> "" -> files f = Some (generate_file size rate num dur loss two rec close) ->
  let run := Some (inr (Some (App.CGenerate urls (generate_config size rate num dur x two rec close)))) in
  App.verdict en files (generate_line urls size rate num dur loss two rec close) = run /\
  App.verdict en files (generate_with_file f urls) = run.
Proof.
  intros Hs Hr Hn Hd Hx Hu Hl Hp Hf Hfile. cbv zeta. unfold App.verdict.
  set (s := Options.set_generate (generate_config size rate num dur x two rec close)
              (Options.set_dst_urls urls Options.default_settings)). split.
  - destruct (line_as en files urls size rate num dur loss x two rec close Hx Hp) as (m & -> & Hm).
    rewrite (verdict_as en m _ _ Options.default_settings s Hm); [reflexivity|destruct Hm as [-> _]; done|].
    by apply (generate_callbacks _ urls size rate num dur loss x two rec close).
  - destruct (file_as en files f urls size rate num dur loss x two rec close Hx Hf Hfile Hp) as (m & -> & Hm).
    rewrite (verdict_as en m _ _ _ s Hm (file_callbacks _ _ _ _ _ _ _ _ _ _ _ Hs Hr Hn Hd Hx Hm)
      (left_callbacks _ _ _ _ _ _ _ _ _ _ Hu Hl)). reflexivity.
Qed.
Definition example_loss : spec_float := S754_finite false 4503599627370496 (-51).
Definition example_files (name : string) : option string :=
  if String.eqb name "gen.toml" then Some (generate_file 1316 1000000 (-1) 60 " 2.0" true false true) else None.
Lemma generate_read_back_witness :
  let run := Some (inr (Some (App.CGenerate ["srt://a:1"; "[::1"] (generate_config 1316 1000000 (-1) 60 example_loss true false true)))) in
  App.verdict true example_files (generate_line ["srt://a:1"; "[::1"] 1316 1000000 (-1) 60 " 2.0" true false true) = run /\
  App.verdict true example_files (generate_with_file "gen.toml" ["srt://a:1"; "[::1"]) = run.
Proof.
  apply (generate_read_back true example_files "gen.toml" ["srt://a:1"; "[::1"] 1316 1000000 (-1) 60 " 2.0" example_loss true false true);
    try (vm_compute; reflexivity); [discriminate|done|by repeat constructor|discriminate].
Defined.
Example generate_line_text :
  generate_line ["srt://a:1"] 1316 1000000 (-1) 60 " 0.5" true false true =
  ["generate"; "--output=srt://a:1"; "--msgsize=1316"; "--sendrate=1000000"; "--num=-1"; "--duration=60";
   "--lossrate=0.5"; "--twoway=true"; "--reconnect=false"; "--close-listener=true"] /\
  generate_with_file "gen.toml" ["srt://a:1"] = ["--config=gen.toml"; "generate"; "--output=srt://a:1"].
Proof. by vm_compute. Qed.
End CommandLine.
